(* ===== verification/_CoqProject ===== *)
-Q . S2P
Prelude.v
GoStd.v
Decimal.v
GoCrypto.v
Bip322.v
Script.v
Utils.v
Json.v
Model.v
History.v
Swap.v
CommitJson.v
Indexer.v
CondApprove.v
Ledger.v
EarlyErrors.v
LedgerSpec.v
LedgerFrame.v
LedgerRep.v
LedgerProof.v
Samples.v
LedgerRun.v
Modules.v
Commit.v
PreVerify.v
SignedText.v
CherryPick.v
CommitFlow.v
Parents.v
MainLoop.v
Tables.v
Save.v
Load.v
Driver.v
Service.v
Query.v
PairNames.v
SwapProof.v
Relate.v
ModuleAcc.v
CopySim.v
CopyFunctions.v
ModuleSteps.v
ModuleProof.v
ModulePools.v
SwapEffect.v
ModuleOps.v
ModuleBooks.v
ModuleHandlers.v
PreVerifyProof.v
CopyCommit.v
Checked.v
CommitBooks.v
LoopSpec.v
LoopFrames.v
Tracking.v
LoopLedger.v
Marking.v
Heights.v
Recorded.v
Reload.v
Loaded.v
LoopRun.v
Consensus.v
DriverRun.v
Restart.v
Holders.v
LoopModules.v
CommitLife.v
ServiceProof.v
CommitLine.v
LoopSamples.v
Overdraw.v
Unnamed.v
DriverSamples.v
Restarts.v
CopySamples.v
ServiceSamples.v
QuerySamples.v
