(* ===== verification/Prelude.v ===== *)
(** * The BRC-20 indexer with its swap modules

    The program (src/modules/brc20_swap_index, in Go) reads the inscriptions and moves
    of the Bitcoin chain in order, keeps the BRC-20 ledger, runs the swap modules on
    top of it and answers queries.  Paths below are under
    src/modules/brc20_swap_index/lib/brc20_swap unless they start with service/,
    controller/ or model/brc20_swap.go, which are under src/modules/brc20_swap_index.

    ** Parts

    - The chain driver (Driver: service/brc20/brc20_swap.go, indexer/store.go) cuts the
      input into heights, hands each batch to the main loop, then saves the state and
      drops the records of the height.  A start of the service first loads the state and
      goes on after the last height in the database; at the end of the input the state
      is published to the service.
    - The database (Tables: brc20_init.sql; Save: loader/save_to_db.go; Load:
      loader/load_from_db.go; both with indexer/store.go) is a list of rows for each
      table.  After a height the rows that changed are appended, and loading takes the
      newest row of each key.
    - The main loop (MainLoop: indexer/indexer.go) gives each inscription and each move
      to a handler; errors are logged, panics end the program.
    - The ledger (Indexer, Ledger: indexer/init.go, brc20_deploy.go, brc20_mint.go,
      brc20_transfer.go) holds tickers, balances and live transfer inscriptions.
    - Modules (Modules, CondApprove: indexer/module_create.go, module_approve.go,
      module_withdraw.go, module_cond_approve.go, model/conditional_approve.go) hold
      what users moved to the address of the module.
    - Commits (Commit, PreVerify, CommitFlow: indexer/module_commit*.go) are lists of
      signed functions (make a pool, add or remove liquidity, swap, send, ...) a
      sequencer inscribes and then moves to the module.  A moved commit runs on a copy
      first (CherryPick: model/swap.go, indexer/init.go).
    - The service (Service: controller/brc20_module.go, service/brc20/brc20_swap_api.go)
      tells a sequencer whether a commit would be executed, and answers queries
      (Query: service/brc20/brc20_api.go, brc20_swap_api.go) from the published state.
    - Below these: data (Model, Swap: model/model.go, swap.go, module.go, conf/conf.go),
      amounts (Decimal: decimal/decimal.go), history records (History:
      model/history.go), scripts (Script: utils/script/compress.go), addresses and
      names (Utils: utils/utils.go, constant/constant.go), signatures (Bip322:
      utils/bip322/verify.go), JSON (Json, CommitJson).

    ** How the code is represented

    A Go function that can fail returns an [outcome]: a value, an error or a panic.  A
    method that changes the indexer or a module is a [GoM] computation over its state:
    on an error or a panic the state keeps what was written before it, as in Go.
    Objects reached through pointers (balances, ticker infos, transfer states) live in
    heaps of the state record and maps hold locations, so aliasing is kept; a nil
    pointer is a location without an object or [None].  [*big.Int] is [Z]; sized
    integers are [Z] with [u8], [u32], [u64], [i64] at the places the code converts.
    Go maps are [gmap]s; where the order of iteration can be seen it is a parameter
    ([MapOrder]).  Channels are the lists of what they deliver.  A time the code reads
    from the clock comes with the input.

    Parameters stand for code outside the repository: [Btcd] (transaction hashes, the
    script engine), [BtcAddr] and [BtcScripts] (addresses to scripts and back),
    [GoUnicode] (lower case outside ASCII).
    [Postgres] is what PostgreSQL and its driver do to a value in a column (it is read
    back as it was written, amounts with 18 decimals, or refused) and the order in which
    they give rows.  [Config] holds the values of conf.go that the environment sets; the
    results a test run can load ([GResultsExternal]) are the argument [external].
    GoStd, GoCrypto and Json define the parts of Go's standard library in use, SHA-256
    and the JSON scanner included.

    ** Fuel

    The JSON reader takes its fuel from the length of the text and the nesting limit;
    [json_parse] never runs out (Json), so no reader of a body panics for want of it
    ([Unmarshal_bodies_total], [GetEachItemLength_total]).  The VLQ reader has the ten
    bytes a 64-bit number can take.  The walk from a commit to its settled ancestors
    has no bound in the code; its fuel is an argument, and [unsettled_parents_ends_iff]
    says for which commits and within how many steps it ends.  All other recursion is
    structural.

    ** Theorems

    - Ledger: LedgerSpec is the specification, a map of tickers and a map of balances.
      LedgerFrame, LedgerRep and LedgerProof relate the state to it; each handler
      refines its specification and keeps the indexes in step, and for inputs in range
      does not panic (LedgerRun).  LoopSpec says what one input asks of the ledger and
      [ledger_after] what a chain of inputs makes of it.  LoopFrames shows what the other
      handlers leave alone, LoopLedger and LoopRun that the main loop computes exactly
      [ledger_after], with the conservation of supply and the exactness of the index, and
      DriverRun carries this to the published state.  Consensus: nodes that iterate maps,
      cut batches and check signatures differently have the same ledger.
    - Restarts: EarlyErrors, Tracking and Marking show that whatever the main loop
      changes of the ledger is marked with its height, Heights which transfers are live
      in the middle of one.  Recorded says what the tables hold of a state and that
      saving keeps it, Reload and Loaded what loading makes of it; Restart puts them
      together: the ledger survives a restart, but for the parent of a self mint and a
      maximum or limit written as zero.  The examples in Restarts run what else does not
      survive: the move of a transfer inscribed before the stop panics, and the first
      height can be handled twice.
    - Modules: ModuleAcc defines what a module holds of each ticker and the invariant
      of its maps; ModuleSteps, ModuleProof, ModulePools and ModuleOps follow each
      primitive, each commit function and the other operations; ModuleBooks,
      ModuleHandlers and CommitBooks lift this to the handlers, LoopModules to the
      main loop: modules are well formed, and solvent against the ledger.
      SwapProof is about prices, SwapEffect about the whole handler of a swap: the
      product of the reserves never falls, and an exact output is charged its price
      whatever the user has.  Overdraw runs such a swap, which leaves a balance below
      zero.  PairNames: a pool has one name.
    - Commits: Relate is a relational calculus for two runs; CopySim, CopyFunctions and
      CopyCommit show that a module and its copy take the same steps, so commits are
      atomic; CommitLife that a good commit is executed; CommitLine that the executed
      commits form one line; Checked and ServiceProof that a commit the service calls
      valid is executed, if its parent is settled (the example in Unnamed is one where
      the service is wrong otherwise); Parents is about the walk to the ancestors; PreVerifyProof and
      SignedText about what an accepted, signed function is.
    - Queries: Holders shows that the list of holders is complete, in one order, cut
      into pages without gaps, and adds up to what was minted.
    - Data: amounts and their texts (Decimal), history records (History), scripts and
      VLQs (Script), module addresses (Utils), bodies of inscriptions (Model,
      CommitJson, whose scan of a commit never pops its empty stack).
    - Samples, LoopSamples, CopySamples, DriverSamples, Restarts, ServiceSamples and
      QuerySamples run the definitions on a small chain and apply the theorems there.

    ** Hypotheses

    [item_ok]: numbers and scripts of an input are in range, scripts are small enough
    for the buffer of a history record, and an inscription has a key of its own.
    [move_ok]: nobody moves an inscription out of a module's address (it is an
    OP_RETURN output), and a commit with functions moves on the side of the withdraw
    height it was inscribed on and names the tickers of its pools in their one spelling.
    [Spelling]: what these spellings are, one for each ticker.  The code compares tickers
    as written: without this a module can account for more than its address holds.
    [in_order] and [plain_item], for restarts: the heights of the input do not go back,
    and a deployed supply or limit has no sign (the text is saved, not the number read
    from it).  Theorems on copies are below the withdraw
    height; above it [commit_lost_after_withdraw] shows what happens.

    ** Not modelled

    The text of the statements and the driver of the database.  The gob snapshot of
    indexer/store_into_data.go, the queries for tables only commented code uses, and
    DeepCopy, which nothing calls.  Readers of inputs and dumps in loader/, event export (event/event.go), the command,
    logging and cancellation.  The status list (GetBRC20Status), which sorts by a
    quotient of floats, and the controllers' checks of parameters; generated API
    documents.  The signing half of
    utils/bip322 and tests.  src/taproot-assets, src/ord and src/modules/runes_index are
    other programs kept in the repository. *)
From stdpp Require Export base tactics option list gmap strings fin_maps fin_sets.
From Stdlib Require Export ZArith Lia.
From Stdlib Require Import Ascii.

#[global] Open Scope Z_scope.
#[global] Set Default Goal Selector "!".

(** ** Outcomes of Go code

    A Go call either returns, returns a non-nil [error], or panics (nil map
    write, index out of range, [log.Panicf], division by zero, ...). *)
Inductive outcome (A : Type) : Type :=
  | Ret (a : A)
  | Error (msg : string)
  | Panic (why : string).
Arguments Ret {A} _.
Arguments Error {A} _.
Arguments Panic {A} _.

#[global] Instance outcome_ret : MRet outcome := @Ret.
#[global] Instance outcome_bind : MBind outcome := λ A B f m,
  match m with Ret a => f a | Error e => Error e | Panic p => Panic p end.
#[global] Instance outcome_fmap : FMap outcome := λ A B f m,
  match m with Ret a => Ret (f a) | Error e => Error e | Panic p => Panic p end.

(** [x, _ := f()]: the error is dropped and the zero value (nil) is used. *)
Definition ignore_err {A} (m : outcome A) : outcome (option A) :=
  match m with Ret a => Ret (Some a) | Error _ => Ret None | Panic p => Panic p end.

(** [if x, err := f(); err != nil { return E }] with another error text. *)
Definition or_error {A} (m : outcome A) (msg : string) : outcome A :=
  match m with Error _ => Error msg | _ => m end.

(** [m] returns or panics. *)
Definition no_error {A} (m : outcome A) : Prop := ∀ e, m ≠ Error e.
Lemma no_error_ret {A} (a : A) : no_error (Ret a).
Proof. done. Qed.
Lemma no_error_panic {A} why : no_error (@Panic A why).
Proof. done. Qed.
Lemma no_error_bind {A B} (m : outcome A) (k : A → outcome B) :
  no_error m → (∀ a, no_error (k a)) → no_error (m ≫= k).
Proof. intros Hm Hk e. destruct m as [a|e'|w]; [apply Hk|by destruct (Hm e')|done]. Qed.
Create HintDb noerr.
#[export] Hint Resolve no_error_ret no_error_panic no_error_bind : noerr.

(** Results of a chain of operations. *)
Lemma outcome_bind_inv {A B} (m : outcome A) (k : A → outcome B) b :
  (m ≫= k) = Ret b → ∃ a, m = Ret a ∧ k a = Ret b.
Proof. destruct m as [a| |]; [|done..]. simpl. eauto. Qed.
Lemma mapM_Forall2 {A B} (f : A → outcome B) l k : mapM f l = Ret k ↔ Forall2 (λ x y, f x = Ret y) l k.
Proof.
  revert k. induction l as [|x l IH]; intros k; simpl.
  - split; [intros [= <-]; constructor|]. by inversion 1.
  - split.
    + intros (y & Ey & (k' & Ek & [= <-])%outcome_bind_inv)%outcome_bind_inv. constructor; [done|by apply IH].
    + inversion 1 as [|? y ? k' Ey Hk]; subst. rewrite Ey. simpl. apply IH in Hk. by rewrite Hk.
Qed.

Definition is_ret {A} (m : outcome A) : bool :=
  match m with Ret _ => true | _ => false end.

(** ** State and outcome

    Methods with a pointer receiver mutate their object before they return an
    error, so the state survives an [Error]. *)
Definition GoM (S A : Type) : Type := S → outcome A * S.

#[global] Instance GoM_ret S : MRet (GoM S) := λ A a s, (Ret a, s).
#[global] Instance GoM_bind S : MBind (GoM S) := λ A B f m s,
  match m s with
  | (Ret a, s') => f a s'
  | (Error e, s') => (Error e, s')
  | (Panic p, s') => (Panic p, s')
  end.
#[global] Typeclasses Opaque GoM.

Definition lift {S A} (o : outcome A) : GoM S A := λ s, (o, s).
Definition get {S} : GoM S S := λ s, (Ret s, s).
Definition gets {S A} (f : S → A) : GoM S A := λ s, (Ret (f s), s).
Definition put {S} (s : S) : GoM S unit := λ _, (Ret tt, s).
Definition modify {S} (f : S → S) : GoM S unit := λ s, (Ret tt, f s).
Definition throw {S A} (msg : string) : GoM S A := λ s, (Error msg, s).
Definition gopanic {S A} (why : string) : GoM S A := λ s, (Panic why, s).
Definition run_state {S A} (m : GoM S A) (s : S) : S := (m s).2.
Definition run_outcome {S A} (m : GoM S A) (s : S) : outcome A := (m s).1.

(** [if err := m(); err != nil { ... } else { ... }]: the error is observed by
    the caller as a value; a panic is not. *)
Definition catch {S A} (m : GoM S A) : GoM S (A + string) := λ s,
  match m s with
  | (Ret a, s') => (Ret (inl a), s')
  | (Error e, s') => (Ret (inr e), s')
  | (Panic p, s') => (Panic p, s')
  end.

Definition when {S} (b : bool) (m : GoM S unit) : GoM S unit :=
  if b then m else mret tt.

(** A method call on a component object stored inside a larger state. *)
Definition zoom {S T A} (sel : S → T) (upd : T → S → S) (m : GoM T A) : GoM S A :=
  λ s, let '(o, t) := m (sel s) in (o, upd t s).

Fixpoint for_each {S A} (f : A → GoM S unit) (l : list A) : GoM S unit :=
  match l with
  | [] => mret tt
  | x :: l => f x ;; for_each f l
  end.

(** ** Specifications of stateful code *)
Definition spec {S A} (m : GoM S A) (s : S) (Q : outcome A → S → Prop) : Prop :=
  Q (m s).1 (m s).2.

Section spec.
Context {S : Type}.
Implicit Types s : S.

Lemma spec_ret {A} (a : A) s Q : Q (Ret a) s → spec (mret a) s Q.
Proof. done. Qed.
Lemma spec_lift {A} (o : outcome A) s Q : Q o s → spec (lift o) s Q.
Proof. done. Qed.
Lemma spec_get s (Q : outcome S → S → Prop) : Q (Ret s) s → spec get s Q.
Proof. done. Qed.
Lemma spec_gets {A} (f : S → A) s (Q : outcome A → S → Prop) :
  Q (Ret (f s)) s → spec (gets f) s Q.
Proof. done. Qed.
Lemma spec_put s s' Q : Q (Ret tt) s' → spec (put s') s Q.
Proof. done. Qed.
Lemma spec_modify f s Q : Q (Ret tt) (f s) → spec (modify f) s Q.
Proof. done. Qed.
Lemma spec_throw {A} e s (Q : outcome A → S → Prop) :
  Q (Error e) s → spec (throw e) s Q.
Proof. done. Qed.
Lemma spec_gopanic {A} p s (Q : outcome A → S → Prop) :
  Q (Panic p) s → spec (gopanic p) s Q.
Proof. done. Qed.

Definition bind_post {A B} (k : A → GoM S B) (Q : outcome B → S → Prop)
    (o : outcome A) (s : S) : Prop :=
  match o with
  | Ret a => spec (k a) s Q
  | Error e => Q (Error e) s
  | Panic p => Q (Panic p) s
  end.

Lemma spec_bind {A B} (m : GoM S A) (k : A → GoM S B) s Q :
  spec m s (bind_post k Q) → spec (m ≫= k) s Q.
Proof.
  unfold spec, bind_post, mbind, GoM_bind.
  by destruct (m s) as [[a|e|p] s'].
Qed.

Lemma spec_mono {A} (m : GoM S A) s (Q Q' : outcome A → S → Prop) :
  spec m s Q → (∀ o s', Q o s' → Q' o s') → spec m s Q'.
Proof. unfold spec. auto. Qed.

Lemma spec_and {A} (m : GoM S A) s (Q Q' : outcome A → S → Prop) :
  spec m s Q → spec m s Q' → spec m s (λ o s', Q o s' ∧ Q' o s').
Proof. unfold spec. auto. Qed.

(** An invariant kept on every outcome of [m] and of its continuation. *)
Lemma spec_bind_inv {A B} (m : GoM S A) (k : A → GoM S B) s (I : S → Prop) :
  spec m s (λ _ s', I s') → (∀ a s', I s' → spec (k a) s' (λ _ s'', I s'')) →
  spec (m ≫= k) s (λ _ s', I s').
Proof.
  intros Hm Hk. apply spec_bind. eapply spec_mono; [done|].
  intros [a|e|p] s' HI; simpl; auto.
Qed.

Lemma spec_for_each_inv {A} (f : A → GoM S unit) l s (I : S → Prop) :
  I s → (∀ x s', x ∈ l → I s' → spec (f x) s' (λ _ s'', I s'')) →
  spec (for_each f l) s (λ _ s', I s').
Proof.
  revert s. induction l as [|x l IH]; intros s HI Hf; [done|].
  apply spec_bind_inv; [apply Hf; [left|done]|].
  intros _ s' HI'. apply IH; [done|]. intros y s'' Hy. apply Hf. by right.
Qed.

Lemma spec_catch {A} (m : GoM S A) s (Q : outcome (A + string) → S → Prop) :
  spec m s (λ o s', match o with
                    | Ret a => Q (Ret (inl a)) s'
                    | Error e => Q (Ret (inr e)) s'
                    | Panic p => Q (Panic p) s' end) →
  spec (catch m) s Q.
Proof. unfold spec, catch. by destruct (m s) as [[a|e|p] s']. Qed.

Lemma spec_run {A} (m : GoM S A) s o s' (Q : outcome A → S → Prop) :
  spec m s Q → m s = (o, s') → Q o s'.
Proof. unfold spec. intros HQ Hm. by rewrite Hm in HQ. Qed.
End spec.

(** ** Runs that return *)
Definition returns {S A} (m : GoM S A) (s : S) (Q : A → S → Prop) : Prop :=
  ∃ a s', m s = (Ret a, s') ∧ Q a s'.

Section returns.
Context {S : Type}.
Implicit Types s : S.

Lemma returns_ret {A} (a : A) s (Q : A → S → Prop) : Q a s → returns (mret a) s Q.
Proof. intros. by exists a, s. Qed.
Lemma returns_lift {A} (o : outcome A) a s (Q : A → S → Prop) :
  o = Ret a → Q a s → returns (lift o) s Q.
Proof. intros -> ?. by exists a, s. Qed.
Lemma returns_get s (Q : S → S → Prop) : Q s s → returns get s Q.
Proof. intros. by exists s, s. Qed.
Lemma returns_gets {A} (f : S → A) s (Q : A → S → Prop) : Q (f s) s → returns (gets f) s Q.
Proof. intros. by exists (f s), s. Qed.
Lemma returns_modify f s (Q : unit → S → Prop) : Q tt (f s) → returns (modify f) s Q.
Proof. intros. by exists tt, (f s). Qed.
Lemma returns_bind {A B} (m : GoM S A) (k : A → GoM S B) s (Q : B → S → Prop) :
  returns m s (λ a s', returns (k a) s' Q) → returns (m ≫= k) s Q.
Proof.
  intros (a & s1 & Hm & b & s2 & Hk & HQ). exists b, s2.
  unfold mbind, GoM_bind. by rewrite Hm.
Qed.
Lemma returns_mono {A} (m : GoM S A) s (Q Q' : A → S → Prop) :
  returns m s Q → (∀ a s', Q a s' → Q' a s') → returns m s Q'.
Proof. intros (a & s1 & Hm & HQ) H. exists a, s1. auto. Qed.
Lemma returns_when (b : bool) (m : GoM S unit) s (Q : unit → S → Prop) :
  (b = true → returns m s Q) → (b = false → Q tt s) → returns (when b m) s Q.
Proof. destruct b; intros H1 H2; [by apply H1|by apply returns_ret, H2]. Qed.

Lemma spec_returns {A} (m : GoM S A) s (Q : outcome A → S → Prop) :
  returns m s (λ a s', Q (Ret a) s') → spec m s Q.
Proof. intros (a & s1 & Hm & HQ). unfold spec. by rewrite Hm. Qed.
Lemma spec_bind_returns {A B} (m : GoM S A) (k : A → GoM S B) s (Q : outcome B → S → Prop) :
  returns m s (λ a s', spec (k a) s' Q) → spec (m ≫= k) s Q.
Proof. intros H. by apply spec_bind, spec_returns. Qed.
End returns.

(** ** Runs that do not panic

    [Q] holds when [m] returns and [E] when it fails; a panic ends the process. *)
Definition holds {S A} (m : GoM S A) (s : S) (Q : A → S → Prop) (E : S → Prop) : Prop :=
  match m s with
  | (Ret a, s') => Q a s'
  | (Error _, s') => E s'
  | (Panic _, _) => True
  end.

Section holds.
Context {S : Type}.
Implicit Types (s : S) (E : S → Prop).

Lemma holds_ret {A} (a : A) s (Q : A → S → Prop) E : Q a s → holds (mret a) s Q E.
Proof. done. Qed.
Lemma holds_lift {A} (o : outcome A) s (Q : A → S → Prop) E :
  (∀ a, o = Ret a → Q a s) → (∀ e, o = Error e → E s) → holds (lift o) s Q E.
Proof. intros HQ HE. unfold holds, lift. destruct o; [by apply HQ|by eapply HE|done]. Qed.
Lemma holds_get s (Q : S → S → Prop) E : Q s s → holds get s Q E.
Proof. done. Qed.
Lemma holds_modify f s (Q : unit → S → Prop) E : Q tt (f s) → holds (modify f) s Q E.
Proof. done. Qed.
Lemma holds_throw {A} e s (Q : A → S → Prop) E : E s → holds (throw e) s Q E.
Proof. done. Qed.
Lemma holds_gopanic {A} e s (Q : A → S → Prop) E : holds (gopanic e) s Q E.
Proof. done. Qed.
Lemma holds_bind {A B} (m : GoM S A) (k : A → GoM S B) s (Q : B → S → Prop) E :
  holds m s (λ a s', holds (k a) s' Q E) E → holds (m ≫= k) s Q E.
Proof. unfold holds, mbind, GoM_bind. by destruct (m s) as [[a|e|p] s']. Qed.
Lemma holds_mono {A} (m : GoM S A) s (Q Q' : A → S → Prop) E E' :
  holds m s Q E → (∀ a s', Q a s' → Q' a s') → (∀ s', E s' → E' s') → holds m s Q' E'.
Proof. unfold holds. destruct (m s) as [[a|e|p] s']; auto. Qed.
Lemma holds_post {A} (m : GoM S A) s (Q Q' : A → S → Prop) E :
  holds m s Q E → (∀ a s', Q a s' → Q' a s') → holds m s Q' E.
Proof. intros Hm HQ. by eapply holds_mono. Qed.
Lemma holds_when (b : bool) (m : GoM S unit) s (Q : unit → S → Prop) E :
  (b = true → holds m s Q E) → (b = false → Q tt s) → holds (when b m) s Q E.
Proof. destruct b; intros H1 H2; [by apply H1|by apply holds_ret, H2]. Qed.
Lemma holds_catch {A} (m : GoM S A) s (Q : A + string → S → Prop) E :
  holds m s (λ a, Q (inl a)) (λ s', ∀ e, Q (inr e) s') → holds (catch m) s Q E.
Proof. unfold holds, catch. destruct (m s) as [[a|e|p] s']; auto. Qed.

(** A relation between the state before and after, kept by every step. *)
Lemma holds_for_each {A} (f : A → GoM S unit) (l : list A) s (P : S → Prop) :
  P s → (∀ x s', P s' → holds (f x) s' (λ _, P) P) → holds (for_each f l) s (λ _, P) P.
Proof.
  intros HP Hf. revert s HP. induction l as [|x l IH]; intros s HP; [done|].
  apply holds_bind. eapply holds_mono; [by apply Hf| |done]. intros [] s'. apply IH.
Qed.
Lemma holds_and {A} (m : GoM S A) s (Q1 Q2 : A → S → Prop) E1 E2 :
  holds m s Q1 E1 → holds m s Q2 E2 → holds m s (λ a s', Q1 a s' ∧ Q2 a s') (λ s', E1 s' ∧ E2 s').
Proof. unfold holds. by destruct (m s) as [[a|e|p] s']. Qed.
Lemma holds_spec {A} (m : GoM S A) s (P : S → Prop) : spec m s (λ _, P) → holds m s (λ _, P) P.
Proof. unfold spec, holds. by destruct (m s) as [[a|e|p] s']. Qed.
Lemma holds_returns {A} (m : GoM S A) s (Q : A → S → Prop) E : returns m s Q → holds m s Q E.
Proof. unfold returns, holds. intros (a & s' & Es & HQ). by rewrite Es. Qed.
Lemma holds_pure {A} (m : GoM S A) s (P : Prop) : P → holds m s (λ _ _, P) (λ _, True).
Proof. unfold holds. by destruct (m s) as [[a|e|p] s']. Qed.
(** Elements handled one after the other, with those handled so far. *)
Lemma holds_for_each_prefix {A} (f : A → GoM S unit) (P : list A → S → Prop) E past l s :
  P past s →
  (∀ done x s', P (past ++ done) s' → (done ++ [x]) `prefix_of` l →
     holds (f x) s' (λ _, P (past ++ done ++ [x])) E) →
  holds (for_each f l) s (λ _, P (past ++ l)) E.
Proof.
  revert past s. induction l as [|x l IH]; intros past s HP Hf.
  - apply holds_ret. by rewrite app_nil_r.
  - apply holds_bind. eapply holds_post.
    + apply (Hf [] x); [by rewrite app_nil_r|]. by exists l.
    + intros [] s' HP'. simpl in HP'. rewrite cons_middle, app_assoc. apply IH; [done|].
      intros l' y s'' HP'' Hpre. rewrite <-!app_assoc in *. apply (Hf (x :: l')); [done|].
      simpl. by apply prefix_cons.
Qed.
Lemma holds_run {A} (m : GoM S A) s a s' Q E : holds m s Q E → m s = (Ret a, s') → Q a s'.
Proof. unfold holds. intros Hm Es. by rewrite Es in Hm. Qed.
Lemma holds_run_error {A} (m : GoM S A) s e s' (Q : A → S → Prop) E :
  holds m s Q E → m s = (Error e, s') → E s'.
Proof. unfold holds. intros Hm Es. by rewrite Es in Hm. Qed.
End holds.

(** ** Operations that return or panic *)
Definition never_fails {S A} (m : GoM S A) : Prop := ∀ s, no_error (m s).1.
Section never_fails.
Context {S : Type}.
Lemma never_fails_ret {A} (a : A) : never_fails (S:=S) (mret a).
Proof. done. Qed.
Lemma never_fails_lift {A} (o : outcome A) : no_error o → never_fails (S:=S) (lift o).
Proof. intros Ho s. exact Ho. Qed.
Lemma never_fails_get : never_fails (S:=S) get.
Proof. done. Qed.
Lemma never_fails_modify (f : S → S) : never_fails (modify f).
Proof. done. Qed.
Lemma never_fails_gopanic {A} e : never_fails (@gopanic S A e).
Proof. done. Qed.
Lemma never_fails_bind {A B} (m : GoM S A) (k : A → GoM S B) :
  never_fails m → (∀ a, never_fails (k a)) → never_fails (m ≫= k).
Proof.
  intros Hm Hk s e. specialize (Hm s). unfold mbind, GoM_bind.
  destruct (m s) as [[a|e'|w] s']; simpl in *; [apply Hk|by destruct (Hm e')|done].
Qed.
Lemma holds_never_fails {A} (m : GoM S A) s (Q : A → S → Prop) (E E' : S → Prop) :
  never_fails m → holds m s Q E' → holds m s Q E.
Proof.
  intros Hm. specialize (Hm s). unfold holds. destruct (m s) as [[a|e|w] s']; [done|by destruct (Hm e)|done].
Qed.
End never_fails.
#[export] Hint Resolve never_fails_ret never_fails_lift never_fails_get never_fails_modify
  never_fails_gopanic never_fails_bind : noerr.

(** ** Relations kept by every step

    [R s s'] relates the states before and after, [I] is the invariant it implies. *)
Class Keep {S} (I : S → Prop) (R : S → S → Prop) : Prop := {
    keep_refl s : I s → R s s;
    keep_trans s1 s2 s3 : R s1 s2 → R s2 s3 → R s1 s3;
    keep_inv s s' : R s s' → I s';
  }.
Definition keeping {S A} (I : S → Prop) (R : S → S → Prop) (m : GoM S A) : Prop :=
  ∀ s, I s → holds m s (λ _, R s) (R s).

Section keeping.
Context {S : Type} (I : S → Prop) (R : S → S → Prop) `{!Keep I R}.

Lemma keeping_ret {A} (a : A) : keeping I R (mret a).
Proof. intros s Hs. change (R s s). by apply keep_refl. Qed.
Lemma keeping_throw {A} e : keeping I R (@throw S A e).
Proof. intros s Hs. change (R s s). by apply keep_refl. Qed.
Lemma keeping_gopanic {A} e : keeping I R (@gopanic S A e).
Proof. done. Qed.
Lemma keeping_lift {A} (o : outcome A) : keeping I R (lift o).
Proof. intros s Hs. apply holds_lift; intros ? _; by apply keep_refl. Qed.
Lemma keeping_get : keeping I R get.
Proof. intros s Hs. change (R s s). by apply keep_refl. Qed.
Lemma keeping_gets {A} (f : S → A) : keeping I R (gets f).
Proof. intros s Hs. change (R s s). by apply keep_refl. Qed.
Lemma keeping_modify f : (∀ s, I s → R s (f s)) → keeping I R (modify f).
Proof. intros Hf s Hs. by apply Hf. Qed.
Lemma keeping_bind {A B} (f : GoM S A) (k : A → GoM S B) :
  keeping I R f → (∀ a, keeping I R (k a)) → keeping I R (f ≫= k).
Proof.
  intros Hf Hk s Hs. apply holds_bind. eapply holds_post; [by apply Hf|]. intros a s1 Hc.
  eapply holds_mono; [apply Hk; exact (keep_inv _ _ Hc)|intros b s2 Hc2|intros s2 Hc2];
    exact (keep_trans _ _ _ Hc Hc2).
Qed.
(** What is read satisfies the invariant. *)
Lemma keeping_get_bind {B} (k : S → GoM S B) :
  (∀ s, I s → keeping I R (k s)) → keeping I R (get ≫= k).
Proof. intros Hk s Hs. apply holds_bind, holds_get. by apply Hk. Qed.
Lemma keeping_lift_bind {A B} (o : outcome A) (k : A → GoM S B) :
  (∀ a, o = Ret a → keeping I R (k a)) → keeping I R (lift o ≫= k).
Proof.
  intros Hk s Hs. apply holds_bind, holds_lift; [intros a Ea; by apply Hk|intros e _; by apply keep_refl].
Qed.
Lemma keeping_catch {A} (f : GoM S A) : keeping I R f → keeping I R (catch f).
Proof. intros Hf s Hs. apply holds_catch. eapply holds_mono; [by apply Hf|done|done]. Qed.
Lemma keeping_when b f : keeping I R f → keeping I R (when b f).
Proof. destruct b; [done|]. intros _. apply keeping_ret. Qed.
Lemma keeping_for_each {A} (f : A → GoM S unit) l :
  (∀ a, keeping I R (f a)) → keeping I R (for_each f l).
Proof.
  intros Hf. induction l as [|a l IH]; [apply keeping_ret|]. by apply keeping_bind.
Qed.
End keeping.
Create HintDb keeping.
#[export] Hint Extern 0 (Keep _ _) => apply _ : keeping.
#[export] Hint Resolve keeping_ret keeping_throw keeping_gopanic keeping_lift keeping_get keeping_gets
  keeping_bind keeping_catch keeping_when keeping_for_each : keeping.
(** Follow the structure of an operation down to its writes. *)
Ltac keeping :=
  repeat first
    [ progress intros
    | solve [eauto with keeping]
    | apply keeping_bind; [apply _|..]
    | apply keeping_when; [apply _|]
    | apply keeping_for_each; [apply _|]
    | case_match ].

(** ** Record updates [r <| f := v |>] *)
Class EtaRecord (R : Type) : Type := eta_record : R → R.
Class FieldUpdate {R T} (f : R → T) : Type := field_update : (T → T) → R → R.
Arguments field_update {R T} f {_} _ _ : simpl never.

Ltac solve_field_update :=
  lazymatch goal with
  | |- @FieldUpdate ?R ?T ?f =>
    let u := fresh "u" in
    let r := fresh "r" in
    intros u r;
    let eta := constr:(eta_record r) in
    let body := eval hnf in eta in
    lazymatch eval pattern (f r) in body with
    | ?F _ => let t := eval cbv beta in (F (u (f r))) in exact t
    end
  end.
#[global] Hint Extern 0 (FieldUpdate _) => solve_field_update : typeclass_instances.

Notation "r <| f := v |>" := (field_update f (λ _, v) r)
  (at level 12, left associativity, f at next level, v at level 200,
   format "r  <| f  :=  v |>").
Notation "r <| f ::= g |>" := (field_update f g r)
  (at level 12, left associativity, f at next level, g at level 200,
   format "r  <| f  ::=  g |>").

(** Compute projections of updated records. *)
Tactic Notation "rsimpl" := unfold field_update in *; cbn in *.
Tactic Notation "rsimpl" "in" ident(H) := unfold field_update in H; cbn in H.

(** ** Sums over finite maps *)
Definition msum {K A} `{Countable K} (f : K → A → Z) (m : gmap K A) : Z :=
  map_fold (λ k a acc, f k a + acc) 0 m.

Section msum.
Context {K A : Type} `{Countable K}.
Implicit Types (f g : K → A → Z) (m : gmap K A).

Lemma msum_empty f : msum f ∅ = 0.
Proof. apply map_fold_empty. Qed.

Lemma msum_insert_new f m k a :
  m !! k = None → msum f (<[k:=a]> m) = f k a + msum f m.
Proof.
  intros Hk. unfold msum. rewrite map_fold_insert_L; [done| |done].
  intros. lia.
Qed.

Lemma msum_delete f m k a :
  m !! k = Some a → msum f (delete k m) = msum f m - f k a.
Proof.
  intros Hk. rewrite <-(insert_delete_id m k a Hk) at 2.
  rewrite msum_insert_new by apply lookup_delete_eq. lia.
Qed.

Lemma msum_insert f m k a a' :
  m !! k = Some a → msum f (<[k:=a']> m) = msum f m - f k a + f k a'.
Proof.
  intros Hk. rewrite <-insert_delete_eq.
  rewrite msum_insert_new by apply lookup_delete_eq.
  rewrite (msum_delete _ _ _ _ Hk). lia.
Qed.

Lemma msum_ext f g m :
  (∀ k a, m !! k = Some a → f k a = g k a) → msum f m = msum g m.
Proof.
  induction m as [|k a m Hk IH] using map_ind; intros Hfg; [done|].
  rewrite !msum_insert_new by done.
  rewrite (Hfg k a) by (by rewrite lookup_insert_eq).
  rewrite IH; [done|]. intros j b Hj. apply Hfg.
  rewrite lookup_insert_ne; [done|]. congruence.
Qed.

Lemma msum_nonneg f m :
  (∀ k a, m !! k = Some a → 0 ≤ f k a) → 0 ≤ msum f m.
Proof.
  induction m as [|k a m Hk IH] using map_ind; intros Hf; [done|].
  rewrite msum_insert_new by done.
  pose proof (Hf k a (lookup_insert_eq _ _ _)).
  assert (0 ≤ msum f m); [|lia]. apply IH. intros j b Hj. apply Hf.
  rewrite lookup_insert_ne; [done|]. congruence.
Qed.

Lemma msum_ge_elem f m k a :
  (∀ k a, m !! k = Some a → 0 ≤ f k a) → m !! k = Some a → f k a ≤ msum f m.
Proof.
  intros Hf Hk. rewrite <-(insert_delete_id m k a Hk), msum_insert_new
    by apply lookup_delete_eq.
  assert (0 ≤ msum f (delete k m)); [|lia].
  apply msum_nonneg. intros j b [_ Hj]%lookup_delete_Some. eauto.
Qed.

(** Two sums that differ at one key only. *)
Lemma msum_point f g m k x :
  m !! k = Some x → (∀ j y, m !! j = Some y → j ≠ k → g j y = f j y) →
  msum g m = msum f m + (g k x - f k x).
Proof.
  intros Hk Hj. rewrite <-(insert_delete_id m k x Hk), !msum_insert_new by apply lookup_delete_eq.
  rewrite (msum_ext g f (delete k m)); [lia|].
  intros j y [Hne Hy]%lookup_delete_Some. by apply Hj.
Qed.

Lemma msum_zero f m :
  (∀ k a, m !! k = Some a → f k a = 0) → msum f m = 0.
Proof.
  intros Hf. rewrite (msum_ext _ (λ _ _, 0)) by done. clear Hf.
  induction m as [|k a m Hk IH] using map_ind; [done|].
  by rewrite msum_insert_new.
Qed.
End msum.

Lemma msum_fmap {K A B : Type} `{Countable K} (f : K → A → Z) (h : B → A) (m : gmap K B) :
  msum f (h <$> m) = msum (λ k b, f k (h b)) m.
Proof.
  induction m as [|k b m Hk IH] using map_ind; [by rewrite fmap_empty, !msum_empty|].
  rewrite fmap_insert, !msum_insert_new; [by rewrite IH|done|].
  by rewrite lookup_fmap, Hk.
Qed.
