(* ===== verification/GoStd.v ===== *)
(** * The part of Go's language and standard library the indexer uses

    Bytes and strings ([strings], [bytes], [encoding/hex]), decimal printing
    and parsing of integers ([fmt]'s [%d] and [%0*d], [big.Int.SetString],
    [strconv.ParseUint]), fixed-width conversions and little-endian words
    ([encoding/binary]), and the division and root of [math/big].  A Go
    [string] is a [string] of bytes; a [[]byte] is a [list ascii]. *)
From Stdlib Require Export Ascii.
From S2P Require Import Prelude.

Abbreviation bytes := (list ascii).

(** ** Bytes *)
Definition Z_of_byte (c : ascii) : Z := Z.of_N (N_of_ascii c).
Definition byte_of_Z (z : Z) : ascii := ascii_of_N (Z.to_N (z mod 256)).

Fixpoint s2b (s : string) : bytes :=
  match s with EmptyString => [] | String c s => c :: s2b s end.
Fixpoint b2s (l : bytes) : string :=
  match l with [] => EmptyString | c :: l => String c (b2s l) end.

Definition len (s : string) : Z := Z.of_nat (length (s2b s)).
Definition blen (l : bytes) : Z := Z.of_nat (length l).

Lemma Z_of_byte_range c : 0 ≤ Z_of_byte c < 256.
Proof.
  unfold Z_of_byte. pose proof (N_ascii_bounded c). lia.
Qed.
Lemma Z_of_byte_of_Z z : Z_of_byte (byte_of_Z z) = z mod 256.
Proof.
  unfold Z_of_byte, byte_of_Z. pose proof (Z.mod_pos_bound z 256).
  rewrite N_ascii_embedding by lia. lia.
Qed.
Lemma byte_of_Z_of_byte c : byte_of_Z (Z_of_byte c) = c.
Proof.
  unfold byte_of_Z. rewrite Z.mod_small by apply Z_of_byte_range.
  unfold Z_of_byte. rewrite N2Z.id. apply ascii_N_embedding.
Qed.
Lemma Z_of_byte_inj c d : Z_of_byte c = Z_of_byte d → c = d.
Proof. intros E. by rewrite <-(byte_of_Z_of_byte c), E, byte_of_Z_of_byte. Qed.

Lemma s2b_b2s l : s2b (b2s l) = l.
Proof. induction l; simpl; congruence. Qed.
Lemma b2s_s2b s : b2s (s2b s) = s.
Proof. induction s; simpl; congruence. Qed.
Lemma s2b_inj s t : s2b s = s2b t → s = t.
Proof. intros E. by rewrite <-(b2s_s2b s), E, b2s_s2b. Qed.
Lemma s2b_app s t : s2b (s +:+ t) = s2b s ++ s2b t.
Proof. induction s as [|c s IH]; [done|]. change (c :: s2b (s +:+ t) = c :: (s2b s ++ s2b t)). by rewrite IH. Qed.
Lemma b2s_app l k : b2s (l ++ k) = b2s l +:+ b2s k.
Proof. apply s2b_inj. by rewrite s2b_app, !s2b_b2s. Qed.
Lemma len_nonneg s : 0 ≤ len s.
Proof. unfold len. lia. Qed.
Lemma len_b2s l : len (b2s l) = blen l.
Proof. unfold len. by rewrite s2b_b2s. Qed.
#[global] Opaque len.

(** ** Comparison of Go strings, byte by byte *)
Fixpoint bytes_ltb (l k : bytes) : bool :=
  match l, k with
  | [], [] => false
  | [], _ :: _ => true
  | _ :: _, [] => false
  | a :: l, b :: k =>
    if Z_of_byte a <? Z_of_byte b then true
    else if Z_of_byte b <? Z_of_byte a then false else bytes_ltb l k
  end.
Definition string_ltb (s t : string) : bool := bytes_ltb (s2b s) (s2b t).

(** ** [strings] *)
Definition is_ascii_byte (c : ascii) : bool := Z_of_byte c <? 128.
Definition lower_byte (c : ascii) : ascii :=
  if (65 <=? Z_of_byte c) && (Z_of_byte c <=? 90) then byte_of_Z (Z_of_byte c + 32) else c.

(** [strings.ToLower] on a string with a byte outside ASCII follows the
    Unicode tables of the [unicode] package, which are generated data. *)
Class GoUnicode := { unicode_ToLower : string → string }.

Definition ToLower `{GoUnicode} (s : string) : string :=
  if forallb is_ascii_byte (s2b s) then b2s (map lower_byte (s2b s))
  else unicode_ToLower s.

Fixpoint has_prefix (p l : bytes) : bool :=
  match p, l with
  | [], _ => true
  | a :: p, b :: l => bool_decide (a = b) && has_prefix p l
  | _ :: _, [] => false
  end.
Definition HasPrefix (s p : string) : bool := has_prefix (s2b p) (s2b s).
Fixpoint contains_bytes (l p : bytes) : bool :=
  has_prefix p l || match l with [] => false | _ :: l => contains_bytes l p end.
Definition Contains (s sub : string) : bool := contains_bytes (s2b s) (s2b sub).

(** [strings.Split(s, sep)] for a one-byte separator. *)
Fixpoint split_bytes (sep : ascii) (l : bytes) : list bytes :=
  match l with
  | [] => [[]]
  | c :: l =>
    if bool_decide (c = sep) then [] :: split_bytes sep l
    else match split_bytes sep l with
         | [] => [[c]]
         | p :: ps => (c :: p) :: ps
         end
  end.

(** [strings.TrimRight(s, cutset)] for a one-byte cutset. *)
Fixpoint trim_left (cut : ascii) (l : bytes) : bytes :=
  match l with
  | c :: l' => if bool_decide (c = cut) then trim_left cut l' else l
  | [] => []
  end.
Definition trim_right (cut : ascii) (l : bytes) : bytes :=
  rev (trim_left cut (rev l)).

Lemma split_bytes_none sep l : sep ∉ l → split_bytes sep l = [l].
Proof.
  induction l as [|c l IH]; [done|]; intros Hn; simpl.
  rewrite bool_decide_eq_false_2 by set_solver. rewrite IH by set_solver. done.
Qed.
Lemma split_bytes_app sep l k :
  sep ∉ l → split_bytes sep (l ++ sep :: k) = l :: split_bytes sep k.
Proof.
  induction l as [|c l IH]; intros Hn; simpl.
  - by rewrite bool_decide_eq_true_2.
  - rewrite bool_decide_eq_false_2 by set_solver. by rewrite IH by set_solver.
Qed.

(** ** Decimal digits *)
Definition zero_byte : ascii := "0"%char.
#[global] Arguments zero_byte : simpl never.
Definition digit_byte (d : Z) : ascii := byte_of_Z (48 + d).
Definition digit_val (c : ascii) : option Z :=
  let z := Z_of_byte c in if (48 <=? z) && (z <=? 57) then Some (z - 48) else None.
#[global] Arguments digit_val : simpl never.
Definition is_digit (c : ascii) : bool := bool_decide (is_Some (digit_val c)).

(** The digits of a number, most significant first. *)
Fixpoint digits_go (fuel : nat) (n : Z) (acc : bytes) : bytes :=
  match fuel with
  | O => acc
  | S fuel =>
    let acc := digit_byte (n mod 10) :: acc in
    if n / 10 =? 0 then acc else digits_go fuel (n / 10) acc
  end.
Definition uint_digits (n : Z) : bytes := digits_go (S (Z.to_nat (Z.log2 n))) n [].

#[global] Arguments uint_digits : simpl never.
(** [fmt]'s [%d]. *)
Definition int_string (z : Z) : string :=
  if z <? 0 then String "-"%char (b2s (uint_digits (- z))) else b2s (uint_digits z).
(** [fmt]'s [%0*d] of a non-negative number. *)
Definition pad_digits (w : Z) (n : Z) : bytes :=
  let d := uint_digits n in replicate (Z.to_nat w - length d) zero_byte ++ d.

(** The value of a digit string; [None] when a byte is not a digit. *)
Fixpoint parse_digits_go (acc : Z) (l : bytes) : option Z :=
  match l with
  | [] => Some acc
  | c :: l => match digit_val c with Some d => parse_digits_go (10 * acc + d) l | None => None end
  end.
Definition parse_digits (l : bytes) : option Z :=
  match l with [] => None | _ => parse_digits_go 0 l end.

(** [new(big.Int).SetString(s, 10)]: an optional sign, then digits. *)
Definition big_SetString (l : bytes) : option Z :=
  match l with
  | "-"%char :: l => match parse_digits l with Some n => Some (- n) | None => None end
  | "+"%char :: l => parse_digits l
  | _ => parse_digits l
  end.

(** [strconv.ParseUint(s, 10, bits)]: digits only, in range. *)
Definition ParseUint (bits : Z) (s : string) : option Z :=
  match parse_digits (s2b s) with
  | Some n => if n <? 2 ^ bits then Some n else None
  | None => None
  end.

Lemma digit_val_nonneg c d : digit_val c = Some d → 0 ≤ d.
Proof. unfold digit_val, is_digit. case_match eqn:E; [|done]. intros [= <-]. lia. Qed.
Lemma parse_digits_go_nonneg acc l v : 0 ≤ acc → parse_digits_go acc l = Some v → 0 ≤ v.
Proof.
  revert acc. induction l as [|c l IH]; intros acc Ha; simpl; [by intros [= <-]|].
  destruct (digit_val c) as [d|] eqn:E; [|done]. apply digit_val_nonneg in E. apply IH. lia.
Qed.
Lemma ParseUint_nonneg bits s n : ParseUint bits s = Some n → 0 ≤ n.
Proof.
  unfold ParseUint, parse_digits. destruct (s2b s) as [|c l]; [done|].
  destruct (parse_digits_go 0 (c :: l)) as [v|] eqn:E; [|done].
  apply parse_digits_go_nonneg in E; [|done]. case_match; [|done]. by intros [= <-].
Qed.

(** The value of digits appended to a number already read. *)
Fixpoint digits_val (acc : Z) (ds : list Z) : Z :=
  match ds with [] => acc | d :: ds => digits_val (10 * acc + d) ds end.

Definition all_digits (l : bytes) : Prop := Forall (λ c, is_digit c = true) l.

(** *** Digits facts *)
Lemma digit_val_byte d : 0 ≤ d < 10 → digit_val (digit_byte d) = Some d.
Proof.
  intros Hd. unfold digit_val, digit_byte. rewrite Z_of_byte_of_Z.
  rewrite (Z.mod_small (48 + d)) by lia.
  rewrite (proj2 (Z.leb_le _ _)) by lia. rewrite (proj2 (Z.leb_le _ _)) by lia.
  simpl. f_equal. lia.
Qed.
Lemma digit_val_range c d : digit_val c = Some d → 0 ≤ d < 10.
Proof.
  unfold digit_val. case_match eqn:E; [|done]. intros [= <-].
  apply andb_prop in E as [E1%Z.leb_le E2%Z.leb_le]. lia.
Qed.
Lemma digit_val_inv c d : digit_val c = Some d → c = digit_byte d.
Proof.
  unfold digit_val. case_match; [|done]. intros [= <-]. unfold digit_byte.
  replace (48 + (Z_of_byte c - 48)) with (Z_of_byte c) by lia.
  by rewrite byte_of_Z_of_byte.
Qed.
Lemma is_digit_spec c : is_digit c = true ↔ ∃ d, digit_val c = Some d.
Proof. unfold is_digit. rewrite bool_decide_eq_true. done. Qed.
Lemma is_digit_byte d : 0 ≤ d < 10 → is_digit (digit_byte d) = true.
Proof. intros. apply is_digit_spec. exists d. by apply digit_val_byte. Qed.
Lemma digit_val_zero : digit_val zero_byte = Some 0.
Proof. reflexivity. Qed.

Lemma parse_digits_go_app acc l k :
  parse_digits_go acc (l ++ k) =
    match parse_digits_go acc l with Some a => parse_digits_go a k | None => None end.
Proof. revert acc. induction l as [|c l IH]; intros acc; [done|]. simpl. case_match; auto. Qed.

Lemma parse_digits_go_lin acc l v :
  parse_digits_go 0 l = Some v →
  parse_digits_go acc l = Some (acc * 10 ^ blen l + v).
Proof.
  revert acc v. induction l as [|c l IH] using rev_ind; intros acc v.
  - simpl. intros [= <-]. unfold blen; simpl. f_equal. lia.
  - rewrite !parse_digits_go_app. simpl.
    destruct (parse_digits_go 0 l) as [w|] eqn:Hw; [|done].
    rewrite (IH acc w) by done. destruct (digit_val c) as [d|]; [|done].
    intros [= <-]. unfold blen. rewrite length_app. simpl.
    rewrite Nat2Z.inj_add, Z.pow_add_r by lia. f_equal. simpl. lia.
Qed.

Lemma parse_digits_go_range l v :
  parse_digits_go 0 l = Some v → 0 ≤ v < 10 ^ blen l.
Proof.
  revert v. induction l as [|c l IH] using rev_ind; intros v.
  - simpl. intros [= <-]. unfold blen; simpl. lia.
  - rewrite parse_digits_go_app. destruct (parse_digits_go 0 l) as [w|]; [|done].
    simpl. destruct (digit_val c) as [d|] eqn:Hd; [|done]. intros [= <-].
    apply digit_val_range in Hd. specialize (IH w eq_refl).
    unfold blen in *. rewrite length_app. simpl.
    rewrite Nat2Z.inj_add, Z.pow_add_r by lia. change (10 ^ Z.of_nat 1) with 10. lia.
Qed.

Lemma parse_digits_go_is_Some acc l :
  all_digits l ↔ is_Some (parse_digits_go acc l).
Proof.
  revert acc. induction l as [|c l IH]; intros acc; simpl.
  - split; [by eexists|]. constructor.
  - unfold all_digits. rewrite Forall_cons, is_digit_spec. fold (all_digits l).
    split.
    + intros [[d ->] Hl]. by apply IH.
    + destruct (digit_val c) as [d|]; [|by intros [? [=]]].
      intros Hs. split; [eauto|]. by eapply IH.
Qed.

Lemma parse_digits_all l v : parse_digits l = Some v → all_digits l.
Proof.
  unfold parse_digits. destruct l as [|c l]; [done|]. intros E.
  apply (parse_digits_go_is_Some 0). eauto.
Qed.

Lemma digits_go_spec fuel n acc v :
  0 ≤ n < 2 ^ Z.of_nat fuel → (0 < fuel)%nat →
  parse_digits_go 0 acc = Some v →
  parse_digits_go 0 (digits_go fuel n acc) = Some (n * 10 ^ blen acc + v).
Proof.
  revert n acc v. induction fuel as [|fuel IH]; intros n acc v Hn Hf Hacc; [lia|].
  simpl. pose proof (Z.mod_pos_bound n 10 ltac:(lia)) as Hm.
  assert (parse_digits_go 0 (digit_byte (n mod 10) :: acc) =
    Some (n mod 10 * 10 ^ blen acc + v)) as Hstep.
  { simpl. rewrite digit_val_byte by lia.
    rewrite (parse_digits_go_lin _ _ v Hacc). f_equal; lia. }
  pose proof (Z.div_mod n 10 ltac:(lia)) as Hdm.
  case_match eqn:E.
  - apply Z.eqb_eq in E. rewrite Hstep. f_equal. rewrite E in Hdm.
    replace n with (n mod 10) at 2 by lia. done.
  - apply Z.eqb_neq in E. destruct fuel as [|fuel].
    { change (2 ^ Z.of_nat 1) with 2 in Hn. exfalso. apply E. apply Z.div_small. lia. }
    rewrite (IH (n / 10) _ (n mod 10 * 10 ^ blen acc + v)); [|  | lia | exact Hstep].
    + f_equal. unfold blen in *. simpl length. rewrite Nat2Z.inj_succ, Z.pow_succ_r by lia.
      rewrite Hdm at 3. ring.
    + split; [apply Z.div_pos; lia|]. apply Z.div_lt_upper_bound; [lia|].
      rewrite Nat2Z.inj_succ, Z.pow_succ_r in Hn by lia. lia.
Qed.

Lemma digits_go_ne fuel n acc :
  (0 < fuel)%nat → digits_go fuel n acc ≠ [].
Proof.
  revert n acc. induction fuel as [|fuel IH]; intros n acc Hf; [lia|]. simpl.
  case_match; [done|]. destruct fuel; [done|]. apply IH. lia.
Qed.

Lemma uint_digits_fuel n : 0 ≤ n → n < 2 ^ Z.of_nat (S (Z.to_nat (Z.log2 n))).
Proof.
  intros Hn. rewrite Nat2Z.inj_succ, Z2Nat.id by apply Z.log2_nonneg.
  destruct (decide (n = 0)) as [->|]; [done|]. apply Z.log2_spec. lia.
Qed.

(** Printing then parsing a number gives it back. *)
Lemma parse_uint_digits n : 0 ≤ n → parse_digits (uint_digits n) = Some n.
Proof.
  intros Hn. unfold parse_digits.
  assert (parse_digits_go 0 (uint_digits n) = Some n) as ->.
  { unfold uint_digits. rewrite (digits_go_spec _ _ _ 0); [|  |lia|done].
    - unfold blen; simpl. f_equal. lia.
    - split; [done|]. by apply uint_digits_fuel. }
  destruct (uint_digits n) eqn:E; [|done].
  exfalso. eapply digits_go_ne; [|exact E]. lia.
Qed.

Lemma uint_digits_all n : 0 ≤ n → all_digits (uint_digits n).
Proof. intros. eapply parse_digits_all. by apply parse_uint_digits. Qed.

Lemma uint_digits_ne n : uint_digits n ≠ [].
Proof. apply digits_go_ne. lia. Qed.

Lemma digits_go_len fuel n acc k :
  0 ≤ n < 10 ^ Z.of_nat k → (0 < k)%nat →
  (length (digits_go fuel n acc) ≤ k + length acc)%nat.
Proof.
  revert n acc k. induction fuel as [|fuel IH]; intros n acc k Hn Hk; simpl; [lia|].
  case_match eqn:E; [simpl; lia|]. apply Z.eqb_neq in E.
  destruct k as [|[|k]]; [lia| |].
  - exfalso. apply E. change (10 ^ Z.of_nat 1) with 10 in Hn. apply Z.div_small. lia.
  - etrans; [apply (IH _ _ (S k)); [|lia]|simpl; lia].
    split; [apply Z.div_pos; lia|]. apply Z.div_lt_upper_bound; [lia|].
    rewrite (Nat2Z.inj_succ (S k)), Z.pow_succ_r in Hn by lia. lia.
Qed.

Lemma uint_digits_len n k :
  0 ≤ n < 10 ^ Z.of_nat k → (0 < k)%nat → (length (uint_digits n) ≤ k)%nat.
Proof.
  intros Hn Hk. unfold uint_digits.
  etrans; [by apply (digits_go_len _ _ _ k)|simpl; lia].
Qed.

Lemma parse_digits_go_zeros acc m l :
  parse_digits_go 0 (replicate m zero_byte ++ l) = parse_digits_go 0 l ∧
  parse_digits_go acc (replicate m zero_byte) = Some (acc * 10 ^ Z.of_nat m).
Proof.
  split.
  - induction m as [|m IH]; [done|]. exact IH.
  - revert acc. induction m as [|m IH]; intros acc.
    + simpl. f_equal; lia.
    + change (parse_digits_go (10 * acc + 0) (replicate m zero_byte)
              = Some (acc * 10 ^ Z.of_nat (S m))). rewrite IH. f_equal.
      rewrite Nat2Z.inj_succ, Z.pow_succ_r by lia. lia.
Qed.

Lemma pad_digits_spec w n :
  0 ≤ n < 10 ^ w → 0 < w →
  blen (pad_digits w n) = w ∧ parse_digits_go 0 (pad_digits w n) = Some n.
Proof.
  intros Hn Hw. unfold pad_digits.
  assert (length (uint_digits n) ≤ Z.to_nat w)%nat.
  { apply uint_digits_len; [|lia]. by rewrite Z2Nat.id by lia. }
  split.
  - unfold blen. rewrite length_app, length_replicate. lia.
  - rewrite (proj1 (parse_digits_go_zeros 0 _ _)).
    pose proof (parse_uint_digits n ltac:(lia)) as E. unfold parse_digits in E.
    by destruct (uint_digits n).
Qed.

Lemma is_digit_not_sep c : is_digit c = true → c ≠ "."%char ∧ c ≠ "-"%char ∧ c ≠ "+"%char.
Proof. intros Hd. by split_and!; intros ->. Qed.

Lemma all_digits_not_in l c : all_digits l → is_digit c = false → c ∉ l.
Proof.
  intros Hl Hc Hin. eapply Forall_forall in Hl; [|exact Hin]. simpl in Hl. congruence.
Qed.

Lemma big_SetString_digits l : all_digits l → big_SetString l = parse_digits l.
Proof.
  intros Hl. destruct l as [|c l]; [done|].
  apply Forall_cons in Hl as [Hc _]. apply is_digit_not_sep in Hc as (?&?&?).
  unfold big_SetString. repeat case_match; simplify_eq; done.
Qed.

(** ** Trimming zeros *)
Lemma trim_left_spec cut l :
  ∃ n, l = replicate n cut ++ trim_left cut l ∧
       (∀ c k, trim_left cut l = c :: k → c ≠ cut).
Proof.
  induction l as [|c l (n & E & Hh)]; simpl.
  - by exists O.
  - case_bool_decide as Hc.
    + subst c. exists (S n). simpl. rewrite <-E. done.
    + exists O. split; [done|]. by intros ?? [= -> ->].
Qed.

Lemma trim_right_spec cut l :
  ∃ n, l = trim_right cut l ++ replicate n cut ∧
       (∀ c k, trim_right cut l = k ++ [c] → c ≠ cut).
Proof.
  destruct (trim_left_spec cut (rev l)) as (n & E & Hh). exists n.
  unfold trim_right. split.
  - apply (f_equal (@rev ascii)) in E. rewrite rev_involutive, rev_app_distr in E.
    rewrite E at 1. f_equal. clear. induction n as [|n IH]; [done|].
    simpl. rewrite IH. clear. induction n as [|n IH]; [done|]. simpl. by rewrite IH.
  - intros c k Ek. apply (f_equal (@rev ascii)) in Ek.
    rewrite rev_involutive, rev_app_distr in Ek. simpl in Ek. eauto.
Qed.

(** ** Fixed-width integers *)
Definition u8 (z : Z) : Z := z mod 2 ^ 8.
Definition u32 (z : Z) : Z := z mod 2 ^ 32.
Definition u64 (z : Z) : Z := z mod 2 ^ 64.
(** [int64(x)] of an unsigned 64-bit [x]. *)
Definition i64 (z : Z) : Z := let u := u64 z in if u <? 2 ^ 63 then u else u - 2 ^ 64.
Lemma i64_small z : 0 ≤ z < 2 ^ 63 → i64 z = z.
Proof.
  intros Hz. unfold i64, u64. rewrite Z.mod_small by lia. by rewrite (proj2 (Z.ltb_lt _ _)) by lia.
Qed.

Definition max_uint64 : Z := 2 ^ 64 - 1.

(** ** Byte slices *)
(** [l[i] == z] *)
Definition byte_is (l : bytes) (i : nat) (z : Z) : bool :=
  match l !! i with Some c => Z_of_byte c =? z | None => false end.
(** [l[a:b]] of a slice long enough *)
Definition slice (l : bytes) (a b : nat) : bytes := take (b - a) (drop a l).

Lemma byte_is_drop l i z :
  byte_is l i z = true → drop i l = byte_of_Z z :: drop (S i) l.
Proof.
  unfold byte_is. case_match eqn:E; [|done]. intros <-%Z.eqb_eq.
  rewrite byte_of_Z_of_byte. by apply drop_S.
Qed.

Lemma drop_slice l a b : (a ≤ b)%nat → drop a l = slice l a b ++ drop b l.
Proof.
  intros Hab. unfold slice. rewrite <-(take_drop (b - a) (drop a l)) at 1.
  f_equal. rewrite drop_drop. f_equal. lia.
Qed.

Lemma slice_length l a b :
  (a ≤ b ≤ length l)%nat → length (slice l a b) = (b - a)%nat.
Proof. intros. unfold slice. rewrite length_take, length_drop. lia. Qed.

Lemma slice_all l n : length l = n → slice l 0 n = l.
Proof. intros <-. unfold slice. rewrite drop_0, Nat.sub_0_r. by apply take_ge. Qed.

Lemma byte_is_self z x : 0 ≤ z < 256 → byte_is (byte_of_Z z :: x) 0 z = true.
Proof.
  intros Hz. unfold byte_is. simpl. rewrite Z_of_byte_of_Z, Z.mod_small by lia. lia.
Qed.

Lemma byte_is_other z w x :
  0 ≤ z < 256 → w ≠ z → byte_is (byte_of_Z z :: x) 0 w = false.
Proof.
  intros Hz Hw. unfold byte_is. simpl. rewrite Z_of_byte_of_Z, Z.mod_small by lia. lia.
Qed.

(** [binary.LittleEndian] *)
Fixpoint le_bytes (n : nat) (z : Z) : bytes :=
  match n with O => [] | S n => byte_of_Z z :: le_bytes n (z / 256) end.
Fixpoint le_val (l : bytes) : Z :=
  match l with [] => 0 | c :: l => Z_of_byte c + 256 * le_val l end.

Lemma le_bytes_length n z : length (le_bytes n z) = n.
Proof. revert z. induction n; intros; simpl; auto. Qed.

Lemma le_val_bytes n z : le_val (le_bytes n z) = z mod 256 ^ Z.of_nat n.
Proof.
  revert z. induction n as [|n IH]; intros z; simpl.
  - by rewrite Z.mod_1_r.
  - rewrite Z_of_byte_of_Z, IH, Nat2Z.inj_succ, Z.pow_succ_r by lia.
    rewrite Z.rem_mul_r by lia. done.
Qed.

Lemma le_bytes_val l : le_bytes (length l) (le_val l) = l.
Proof.
  induction l as [|c l IH]; [done|]. simpl.
  pose proof (Z_of_byte_range c).
  rewrite (Z.mul_comm 256), Z.div_add, (Z.div_small (Z_of_byte c)) by lia.
  rewrite Z.add_0_l, IH. f_equal. unfold byte_of_Z.
  rewrite Z.mod_add, Z.mod_small by lia.
  unfold Z_of_byte. rewrite N2Z.id. apply ascii_N_embedding.
Qed.

(** ** [math/big]: Euclidean division and integer square root *)
Definition big_Div (x y : Z) : outcome Z :=
  if y =? 0 then Panic "division by zero"
  else Ret (if 0 <? y then x / y else - (x / - y)).
Definition big_Sqrt (x : Z) : outcome Z :=
  if x <? 0 then Panic "square root of negative number" else Ret (Z.sqrt x).

(** [big.Int.Div] leaves a remainder in [0 .. |y|). *)
Lemma big_Div_euclid x y q :
  big_Div x y = Ret q → 0 ≤ x - q * y < Z.abs y.
Proof.
  unfold big_Div. case_match eqn:E; [done|]. apply Z.eqb_neq in E.
  intros [= <-]. case_match eqn:E2.
  - apply Z.ltb_lt in E2. pose proof (Z.div_mod x y ltac:(lia)).
    pose proof (Z.mod_pos_bound x y ltac:(lia)). lia.
  - apply Z.ltb_ge in E2. pose proof (Z.div_mod x (- y) ltac:(lia)).
    pose proof (Z.mod_pos_bound x (- y) ltac:(lia)). lia.
Qed.

(** ** [encoding/hex] *)
Definition hex_digit (n : Z) : ascii :=
  if n <? 10 then byte_of_Z (48 + n) else byte_of_Z (87 + n).
Fixpoint hex_encode (l : bytes) : bytes :=
  match l with
  | [] => []
  | c :: l => hex_digit (Z_of_byte c / 16) :: hex_digit (Z_of_byte c mod 16) :: hex_encode l
  end.
Definition hex_val (c : ascii) : option Z :=
  let z := Z_of_byte c in
  if (48 <=? z) && (z <=? 57) then Some (z - 48)
  else if (97 <=? z) && (z <=? 102) then Some (z - 87)
  else if (65 <=? z) && (z <=? 70) then Some (z - 55)
  else None.
Fixpoint hex_decode (l : bytes) : option bytes :=
  match l with
  | [] => Some []
  | [_] => None
  | a :: b :: l =>
    match hex_val a, hex_val b, hex_decode l with
    | Some x, Some y, Some r => Some (byte_of_Z (16 * x + y) :: r)
    | _, _, _ => None
    end
  end.

Lemma hex_val_digit n : 0 ≤ n < 16 → hex_val (hex_digit n) = Some n.
Proof.
  intros Hn.
  assert (n = 0 ∨ n = 1 ∨ n = 2 ∨ n = 3 ∨ n = 4 ∨ n = 5 ∨ n = 6 ∨ n = 7 ∨ n = 8 ∨
    n = 9 ∨ n = 10 ∨ n = 11 ∨ n = 12 ∨ n = 13 ∨ n = 14 ∨ n = 15) as Hc by lia.
  by repeat (destruct Hc as [->|Hc]; [reflexivity|]); subst.
Qed.

Lemma hex_decode_encode l : hex_decode (hex_encode l) = Some l.
Proof.
  induction l as [|c l IH]; [done|]. simpl.
  pose proof (Z_of_byte_range c).
  rewrite !hex_val_digit, IH.
  - do 2 f_equal. rewrite <-Z.div_mod by lia. apply byte_of_Z_of_byte.
  - apply Z.mod_pos_bound. lia.
  - split; [apply Z.div_pos; lia|]. apply Z.div_lt_upper_bound; lia.
Qed.

Lemma hex_encode_length l : length (hex_encode l) = (2 * length l)%nat.
Proof. induction l as [|c l IH]; [done|]. simpl. lia. Qed.

Lemma hex_encode_inj l k : hex_encode l = hex_encode k → l = k.
Proof. intros E. apply (f_equal hex_decode) in E. rewrite !hex_decode_encode in E. congruence. Qed.

Lemma int_string_nonneg n : 0 ≤ n → int_string n = b2s (uint_digits n).
Proof. intros Hn. unfold int_string. by rewrite (proj2 (Z.ltb_ge _ _)) by lia. Qed.

Lemma int_string_inj n m : 0 ≤ n → 0 ≤ m → int_string n = int_string m → n = m.
Proof.
  intros Hn Hm. rewrite !int_string_nonneg by done. intros E%(f_equal s2b).
  rewrite !s2b_b2s in E. apply (f_equal parse_digits) in E.
  rewrite !parse_uint_digits in E by done. congruence.
Qed.

Lemma le_val_range l : 0 ≤ le_val l < 256 ^ Z.of_nat (length l).
Proof.
  induction l as [|c l IH]; [done|]. cbn [le_val length]. rewrite Nat2Z.inj_succ, Z.pow_succ_r by lia.
  pose proof (Z_of_byte_range c). lia.
Qed.

(** A little-endian number without trailing zero byte determines its bytes. *)
Lemma le_val_inj l k :
  (∀ c, last l = Some c → Z_of_byte c ≠ 0) → (∀ c, last k = Some c → Z_of_byte c ≠ 0) →
  le_val l = le_val k → l = k.
Proof.
  assert (∀ c l, (∀ d, last (c :: l) = Some d → Z_of_byte d ≠ 0) → le_val (c :: l) ≠ 0) as Hpos.
  { intros c l'. revert c. induction l' as [|d l' IH]; intros c Hl.
    - cbn. specialize (Hl c eq_refl). pose proof (Z_of_byte_range c). lia.
    - change (le_val (c :: d :: l')) with (Z_of_byte c + 256 * le_val (d :: l')).
      specialize (IH d ltac:(intros e He; apply Hl; exact He)).
      pose proof (Z_of_byte_range c). pose proof (le_val_range (d :: l')). lia. }
  revert k. induction l as [|a l IH]; intros [|b k] Hl Hk E; [done|..].
  - by destruct (Hpos b k).
  - by destruct (Hpos a l).
  - cbn [le_val] in E. pose proof (Z_of_byte_range a). pose proof (Z_of_byte_range b).
    assert (Z_of_byte a = Z_of_byte b ∧ le_val l = le_val k) as [->%Z_of_byte_inj E'] by lia.
    f_equal. apply IH; [| |done].
    + intros c Hc. apply Hl. rewrite last_cons, Hc. done.
    + intros c Hc. apply Hk. rewrite last_cons, Hc. done.
Qed.
