(* ===== verification/Decimal.v ===== *)
(** * decimal/decimal.go: fixed-point amounts

    A [*Decimal] is [None] for a nil pointer and [Some d] otherwise; the
    arithmetic methods allocate their result and never write to a receiver, so
    values stand for pointers.  Indexing [precisionFactor] out of range, mixing
    precisions, dividing by zero and rooting a negative number panic. *)
From S2P Require Import Prelude GoStd.

Definition MAX_PRECISION : Z := 18.
Definition MAX_PRECISION_STRING : string := "18".

(** [precisionFactor[p]] for [p = 0 .. 18]. *)
Definition precisionFactor (p : Z) : outcome Z :=
  if (0 <=? p) && (p <=? 18) then Ret (10 ^ p) else Panic "index out of range".

Record Decimal := mkDecimal { Precition : Z; Val : Z }.
#[global] Instance Decimal_eta : EtaRecord Decimal :=
  λ r, mkDecimal (Precition r) (Val r).
#[global] Instance Decimal_eq_dec : EqDecision Decimal.
Proof. solve_decision. Defined.

Definition NewDecimal (v p : Z) : Decimal :=
  let p := if MAX_PRECISION <? p then MAX_PRECISION else p in mkDecimal p v.

Definition NewDecimalCopy (other : option Decimal) : option Decimal :=
  match other with
  | None => None
  | Some other => Some (mkDecimal (Precition other) (Val other))
  end.

Definition starts_with_sign (plus_only : bool) (l : bytes) : bool :=
  match l with
  | c :: _ => bool_decide (c = "+"%char) || (negb plus_only && bool_decide (c = "-"%char))
  | [] => false
  end.

Definition parse_decimal_part (s : string) (maxPrecision : Z)
    (integerPartStr decimalPartStr : bytes) : outcome Z :=
  if bool_decide (decimalPartStr = []) || starts_with_sign false decimalPartStr
  then Error "empty decimal"
  else
    let currPrecision := blen decimalPartStr in
    if maxPrecision <? currPrecision then Error ("decimal exceeds maximum precision(" +:+ int_string maxPrecision +:+ "): " +:+ s)
    else
      let n := Z.to_nat (maxPrecision - currPrecision) in
      match big_SetString (decimalPartStr ++ replicate n zero_byte) with
      | Some decimalPart =>
        if decimalPart <? 0 then Error ("invalid decimal format: " +:+ b2s integerPartStr)
        else Ret decimalPart
      | None => Error ("invalid decimal format: " +:+ b2s integerPartStr)
      end.

Definition NewDecimalFromString (s : string) (maxPrecision : Z) : outcome Decimal :=
  if bool_decide (s = "") then Error "empty string" else
  let parts := split_bytes "."%char (s2b s) in
  if (2 <? length parts)%nat then Error ("invalid decimal format: " +:+ s) else
  let integerPartStr := nth 0 parts [] in
  if bool_decide (integerPartStr = []) || starts_with_sign true integerPartStr
  then Error "empty integer" else
  match big_SetString integerPartStr with
  | None => Error ("invalid integer format: " +:+ b2s integerPartStr)
  | Some integerPart =>
    decimalPart ← (if (length parts =? 2)%nat
                   then parse_decimal_part s maxPrecision integerPartStr (nth 1 parts [])
                   else Ret 0);
    factor ← precisionFactor maxPrecision;
    let value := integerPart * factor in
    let value := if value <? 0 then value - decimalPart else value + decimalPart in
    Ret (mkDecimal maxPrecision value)
  end.

Definition MustNewDecimalFromString (s : string) (maxPrecision : Z) : outcome Decimal :=
  let l := s2b s in
  let l := if (length (split_bytes "."%char l) =? 2)%nat
           then trim_right "."%char (trim_right zero_byte l) else l in
  match NewDecimalFromString (b2s l) maxPrecision with
  | Error err => Panic err
  | r => r
  end.

(** [String()] *)
Definition Decimal_String (d : option Decimal) : outcome string :=
  match d with
  | None => Ret "0"
  | Some d =>
    let value := Z.abs (Val d) in
    factor ← precisionFactor (Precition d);
    let quotient := Z.quot value factor in
    let remainder := Z.rem value factor in
    let sign := if Val d <? 0 then "-" else "" in
    if remainder =? 0 then Ret (sign +:+ int_string quotient)
    else
      let decimalPart := pad_digits (Precition d) remainder in
      let decimalPart := trim_right zero_byte decimalPart in
      Ret (sign +:+ int_string quotient +:+ "." +:+ b2s decimalPart)
  end.

(** [Value()] stores the printed amount, NULL for nil. *)
Definition Value (d : option Decimal) : outcome (option string) :=
  match d with None => Ret None | Some _ => Some <$> Decimal_String d end.

(** [Scan(value)] of a NULL ([None]) or textual column into [d]. *)
Definition Scan (d : Decimal) (value : option string) : outcome Decimal :=
  match value with
  | None => Ret d
  | Some v => NewDecimalFromString v MAX_PRECISION
  end.

Definition Add (d other : option Decimal) : outcome (option Decimal) :=
  match d, other with
  | None, None => Ret None
  | Some d, None => Ret (Some (mkDecimal (Precition d) (Val d)))
  | None, Some other => Ret (Some (mkDecimal (Precition other) (Val other)))
  | Some d, Some other =>
    if Precition d =? Precition other
    then Ret (Some (mkDecimal (Precition d) (Val d + Val other)))
    else Panic "precition not match"
  end.

Definition Sub (d other : option Decimal) : outcome (option Decimal) :=
  match d, other with
  | None, None => Ret None
  | Some d, None => Ret (Some (mkDecimal (Precition d) (Val d)))
  | None, Some other => Ret (Some (mkDecimal (Precition other) (- Val other)))
  | Some d, Some other =>
    if Precition d =? Precition other
    then Ret (Some (mkDecimal (Precition d) (Val d - Val other)))
    else Panic "precition not match"
  end.

Definition Mul (d other : option Decimal) : outcome (option Decimal) :=
  match d, other with
  | Some d, Some other => Ret (Some (mkDecimal (Precition d) (Val d * Val other)))
  | _, _ => Ret None
  end.

Definition Sqrt (d : option Decimal) : outcome (option Decimal) :=
  match d with
  | None => Ret None
  | Some d => v ← big_Sqrt (Val d); Ret (Some (mkDecimal MAX_PRECISION v))
  end.

Definition Div (d other : option Decimal) : outcome (option Decimal) :=
  match d, other with
  | Some d, Some other =>
    v ← big_Div (Val d) (Val other); Ret (Some (mkDecimal (Precition d) v))
  | _, _ => Ret None
  end.

Definition NewPrecition (d : option Decimal) (p : Z) : outcome (option Decimal) :=
  match d with
  | None => Ret None
  | Some d =>
    let c := Precition d - p in
    if c =? 0 then Ret (Some d)
    else if c <? 0 then Panic "precition must be less"
    else
      factor ← precisionFactor c;
      v ← big_Div (Val d) factor;
      Ret (Some (mkDecimal p v))
  end.

Definition cmp (x y : Z) : Z :=
  match x ?= y with Lt => -1 | Eq => 0 | Gt => 1 end.

Definition Cmp (d other : option Decimal) : outcome Z :=
  match d, other with
  | None, None => Ret 0
  | Some d, None => Ret (Z.sgn (Val d))
  | None, Some other => Ret (- Z.sgn (Val other))
  | Some d, Some other =>
    if Precition d =? Precition other then Ret (cmp (Val d) (Val other))
    else Panic "precition not match"
  end.

Definition CmpAlign (d other : option Decimal) : Z :=
  match d, other with
  | None, None => 0
  | Some d, None => Z.sgn (Val d)
  | None, Some other => - Z.sgn (Val other)
  | Some d, Some other => cmp (Val d) (Val other)
  end.

Definition Sign (d : option Decimal) : Z :=
  match d with None => 0 | Some d => Z.sgn (Val d) end.

Definition IsOverflowUint64 (d : option Decimal) : outcome bool :=
  match d with
  | None => Ret false
  | Some d =>
    factor ← precisionFactor (Precition d);
    Ret (max_uint64 * factor <? Val d)
  end.

Definition GetMaxUint64 (d : option Decimal) : outcome (option Decimal) :=
  match d with
  | None => Ret None
  | Some d =>
    factor ← precisionFactor (Precition d);
    Ret (Some (mkDecimal (Precition d) (max_uint64 * factor)))
  end.

(** ** Mathematical reading of amounts *)

(** The value of a pointer, in units of [10^-precision]; nil counts as zero. *)
Definition dval (d : option Decimal) : Z := match d with None => 0 | Some d => Val d end.
(** nil, or of precision [p]. *)
Definition dec_ok (p : Z) (d : option Decimal) : Prop :=
  match d with None => True | Some d => Precition d = p end.

Definition dadd (a b : option Decimal) : option Decimal :=
  match a, b with
  | None, None => None
  | Some a, None => Some a
  | None, Some b => Some b
  | Some a, Some b => Some (mkDecimal (Precition a) (Val a + Val b))
  end.
Definition dsub (a b : option Decimal) : option Decimal :=
  match a, b with
  | None, None => None
  | Some a, None => Some a
  | None, Some b => Some (mkDecimal (Precition b) (- Val b))
  | Some a, Some b => Some (mkDecimal (Precition a) (Val a - Val b))
  end.

Section arith.
Context (p : Z).
Implicit Types a b : option Decimal.

Lemma Add_ok a b : dec_ok p a → dec_ok p b → Add a b = Ret (dadd a b).
Proof.
  destruct a as [[pa va]|], b as [[pb vb]|]; simpl; try done.
  intros -> ->. by rewrite Z.eqb_refl.
Qed.
Lemma Sub_ok a b : dec_ok p a → dec_ok p b → Sub a b = Ret (dsub a b).
Proof.
  destruct a as [[pa va]|], b as [[pb vb]|]; simpl; try done.
  intros -> ->. by rewrite Z.eqb_refl.
Qed.
Lemma Cmp_ok a b : dec_ok p a → dec_ok p b → Cmp a b = Ret (cmp (dval a) (dval b)).
Proof.
  destruct a as [[pa va]|], b as [[pb vb]|]; simpl; try done.
  - intros -> ->. by rewrite Z.eqb_refl.
  - intros _ _. f_equal. unfold cmp. destruct va; done.
  - intros _ _. f_equal. unfold cmp. destruct vb; done.
Qed.
Lemma dadd_dec_ok a b : dec_ok p a → dec_ok p b → dec_ok p (dadd a b).
Proof. by destruct a, b. Qed.
Lemma dsub_dec_ok a b : dec_ok p a → dec_ok p b → dec_ok p (dsub a b).
Proof. by destruct a, b. Qed.
End arith.

Lemma dval_dadd a b : dval (dadd a b) = dval a + dval b.
Proof. destruct a, b; simpl; lia. Qed.
Lemma dval_dsub a b : dval (dsub a b) = dval a - dval b.
Proof. destruct a, b; simpl; lia. Qed.
Lemma NewDecimalCopy_id d : NewDecimalCopy d = d.
Proof. by destruct d as [[]|]. Qed.
Lemma Sign_dval d : Sign d = Z.sgn (dval d).
Proof. by destruct d. Qed.
Lemma cmp_lt x y : cmp x y < 0 ↔ x < y.
Proof. unfold cmp. destruct (Z.compare_spec x y); lia. Qed.
Lemma cmp_ge x y : 0 ≤ cmp x y ↔ y ≤ x.
Proof. unfold cmp. destruct (Z.compare_spec x y); lia. Qed.
Lemma cmp_gt x y : 0 < cmp x y ↔ y < x.
Proof. unfold cmp. destruct (Z.compare_spec x y); lia. Qed.
Lemma cmp_eq x y : cmp x y = 0 ↔ x = y.
Proof. unfold cmp. destruct (Z.compare_spec x y); lia. Qed.
Lemma cmp_ltb x y : (cmp x y <? 0) = (x <? y).
Proof. apply eq_true_iff_eq. rewrite !Z.ltb_lt. apply cmp_lt. Qed.
Lemma cmp_gtb x y : (0 <? cmp x y) = (y <? x).
Proof. apply eq_true_iff_eq. rewrite !Z.ltb_lt. apply cmp_gt. Qed.
Lemma cmp_geb x y : (0 <=? cmp x y) = (y <=? x).
Proof. apply eq_true_iff_eq. rewrite !Z.leb_le. apply cmp_ge. Qed.
Lemma precisionFactor_ok p : 0 ≤ p ≤ 18 → precisionFactor p = Ret (10 ^ p).
Proof.
  intros Hp. unfold precisionFactor. by rewrite !(proj2 (Z.leb_le _ _)) by lia.
Qed.

(** What a result tells, whatever the precisions: nil counts as zero. *)
Lemma Add_inv a b c : Add a b = Ret c → dval c = dval a + dval b.
Proof.
  destruct a as [[pa va]|], b as [[pb vb]|]; simpl; try (intros [= <-]; simpl; lia).
  case_match; [|done]. by intros [= <-].
Qed.
Lemma Sub_inv a b c : Sub a b = Ret c → dval c = dval a - dval b.
Proof.
  destruct a as [[pa va]|], b as [[pb vb]|]; simpl; try (intros [= <-]; simpl; lia).
  case_match; [|done]. by intros [= <-].
Qed.
Lemma Mul_inv a b c : Mul a b = Ret c → dval c = dval a * dval b.
Proof. destruct a as [[pa va]|], b as [[pb vb]|]; simpl; intros [= <-]; simpl; lia. Qed.
Lemma Cmp_inv a b c : Cmp a b = Ret c → c = cmp (dval a) (dval b).
Proof.
  destruct a as [[pa va]|], b as [[pb vb]|]; simpl; try (intros [= <-]).
  - case_match; [|done]. by intros [= <-].
  - unfold cmp. by destruct va.
  - unfold cmp. by destruct vb.
  - done.
Qed.
(** A nil operand gives nil; otherwise the remainder is in [0 .. |b|). *)
Lemma Div_inv a b c :
  Div a b = Ret c →
  (c = None ∧ (a = None ∨ b = None)) ∨
  (dval b ≠ 0 ∧ 0 ≤ dval a - dval c * dval b < Z.abs (dval b)).
Proof.
  destruct a as [[pa va]|], b as [[pb vb]|]; simpl; try (intros [= <-]; auto).
  destruct (big_Div va vb) as [q|e|w] eqn:E; simpl; [|done..]. intros [= <-]. right. simpl.
  pose proof (big_Div_euclid _ _ _ E). lia.
Qed.
(** Nil differences and products come from nil operands. *)
Lemma Sub_nil a b : Sub a b = Ret None → a = None ∧ b = None.
Proof. destruct a, b; simpl; try done. by case_match. Qed.
Lemma Mul_nil a b : Mul a b = Ret None → a = None ∨ b = None.
Proof. destruct a, b; simpl; [done|auto..]. Qed.
Lemma Sqrt_inv a c : Sqrt a = Ret c → 0 ≤ dval a ∧ dval c = Z.sqrt (dval a).
Proof.
  destruct a as [[pa va]|]; simpl; [|by intros [= <-]]. unfold big_Sqrt.
  destruct (Z.ltb_spec va 0); simpl; [done|]. by intros [= <-].
Qed.
(** Arithmetic does not return errors: a mismatch or a division by zero panics. *)
Lemma Add_no_error a b : no_error (Add a b).
Proof. destruct a, b; simpl; [case_match|..]; done. Qed.
Lemma Sub_no_error a b : no_error (Sub a b).
Proof. destruct a, b; simpl; [case_match|..]; done. Qed.
Lemma Mul_no_error a b : no_error (Mul a b).
Proof. by destruct a, b. Qed.
Lemma Cmp_no_error a b : no_error (Cmp a b).
Proof. destruct a, b; simpl; [case_match|..]; done. Qed.
Lemma Sqrt_no_error a : no_error (Sqrt a).
Proof. destruct a; simpl; [|done]. unfold big_Sqrt. by case_match. Qed.
Lemma Div_no_error a b : no_error (Div a b).
Proof. destruct a, b; simpl; [|done..]. unfold big_Div. by case_match. Qed.
#[export] Hint Resolve Add_no_error Sub_no_error Mul_no_error Cmp_no_error Sqrt_no_error
  Div_no_error : noerr.

Create HintDb dec.
Create Rewrite HintDb dec.
#[export] Hint Resolve dadd_dec_ok dsub_dec_ok : dec.
#[export] Hint Rewrite dval_dadd dval_dsub NewDecimalCopy_id Sign_dval
  cmp_ltb cmp_gtb cmp_geb : dec.

(** ** What [NewDecimalFromString] accepts *)

(** The text of an amount: an optional minus sign, the integer digits, and
    the digits after the point ([[]] when there is no point). *)
Definition sign_text (neg : bool) : bytes := if neg then ["-"%char] else [].
Definition amount_text (neg : bool) (i f : bytes) : bytes :=
  sign_text neg ++ i ++
  (match f with [] => [] | _ => "."%char :: f end).

Definition digits_value (l : bytes) : Z := default 0 (parse_digits_go 0 l).

(** The number it denotes at precision [p]: the sign of the text is kept only
    when the integer part is not zero. *)
Definition amount_value (p : Z) (neg : bool) (i f : bytes) : Z :=
  let m := digits_value i * 10 ^ p in
  let r := digits_value f * 10 ^ (p - blen f) in
  if neg && negb (m =? 0) then - (m + r) else m + r.

Definition well_formed_amount (p : Z) (i f : bytes) : Prop :=
  i ≠ [] ∧ all_digits i ∧ all_digits f ∧ blen f ≤ p.

Lemma digits_value_nonneg l : 0 ≤ digits_value l.
Proof.
  unfold digits_value. destruct (parse_digits_go 0 l) eqn:E; [|done].
  apply parse_digits_go_range in E. simpl. lia.
Qed.
Lemma parse_digits_value l : all_digits l → parse_digits_go 0 l = Some (digits_value l).
Proof.
  intros Hl. apply (parse_digits_go_is_Some 0) in Hl as [v E].
  unfold digits_value. by rewrite E.
Qed.
Lemma parse_digits_ne l : l ≠ [] → all_digits l → parse_digits l = Some (digits_value l).
Proof. intros Hne Hl. destruct l; [done|]. by apply parse_digits_value. Qed.

Lemma all_digits_app l k : all_digits (l ++ k) ↔ all_digits l ∧ all_digits k.
Proof. apply Forall_app. Qed.
Lemma all_digits_zeros n : all_digits (replicate n zero_byte).
Proof. apply Forall_replicate. done. Qed.

Lemma parse_decimal_part_ok s p i f :
  f ≠ [] → all_digits f → blen f ≤ p →
  parse_decimal_part s p i f = Ret (digits_value f * 10 ^ (p - blen f)).
Proof.
  intros Hne Hf Hlen. unfold parse_decimal_part.
  rewrite bool_decide_eq_false_2 by done.
  assert (starts_with_sign false f = false) as ->.
  { destruct f as [|c f]; [done|]. apply Forall_cons in Hf as [Hc _].
    apply is_digit_not_sep in Hc as (?&?&?). simpl.
    by rewrite !bool_decide_eq_false_2 by done. }
  simpl. rewrite (proj2 (Z.ltb_ge _ _)) by done.
  set (zs := replicate _ zero_byte).
  assert (all_digits (f ++ zs)) as Hd by (apply all_digits_app; split; [done|apply all_digits_zeros]).
  rewrite big_SetString_digits, parse_digits_ne by (done || by destruct f).
  assert (digits_value (f ++ zs) = digits_value f * 10 ^ (p - blen f)) as ->.
  { unfold digits_value at 1. rewrite parse_digits_go_app, parse_digits_value by done.
    unfold zs. rewrite (proj2 (parse_digits_go_zeros _ _ [])). simpl. do 2 f_equal. lia. }
  pose proof (digits_value_nonneg f).
  rewrite (proj2 (Z.ltb_ge _ _)); [done|]. apply Z.mul_nonneg_nonneg; [done|].
  apply Z.pow_nonneg. lia.
Qed.

Lemma amount_text_parts neg i f :
  all_digits i → all_digits f →
  split_bytes "."%char (amount_text neg i f) =
    (sign_text neg ++ i) :: (match f with [] => [] | _ => [f] end).
Proof.
  intros Hi Hf. unfold amount_text. rewrite app_assoc.
  set (h := _ ++ i). assert ("."%char ∉ h) as Hh.
  { unfold h. rewrite elem_of_app. intros [Hc|Hc].
    - by destruct neg; simpl in Hc; [apply list_elem_of_singleton in Hc|apply not_elem_of_nil in Hc].
    - revert Hc. by apply all_digits_not_in. }
  destruct f as [|c f].
  - rewrite app_nil_r. by apply split_bytes_none.
  - rewrite split_bytes_app by done. f_equal. apply split_bytes_none.
    by apply all_digits_not_in.
Qed.

Lemma big_SetString_signed neg i :
  i ≠ [] → all_digits i →
  big_SetString (sign_text neg ++ i) =
    Some (if neg then - digits_value i else digits_value i).
Proof.
  intros Hne Hi. destruct neg; simpl.
  - by rewrite parse_digits_ne.
  - rewrite big_SetString_digits by done. by apply parse_digits_ne.
Qed.

Lemma NewDecimalFromString_complete p neg i f :
  0 ≤ p ≤ 18 → well_formed_amount p i f →
  NewDecimalFromString (b2s (amount_text neg i f)) p =
    Ret (mkDecimal p (amount_value p neg i f)).
Proof.
  intros Hp (Hne & Hi & Hf & Hlen). unfold NewDecimalFromString.
  rewrite bool_decide_eq_false_2.
  2:{ intros E. apply (f_equal s2b) in E. rewrite s2b_b2s in E.
      unfold amount_text in E. destruct neg; simpl in E; [done|].
      by apply app_eq_nil in E as [? _]. }
  rewrite s2b_b2s, amount_text_parts by done. cbn [nth].
  rewrite (proj2 (Nat.ltb_ge _ _)) by (destruct f; simpl; lia).
  rewrite bool_decide_eq_false_2 by (destruct neg; simpl; [done|done]).
  assert (starts_with_sign true (sign_text neg ++ i) = false) as ->.
  { destruct neg; [done|]. destruct i as [|c i]; [done|].
    apply Forall_cons in Hi as [Hc _]. apply is_digit_not_sep in Hc as (?&?&?). simpl.
    by rewrite !bool_decide_eq_false_2 by done. }
  cbn [orb]. rewrite big_SetString_signed by done.
  rewrite precisionFactor_ok by done.
  assert ((if (length (((sign_text neg ++ i) ::
      match f with [] => [] | _ => [f] end)) =? 2)%nat
    then parse_decimal_part (b2s (amount_text neg i f)) p (sign_text neg ++ i)
      (match f with [] => [] | _ => f end)
    else Ret 0) = Ret (digits_value f * 10 ^ (p - blen f))) as E.
  { destruct f as [|c f]; simpl length; cbn [Nat.eqb].
    - f_equal.
    - by rewrite parse_decimal_part_ok. }
  assert (nth 0 (match f with [] => [] | _ => [f] end) [] = match f with [] => [] | _ => f end)
    as -> by by destruct f.
  rewrite E. cbn. do 2 f_equal.
  unfold amount_value. pose proof (digits_value_nonneg i).
  pose proof (Z.pow_pos_nonneg 10 p ltac:(lia) ltac:(lia)).
  destruct neg; cbn [andb].
  - destruct (Z.eqb_spec (digits_value i * 10 ^ p) 0); cbn [negb].
    + rewrite (proj2 (Z.ltb_ge _ _)) by lia. lia.
    + rewrite (proj2 (Z.ltb_lt _ _)) by lia. lia.
  - rewrite (proj2 (Z.ltb_ge _ _)) by lia. done.
Qed.

Lemma split_bytes_join sep l a b k :
  (split_bytes sep l = [a] → l = a) ∧
  (split_bytes sep l = [a; b] → l = a ++ sep :: b) ∧
  split_bytes sep l ≠ [] ∧
  (split_bytes sep l = k → (2 <? length k)%nat = false →
     (∃ a, k = [a]) ∨ (∃ a b, k = [a; b])).
Proof.
  revert a b k. induction l as [|c l IH]; intros a b k; simpl.
  - split_and!; try done; [congruence|]. intros <- _. eauto.
  - case_bool_decide as Hc; subst.
    + pose proof (IH a b k) as (_ & _ & Hne & _).
      pose proof (IH b b k) as (H1 & _ & _ & _).
      destruct (split_bytes sep l) as [|x [|y xs]] eqn:E; [done| |].
      * split_and!; [done| |done|intros <- _; eauto].
        intros [= <- ->]. simpl. by rewrite H1.
      * split_and!; try done. intros <-. by simpl.
    + destruct (split_bytes sep l) as [|x xs] eqn:E.
      { by destruct (IH a b k) as (_ & _ & ? & _). }
      destruct (IH x b k) as (H1 & H2 & _ & _).
      destruct (IH x b (x :: xs)) as (_ & _ & _ & H3).
      split_and!; [| |done|].
      * intros [= <- ->]. by rewrite <-H1.
      * intros [= <- ->]. simpl. by rewrite <-H2.
      * intros <- Hk. destruct (H3 eq_refl Hk) as [(a' & [= -> ->])|(a' & b' & [= -> ->])]; eauto.
Qed.

Lemma big_SetString_inv l n :
  big_SetString l = Some n → starts_with_sign true l = false →
  ∃ neg i, l = sign_text neg ++ i ∧ i ≠ [] ∧ all_digits i.
Proof.
  intros E Hs. assert (∀ k v, parse_digits k = Some v → k ≠ [] ∧ all_digits k) as Hp.
  { intros k v Hk. split; [by intros ->|]. by eapply parse_digits_all. }
  destruct l as [|c l]; [done|].
  destruct (decide (c = "-"%char)) as [->|Hc].
  - simpl in E. destruct (parse_digits l) eqn:El; [|done].
    exists true, l. by destruct (Hp _ _ El).
  - exists false, (c :: l). split; [done|].
    assert (c ≠ "+"%char).
    { by intros ->. }
    eapply Hp. rewrite <-E. unfold big_SetString. repeat case_match; congruence.
Qed.

Lemma parse_decimal_part_inv s p i f r :
  parse_decimal_part s p i f = Ret r →
  f ≠ [] ∧ all_digits f ∧ blen f ≤ p.
Proof.
  unfold parse_decimal_part. case_match eqn:E1; [done|].
  apply orb_false_iff in E1 as [Hne%bool_decide_eq_false Hs].
  case_match eqn:E2; [done|]. apply Z.ltb_ge in E2.
  case_match eqn:E3; [|done]. intros _.
  apply big_SetString_inv in E3 as (neg & k & E & _ & Hk).
  2:{ destruct f as [|c f]; [done|]. simpl in *.
      apply orb_false_iff in Hs as [-> _]. done. }
  split_and!; [done| |done]. destruct neg.
  - destruct f as [|c f]; [done|]. simplify_eq/=.
  - simpl in E. subst k. by apply all_digits_app in Hk as [? _].
Qed.

Lemma NewDecimalFromString_sound s p d :
  0 ≤ p ≤ 18 → NewDecimalFromString s p = Ret d →
  ∃ neg i f, s = b2s (amount_text neg i f) ∧ well_formed_amount p i f.
Proof.
  intros Hp. unfold NewDecimalFromString.
  case_bool_decide as Hs; [done|].
  destruct (split_bytes_join "."%char (s2b s) (nth 0 (split_bytes "."%char (s2b s)) [])
    (nth 1 (split_bytes "."%char (s2b s)) []) (split_bytes "."%char (s2b s)))
    as (J1 & J2 & Jne & Jk).
  case_match eqn:E0; [done|]. specialize (Jk eq_refl eq_refl).
  case_match eqn:E1; [done|]. apply orb_false_iff in E1 as [Hi1%bool_decide_eq_false Hi2].
  case_match eqn:E2; [|done]. apply big_SetString_inv in E2 as (neg & i & Ei & Hi & Hid); [|done].
  destruct Jk as [(a & Ea)|(a & b & Ea)]; rewrite Ea in *; simpl in *.
  - intros _. exists neg, i, []. split.
    + rewrite <-(b2s_s2b s). f_equal. unfold amount_text. rewrite app_nil_r.
      rewrite <-Ei. by apply J1.
    + split_and!; [done|done|constructor|]. unfold blen; simpl; lia.
  - destruct (parse_decimal_part s p a b) as [r| |] eqn:Er; [|done|done]. intros _.
    apply parse_decimal_part_inv in Er as (Hb & Hbd & Hbl). exists neg, i, b. split; [|done].
    rewrite <-(b2s_s2b s). f_equal. unfold amount_text. rewrite app_assoc, <-Ei.
    destruct b; [done|]. by apply J2.
Qed.

(** C30: [NewDecimalFromString] accepts exactly the well-formed amounts (an optional
    sign, digits, and a point only before decimals, no more of them than the
    precision) and returns their value at that precision; everything else is an
    error. *)
Theorem NewDecimalFromString_iff s p d :
  0 ≤ p ≤ 18 →
  NewDecimalFromString s p = Ret d ↔
  ∃ neg i f, s = b2s (amount_text neg i f) ∧ well_formed_amount p i f ∧
             d = mkDecimal p (amount_value p neg i f).
Proof.
  intros Hp. split.
  - intros E. destruct (NewDecimalFromString_sound s p d Hp E) as (neg & i & f & -> & Hwf).
    exists neg, i, f. split_and!; [done|done|].
    rewrite NewDecimalFromString_complete in E by done. congruence.
  - intros (neg & i & f & -> & Hwf & ->). by apply NewDecimalFromString_complete.
Qed.
Lemma NewDecimalFromString_iff_witness :
  ∃ neg i f, "12.5" = b2s (amount_text neg i f) ∧ well_formed_amount 18 i f.
Proof.
  destruct (proj1 (NewDecimalFromString_iff "12.5" 18 (mkDecimal 18 12500000000000000000)
    ltac:(lia)) ltac:(by vm_compute)) as (neg & i & f & Ht & Hw & _).
  by exists neg, i, f.
Defined.

Lemma NewDecimalFromString_precision s p d :
  0 ≤ p ≤ 18 → NewDecimalFromString s p = Ret d → Precition d = p.
Proof.
  intros Hp E. destruct (NewDecimalFromString_sound s p d Hp E) as (neg & i & f & -> & Hwf).
  rewrite NewDecimalFromString_complete in E by done. by simplify_eq.
Qed.

(** The parser panics on no input (for the precisions the indexer stores). *)
Lemma NewDecimalFromString_no_panic s p w :
  0 ≤ p ≤ 18 → NewDecimalFromString s p ≠ Panic w.
Proof.
  intros Hp. unfold NewDecimalFromString, parse_decimal_part.
  rewrite precisionFactor_ok by done. repeat (case_match; try done); simplify_eq/=;
  repeat (case_match; simplify_eq/=; try done).
Qed.

(** ** Printing *)
Lemma quot_rem_pos v p :
  0 ≤ v → 0 ≤ p →
  Z.quot v (10 ^ p) = v / 10 ^ p ∧ Z.rem v (10 ^ p) = v mod 10 ^ p.
Proof.
  intros. pose proof (Z.pow_pos_nonneg 10 p).
  by rewrite Z.quot_div_nonneg, Z.rem_mod_nonneg by lia.
Qed.

(** The printed text of a value, as sign, integer digits and decimal digits. *)
Definition frac_digits (p v : Z) : bytes :=
  if v mod 10 ^ p =? 0 then [] else trim_right zero_byte (pad_digits p (v mod 10 ^ p)).

Lemma frac_digits_spec p v :
  0 ≤ p → 0 ≤ v →
  all_digits (frac_digits p v) ∧ blen (frac_digits p v) ≤ p ∧
  (v mod 10 ^ p = 0 ↔ frac_digits p v = []) ∧
  digits_value (frac_digits p v) * 10 ^ (p - blen (frac_digits p v)) = v mod 10 ^ p.
Proof.
  intros Hp Hv. unfold frac_digits. pose proof (Z.pow_pos_nonneg 10 p ltac:(lia) Hp) as H10.
  pose proof (Z.mod_pos_bound v (10 ^ p) H10) as Hm.
  destruct (Z.eqb_spec (v mod 10 ^ p) 0) as [E|E].
  { rewrite E. split_and!; [constructor|unfold blen; simpl; lia|done|done]. }
  assert (0 < p).
  { destruct (decide (p = 0)) as [->|]; [|lia]. by rewrite Z.mod_1_r in E. }
  destruct (pad_digits_spec p (v mod 10 ^ p) Hm ltac:(lia)) as [Hl Hpd].
  set (w := pad_digits _ _) in *.
  destruct (trim_right_spec zero_byte w) as (n & Ew & _).
  set (t := trim_right _ _) in *.
  assert (all_digits w) as Hw by (apply (parse_digits_go_is_Some 0); eauto).
  rewrite Ew in Hw. apply all_digits_app in Hw as [Ht _].
  assert (blen t + Z.of_nat n = p) as Hlen.
  { rewrite <-Hl, Ew. unfold blen. rewrite length_app, length_replicate. lia. }
  assert (digits_value t * 10 ^ (p - blen t) = v mod 10 ^ p) as Hval.
  { rewrite Ew, parse_digits_go_app, (parse_digits_value t Ht) in Hpd.
    rewrite (proj2 (parse_digits_go_zeros _ _ [])) in Hpd.
    replace (p - blen t) with (Z.of_nat n) by lia. congruence. }
  split_and!; [done|lia| |done].
  split; [done|]. intros Et. rewrite Et in Hval. exfalso. apply E. rewrite <-Hval.
  unfold digits_value. simpl. lia.
Qed.

Lemma Decimal_String_text p v :
  0 ≤ p ≤ 18 →
  Decimal_String (Some (mkDecimal p v)) =
    Ret (b2s (amount_text (v <? 0) (uint_digits (Z.abs v / 10 ^ p)) (frac_digits p (Z.abs v)))).
Proof.
  intros Hp. cbn [Decimal_String Precition Val].
  rewrite precisionFactor_ok by done. cbn.
  destruct (quot_rem_pos (Z.abs v) p) as [-> ->]; [lia|lia|].
  assert (0 ≤ Z.abs v / 10 ^ p) as Hq.
  { apply Z.div_pos; [lia|]. apply Z.pow_pos_nonneg; lia. }
  assert (int_string (Z.abs v / 10 ^ p) = b2s (uint_digits (Z.abs v / 10 ^ p))) as ->.
  { unfold int_string. by rewrite (proj2 (Z.ltb_ge _ _)). }
  destruct (frac_digits_spec p (Z.abs v) ltac:(lia) ltac:(lia)) as (_ & _ & Hnil & _).
  unfold amount_text, sign_text. rewrite b2s_app.
  destruct (Z.eqb_spec (Z.abs v mod 10 ^ p) 0) as [E|E].
  - rewrite (proj1 Hnil E), app_nil_r. by destruct (v <? 0).
  - assert (frac_digits p (Z.abs v) = trim_right zero_byte (pad_digits p (Z.abs v mod 10 ^ p))) as Ef.
    { unfold frac_digits. by rewrite (proj2 (Z.eqb_neq _ _)). }
    rewrite <-Ef. destruct (frac_digits p (Z.abs v)) as [|c f]; [exfalso; by apply E, Hnil|].
    rewrite b2s_app. by destruct (v <? 0).
Qed.

Lemma printed_well_formed p v :
  0 ≤ p ≤ 18 → 0 ≤ v →
  well_formed_amount p (uint_digits (v / 10 ^ p)) (frac_digits p v) ∧
  digits_value (uint_digits (v / 10 ^ p)) = v / 10 ^ p.
Proof.
  intros Hp Hv.
  assert (0 ≤ v / 10 ^ p) as Hq by (apply Z.div_pos; [lia|apply Z.pow_pos_nonneg; lia]).
  destruct (frac_digits_spec p v ltac:(lia) ltac:(lia)) as (Hd & Hl & _ & _).
  split.
  - split_and!; [apply uint_digits_ne|by apply uint_digits_all|done|done].
  - pose proof (parse_uint_digits _ Hq) as E. unfold digits_value.
    unfold parse_digits in E. destruct (uint_digits _); [done|]. by rewrite E.
Qed.

(** C31: Printing a decimal and parsing it again gives the same value, except that a
    value strictly between -1 and 0 comes back positive: the parser drops the sign
    when the integer part is zero. *)
Theorem NewDecimalFromString_String p v :
  0 ≤ p ≤ 18 →
  (s ← Decimal_String (Some (mkDecimal p v)); NewDecimalFromString s p) =
    Ret (mkDecimal p (if (- 10 ^ p <? v) && (v <? 0) then - v else v)).
Proof.
  intros Hp. rewrite Decimal_String_text by done. cbn.
  destruct (printed_well_formed p (Z.abs v) Hp ltac:(lia)) as [Hwf Hq].
  rewrite NewDecimalFromString_complete by done. do 2 f_equal.
  unfold amount_value; cbv zeta. rewrite Hq.
  destruct (frac_digits_spec p (Z.abs v) ltac:(lia) ltac:(lia)) as (_ & _ & _ & ->).
  pose proof (Z.pow_pos_nonneg 10 p ltac:(lia) ltac:(lia)) as H10.
  assert (Z.abs v / 10 ^ p * 10 ^ p + Z.abs v mod 10 ^ p = Z.abs v) as Hdm.
  { pose proof (Z.div_mod (Z.abs v) (10 ^ p)). lia. }
  rewrite Hdm. pose proof (Z.mod_pos_bound (Z.abs v) (10 ^ p) H10).
  destruct (Z.ltb_spec v 0); cbn [andb].
  - destruct (Z.eqb_spec (Z.abs v / 10 ^ p * 10 ^ p) 0) as [E|E]; cbn [negb].
    + rewrite (proj2 (Z.ltb_lt _ _)) by lia. cbn. lia.
    + assert (10 ^ p ≤ Z.abs v).
      { apply Z.le_ngt. intros Hlt. apply E. by rewrite Z.div_small by lia. }
      rewrite (proj2 (Z.ltb_ge _ _)) by lia. cbn. lia.
  - rewrite andb_false_r. lia.
Qed.
Lemma NewDecimalFromString_String_witness :
  (s ← Decimal_String (Some (mkDecimal 18 (- 5 * 10 ^ 17))); NewDecimalFromString s 18) =
    Ret (mkDecimal 18 (5 * 10 ^ 17)).
Proof. exact (NewDecimalFromString_String 18 (- 5 * 10 ^ 17) ltac:(lia)). Defined.

(** C37: The printed form of any amount in range (up to the largest uint64 at its
    precision) has between 1 and 39 characters, so the history codec, which stores
    amounts below 40 bytes, never drops one. *)
Theorem Decimal_String_length p v :
  0 ≤ p ≤ 18 → 0 ≤ v ≤ max_uint64 * 10 ^ p →
  ∃ s, Decimal_String (Some (mkDecimal p v)) = Ret s ∧ 0 < len s < 40.
Proof.
  intros Hp Hv. eexists. split; [by apply Decimal_String_text|].
  rewrite len_b2s. pose proof (Z.pow_pos_nonneg 10 p ltac:(lia) ltac:(lia)) as H10.
  rewrite (proj2 (Z.ltb_ge _ _)) by lia. rewrite Z.abs_eq by lia.
  destruct (frac_digits_spec p v ltac:(lia) ltac:(lia)) as (_ & Hl & _ & _).
  unfold amount_text, sign_text. cbn [app].
  assert (length (uint_digits (v / 10 ^ p)) ≤ 20)%nat as Hi.
  { apply uint_digits_len; [|lia]. split; [apply Z.div_pos; lia|].
    apply Z.div_lt_upper_bound; [lia|]. change (10 ^ Z.of_nat 20) with (10 ^ 20).
    assert (max_uint64 < 10 ^ 20) by done. nia. }
  assert (0 < length (uint_digits (v / 10 ^ p)))%nat.
  { pose proof (uint_digits_ne (v / 10 ^ p)). destruct (uint_digits _); simpl; [done|lia]. }
  unfold blen in *. rewrite length_app. destruct (frac_digits p v); simpl in *; lia.
Qed.
Lemma Decimal_String_length_witness :
  ∃ s, Decimal_String (Some (mkDecimal 18 (max_uint64 * 10 ^ 18 - 1))) = Ret s ∧ 0 < len s < 40.
Proof. apply (Decimal_String_length 18 (max_uint64 * 10 ^ 18 - 1)); unfold max_uint64; lia. Defined.

Example dec_neg_half : NewDecimalFromString "-0.5" 18 = Ret (mkDecimal 18 (5 * 10 ^ 17)).
Proof. reflexivity. Qed.
