(* ===== verification/GoCrypto.v ===== *)
(** * crypto/sha256 and encoding/base64 of the Go standard library

    As far as the checks of signed functions use them: one SHA-256 hash and the
    decoding of standard, padded base64. *)
From S2P Require Import Prelude GoStd.

(** ** SHA-256 (FIPS 180-4), on 32-bit words *)
Module Sha256.
Definition w32 (z : Z) : Z := z mod 2 ^ 32.
Definition rotr (n x : Z) : Z := Z.lor (Z.shiftr x n) (w32 (Z.shiftl x (32 - n))).
Definition not32 (x : Z) : Z := Z.lxor x (2 ^ 32 - 1).
Definition ch (x y z : Z) : Z := Z.lxor (Z.land x y) (Z.land (not32 x) z).
Definition maj (x y z : Z) : Z := Z.lxor (Z.lxor (Z.land x y) (Z.land x z)) (Z.land y z).
Definition big0 (x : Z) : Z := Z.lxor (Z.lxor (rotr 2 x) (rotr 13 x)) (rotr 22 x).
Definition big1 (x : Z) : Z := Z.lxor (Z.lxor (rotr 6 x) (rotr 11 x)) (rotr 25 x).
Definition small0 (x : Z) : Z := Z.lxor (Z.lxor (rotr 7 x) (rotr 18 x)) (Z.shiftr x 3).
Definition small1 (x : Z) : Z := Z.lxor (Z.lxor (rotr 17 x) (rotr 19 x)) (Z.shiftr x 10).

(** The constants: 32 bits after the point of the cube roots of the first 64 primes,
    and of the square roots of the first eight. *)
Definition is_prime (n : Z) : bool := forallb (λ d, negb (n mod d =? 0)) (seqZ 2 (n - 2)).
Definition primes : list Z := base.filter (λ n, is_prime n = true) (seqZ 2 310).
(** The largest [x] below [2 ^ n + acc] with [x ^ e <= v]. *)
Fixpoint root (e : Z) (n : nat) (v acc : Z) : Z :=
  match n with
  | O => acc
  | S n => let x := acc + 2 ^ Z.of_nat n in root e n v (if x ^ e <=? v then x else acc)
  end.
Definition root_bits (e p : Z) : Z := w32 (root e 40 (p * 2 ^ (32 * e)) 0).
Definition K : list Z := Eval vm_compute in map (root_bits 3) primes.
Definition H0 : list Z := Eval vm_compute in map (root_bits 2) (take 8 primes).

Definition be_value (l : bytes) : Z := foldl (λ acc c, acc * 256 + Z_of_byte c) 0 l.
Fixpoint be_bytes (n : nat) (z : Z) : bytes :=
  match n with O => [] | S n => be_bytes n (z / 256) ++ [byte_of_Z (z mod 256)] end.

(** Cut into pieces of [n] bytes. *)
Fixpoint chunks (fuel n : nat) (l : bytes) : list bytes :=
  match fuel, l with
  | S fuel, _ :: _ => take n l :: chunks fuel n (drop n l)
  | _, _ => []
  end.

(** The 64 words of a block; [rev_words] holds the words so far, the last first. *)
Fixpoint schedule (n : nat) (rev_words : list Z) : list Z :=
  match n with
  | O => reverse rev_words
  | S n =>
    let w i := nth i rev_words 0 in
    schedule n (w32 (small1 (w 1%nat) + w 6%nat + small0 (w 14%nat) + w 15%nat) :: rev_words)
  end.

Definition round (s : list Z) (kw : Z * Z) : list Z :=
  match s with
  | [a; b; c; d; e; f; g; h] =>
    let t1 := h + big1 e + ch e f g + kw.1 + kw.2 in
    let t2 := big0 a + maj a b c in
    [w32 (t1 + t2); a; b; c; w32 (d + t1); e; f; g]
  | _ => s
  end.
Definition compress (s : list Z) (block : bytes) : list Z :=
  let w := schedule 48 (reverse (map be_value (chunks 16 4 block))) in
  zip_with (λ x y, w32 (x + y)) s (foldl round s (zip K w)).

Definition pad (l : bytes) : bytes :=
  l ++ [byte_of_Z 128] ++ replicate (Nat.modulo (64 - Nat.modulo (length l + 9) 64) 64) (byte_of_Z 0)
    ++ be_bytes 8 (blen l * 8).
Definition sum (l : bytes) : bytes :=
  let p := pad l in
  concat (map (be_bytes 4) (foldl compress H0 (chunks (length p) 64 p))).
End Sha256.

(** ** Base64 *)
Definition base64_value (c : ascii) : option Z :=
  let z := Z_of_byte c in
  if (65 <=? z) && (z <=? 90) then Some (z - 65)
  else if (97 <=? z) && (z <=? 122) then Some (z - 71)
  else if (48 <=? z) && (z <=? 57) then Some (z + 4)
  else if z =? 43 then Some 62
  else if z =? 47 then Some 63
  else None.
Definition is_pad (c : ascii) : bool := Z_of_byte c =? 61.
Definition is_newline (c : ascii) : bool := (Z_of_byte c =? 10) || (Z_of_byte c =? 13).

(** Groups of four; the last may end in one or two padding characters. *)
Fixpoint base64_groups (l : bytes) : option bytes :=
  match l with
  | [] => Some []
  | a :: b :: c :: d :: l =>
    x ← base64_value a;
    y ← base64_value b;
    let first := byte_of_Z (x * 4 + y / 16) in
    if is_pad c then
      if is_pad d && bool_decide (l = []) then Some [first] else None
    else
      z ← base64_value c;
      let second := byte_of_Z (y mod 16 * 16 + z / 4) in
      if is_pad d then
        if bool_decide (l = []) then Some [first; second] else None
      else
        w ← base64_value d;
        rest ← base64_groups l;
        Some (first :: second :: byte_of_Z (z mod 4 * 64 + w) :: rest)
  | _ => None
  end.
(** [base64.StdEncoding.DecodeString]: line breaks are skipped. *)
Definition base64_DecodeString (s : string) : option bytes :=
  base64_groups (base.filter (λ c, is_newline c = false) (s2b s)).

(** ** Checks against published values *)
Example sha256_abc :
  b2s (hex_encode (Sha256.sum (s2b "abc"))) =
    "ba7816bf8f01cfea414140de5dae2223b00361a396177a9cb410ff61f20015ad".
Proof. by vm_compute. Qed.
Example sha256_two_blocks :
  b2s (hex_encode (Sha256.sum (s2b "abcdbcdecdefdefgefghfghighijhijkijkljklmklmnlmnomnopnopq"))) =
    "248d6a61d20638b8e5c026930c3e6039a33ce45964ff2167f6ecedd419db06c1".
Proof. by vm_compute. Qed.
Example base64_foobar : b2s <$> base64_DecodeString "Zm9vYmE=" = Some "fooba".
Proof. by vm_compute. Qed.
