(* ===== verification/Bip322.v ===== *)
(** * utils/bip322/verify.go: messages signed as a transaction that spends nothing

    The virtual transaction of BIP-322 is built from the script and the tagged hash of
    the message; transaction hashes, script building and the script engine are
    btcsuite's and are parameters. *)
From S2P Require Import Prelude GoStd GoCrypto.

(** [wire.MsgTx] as the code fills it. *)
Record OutPoint := mkOutPoint { op_hash : bytes; op_index : Z }.
Record TxIn := mkTxIn {
    PreviousOutPoint : OutPoint;
    SignatureScript : bytes;
    Witness : list bytes;
    Sequence : Z;
  }.
#[global] Instance TxIn_eta : EtaRecord TxIn := λ r,
    mkTxIn (PreviousOutPoint r) (SignatureScript r) (Witness r) (Sequence r).
Record TxOut := mkTxOut { tx_value : Z; tx_script : bytes }.
Record MsgTx := mkMsgTx { tx_version : Z; tx_ins : list TxIn; tx_outs : list TxOut }.

(** What [txscript.ScriptBuilder] is given. *)
Inductive script_item : Type :=
  | AddOp (op : Z)
  | AddData (data : bytes).

Class Btcd := {
  (** [tx.TxHash()] *)
  TxHash : MsgTx → bytes;
  (** [builder.Script()] *)
  build_script : list script_item → outcome bytes;
  (** [NewEngine(pkScript, tx, 0, StandardVerifyFlags, ...)] for an output of value 0,
      and [Execute]: no error. *)
  engine_accepts : bytes → MsgTx → bool;
}.

Definition GetTagSha256 (data : bytes) : bytes :=
  let hashTag := Sha256.sum (s2b "BIP0322-signed-message") in
  Sha256.sum (hashTag ++ hashTag ++ data).

Section bip322.
Context `{Btcd}.

Definition OP_0 : Z := 0.
Definition OP_RETURN : Z := 106.
Definition MaxPrevOutIndex : Z := 4294967295.

Definition PrepareTx (pkScript : bytes) (message : string) : outcome MsgTx :=
  scriptSig ← build_script [AddOp OP_0; AddData (GetTagSha256 (s2b message))];
  let prevOut := mkOutPoint (replicate 32 (byte_of_Z 0)) MaxPrevOutIndex in
  let toSpend := mkMsgTx 0 [mkTxIn prevOut scriptSig [] 0] [mkTxOut 0 pkScript] in
  scriptPk ← build_script [AddOp OP_RETURN];
  Ret (mkMsgTx 0 [mkTxIn (mkOutPoint (TxHash toSpend) 0) [] [] 0] [mkTxOut 0 scriptPk]).

(** [toSign.TxIn[0].Witness = witness] *)
Definition with_witness (witness : list bytes) (tx : MsgTx) : outcome MsgTx :=
  match tx_ins tx with
  | i :: ins => Ret (mkMsgTx (tx_version tx) ((i <| Witness := witness |>) :: ins) (tx_outs tx))
  | [] => Panic "index out of range"
  end.

Definition VerifySignature (witness : list bytes) (pkScript : bytes) (message : string) : outcome bool :=
  match PrepareTx pkScript message with
  | Panic p => Panic p
  | Error _ => Ret false
  | Ret toSign =>
    toSign ← with_witness witness toSign;
    Ret (engine_accepts pkScript toSign)
  end.
End bip322.
