(* ===== verification/Script.v ===== *)
(** * utils/script/compress.go: variable-length quantities, compressed scripts
    and compressed amounts

    A function that writes into a byte slice is given the room left in that
    slice and returns the bytes written; writing past the end panics, except in
    [copy], which truncates.  Slices passed to the decoders have no spare
    capacity. *)
From S2P Require Import Prelude GoStd.

(** ** VLQ *)

(** Loop of [serializeSizeVLQ]; ten rounds are enough below [2^64]. *)
Definition vlq_fuel : nat := 10.

Fixpoint serializeSizeVLQ_go (fuel : nat) (n size : Z) : Z :=
  match fuel with
  | O => size
  | S fuel =>
    if 127 <? n then serializeSizeVLQ_go fuel (u64 (Z.shiftr n 7 - 1)) (size + 1) else size
  end.
Definition serializeSizeVLQ (n : Z) : Z := serializeSizeVLQ_go vlq_fuel n 1.

(** The bytes in the order the loop of [PutVLQ] writes them, low group first. *)
Fixpoint PutVLQ_groups (fuel : nat) (first : bool) (n : Z) : bytes :=
  match fuel with
  | O => []
  | S fuel =>
    let highBitMask := if first then 0 else 128 in
    byte_of_Z (Z.lor (Z.land n 127) highBitMask) ::
    (if n <=? 127 then [] else PutVLQ_groups fuel false (u64 (Z.shiftr n 7 - 1)))
  end.
(** The bytes of [n] after the in-place reversal. *)
Definition vlq (n : Z) : bytes := rev (PutVLQ_groups vlq_fuel true n).

Definition PutVLQ (room : Z) (n : Z) : outcome bytes :=
  let b := vlq n in if room <? blen b then Panic "index out of range" else Ret b.

Fixpoint DeserializeVLQ_go (n size : Z) (serialized : bytes) : Z * Z :=
  match serialized with
  | [] => (n, size)
  | val :: rest =>
    let size := size + 1 in
    let n := u64 (Z.lor (Z.shiftl n 7) (Z.land (Z_of_byte val) 127)) in
    if negb (Z.land (Z_of_byte val) 128 =? 128) then (n, size)
    else DeserializeVLQ_go (u64 (n + 1)) size rest
  end.
Definition DeserializeVLQ (serialized : bytes) : Z * Z := DeserializeVLQ_go 0 0 serialized.

(** ** Scripts *)
Definition OP_DATA_20 : Z := 20.
Definition OP_DATA_33 : Z := 33.
Definition OP_DATA_65 : Z := 65.
Definition OP_DUP : Z := 118.
Definition OP_EQUAL : Z := 135.
Definition OP_EQUALVERIFY : Z := 136.
Definition OP_HASH160 : Z := 169.
Definition OP_CHECKSIG : Z := 172.

Definition cstPayToPubKeyHash : Z := 0.
Definition cstPayToScriptHash : Z := 1.
Definition cstPayToPubKeyComp2 : Z := 2.
Definition cstPayToPubKeyComp3 : Z := 3.
Definition cstPayToPubKeyUncomp4 : Z := 4.
Definition cstPayToPubKeyUncomp5 : Z := 5.
Definition numSpecialScripts : Z := 6.

Definition isPubKeyHash (script : bytes) : bool * bytes :=
  if (length script =? 25)%nat && byte_is script 0 OP_DUP && byte_is script 1 OP_HASH160 &&
     byte_is script 2 OP_DATA_20 && byte_is script 23 OP_EQUALVERIFY &&
     byte_is script 24 OP_CHECKSIG
  then (true, slice script 3 23) else (false, []).

Definition isScriptHash (script : bytes) : bool * bytes :=
  if (length script =? 23)%nat && byte_is script 0 OP_HASH160 && byte_is script 1 OP_DATA_20 &&
     byte_is script 22 OP_EQUAL
  then (true, slice script 2 22) else (false, []).

Definition isPubKey (script : bytes) : bool * bytes :=
  if (length script =? 35)%nat && byte_is script 0 OP_DATA_33 && byte_is script 34 OP_CHECKSIG &&
     (byte_is script 1 2 || byte_is script 1 3)
  then (true, slice script 1 34)
  else if (length script =? 67)%nat && byte_is script 0 OP_DATA_65 &&
     byte_is script 66 OP_CHECKSIG && byte_is script 1 4
  then (true, slice script 1 66) else (false, []).

Definition compressedScriptSize (pkScript : bytes) : Z :=
  if (isPubKeyHash pkScript).1 then 21
  else if (isScriptHash pkScript).1 then 21
  else let '(valid, serializedPubKey) := isPubKey pkScript in
  if valid then (if byte_is serializedPubKey 0 4 then 65 else 33)
  else serializeSizeVLQ (blen pkScript + numSpecialScripts) + blen pkScript.

Definition DecodeCompressedScriptSize (serialized : bytes) : Z :=
  let '(scriptSize, bytesRead) := DeserializeVLQ serialized in
  if bytesRead =? 0 then 0
  else if scriptSize =? cstPayToPubKeyHash then 21
  else if scriptSize =? cstPayToScriptHash then 21
  else if (scriptSize =? cstPayToPubKeyComp2) || (scriptSize =? cstPayToPubKeyComp3) then 33
  else if (scriptSize =? cstPayToPubKeyUncomp4) || (scriptSize =? cstPayToPubKeyUncomp5) then 65
  else i64 (scriptSize - numSpecialScripts + bytesRead).

(** The bytes written and the length returned. *)
Definition PutCompressedScript (room : Z) (pkScript : bytes) : outcome (bytes * Z) :=
  let fixed (n : Z) (b : bytes) : outcome (bytes * Z) :=
    if room <? n then Panic "slice bounds out of range" else Ret (b, n) in
  let '(isPKH, hash) := isPubKeyHash pkScript in
  if isPKH then fixed 21 (byte_of_Z cstPayToPubKeyHash :: hash)
  else let '(isSH, hash) := isScriptHash pkScript in
  if isSH then fixed 21 (byte_of_Z cstPayToScriptHash :: hash)
  else
    let '(valid, serializedPubKey) := isPubKey pkScript in
    if valid && (byte_is serializedPubKey 0 2 || byte_is serializedPubKey 0 3)
    then fixed 33 (slice serializedPubKey 0 33)
    else if valid && byte_is serializedPubKey 0 4
    then fixed 65 (slice serializedPubKey 0 65)
    else
      v ← PutVLQ room (blen pkScript + numSpecialScripts);
      Ret (v ++ take (Z.to_nat (room - blen v)) pkScript, blen v + blen pkScript).

(** [l[a:a+n]], which panics past the end. *)
Definition subslice (l : bytes) (a n : Z) : outcome bytes :=
  if (0 <=? a) && (0 <=? n) && (a + n <=? blen l)
  then Ret (slice l (Z.to_nat a) (Z.to_nat (a + n))) else Panic "slice bounds out of range".

Definition DecompressScript (compressedPkScript : bytes) : outcome bytes :=
  if bool_decide (compressedPkScript = []) then Ret [] else
  let '(encodedScriptSize, bytesRead) := DeserializeVLQ compressedPkScript in
  if encodedScriptSize =? cstPayToPubKeyHash then
    h ← subslice compressedPkScript bytesRead 20;
    Ret (map byte_of_Z [OP_DUP; OP_HASH160; OP_DATA_20] ++ h ++
         map byte_of_Z [OP_EQUALVERIFY; OP_CHECKSIG])
  else if encodedScriptSize =? cstPayToScriptHash then
    h ← subslice compressedPkScript bytesRead 20;
    Ret (map byte_of_Z [OP_HASH160; OP_DATA_20] ++ h ++ map byte_of_Z [OP_EQUAL])
  else if (encodedScriptSize =? cstPayToPubKeyComp2) ||
          (encodedScriptSize =? cstPayToPubKeyComp3) then
    h ← subslice compressedPkScript bytesRead 32;
    Ret (map byte_of_Z [OP_DATA_33; encodedScriptSize] ++ h ++ map byte_of_Z [OP_CHECKSIG])
  else if (encodedScriptSize =? cstPayToPubKeyUncomp4) ||
          (encodedScriptSize =? cstPayToPubKeyUncomp5) then
    if blen compressedPkScript - bytesRead <? 64 then Ret []
    else
      h ← subslice compressedPkScript bytesRead 64;
      Ret (map byte_of_Z [OP_DATA_65; encodedScriptSize] ++ h ++ map byte_of_Z [OP_CHECKSIG])
  else
    let scriptSize := i64 (encodedScriptSize - numSpecialScripts) in
    if scriptSize <? 0 then Panic "makeslice: len out of range"
    else subslice compressedPkScript bytesRead scriptSize.

(** ** Amounts *)
Fixpoint strip_zeros (fuel : nat) (amount exponent : Z) : Z * Z :=
  match fuel with
  | O => (amount, exponent)
  | S fuel =>
    if (amount mod 10 =? 0) && (exponent <? 9)
    then strip_zeros fuel (amount / 10) (exponent + 1) else (amount, exponent)
  end.

Definition CompressTxOutAmount (amount : Z) : Z :=
  if amount =? 0 then 0
  else
    let '(amount, exponent) := strip_zeros 9 amount 0 in
    if exponent <? 9 then
      let lastDigit := amount mod 10 in
      u64 (1 + 10 * (9 * (amount / 10) + lastDigit - 1) + exponent)
    else u64 (10 + 10 * (amount - 1)).

Fixpoint scale10 (fuel : nat) (exponent n : Z) : Z :=
  match fuel with
  | O => n
  | S fuel => if 0 <? exponent then scale10 fuel (exponent - 1) (u64 (n * 10)) else n
  end.

Definition DecompressTxOutAmount (amount : Z) : Z :=
  if amount =? 0 then 0
  else
    let amount := amount - 1 in
    let exponent := amount mod 10 in
    let amount := amount / 10 in
    let n := if exponent <? 9
             then u64 (amount / 9 * 10 + (amount mod 9 + 1)) else amount + 1 in
    scale10 9 exponent n.

Definition compressedTxOutSize (amount : Z) (pkScript : bytes) : Z :=
  serializeSizeVLQ (CompressTxOutAmount amount) + compressedScriptSize pkScript.

Definition putCompressedTxOut (room amount : Z) (pkScript : bytes) : outcome (bytes * Z) :=
  v ← PutVLQ room (CompressTxOutAmount amount);
  '(s, n) ← PutCompressedScript (room - blen v) pkScript;
  Ret (v ++ s, blen v + n).

Definition decodeCompressedTxOut (serialized : bytes) : outcome (Z * bytes * Z) :=
  let '(compressedAmount, bytesRead) := DeserializeVLQ serialized in
  if blen serialized <=? bytesRead
  then Error "unexpected end of data after compressed amount"
  else
    let rest := drop (Z.to_nat bytesRead) serialized in
    let scriptSize := DecodeCompressedScriptSize rest in
    if blen rest <? scriptSize then Error "unexpected end of data after script size"
    else
      let amount := DecompressTxOutAmount compressedAmount in
      piece ← subslice serialized bytesRead scriptSize;
      script ← DecompressScript piece;
      Ret (amount, script, bytesRead + scriptSize).

(** ** Properties of the VLQ code *)

(** [vlq] without the reversal: the low group comes last. *)
Fixpoint vlq_rec (fuel : nat) (mask n : Z) : bytes :=
  match fuel with
  | O => []
  | S fuel =>
    (if n <=? 127 then [] else vlq_rec fuel 128 (n / 128 - 1)) ++ [byte_of_Z (n mod 128 + mask)]
  end.

Lemma land_127 n : Z.land n 127 = n mod 128.
Proof. change 127 with (Z.ones 7). by rewrite Z.land_ones by lia. Qed.
Lemma lor_128 a : 0 ≤ a < 128 → Z.lor a 128 = a + 128.
Proof.
  intros Ha. rewrite Z.add_nocarry_lxor, Z.lxor_lor; [done| |];
  (apply Z.bits_inj'; intros i Hi; rewrite Z.land_spec, Z.bits_0;
   change 128 with (2 ^ 7); rewrite Z.pow2_bits_eqb by lia;
   destruct (Z.eqb_spec 7 i) as [<-|]; [|by rewrite andb_false_r];
   rewrite (Z.bits_above_log2 a 7); [done|lia|];
   destruct (decide (a = 0)) as [->|]; [done|apply Z.log2_lt_pow2; lia]).
Qed.
Lemma lor_shift7 n a : 0 ≤ n → 0 ≤ a < 128 → Z.lor (Z.shiftl n 7) a = n * 128 + a.
Proof.
  intros Hn Ha. rewrite Z.shiftl_mul_pow2 by lia. change (2 ^ 7) with 128.
  rewrite Z.add_nocarry_lxor, Z.lxor_lor; [done| |];
  (apply Z.bits_inj'; intros i Hi; rewrite Z.land_spec, Z.bits_0;
   change 128 with (2 ^ 7); destruct (decide (i < 7));
   [rewrite Z.mul_pow2_bits_low by lia; done|];
   rewrite (Z.bits_above_log2 a i); [apply andb_false_r|lia|];
   destruct (decide (a = 0)) as [->|]; [simpl; lia|];
   assert (Z.log2 a < 7) by (apply Z.log2_lt_pow2; lia); lia).
Qed.

Lemma vlq_step n : 127 < n < 2 ^ 64 → u64 (Z.shiftr n 7 - 1) = n / 128 - 1.
Proof.
  intros Hn. rewrite Z.shiftr_div_pow2 by lia. change (2 ^ 7) with 128.
  unfold u64. apply Z.mod_small.
  assert (1 ≤ n / 128) by (apply Z.div_le_lower_bound; lia).
  assert (n / 128 < 2 ^ 64) by (apply Z.div_lt_upper_bound; lia). lia.
Qed.

Lemma PutVLQ_groups_rev fuel first n :
  0 ≤ n < 2 ^ 64 →
  rev (PutVLQ_groups fuel first n) = vlq_rec fuel (if first then 0 else 128) n.
Proof.
  revert first n. induction fuel as [|fuel IH]; intros first n Hn; [done|].
  cbn [PutVLQ_groups vlq_rec rev]. rewrite land_127.
  pose proof (Z.mod_pos_bound n 128 ltac:(lia)).
  assert (Z.lor (n mod 128) (if first then 0 else 128) =
    n mod 128 + (if first then 0 else 128)) as ->.
  { destruct first; [by rewrite Z.lor_0_r, Z.add_0_r|by apply lor_128]. }
  f_equal. destruct (Z.leb_spec n 127); [done|].
  rewrite vlq_step by lia. rewrite (IH false); [done|].
  assert (1 ≤ n / 128) by (apply Z.div_le_lower_bound; lia).
  assert (n / 128 < 2 ^ 64) by (apply Z.div_lt_upper_bound; lia). lia.
Qed.

(** A boolean fact about all byte values, by enumeration. *)
Lemma byte_enum (P : Z → bool) :
  forallb P (map Z.of_nat (seq 0 256)) = true → ∀ v, 0 ≤ v < 256 → P v = true.
Proof.
  intros H v Hv. rewrite forallb_forall in H. apply H.
  apply in_map_iff. exists (Z.to_nat v). split; [lia|]. apply in_seq. lia.
Qed.

Lemma land_128_spec v : 0 ≤ v < 256 → (Z.land v 128 =? 128) = (128 <=? v).
Proof.
  intros Hv. apply eqb_prop.
  apply (byte_enum (λ v, Bool.eqb (Z.land v 128 =? 128) (128 <=? v))); [done|lia].
Qed.

Lemma DeserializeVLQ_go_step n size c rest :
  0 ≤ n → n * 128 + 128 ≤ 2 ^ 64 →
  DeserializeVLQ_go n size (c :: rest) =
    let n' := n * 128 + Z_of_byte c mod 128 in
    if Z_of_byte c <? 128 then (n', size + 1)
    else DeserializeVLQ_go (u64 (n' + 1)) (size + 1) rest.
Proof.
  intros Hn Hb. cbn [DeserializeVLQ_go]. cbv zeta. pose proof (Z_of_byte_range c).
  pose proof (Z.mod_pos_bound (Z_of_byte c) 128 ltac:(lia)).
  rewrite land_128_spec, land_127, lor_shift7 by lia.
  rewrite <-Z.ltb_antisym. unfold u64. by rewrite !(Z.mod_small (n * 128 + _)) by lia.
Qed.

(** Decoding from the value carried so far. *)
Lemma DeserializeVLQ_go_rec fuel mask n rest size :
  0 ≤ n < 2 ^ 64 → n < 128 ^ Z.of_nat fuel → (0 < fuel)%nat → mask = 0 ∨ mask = 128 →
  (mask = 128 → n + 1 < 2 ^ 64) →
  DeserializeVLQ_go 0 size (vlq_rec fuel mask n ++ rest) =
    if mask =? 0 then (n, size + blen (vlq_rec fuel mask n))
    else DeserializeVLQ_go (n + 1) (size + blen (vlq_rec fuel mask n)) rest.
Proof.
  revert mask n rest size. induction fuel as [|fuel IH]; intros mask n rest size Hn Hf Hpos Hm Hov; [lia|].
  cbn [vlq_rec]. pose proof (Z.mod_pos_bound n 128 ltac:(lia)) as Hr.
  pose proof (Z.div_mod n 128 ltac:(lia)) as Hdm.
  assert (∀ acc sz, acc * 128 + n mod 128 = n → 0 ≤ acc → acc * 128 + 128 ≤ 2 ^ 64 →
    DeserializeVLQ_go acc sz (byte_of_Z (n mod 128 + mask) :: rest) =
    if mask =? 0 then (n, sz + 1) else DeserializeVLQ_go (n + 1) (sz + 1) rest) as Hlast.
  { intros acc sz Hacc Hacc0 Hacc1. rewrite DeserializeVLQ_go_step by lia. cbv zeta.
    rewrite Z_of_byte_of_Z, (Z.mod_small (n mod 128 + mask)) by lia.
    destruct Hm as [->| ->].
    - rewrite (proj2 (Z.ltb_lt _ _)) by lia. rewrite Z.add_0_r, Z.mod_mod by lia.
      cbn [Z.eqb]. f_equal. lia.
    - rewrite (proj2 (Z.ltb_ge _ _)) by lia. cbn [Z.eqb].
      replace ((n mod 128 + 128) mod 128) with (n mod 128)
        by (rewrite <-(Z.mul_1_l 128) at 3; rewrite Z.mod_add, Z.mod_mod by lia; done).
      rewrite Hacc. unfold u64. rewrite Z.mod_small; [done|]. specialize (Hov eq_refl). lia. }
  destruct (Z.leb_spec n 127) as [Hle|Hgt].
  - cbn [app]. rewrite Hlast; [|rewrite Z.mod_small by lia; lia|lia|done].
    unfold blen; simpl. done.
  - assert (1 ≤ n / 128) by (apply Z.div_le_lower_bound; lia).
    assert (n / 128 < 2 ^ 57) by (apply Z.div_lt_upper_bound; lia).
    rewrite <-app_assoc. destruct fuel as [|fuel].
    { change (128 ^ Z.of_nat 1) with 128 in Hf. lia. }
    rewrite (IH 128 (n / 128 - 1)); [|lia| |lia|by right|lia].
    2:{ rewrite (Nat2Z.inj_succ (S fuel)), Z.pow_succ_r in Hf by lia.
        assert (n / 128 < 128 ^ Z.of_nat (S fuel)) by (apply Z.div_lt_upper_bound; lia). lia. }
    cbn [Z.eqb app]. replace (n / 128 - 1 + 1) with (n / 128) by lia.
    rewrite Hlast by lia. unfold blen. rewrite length_app, Nat2Z.inj_add. simpl.
    by rewrite Z.add_assoc.
Qed.

Lemma vlq_eq n : 0 ≤ n < 2 ^ 64 → vlq n = vlq_rec vlq_fuel 0 n.
Proof. intros. unfold vlq. by apply (PutVLQ_groups_rev vlq_fuel true). Qed.

(** The encoding of [n] reads back as [n], whatever follows it. *)
Lemma DeserializeVLQ_vlq n rest :
  0 ≤ n < 2 ^ 64 → DeserializeVLQ (vlq n ++ rest) = (n, blen (vlq n)).
Proof.
  intros Hn. rewrite vlq_eq by done. unfold DeserializeVLQ.
  rewrite DeserializeVLQ_go_rec; [done|done| |unfold vlq_fuel; lia|by left|done].
  etrans; [apply Hn|]. done.
Qed.

Lemma vlq_inj n m : 0 ≤ n < 2 ^ 64 → 0 ≤ m < 2 ^ 64 → vlq n = vlq m → n = m.
Proof.
  intros Hn Hm E. pose proof (DeserializeVLQ_vlq n [] Hn) as E1.
  rewrite E, DeserializeVLQ_vlq in E1 by done. congruence.
Qed.


Lemma vlq_rec_length fuel mask n : (length (vlq_rec fuel mask n) ≤ fuel)%nat.
Proof.
  revert mask n. induction fuel as [|fuel IH]; intros mask n; [done|].
  cbn [vlq_rec]. rewrite length_app. case_match; simpl; [lia|].
  pose proof (IH 128 (n / 128 - 1)). lia.
Qed.

Lemma vlq_rec_pos fuel mask n : (0 < fuel → 0 < length (vlq_rec fuel mask n))%nat.
Proof. destruct fuel; [lia|]. intros _. cbn [vlq_rec]. rewrite length_app. simpl. lia. Qed.

Lemma vlq_length n : 0 ≤ n < 2 ^ 64 → 0 < blen (vlq n) ≤ 10.
Proof.
  intros Hn. rewrite vlq_eq by done. unfold blen.
  pose proof (vlq_rec_length vlq_fuel 0 n). pose proof (vlq_rec_pos vlq_fuel 0 n).
  unfold vlq_fuel in *. lia.
Qed.

Lemma serializeSizeVLQ_rec fuel mask n size :
  0 ≤ n < 2 ^ 64 → n < 128 ^ Z.of_nat fuel → (0 < fuel)%nat →
  serializeSizeVLQ_go fuel n (size + 1) = size + blen (vlq_rec fuel mask n).
Proof.
  revert mask n size. induction fuel as [|fuel IH]; intros mask n size Hn Hf Hpos; [lia|].
  cbn [serializeSizeVLQ_go vlq_rec]. unfold blen. rewrite length_app. simpl length.
  destruct (Z.ltb_spec 127 n) as [Hgt|Hle].
  - rewrite (proj2 (Z.leb_gt _ _)) by lia. rewrite vlq_step by lia.
    destruct fuel as [|fuel].
    { change (128 ^ Z.of_nat 1) with 128 in Hf. lia. }
    assert (1 ≤ n / 128) by (apply Z.div_le_lower_bound; lia).
    assert (n / 128 < 2 ^ 64) by (apply Z.div_lt_upper_bound; lia).
    rewrite (IH 128 (n / 128 - 1)); [unfold blen; lia|lia| |lia].
    rewrite (Nat2Z.inj_succ (S fuel)), Z.pow_succ_r in Hf by lia.
    assert (n / 128 < 128 ^ Z.of_nat (S fuel)) by (apply Z.div_lt_upper_bound; lia). lia.
  - rewrite (proj2 (Z.leb_le _ _)) by lia. simpl. lia.
Qed.

Lemma serializeSizeVLQ_blen n :
  0 ≤ n < 2 ^ 64 → serializeSizeVLQ n = blen (vlq n).
Proof.
  intros Hn. rewrite vlq_eq by done. unfold serializeSizeVLQ.
  change 1 with (0 + 1). rewrite (serializeSizeVLQ_rec _ 0); [lia|done| |unfold vlq_fuel; lia].
  etrans; [apply Hn|]. done.
Qed.

(** Conversely every terminated sequence (of at most nine bytes, so that
    nothing wraps) is the encoding of the number it decodes to. *)
Lemma vlq_rec_high l sz rest :
  Forall (λ c, 128 ≤ Z_of_byte c) l → (length l ≤ 8)%nat →
  ∃ m, 0 ≤ m ≤ 2 * 128 ^ blen l - 2 ∧ (m = 0 ↔ l = []) ∧
    DeserializeVLQ_go 0 sz (l ++ rest) = DeserializeVLQ_go m (sz + blen l) rest ∧
    (∀ fuel, (length l ≤ fuel)%nat → l ≠ [] → vlq_rec fuel 128 (m - 1) = l).
Proof.
  revert sz rest. induction l as [|c l IH] using rev_ind; intros sz rest Hl Hlen.
  - exists 0. split_and!; try done. by rewrite Z.add_0_r.
  - apply Forall_app in Hl as [Hl [Hc _]%Forall_cons].
    rewrite length_app in Hlen. simpl in Hlen.
    destruct (IH sz (c :: rest) Hl ltac:(lia)) as (m & Hm & Hm0 & Hdec & Henc).
    pose proof (Z_of_byte_range c) as Hcr.
    pose proof (Z.mod_pos_bound (Z_of_byte c) 128 ltac:(lia)) as Hmod.
    assert (128 ^ blen l ≤ 128 ^ 7) as Hpow by (apply Z.pow_le_mono_r; unfold blen; lia).
    assert (blen (l ++ [c]) = Z.succ (blen l)) as Hbl by (unfold blen; rewrite length_app; simpl; lia).
    assert (128 ^ blen (l ++ [c]) = 128 * 128 ^ blen l) as Hp.
    { rewrite Hbl. apply Z.pow_succ_r. unfold blen. lia. }
    assert (128 ^ 7 = 2 ^ 49) as E49 by done.
    exists (m * 128 + Z_of_byte c mod 128 + 1). split_and!.
    + lia.
    + rewrite Hp. lia.
    + split; [lia|]. intros E. by apply app_nil in E as [_ ?].
    + rewrite <-app_assoc. simpl. rewrite Hdec, DeserializeVLQ_go_step by lia. cbv zeta.
      rewrite (proj2 (Z.ltb_ge _ _)) by lia. rewrite Hbl.
      unfold u64. rewrite Z.mod_small by lia. f_equal. lia.
    + intros fuel Hf _. rewrite length_app in Hf. simpl in Hf.
      destruct fuel as [|fuel]; [lia|]. cbn [vlq_rec].
      set (n := m * 128 + Z_of_byte c mod 128 + 1 - 1).
      assert (n = m * 128 + Z_of_byte c mod 128) as En by (unfold n; lia).
      assert (n / 128 = m) as Hdiv by (symmetry; apply Z.div_unique with (Z_of_byte c mod 128); lia).
      assert (n mod 128 = Z_of_byte c mod 128) as Hmd
        by (symmetry; apply Z.mod_unique with m; lia).
      rewrite Hdiv, Hmd. f_equal.
      * destruct (Z.leb_spec n 127).
        -- symmetry. apply Hm0. lia.
        -- apply Henc; [lia|]. intros ->. assert (m = 0) by (by apply Hm0). lia.
      * f_equal. assert (Z_of_byte c mod 128 + 128 = Z_of_byte c) as ->; [|apply byte_of_Z_of_byte].
        assert (Z_of_byte c mod 128 = Z_of_byte c - 128); [|lia].
        symmetry. apply Z.mod_unique with 1; lia.
Qed.

(** C36: Every byte string of the shape the decoder reads (at most eight bytes with
    the high bit set, then one without) is the encoding [PutVLQ] writes for the number
    the decoder returns, so the encoding of a number is unique. *)
Theorem vlq_DeserializeVLQ l c :
  Forall (λ c, 128 ≤ Z_of_byte c) l → Z_of_byte c < 128 → (length l ≤ 8)%nat →
  ∃ n, 0 ≤ n < 2 ^ 64 ∧ DeserializeVLQ (l ++ [c]) = (n, blen l + 1) ∧ vlq n = l ++ [c].
Proof.
  intros Hl Hc Hlen. destruct (vlq_rec_high l 0 [c] Hl Hlen) as (m & Hm & Hm0 & Hdec & Henc).
  pose proof (Z_of_byte_range c) as Hcr.
  assert (128 ^ blen l ≤ 128 ^ 8) as Hpow by (apply Z.pow_le_mono_r; unfold blen; lia).
  assert (128 ^ 8 = 2 ^ 56) as E56 by done.
  set (n := m * 128 + Z_of_byte c). exists n.
  assert (0 ≤ n < 2 ^ 64) as Hn by (unfold n; lia).
  split_and!; [lia|lia| |].
  - unfold DeserializeVLQ. rewrite Hdec, DeserializeVLQ_go_step by lia. cbv zeta.
    rewrite (proj2 (Z.ltb_lt _ _)) by lia. rewrite Z.mod_small by lia. done.
  - rewrite vlq_eq by done. unfold vlq_fuel. cbn [vlq_rec].
    assert (n / 128 = m) as -> by (symmetry; apply Z.div_unique with (Z_of_byte c); unfold n; lia).
    assert (n mod 128 = Z_of_byte c) as -> by (symmetry; apply Z.mod_unique with m; unfold n; lia).
    rewrite Z.add_0_r, byte_of_Z_of_byte. f_equal.
    destruct (Z.leb_spec n 127).
    + symmetry. apply Hm0. unfold n in *. lia.
    + apply (Henc 9%nat); [lia|]. intros ->. assert (m = 0) by (by apply Hm0). unfold n in *. lia.
Qed.
Lemma vlq_DeserializeVLQ_witness :
  let l := [byte_of_Z 129; byte_of_Z 200] in let c := byte_of_Z 5 in
  ∃ n, 0 ≤ n < 2 ^ 64 ∧ DeserializeVLQ (l ++ [c]) = (n, 3) ∧ vlq n = l ++ [c].
Proof.
  exact (vlq_DeserializeVLQ [byte_of_Z 129; byte_of_Z 200] (byte_of_Z 5)
    ltac:(by repeat constructor) ltac:(by vm_compute) ltac:(simpl; lia)).
Defined.

(** C35: A 64-bit number written by [PutVLQ] into a buffer with room for the predicted
    size takes exactly that many bytes, between 1 and 10, and [DeserializeVLQ] reads
    the number and its size back off any buffer that starts with them. *)
Theorem PutVLQ_DeserializeVLQ room n :
  0 ≤ n < 2 ^ 64 → serializeSizeVLQ n ≤ room →
  ∃ enc, PutVLQ room n = Ret enc ∧ blen enc = serializeSizeVLQ n ∧ 1 ≤ blen enc ≤ 10 ∧
    ∀ rest, DeserializeVLQ (enc ++ rest) = (n, blen enc).
Proof.
  intros Hn Hroom. pose proof (vlq_length n Hn) as Hlen.
  rewrite serializeSizeVLQ_blen in Hroom |- * by done. exists (vlq n).
  unfold PutVLQ. rewrite (proj2 (Z.ltb_ge _ _)) by lia.
  split_and!; [done|done|lia|lia|]. intros rest. by apply DeserializeVLQ_vlq.
Qed.
Lemma PutVLQ_DeserializeVLQ_witness : 0 ≤ 123456 < 2 ^ 64 ∧
  ∃ enc, PutVLQ 10 123456 = Ret enc ∧ blen enc = 3 ∧ DeserializeVLQ (enc ++ enc) = (123456, 3).
Proof.
  split; [lia|].
  destruct (PutVLQ_DeserializeVLQ 10 123456 ltac:(lia) ltac:(by vm_compute)) as (enc & He & Hb & _ & Hd).
  exists enc. rewrite Hd, Hb. split_and!; [done|by vm_compute..].
Defined.

(** ** Properties of the script compression *)
Lemma isPubKeyHash_spec s h :
  isPubKeyHash s = (true, h) →
  length h = 20%nat ∧
  s = map byte_of_Z [OP_DUP; OP_HASH160; OP_DATA_20] ++ h ++
      map byte_of_Z [OP_EQUALVERIFY; OP_CHECKSIG].
Proof.
  unfold isPubKeyHash. case_match eqn:E; [|done]. intros [= <-].
  repeat apply andb_prop in E as [E ?]. apply Nat.eqb_eq in E.
  split; [rewrite slice_length; lia|].
  change s with (drop 0 s) at 1.
  erewrite (byte_is_drop s 0), (byte_is_drop s 1), (byte_is_drop s 2) by done.
  rewrite (drop_slice s 3 23) by lia.
  erewrite (byte_is_drop s 23), (byte_is_drop s 24) by done.
  rewrite (drop_ge s 25) by lia. done.
Qed.

Lemma isScriptHash_spec s h :
  isScriptHash s = (true, h) →
  length h = 20%nat ∧
  s = map byte_of_Z [OP_HASH160; OP_DATA_20] ++ h ++ map byte_of_Z [OP_EQUAL].
Proof.
  unfold isScriptHash. case_match eqn:E; [|done]. intros [= <-].
  repeat apply andb_prop in E as [E ?]. apply Nat.eqb_eq in E.
  split; [rewrite slice_length; lia|].
  change s with (drop 0 s) at 1.
  erewrite (byte_is_drop s 0), (byte_is_drop s 1) by done.
  rewrite (drop_slice s 2 22) by lia. erewrite (byte_is_drop s 22) by done.
  rewrite (drop_ge s 23) by lia. done.
Qed.

(** A recognised public key, its format byte and its length. *)
Lemma isPubKey_spec s k :
  isPubKey s = (true, k) →
  ∃ fmt x, k = byte_of_Z fmt :: x ∧
    ((fmt = 2 ∨ fmt = 3) ∧ length x = 32%nat ∧
       s = byte_of_Z OP_DATA_33 :: byte_of_Z fmt :: x ++ [byte_of_Z OP_CHECKSIG]
     ∨ fmt = 4 ∧ length x = 64%nat ∧
       s = byte_of_Z OP_DATA_65 :: byte_of_Z fmt :: x ++ [byte_of_Z OP_CHECKSIG]).
Proof.
  unfold isPubKey. case_match eqn:E; [|case_match eqn:E2; [|done]].
  - intros [= <-]. repeat apply andb_prop in E as [E ?]. apply Nat.eqb_eq in E.
    assert (∃ fmt, (fmt = 2 ∨ fmt = 3) ∧ byte_is s 1 fmt = true) as (fmt & Hfmt & Hb).
    { match goal with H : (_ || _) = true |- _ => apply orb_prop in H as [?|?] end; eauto. }
    exists fmt, (slice s 2 34). split.
    { unfold slice at 1. erewrite byte_is_drop by done. done. }
    left. split_and!; [done|rewrite slice_length; lia|].
    change s with (drop 0 s) at 1. erewrite (byte_is_drop s 0), (byte_is_drop s 1) by done.
    rewrite (drop_slice s 2 34) by lia. erewrite (byte_is_drop s 34) by done.
    rewrite (drop_ge s 35) by lia. done.
  - intros [= <-]. repeat apply andb_prop in E2 as [E2 ?]. apply Nat.eqb_eq in E2.
    exists 4, (slice s 2 66). split.
    { unfold slice at 1. erewrite byte_is_drop by done. done. }
    right. split_and!; [done|rewrite slice_length; lia|].
    change s with (drop 0 s) at 1. erewrite (byte_is_drop s 0), (byte_is_drop s 1) by done.
    rewrite (drop_slice s 2 66) by lia. erewrite (byte_is_drop s 66) by done.
    rewrite (drop_ge s 67) by lia. done.
Qed.

(** One leading byte below 128 is a VLQ by itself. *)
Lemma DeserializeVLQ_small z rest :
  0 ≤ z < 128 → DeserializeVLQ (byte_of_Z z :: rest) = (z, 1).
Proof.
  intros Hz. unfold DeserializeVLQ. rewrite DeserializeVLQ_go_step by lia. cbv zeta.
  rewrite Z_of_byte_of_Z, (Z.mod_small z 256), (Z.mod_small z 128) by lia.
  by rewrite (proj2 (Z.ltb_lt _ _)) by lia.
Qed.

Lemma subslice_app a x rest n :
  blen a = n → subslice (a ++ x ++ rest) n (blen x) = Ret x.
Proof.
  intros <-. unfold subslice, blen. rewrite !length_app.
  rewrite !(proj2 (Z.leb_le _ _)) by lia. cbn [andb]. f_equal.
  unfold slice. rewrite Nat2Z.id.
  replace (Z.to_nat _ - length a)%nat with (length x) by lia.
  rewrite drop_app_length. by rewrite take_app_length.
Qed.

Lemma subslice_tail z x : subslice (byte_of_Z z :: x) 1 (blen x) = Ret x.
Proof. pose proof (subslice_app [byte_of_Z z] x [] 1 eq_refl) as E. by rewrite app_nil_r in E. Qed.

(** What compressing a script must guarantee. *)
Definition compress_ok (room : Z) (s enc : bytes) : Prop :=
  PutCompressedScript room s = Ret (enc, compressedScriptSize s) ∧
  blen enc = compressedScriptSize s ∧
  (∀ rest, DecodeCompressedScriptSize (enc ++ rest) = compressedScriptSize s) ∧
  DecompressScript enc = Ret s.

Lemma DecompressScript_cons z x :
  0 ≤ z < 128 → DecompressScript (byte_of_Z z :: x) =
    if z =? cstPayToPubKeyHash then
      h ← subslice (byte_of_Z z :: x) 1 20;
      Ret (map byte_of_Z [OP_DUP; OP_HASH160; OP_DATA_20] ++ h ++
           map byte_of_Z [OP_EQUALVERIFY; OP_CHECKSIG])
    else if z =? cstPayToScriptHash then
      h ← subslice (byte_of_Z z :: x) 1 20;
      Ret (map byte_of_Z [OP_HASH160; OP_DATA_20] ++ h ++ map byte_of_Z [OP_EQUAL])
    else if (z =? cstPayToPubKeyComp2) || (z =? cstPayToPubKeyComp3) then
      h ← subslice (byte_of_Z z :: x) 1 32;
      Ret (map byte_of_Z [OP_DATA_33; z] ++ h ++ map byte_of_Z [OP_CHECKSIG])
    else if (z =? cstPayToPubKeyUncomp4) || (z =? cstPayToPubKeyUncomp5) then
      if blen (byte_of_Z z :: x) - 1 <? 64 then Ret []
      else
        h ← subslice (byte_of_Z z :: x) 1 64;
        Ret (map byte_of_Z [OP_DATA_65; z] ++ h ++ map byte_of_Z [OP_CHECKSIG])
    else
      let scriptSize := i64 (z - numSpecialScripts) in
      if scriptSize <? 0 then Panic "makeslice: len out of range"
      else subslice (byte_of_Z z :: x) 1 scriptSize.
Proof. intros Hz. unfold DecompressScript. by rewrite DeserializeVLQ_small by done. Qed.

Lemma compress_special room s z n x :
  0 ≤ z < 6 → blen x = n - 1 →
  (n = 21 ∧ (z = 0 ∨ z = 1) ∨ n = 33 ∧ (z = 2 ∨ z = 3) ∨ n = 65 ∧ z = 4) →
  compressedScriptSize s = n →
  PutCompressedScript room s = Ret (byte_of_Z z :: x, n) →
  DecompressScript (byte_of_Z z :: x) = Ret s →
  compress_ok room s (byte_of_Z z :: x).
Proof.
  intros Hz Hx Hn Hsize Hput Hdec. unfold compress_ok. rewrite Hsize. split_and!; [done| | |done].
  - unfold blen in *. simpl. lia.
  - intros rest. unfold DecodeCompressedScriptSize. simpl.
    rewrite DeserializeVLQ_small by lia. cbn [Z.eqb].
    by destruct Hn as [[-> [->| ->]]|[[-> [->| ->]]|[-> ->]]].
Qed.


Lemma compress_pkh room s h :
  21 ≤ room → isPubKeyHash s = (true, h) → compress_ok room s (byte_of_Z 0 :: h).
Proof.
  intros Hroom Hpkh. destruct (isPubKeyHash_spec _ _ Hpkh) as [Hlen Hs].
  apply (compress_special _ _ 0 21); [lia|unfold blen; lia|lia| | |].
  - unfold compressedScriptSize. by rewrite Hpkh.
  - unfold PutCompressedScript. rewrite Hpkh. by rewrite (proj2 (Z.ltb_ge _ _)) by lia.
  - rewrite DecompressScript_cons by lia. cbn [Z.eqb cstPayToPubKeyHash].
    assert (20 = blen h) as -> by (unfold blen; lia). rewrite subslice_tail. by rewrite Hs.
Qed.

Lemma compress_sh room s h h' :
  21 ≤ room → isPubKeyHash s = (false, h') → isScriptHash s = (true, h) →
  compress_ok room s (byte_of_Z 1 :: h).
Proof.
  intros Hroom Hpkh Hsh. destruct (isScriptHash_spec _ _ Hsh) as [Hlen Hs].
  apply (compress_special _ _ 1 21); [lia|unfold blen; lia|lia| | |].
  - unfold compressedScriptSize. by rewrite Hpkh, Hsh.
  - unfold PutCompressedScript. rewrite Hpkh, Hsh. by rewrite (proj2 (Z.ltb_ge _ _)) by lia.
  - rewrite DecompressScript_cons by lia. cbn [Z.eqb cstPayToPubKeyHash cstPayToScriptHash].
    assert (20 = blen h) as -> by (unfold blen; lia). rewrite subslice_tail. by rewrite Hs.
Qed.

Lemma compress_pk room s k h h' :
  compressedScriptSize s ≤ room →
  isPubKeyHash s = (false, h) → isScriptHash s = (false, h') → isPubKey s = (true, k) →
  compress_ok room s k.
Proof.
  intros Hroom Hpkh Hsh Hpk.
  unfold compressedScriptSize in Hroom. rewrite Hpkh, Hsh, Hpk in Hroom. cbn [fst] in Hroom.
  destruct (isPubKey_spec _ _ Hpk) as (fmt & x & -> & [(Hfmt & Hx & Hs)|(-> & Hx & Hs)]).
  - rewrite byte_is_other in Hroom by lia.
    apply (compress_special _ _ fmt 33); [lia|unfold blen; lia|lia| | |].
    + unfold compressedScriptSize. rewrite Hpkh, Hsh, Hpk. by rewrite byte_is_other by lia.
    + unfold PutCompressedScript. rewrite Hpkh, Hsh, Hpk.
      rewrite (proj2 (Z.ltb_ge room 33)) by lia.
      rewrite (slice_all _ 33) by (simpl; lia).
      destruct Hfmt as [-> | ->]; rewrite byte_is_self by lia; [done|].
      by rewrite orb_true_r.
    + rewrite DecompressScript_cons by lia. assert (32 = blen x) as -> by (unfold blen; lia).
      rewrite subslice_tail. rewrite Hs. by destruct Hfmt as [-> | ->].
  - rewrite byte_is_self in Hroom by lia.
    apply (compress_special _ _ 4 65); [lia|unfold blen; lia|lia| | |].
    + unfold compressedScriptSize. rewrite Hpkh, Hsh, Hpk. by rewrite byte_is_self by lia.
    + unfold PutCompressedScript. rewrite Hpkh, Hsh, Hpk.
      rewrite (proj2 (Z.ltb_ge room 65)) by lia.
      rewrite (slice_all _ 65) by (simpl; lia).
      rewrite !byte_is_other, byte_is_self by lia. done.
    + rewrite DecompressScript_cons by lia. cbn [Z.eqb orb cstPayToPubKeyHash cstPayToScriptHash
        cstPayToPubKeyComp2 cstPayToPubKeyComp3 cstPayToPubKeyUncomp4 Pos.eqb].
      rewrite (proj2 (Z.ltb_ge _ 64)) by (unfold blen; simpl; lia).
      assert (64 = blen x) as -> by (unfold blen; lia). rewrite subslice_tail. by rewrite Hs.
Qed.

(** The general encoding: the length plus six, then the script itself. *)
Lemma compress_general room s h h' k :
  blen s + 6 < 2 ^ 62 → compressedScriptSize s ≤ room →
  isPubKeyHash s = (false, h) → isScriptHash s = (false, h') → isPubKey s = (false, k) →
  compress_ok room s (vlq (blen s + 6) ++ s).
Proof.
  intros Hs62 Hroom Hpkh Hsh Hpk.
  assert (0 ≤ blen s) as Hs0 by (unfold blen; lia).
  assert (compressedScriptSize s = blen (vlq (blen s + 6)) + blen s) as Hsize.
  { unfold compressedScriptSize. rewrite Hpkh, Hsh, Hpk. cbn [fst].
    unfold numSpecialScripts. by rewrite serializeSizeVLQ_blen by lia. }
  pose proof (vlq_length (blen s + 6) ltac:(lia)) as Hv.
  unfold compress_ok. rewrite Hsize in Hroom |- *. split_and!.
  - unfold PutCompressedScript. rewrite Hpkh, Hsh, Hpk. cbn [andb].
    unfold PutVLQ, numSpecialScripts. rewrite (proj2 (Z.ltb_ge _ _)) by lia.
    unfold mbind, outcome_bind. rewrite (take_ge s) by (unfold blen in *; lia). done.
  - unfold blen. rewrite length_app. lia.
  - intros rest. unfold DecodeCompressedScriptSize.
    rewrite <-app_assoc, DeserializeVLQ_vlq by lia.
    unfold cstPayToPubKeyHash, cstPayToScriptHash, cstPayToPubKeyComp2, cstPayToPubKeyComp3,
      cstPayToPubKeyUncomp4, cstPayToPubKeyUncomp5, numSpecialScripts.
    repeat rewrite (proj2 (Z.eqb_neq _ _)) by lia. cbn [orb]. rewrite i64_small; lia.
  - unfold DecompressScript. rewrite bool_decide_eq_false_2.
    2:{ intros E. apply (f_equal blen) in E. unfold blen in *. rewrite length_app in E. simpl in *. lia. }
    rewrite DeserializeVLQ_vlq by lia.
    unfold cstPayToPubKeyHash, cstPayToScriptHash, cstPayToPubKeyComp2, cstPayToPubKeyComp3,
      cstPayToPubKeyUncomp4, cstPayToPubKeyUncomp5, numSpecialScripts.
    repeat rewrite (proj2 (Z.eqb_neq _ _)) by lia. cbn [orb].
    rewrite i64_small by lia. rewrite (proj2 (Z.ltb_ge _ _)) by lia.
    replace (blen s + 6 - 6) with (blen s) by lia.
    pose proof (subslice_app (vlq (blen s + 6)) s [] _ eq_refl) as E. by rewrite app_nil_r in E.
Qed.

Lemma compress_ok_exists room s :
  blen s + 6 < 2 ^ 62 → compressedScriptSize s ≤ room → ∃ enc, compress_ok room s enc.
Proof.
  intros Hs Hroom.
  destruct (isPubKeyHash s) as [[] h1] eqn:H1.
  { eexists. eapply compress_pkh; [|done]. unfold compressedScriptSize in Hroom.
    by rewrite H1 in Hroom. }
  destruct (isScriptHash s) as [[] h2] eqn:H2.
  { eexists. eapply compress_sh; [|done..]. unfold compressedScriptSize in Hroom.
    by rewrite H1, H2 in Hroom. }
  destruct (isPubKey s) as [[] k] eqn:H3.
  - eexists. by eapply compress_pk.
  - eexists. by eapply compress_general.
Qed.

(** C34: A script that fits the buffer compresses to exactly the predicted number of
    bytes, [DecodeCompressedScriptSize] reads that length off the front of any buffer
    that starts with them, and decompressing gives back the script: for the three
    standard forms and for arbitrary bytes. *)
Theorem DecompressScript_PutCompressedScript room s :
  blen s + 6 < 2 ^ 62 → compressedScriptSize s ≤ room →
  ∃ enc, PutCompressedScript room s = Ret (enc, compressedScriptSize s) ∧
    blen enc = compressedScriptSize s ∧
    (∀ rest, DecodeCompressedScriptSize (enc ++ rest) = blen enc) ∧
    DecompressScript enc = Ret s.
Proof.
  intros Hs Hroom. destruct (compress_ok_exists room s Hs Hroom) as (enc & ? & He & ? & ?).
  exists enc. by rewrite He.
Qed.
Lemma DecompressScript_PutCompressedScript_witness :
  let s := map byte_of_Z ([118; 169; 20] ++ repeat 7 20 ++ [136; 172]) in
  ∃ enc, PutCompressedScript 21 s = Ret (enc, 21) ∧ DecompressScript enc = Ret s.
Proof.
  intros s. destruct (DecompressScript_PutCompressedScript 21 s) as (enc & He & _ & _ & Hd);
    [by vm_compute..|].
  exists enc. split; [|done]. rewrite He. by vm_compute.
Defined.

(** ** Properties of the amount compression *)
Lemma strip_zeros_spec fuel a e m e' :
  0 < a → 0 ≤ e → Z.of_nat fuel = 9 - e → strip_zeros fuel a e = (m, e') →
  e ≤ e' ≤ 9 ∧ a = m * 10 ^ (e' - e) ∧ 0 < m ∧ (e' = 9 ∨ m mod 10 ≠ 0).
Proof.
  revert a e. induction fuel as [|fuel IH]; intros a e Ha He Hf; simpl.
  { intros [= <- <-]. rewrite Z.sub_diag. lia. }
  destruct (Z.eqb_spec (a mod 10) 0) as [H0|H0]; cbn [andb].
  - rewrite (proj2 (Z.ltb_lt e 9)) by lia. intros Hs.
    pose proof (Z.div_mod a 10 ltac:(lia)).
    destruct (IH (a / 10) (e + 1)) as (? & Hm & ? & ?); [lia..|done|].
    split_and!; [lia|lia| |done|done].
    replace (e' - e) with (Z.succ (e' - (e + 1))) by lia. rewrite Z.pow_succ_r by lia. lia.
  - intros [= <- <-]. rewrite Z.sub_diag. lia.
Qed.

Lemma scale10_spec fuel e n :
  0 ≤ e ≤ Z.of_nat fuel → 0 ≤ n → n * 10 ^ e < 2 ^ 64 → scale10 fuel e n = n * 10 ^ e.
Proof.
  revert e n. induction fuel as [|fuel IH]; intros e n He Hn Hb.
  { assert (e = 0) as -> by lia. simpl. lia. }
  cbn [scale10]. destruct (Z.ltb_spec 0 e) as [Hpos|].
  - replace e with (Z.succ (e - 1)) in Hb |- * by lia.
    rewrite Z.pow_succ_r in Hb |- * by lia.
    assert (0 < 10 ^ (e - 1)) by (apply Z.pow_pos_nonneg; lia).
    replace (Z.succ (e - 1) - 1) with (e - 1) by lia.
    unfold u64. rewrite Z.mod_small by nia. rewrite IH; [lia|lia|lia|nia].
  - assert (e = 0) as -> by lia. simpl. lia.
Qed.

(** [DecompressTxOutAmount] inverts [CompressTxOutAmount] on every amount below
    a ninth of 2^64 (more than 2 * 10^10 bitcoin), with the wrap-around of [uint64]
    in both directions. *)
Theorem DecompressTxOutAmount_Compress a :
  0 ≤ a → 9 * a < 2 ^ 64 → DecompressTxOutAmount (CompressTxOutAmount a) = a.
Proof.
  intros Ha0 Ha. unfold CompressTxOutAmount. destruct (Z.eqb_spec a 0) as [->|Hne]; [done|].
  destruct (strip_zeros 9 a 0) as [m e] eqn:Hs.
  destruct (strip_zeros_spec 9 a 0 m e) as (He & Hm & Hmpos & Hlast); [lia..|done|].
  rewrite Z.sub_0_r in Hm. assert (0 < 10 ^ e) by (apply Z.pow_pos_nonneg; lia).
  assert (m ≤ a) by nia. pose proof (Z.div_mod m 10 ltac:(lia)).
  pose proof (Z.mod_pos_bound m 10 ltac:(lia)).
  destruct (Z.ltb_spec e 9) as [He9|He9].
  - assert (m mod 10 ≠ 0) by lia. set (q := 9 * (m / 10) + m mod 10 - 1).
    assert (0 ≤ q ∧ 1 + 10 * q + e < 2 ^ 64) as [Hq Hq64] by (unfold q; lia).
    unfold u64 at 1. rewrite Z.mod_small by lia.
    unfold DecompressTxOutAmount. rewrite (proj2 (Z.eqb_neq _ _)) by lia. cbv zeta.
    assert ((1 + 10 * q + e - 1) mod 10 = e) as ->
      by (symmetry; apply Z.mod_unique with q; lia).
    assert ((1 + 10 * q + e - 1) / 10 = q) as ->
      by (symmetry; apply Z.div_unique with e; lia).
    rewrite (proj2 (Z.ltb_lt e 9)) by lia.
    assert (q / 9 = m / 10) as ->
      by (symmetry; apply Z.div_unique with (m mod 10 - 1); unfold q; lia).
    assert (q mod 9 = m mod 10 - 1) as ->
      by (symmetry; apply Z.mod_unique with (m / 10); unfold q; lia).
    unfold u64. rewrite Z.mod_small by lia.
    replace (m / 10 * 10 + (m mod 10 - 1 + 1)) with m by lia.
    rewrite scale10_spec; lia.
  - assert (e = 9) as -> by lia. assert (10 * m ≤ a) by (change (10 ^ 9) with 1000000000 in Hm; lia).
    unfold u64. rewrite Z.mod_small by lia. unfold DecompressTxOutAmount.
    rewrite (proj2 (Z.eqb_neq _ _)) by lia. cbv zeta.
    assert ((10 + 10 * (m - 1) - 1) mod 10 = 9) as ->
      by (symmetry; apply Z.mod_unique with (m - 1); lia).
    assert ((10 + 10 * (m - 1) - 1) / 10 = m - 1) as ->
      by (symmetry; apply Z.div_unique with 9; lia).
    cbn [Z.ltb Z.compare Pos.compare Pos.compare_cont].
    replace (m - 1 + 1) with m by lia. rewrite scale10_spec; lia.
Qed.
Lemma DecompressTxOutAmount_Compress_witness :
  CompressTxOutAmount 5000000000 = 50 ∧ DecompressTxOutAmount 50 = 5000000000.
Proof.
  split; [by vm_compute|].
  exact (DecompressTxOutAmount_Compress 5000000000 ltac:(lia) ltac:(lia)).
Defined.

(** The length returned is the predicted one. *)
Lemma PutCompressedScript_size room s b n :
  blen s + 6 < 2 ^ 62 → PutCompressedScript room s = Ret (b, n) → n = compressedScriptSize s.
Proof.
  intros Hs. unfold PutCompressedScript, compressedScriptSize.
  destruct (isPubKeyHash s) as [[] h1]; [case_match; [done|by intros [= _ <-]]|].
  destruct (isScriptHash s) as [[] h2]; [case_match; [done|by intros [= _ <-]]|]. cbn [fst].
  assert (∀ p, (v ← PutVLQ room (blen s + numSpecialScripts);
      Ret (v ++ take (Z.to_nat (room - blen v)) s, blen v + blen s)) = Ret p →
    p.2 = serializeSizeVLQ (blen s + numSpecialScripts) + blen s) as Hgen.
  { intros p. unfold PutVLQ. case_match; [done|]. unfold mbind, outcome_bind. intros [= <-].
    simpl. rewrite serializeSizeVLQ_blen; [done|]. unfold blen, numSpecialScripts in *. lia. }
  destruct (isPubKey s) as [[] k] eqn:Hpk; [|by intros H%Hgen].
  destruct (isPubKey_spec _ _ Hpk) as (fmt & x & -> & [([->| ->] & Hx & Hss)|(-> & Hx & Hss)]);
    rewrite ?byte_is_self by lia; cbn [orb andb];
    rewrite ?byte_is_other by lia; cbn [orb andb];
    rewrite ?byte_is_self by lia; cbn [orb andb]; (case_match; [done|by intros [= _ <-]]).
Qed.
