(* ===== verification/Utils.v ===== *)
(** * utils/utils.go and constant/constant.go: tickers, inscription ids and
    module addresses

    Hashes are reversed and printed in hexadecimal; a module is addressed by an
    [OP_RETURN] script that carries the transaction id of its inscription and,
    little-endian without trailing zero, the inscription index. *)
From S2P Require Import Prelude GoStd.

(** ** constant/constant.go *)
Definition MEMPOOL_HEIGHT : Z := 4194303.

Definition BRC20_P : string := "brc-20".
Definition BRC20_P_MODULE : string := "brc20-module".
Definition BRC20_P_SWAP : string := "brc20-swap".
Definition BRC20_OP_DEPLOY : string := "deploy".
Definition BRC20_OP_MINT : string := "mint".
Definition BRC20_OP_TRANSFER : string := "transfer".

Definition BRC20_HISTORY_TYPE_N_INSCRIBE_DEPLOY : Z := 0.
Definition BRC20_HISTORY_TYPE_N_INSCRIBE_MINT : Z := 1.
Definition BRC20_HISTORY_TYPE_N_INSCRIBE_TRANSFER : Z := 2.
Definition BRC20_HISTORY_TYPE_N_TRANSFER : Z := 3.
Definition BRC20_HISTORY_TYPE_N_SEND : Z := 4.
Definition BRC20_HISTORY_TYPE_N_RECEIVE : Z := 5.
Definition BRC20_HISTORY_MODULE_TYPE_N_INSCRIBE_MODULE : Z := 6.
Definition BRC20_HISTORY_MODULE_TYPE_N_INSCRIBE_WITHDRAW : Z := 7.
Definition BRC20_HISTORY_MODULE_TYPE_N_WITHDRAW : Z := 8.
Definition BRC20_HISTORY_MODULE_TYPE_N_WITHDRAW_FROM : Z := 9.
Definition BRC20_HISTORY_MODULE_TYPE_N_WITHDRAW_TO : Z := 10.
Definition BRC20_HISTORY_SWAP_TYPE_N_INSCRIBE_APPROVE : Z := 11.
Definition BRC20_HISTORY_SWAP_TYPE_N_APPROVE : Z := 12.
Definition BRC20_HISTORY_SWAP_TYPE_N_INSCRIBE_CONDITIONAL_APPROVE : Z := 13.
Definition BRC20_HISTORY_SWAP_TYPE_N_CONDITIONAL_APPROVE : Z := 14.
Definition BRC20_HISTORY_SWAP_TYPE_N_APPROVE_FROM : Z := 15.
Definition BRC20_HISTORY_SWAP_TYPE_N_APPROVE_TO : Z := 16.
Definition BRC20_HISTORY_SWAP_TYPE_N_INSCRIBE_COMMIT : Z := 17.
Definition BRC20_HISTORY_SWAP_TYPE_N_COMMIT : Z := 18.

Definition BRC20_OP_MODULE_DEPLOY : string := "deploy".
Definition BRC20_OP_MODULE_WITHDRAW : string := "withdraw".
Definition BRC20_OP_SWAP_APPROVE : string := "approve".
Definition BRC20_OP_SWAP_CONDITIONAL_APPROVE : string := "conditional-approve".
Definition BRC20_OP_SWAP_COMMIT : string := "commit".

Definition BRC20_SWAP_FUNCTION_DEPLOY_POOL : string := "deployPool".
Definition BRC20_SWAP_FUNCTION_ADD_LIQ : string := "addLiq".
Definition BRC20_SWAP_FUNCTION_REMOVE_LIQ : string := "removeLiq".
Definition BRC20_SWAP_FUNCTION_SWAP : string := "swap".
Definition BRC20_SWAP_FUNCTION_SEND : string := "send".
Definition BRC20_SWAP_FUNCTION_SENDLP : string := "sendLp".
Definition BRC20_SWAP_FUNCTION_DECREASE_APPROVAL : string := "decreaseApproval".

Definition ZERO_ADDRESS_PKSCRIPT : string :=
  b2s (map byte_of_Z [106; 32] ++ replicate 32 (byte_of_Z 0)).

(** ** Tickers *)
Definition DecodeTokensFromSwapPair (tickPair : string) : outcome (string * string) :=
  let l := s2b tickPair in
  if negb (len tickPair =? 9) || negb (bool_decide (l !! 4%nat = Some "/"%char))
  then Error "func: removeLiq tickPair invalid"
  else Ret (b2s (take 4 l), b2s (drop 5 l)).

Definition GetValidUniqueLowerTickerTicker `{GoUnicode} (ticker : string) : outcome string :=
  if negb (len ticker =? 4) && negb (len ticker =? 5) then Error "ticker len invalid"
  else Ret (ToLower ticker).

(** ** Hashes and inscription ids *)
Definition HashString (data : bytes) : string :=
  if negb (length data =? 32)%nat
  then "0000000000000000000000000000000000000000000000000000000000000000"
  else b2s (hex_encode (rev data)).

(** [append([]byte{b}, result...)] for each [b]. *)
Definition ReverseBytes (data : bytes) : bytes := foldl (λ result b, b :: result) [] data.

(** [fmt.Sprintf("%si%d", hash, idx)] *)
Definition inscription_id (hash : string) (idx : Z) : string := hash +:+ "i" +:+ int_string idx.

(** The index bytes: [binary.LittleEndian] or the shifts written out. *)
Definition GetModuleFromScript (script : bytes) : option string :=
  let n := blen script in
  if (n <? 34) || (38 <? n) then None
  else if negb (byte_is script 0 106) then None
  else match script !! 1%nat with
  | None => None
  | Some b1 =>
    let b1 := Z_of_byte b1 in
    if negb (b1 + 2 =? n) then None
    else if (34 <? n) && byte_is script (Z.to_nat (n - 1)) 0 then None
    else
      let idx :=
        if b1 <=? 32 then 0
        else if b1 <=? 33 then le_val (slice script 34 35)
        else if b1 <=? 34 then le_val (slice script 34 36)
        else if b1 <=? 35 then le_val (slice script 34 37)
        else le_val (slice script 34 38) in
      Some (inscription_id (HashString (slice script 2 34)) idx)
  end.

Definition DecodeInscriptionFromBin (script : bytes) : string :=
  let n := blen script in
  if (n <? 32) || (36 <? n) then ""
  else
    let idx :=
      if n =? 32 then 0
      else if n <=? 33 then le_val (slice script 32 33)
      else if n <=? 34 then le_val (slice script 32 34)
      else if n <=? 35 then le_val (slice script 32 35)
      else le_val (slice script 32 36) in
    inscription_id (HashString (slice script 0 32)) idx.

(** ** Addresses

    [btcutil.DecodeAddress] and [txscript.PayToAddrScript] of btcsuite, for the
    network the indexer is configured with. *)
Class BtcAddr := {
  Address : Type;
  DecodeAddress : string → outcome Address;
  PayToAddrScript : Address → outcome bytes;
}.

Definition GetPkScriptByAddress `{BtcAddr} (addr : string) : outcome bytes :=
  if bool_decide (addr = "") then Error "decoded address empty"
  else match DecodeAddress addr with
  | Error _ =>
    if negb (len addr =? 68) || negb (HasPrefix addr "6a20")
    then Error "decoded address is of unknown format"
    else match hex_decode (s2b addr) with
      | None => Error "decoded address is of unknown format"
      | Some pkHex => Ret pkHex
      end
  | Ret addressObj => or_error (PayToAddrScript addressObj) "decoded address is of unknown format"
  | Panic w => Panic w
  end.

(** ** Module addresses *)
Lemma HashString_length l : len (HashString l) = 64.
Proof.
  unfold HashString. case_match eqn:E; [done|]. apply negb_false_iff, Nat.eqb_eq in E.
  rewrite len_b2s. unfold blen. rewrite hex_encode_length, length_rev. lia.
Qed.

Lemma HashString_inj l k :
  length l = 32%nat → length k = 32%nat → HashString l = HashString k → l = k.
Proof.
  intros Hl Hk. unfold HashString. rewrite Hl, Hk. cbn. intros E%(f_equal s2b).
  rewrite !s2b_b2s in E. apply hex_encode_inj in E.
  apply (f_equal (@rev ascii)) in E. by rewrite !rev_involutive in E.
Qed.

Lemma inscription_id_inj h k n m :
  len h = len k → 0 ≤ n → 0 ≤ m → inscription_id h n = inscription_id k m → h = k ∧ n = m.
Proof.
  intros Hlen Hn Hm. unfold inscription_id. intros E%(f_equal s2b). rewrite !s2b_app in E.
  apply app_inj_1 in E as [Eh E].
  - apply s2b_inj in Eh. apply (app_inj_1 _ _ _ _ eq_refl) in E as [_ E].
    apply s2b_inj, int_string_inj in E; done.
  - Local Transparent len. unfold len in Hlen. lia.
Qed.

(** The scripts accepted as module addresses. *)
Definition module_script (txid idx : bytes) : bytes :=
  byte_of_Z 106 :: byte_of_Z (32 + blen idx) :: txid ++ idx.
Definition canonical_index (idx : bytes) : Prop :=
  (length idx ≤ 4)%nat ∧ ∀ c, last idx = Some c → Z_of_byte c ≠ 0.

Lemma slice_module_script txid idx b :
  length txid = 32%nat → b = (34 + length idx)%nat →
  slice (module_script txid idx) 34 b = idx ∧ slice (module_script txid idx) 2 34 = txid.
Proof.
  intros Ht ->. unfold module_script, slice. split.
  - replace (34 + length idx - 34)%nat with (length idx) by lia. cbn [drop].
    rewrite (drop_app_length' _ _ 32) by done. by rewrite take_ge.
  - change (take 32 (txid ++ idx) = txid). by apply take_app_length'.
Qed.

Lemma GetModuleFromScript_complete txid idx :
  length txid = 32%nat → canonical_index idx →
  GetModuleFromScript (module_script txid idx) =
    Some (inscription_id (HashString txid) (le_val idx)).
Proof.
  intros Ht [Hi Hlast]. unfold GetModuleFromScript. set (s := module_script txid idx).
  assert (blen s = 34 + blen idx) as Hs.
  { unfold s, module_script, blen. cbn [length]. rewrite length_app. lia. }
  assert (0 ≤ blen idx ≤ 4) by (unfold blen; lia). rewrite Hs.
  rewrite (proj2 (Z.ltb_ge _ _)), (proj2 (Z.ltb_ge 38 _)) by lia. cbn [orb].
  change (byte_is s 0 106) with true. cbn [negb].
  change (s !! 1%nat) with (Some (byte_of_Z (32 + blen idx))). cbv beta iota zeta.
  rewrite Z_of_byte_of_Z, Z.mod_small by lia.
  replace (32 + blen idx + 2) with (34 + blen idx) by lia. rewrite Z.eqb_refl. cbn [negb].
  assert ((34 <? 34 + blen idx) && byte_is s (Z.to_nat (34 + blen idx - 1)) 0 = false) as ->.
  { destruct (Z.ltb_spec 34 (34 + blen idx)); [|done]. cbn [andb]. unfold byte_is.
    assert (s !! Z.to_nat (34 + blen idx - 1) = last idx) as ->.
    { rewrite last_lookup. unfold s, module_script.
      replace (Z.to_nat _) with (S (S (32 + pred (length idx)))) by (unfold blen in *; lia).
      change ((txid ++ idx) !! (32 + pred (length idx))%nat = idx !! pred (length idx)).
      rewrite lookup_app_r by lia. f_equal. lia. }
    case_match eqn:E; [|done]. apply Z.eqb_neq. by apply Hlast. }
  destruct (slice_module_script txid idx (34 + length idx) Ht eq_refl) as [Hsi Htx].
  fold s in Hsi, Htx. rewrite Htx.
  do 2 f_equal.
  assert (length idx = 0 ∨ length idx = 1 ∨ length idx = 2 ∨ length idx = 3 ∨ length idx = 4)%nat
    as [E|[E|[E|[E|E]]]] by lia; unfold blen;
    rewrite E in Hsi |- *; [by destruct idx| | | |];
    cbn; f_equal; exact Hsi.
Qed.

Lemma GetModuleFromScript_sound script m :
  GetModuleFromScript script = Some m →
  ∃ txid idx, script = module_script txid idx ∧ length txid = 32%nat ∧ canonical_index idx.
Proof.
  unfold GetModuleFromScript. case_match eqn:E; [done|].
  apply orb_false_iff in E as [E1%Z.ltb_ge E2%Z.ltb_ge].
  case_match eqn:E3; [done|]. apply negb_false_iff in E3.
  destruct (script !! 1%nat) as [b1|] eqn:Eb1; [|done]. cbv zeta.
  case_match eqn:E4; [done|]. apply negb_false_iff, Z.eqb_eq in E4.
  case_match eqn:E5; [done|]. intros _.
  destruct script as [|b0 [|b1' rest]]; [done..|]. injection Eb1 as ->.
  exists (take 32 rest), (drop 32 rest).
  assert (blen (b0 :: b1 :: rest) = 2 + blen rest) as Hlen by (unfold blen; cbn [length]; lia).
  rewrite Hlen in *. split_and!; [| |split].
  - unfold module_script. rewrite take_drop.
    apply byte_is_drop in E3. injection E3 as ->. repeat f_equal.
    rewrite <-(byte_of_Z_of_byte b1). f_equal. unfold blen in *. rewrite length_drop. lia.
  - rewrite length_take. unfold blen in *. lia.
  - rewrite length_drop. unfold blen in *. lia.
  - intros c Hc Hz. rewrite last_lookup, lookup_drop, length_drop in Hc.
    assert (32 + pred (length rest - 32) < length rest)%nat by (by apply lookup_lt_Some in Hc).
    apply andb_false_iff in E5 as [E5%Z.ltb_ge|E5]; [unfold blen in *; lia|].
    unfold byte_is in E5.
    replace (Z.to_nat (2 + blen rest - 1)) with (S (S (32 + pred (length rest - 32)))) in E5
      by (unfold blen in *; lia).
    change ((b0 :: b1 :: rest) !! _) with (rest !! (32 + pred (length rest - 32))%nat) in E5.
    rewrite Hc in E5. lia.
Qed.

(** C39: The scripts accepted as module addresses are exactly [OP_RETURN], a push of
    32 bytes of transaction id and at most four bytes of index without a trailing zero
    byte, and the module they name is that inscription's id. *)
Theorem GetModuleFromScript_iff script m :
  GetModuleFromScript script = Some m ↔
  ∃ txid idx, script = module_script txid idx ∧ length txid = 32%nat ∧ canonical_index idx ∧
    m = inscription_id (HashString txid) (le_val idx).
Proof.
  split.
  - intros Hm. destruct (GetModuleFromScript_sound _ _ Hm) as (txid & idx & -> & Ht & Hi).
    rewrite GetModuleFromScript_complete in Hm by done. injection Hm as <-. eauto 10.
  - intros (txid & idx & -> & Ht & Hi & ->). by apply GetModuleFromScript_complete.
Qed.

(** Two different scripts never name the same module. *)
Theorem GetModuleFromScript_inj s t m :
  GetModuleFromScript s = Some m → GetModuleFromScript t = Some m → s = t.
Proof.
  intros Hs Ht. destruct (GetModuleFromScript_sound _ _ Hs) as (x & i & -> & Hx & Hi).
  destruct (GetModuleFromScript_sound _ _ Ht) as (y & j & -> & Hy & Hj).
  rewrite GetModuleFromScript_complete in Hs, Ht by done. rewrite <-Ht in Hs.
  injection Hs as E. apply inscription_id_inj in E as [Eh Ei].
  - apply HashString_inj in Eh; [|done..]. apply le_val_inj in Ei; [|apply Hi|apply Hj].
    by subst.
  - by rewrite !HashString_length.
  - apply le_val_range.
  - apply le_val_range.
Qed.
