(* ===== verification/Json.v ===== *)
(** * encoding/json as the indexer uses it

    Decoding of an inscription body into [map[string]interface{}] and into
    structs of string fields.  [parse_value] follows the scanner of the Go
    standard library: grammar, escapes, surrogate pairs, replacement of invalid
    UTF-8 by U+FFFD, nesting limit; [POut] (not enough fuel) is kept apart from a
    syntax error and never occurs with the fuel [json_parse] gives. *)
From S2P Require Import Prelude GoStd.

Local Set Warnings "-register-all".
Inductive json : Type :=
  | JNull
  | JBool (b : bool)
  | JNum (raw : bytes)
  | JStr (s : bytes)
  | JArr (l : list json)
  | JObj (l : list (bytes * json)).

Inductive pres (A : Type) : Type :=
  | POk (a : A) (rest : bytes)
  | PErr
  | POut.
Arguments POk {A} _ _.
Arguments PErr {A}.
Arguments POut {A}.




(** ** White space and numbers *)
Definition is_ws (c : ascii) : bool :=
  let z := Z_of_byte c in (z =? 32) || (z =? 9) || (z =? 13) || (z =? 10).
Fixpoint skip_ws (l : bytes) : bytes :=
  match l with
  | c :: l' => if is_ws c then skip_ws l' else l
  | [] => []
  end.

Fixpoint span_digits (l : bytes) : bytes * bytes :=
  match l with
  | c :: l' => if is_digit c then let '(d, r) := span_digits l' in (c :: d, r) else ([], l)
  | [] => ([], [])
  end.

Definition scan_int (l : bytes) : option (bytes * bytes) :=
  match span_digits l with
  | ([], _) => None
  | (d :: ds, r) => if Z_of_byte d =? 48 then Some ([d], ds ++ r) else Some (d :: ds, r)
  end.
Definition scan_frac (l : bytes) : option (bytes * bytes) :=
  match l with
  | c :: l' =>
    if Z_of_byte c =? 46 then
      match span_digits l' with ([], _) => None | (ds, r) => Some (c :: ds, r) end
    else Some ([], l)
  | [] => Some ([], l)
  end.
(** An optional byte among [zs]. *)
Definition scan_opt (zs : list Z) (l : bytes) : bytes * bytes :=
  match l with
  | c :: r => if existsb (Z.eqb (Z_of_byte c)) zs then ([c], r) else ([], l)
  | [] => ([], [])
  end.
Definition scan_exp (l : bytes) : option (bytes * bytes) :=
  match l with
  | c :: l' =>
    if (Z_of_byte c =? 101) || (Z_of_byte c =? 69) then
      let '(sg, l'') := scan_opt [43; 45] l' in
      match span_digits l'' with ([], _) => None | (ds, r) => Some (c :: sg ++ ds, r) end
    else Some ([], l)
  | [] => Some ([], l)
  end.

(** A number literal: its text and what follows it. *)
Definition scan_number (l : bytes) : option (bytes * bytes) :=
  let '(neg, l) := scan_opt [45] l in
  '(i, l) ← scan_int l;
  '(f, l) ← scan_frac l;
  '(e, l) ← scan_exp l;
  Some (neg ++ i ++ f ++ e, l).

(** [strconv.ParseFloat(s, 64)] fails on a valid literal exactly when it rounds
    to infinity; the exponent accumulates while it is below 10000. *)
Fixpoint exp_val (e : Z) (l : bytes) : Z :=
  match l with
  | c :: l =>
    match digit_val c with
    | Some d => exp_val (if e <? 10000 then e * 10 + d else e) l
    | None => exp_val e l
    end
  | [] => e
  end.
Definition float_limit : Z := 2 ^ 1024 - 2 ^ 970.
Definition number_overflows (raw : bytes) : bool :=
  let l := match raw with "-"%char :: r => r | _ => raw end in
  let '(i, l) := span_digits l in
  let '(f, l) := match l with "."%char :: r => span_digits r | _ => ([], l) end in
  let e := match l with
    | _ :: "-"%char :: r => - exp_val 0 r
    | _ :: r => exp_val 0 r
    | [] => 0
    end in
  match trim_left "0"%char (i ++ f) with
  | [] => false
  | digits =>
    let k := e - blen f in
    let point := blen digits + k in
    if 310 <? point then true
    else if point <? 300 then false
    else
      let m := default 0 (parse_digits digits) in
      if 0 <=? k then float_limit <=? m * 10 ^ k else float_limit * 10 ^ (- k) <=? m
  end.

(** ** Strings *)

(** Length of the UTF-8 sequence at the head of [l], 0 when it is invalid. *)
Definition in_range (lo hi : Z) (o : option ascii) : bool :=
  match o with Some c => (lo <=? Z_of_byte c) && (Z_of_byte c <=? hi) | None => false end.
Definition utf8_len (l : bytes) : nat :=
  let b := in_range in
  let tail i := b 128 191 (l !! i) in
  if b 0 127 (l !! 0%nat) then 1
  else if b 194 223 (l !! 0%nat) && tail 1%nat then 2
  else if b 224 224 (l !! 0%nat) && b 160 191 (l !! 1%nat) && tail 2%nat then 3
  else if (b 225 236 (l !! 0%nat) || b 238 239 (l !! 0%nat)) && tail 1%nat && tail 2%nat then 3
  else if b 237 237 (l !! 0%nat) && b 128 159 (l !! 1%nat) && tail 2%nat then 3
  else if b 240 240 (l !! 0%nat) && b 144 191 (l !! 1%nat) && tail 2%nat && tail 3%nat then 4
  else if b 241 243 (l !! 0%nat) && tail 1%nat && tail 2%nat && tail 3%nat then 4
  else if b 244 244 (l !! 0%nat) && b 128 143 (l !! 1%nat) && tail 2%nat && tail 3%nat then 4
  else 0.

(** [utf8.AppendRune] *)
Definition utf8_encode (r : Z) : bytes :=
  map byte_of_Z
    (if r <? 128 then [r]
     else if r <? 2048 then [192 + r / 64; 128 + r mod 64]
     else if r <? 65536 then [224 + r / 4096; 128 + r / 64 mod 64; 128 + r mod 64]
     else [240 + r / 262144; 128 + r / 4096 mod 64; 128 + r / 64 mod 64; 128 + r mod 64]).
Definition replacement : bytes := utf8_encode 65533.

Definition hex4 (l : bytes) : option (Z * bytes) :=
  match l with
  | a :: b :: c :: d :: r =>
    w ← hex_val a; x ← hex_val b; y ← hex_val c; z ← hex_val d;
    Some (4096 * w + 256 * x + 16 * y + z, r)
  | _ => None
  end.

Definition is_surrogate (r : Z) : bool := (55296 <=? r) && (r <? 57344).

Inductive str_step : Type :=
  | SEnd (rest : bytes)
  | SEmit (out rest : bytes)
  | SErr.

(** [getu4] on the text after a surrogate. *)
Definition getu4 (l : bytes) : option (Z * bytes) :=
  match l with
  | a :: b :: r => if (Z_of_byte a =? 92) && (Z_of_byte b =? 117) then hex4 r else None
  | _ => None
  end.
Definition u_escape (l : bytes) : str_step :=
  match hex4 l with
  | None => SErr
  | Some (rr, r1) =>
    if is_surrogate rr then
      match getu4 r1 with
      | Some (rr1, r3) =>
        if (rr <? 56320) && (56320 <=? rr1) && (rr1 <? 57344)
        then SEmit (utf8_encode (65536 + (rr - 55296) * 1024 + (rr1 - 56320))) r3
        else SEmit replacement r1
      | None => SEmit replacement r1
      end
    else SEmit (utf8_encode rr) r1
  end.

Definition json_str_step (l : bytes) : str_step :=
  match l with
  | [] => SErr
  | c :: r =>
    if Z_of_byte c =? 34 then SEnd r
    else if Z_of_byte c <? 32 then SErr
    else if Z_of_byte c =? 92 then
      match r with
      | [] => SErr
      | e :: r' =>
        let z := Z_of_byte e in
        if (z =? 34) || (z =? 92) || (z =? 47) then SEmit [e] r'
        else if z =? 98 then SEmit [byte_of_Z 8] r'
        else if z =? 102 then SEmit [byte_of_Z 12] r'
        else if z =? 110 then SEmit [byte_of_Z 10] r'
        else if z =? 114 then SEmit [byte_of_Z 13] r'
        else if z =? 116 then SEmit [byte_of_Z 9] r'
        else if z =? 117 then u_escape r'
        else SErr
      end
    else match utf8_len l with
      | O => SEmit replacement r
      | n => SEmit (take n l) (drop n l)
      end
  end.

(** The text after the opening quote. *)
Fixpoint json_string (fuel : nat) (l acc : bytes) : pres bytes :=
  match fuel with
  | O => POut
  | S fuel =>
    match json_str_step l with
    | SEnd r => POk acc r
    | SErr => PErr
    | SEmit out r => json_string fuel r (acc ++ out)
    end
  end.

(** ** Values *)
Definition maxNestingDepth : nat := Z.to_nat 10000.

Definition expect (p : bytes) (v : json) (l : bytes) : pres json :=
  if has_prefix p l then POk v (drop (length p) l) else PErr.

Section value.
Context (value : bytes → pres json).

(** Members after [{] or [,]; [first] allows an empty object. *)
Fixpoint members (fuel : nat) (first : bool) (acc : list (bytes * json)) (l : bytes) : pres json :=
  match fuel with
  | O => POut
  | S fuel =>
    match skip_ws l with
    | c :: r =>
      if first && (Z_of_byte c =? 125) then POk (JObj acc) r
      else if Z_of_byte c =? 34 then
        match json_string (S (length r)) r [] with
        | POk k r =>
          match skip_ws r with
          | colon :: r =>
            if Z_of_byte colon =? 58 then
              match value r with
              | POk v r =>
                match skip_ws r with
                | c :: r =>
                  if Z_of_byte c =? 44 then members fuel false (acc ++ [(k, v)]) r
                  else if Z_of_byte c =? 125 then POk (JObj (acc ++ [(k, v)])) r
                  else PErr
                | [] => PErr
                end
              | PErr => PErr
              | POut => POut
              end
            else PErr
          | [] => PErr
          end
        | PErr => PErr
        | POut => POut
        end
      else PErr
    | [] => PErr
    end
  end.

Fixpoint array_elements (fuel : nat) (first : bool) (acc : list json) (l : bytes) : pres json :=
  match fuel with
  | O => POut
  | S fuel =>
    match skip_ws l with
    | c :: r =>
      if first && (Z_of_byte c =? 93) then POk (JArr acc) r
      else
        match value (c :: r) with
        | POk v r =>
          match skip_ws r with
          | c :: r =>
            if Z_of_byte c =? 44 then array_elements fuel false (acc ++ [v]) r
            else if Z_of_byte c =? 93 then POk (JArr (acc ++ [v])) r
            else PErr
          | [] => PErr
          end
        | PErr => PErr
        | POut => POut
        end
    | [] => PErr
    end
  end.
End value.

(** The fuel is the number of levels the scanner may still open, plus one. *)
Fixpoint parse_value (depth : nat) (l : bytes) : pres json :=
  match skip_ws l with
  | [] => PErr
  | c :: r =>
    let z := Z_of_byte c in
    if z =? 123 then
      match depth with
      | O => PErr
      | S depth => members (parse_value depth) (S (length r)) true [] r
      end
    else if z =? 91 then
      match depth with
      | O => PErr
      | S depth => array_elements (parse_value depth) (S (length r)) true [] r
      end
    else if z =? 34 then
      match json_string (S (length r)) r [] with
      | POk s r => POk (JStr s) r
      | PErr => PErr
      | POut => POut
      end
    else if z =? 116 then expect (s2b "true") (JBool true) (c :: r)
    else if z =? 102 then expect (s2b "false") (JBool false) (c :: r)
    else if z =? 110 then expect (s2b "null") JNull (c :: r)
    else
      match scan_number (c :: r) with
      | Some (n, r) => POk (JNum n) r
      | None => PErr
      end
  end.

(** [json.Unmarshal] first checks the whole input. *)
Definition json_parse (l : bytes) : outcome json :=
  match parse_value maxNestingDepth l with
  | POk v r => if bool_decide (skip_ws r = []) then Ret v else Error "invalid character after top-level value"
  | PErr => Error "invalid JSON"
  | POut => Panic "model: out of fuel"
  end.

(** ** Decoding into Go values *)

(** The last member named [k] wins. *)
Fixpoint lookup_last (k : string) (kv : list (bytes * json)) : option json :=
  match kv with
  | [] => None
  | (k', v) :: kv =>
    match lookup_last k kv with
    | Some v => Some v
    | None => if bool_decide (k' = s2b k) then Some v else None
    end
  end.

Fixpoint has_overflow (v : json) : bool :=
  match v with
  | JNum raw => number_overflows raw
  | JArr l => existsb has_overflow l
  | JObj l => existsb (λ kv, has_overflow kv.2) l
  | _ => false
  end.

(** [json.Unmarshal(body, &bodyMap)] with [map[string]interface{}]. *)
Definition unmarshal_map (body : bytes) : outcome (list (bytes * json)) :=
  v ← json_parse body;
  match v with
  | JObj kv => if has_overflow v then Error "json: cannot unmarshal number" else Ret kv
  | JNull => Ret []
  | _ => Error "json: cannot unmarshal into map"
  end.

(** [v, ok := bodyMap[k].(string)], with [d] when not ok. *)
Definition map_string (k : string) (d : string) (kv : list (bytes * json)) : string :=
  match lookup_last k kv with Some (JStr s) => b2s s | _ => d end.
Definition map_has (k : string) (kv : list (bytes * json)) : bool :=
  bool_decide (is_Some (lookup_last k kv)).

(** The case folding a struct key is matched with: ASCII letters, the long s
    (U+017F) and the Kelvin sign (U+212A); no other rune folds to ASCII. *)
Fixpoint fold_key (l : bytes) : bytes :=
  match l with
  | a :: (b :: r) as l' =>
    if (Z_of_byte a =? 197) && (Z_of_byte b =? 191) then "s"%char :: fold_key r
    else match r with
      | c :: r' =>
        if (Z_of_byte a =? 226) && (Z_of_byte b =? 132) && (Z_of_byte c =? 170)
        then "k"%char :: fold_key r' else lower_byte a :: fold_key l'
      | [] => lower_byte a :: fold_key l'
      end
  | [a] => [lower_byte a]
  | [] => []
  end.

(** A struct field of type [string]: [None] when some member has another type. *)
Fixpoint string_field (name cur : string) (kv : list (bytes * json)) : option string :=
  match kv with
  | [] => Some cur
  | (k, v) :: kv =>
    if bool_decide (fold_key k = s2b name) then
      match v with
      | JStr s => string_field name (b2s s) kv
      | JNull => string_field name cur kv
      | _ => None
      end
    else string_field name cur kv
  end.

(** The members of a [map[string]string]. *)
Fixpoint string_members (m : gmap string string) (l : list (bytes * json))
    : option (gmap string string) :=
  match l with
  | [] => Some m
  | (k, JStr s) :: l => string_members (<[b2s k := b2s s]> m) l
  | (k, JNull) :: l => string_members (<[b2s k := ""]> m) l
  | _ :: _ => None
  end.
(** A struct field of type [map[string]string]; a nil map reads as empty. *)
Fixpoint string_map_field (name : string) (cur : gmap string string) (kv : list (bytes * json))
    : option (gmap string string) :=
  match kv with
  | [] => Some cur
  | (k, v) :: kv =>
    if bool_decide (fold_key k = s2b name) then
      match v with
      | JObj l => cur ← string_members cur l; string_map_field name cur kv
      | JNull => string_map_field name ∅ kv
      | _ => None
      end
    else string_map_field name cur kv
  end.

Definition type_error {A} (o : option A) : outcome A :=
  match o with Some a => Ret a | None => Error "json: cannot unmarshal into Go struct field" end.

(** The members [json.Unmarshal] sees when the target is a struct. *)
Definition unmarshal_members (body : bytes) : outcome (list (bytes * json)) :=
  v ← json_parse body;
  match v with
  | JObj kv => Ret kv
  | JNull => Ret []
  | _ => Error "json: cannot unmarshal into Go value"
  end.

(** ** The parser always has enough fuel *)
Definition pres_le {A} (n : nat) (m : pres A) : Prop :=
  match m with POk _ r => (length r ≤ n)%nat | PErr => True | POut => False end.

Lemma skip_ws_length l : (length (skip_ws l) ≤ length l)%nat.
Proof. induction l as [|c l IH]; simpl; [lia|]. case_match; simpl; lia. Qed.

Lemma span_digits_app l d r : span_digits l = (d, r) → l = d ++ r.
Proof.
  revert d r. induction l as [|c l IH]; intros d r; simpl; [by intros [= <- <-]|].
  case_match; [|by intros [= <- <-]].
  destruct (span_digits l) as [d' r'] eqn:E. intros [= <- <-]. simpl. f_equal. by apply IH.
Qed.

Lemma hex4_length l v r : hex4 l = Some (v, r) → length l = (4 + length r)%nat.
Proof.
  destruct l as [|a [|b [|c [|d l]]]]; [done..|]. simpl.
  intros H. repeat (apply bind_Some in H as (? & _ & H)). injection H as _ <-. done.
Qed.

Lemma getu4_length l v r : getu4 l = Some (v, r) → length l = (6 + length r)%nat.
Proof.
  unfold getu4. intros H. destruct l as [|a [|b l]]; [done..|].
  case_match; [|done]. apply hex4_length in H. simpl. lia.
Qed.

Definition step_lt (n : nat) (s : str_step) : Prop :=
  match s with SEnd r | SEmit _ r => (length r < n)%nat | SErr => True end.

Lemma u_escape_length l : step_lt (length l) (u_escape l).
Proof.
  unfold u_escape. destruct (hex4 l) as [[rr r1]|] eqn:E; [|done].
  apply hex4_length in E. case_match; [|simpl; lia].
  destruct (getu4 r1) as [[rr1 r3]|] eqn:E1; [|simpl; lia].
  apply getu4_length in E1. case_match; simpl; lia.
Qed.

Lemma step_lt_mono n m s : (n ≤ m)%nat → step_lt n s → step_lt m s.
Proof. destruct s; simpl; lia. Qed.

Lemma json_str_step_length l : step_lt (length l) (json_str_step l).
Proof.
  destruct l as [|c r]; [done|]. cbn [json_str_step].
  destruct (Z_of_byte c =? 34); [simpl; lia|]. destruct (Z_of_byte c <? 32); [done|].
  destruct (Z_of_byte c =? 92).
  - destruct r as [|e r']; [done|].
    assert (step_lt (length (c :: e :: r')) (u_escape r')).
    { eapply step_lt_mono, u_escape_length. simpl. lia. }
    repeat (case_match; try done; try (simpl; lia)).
  - destruct (utf8_len (c :: r)) as [|n]; [simpl; lia|].
    cbn [drop step_lt]. rewrite length_drop. simpl. lia.
Qed.

Lemma json_string_le fuel l acc n :
  (length l < fuel)%nat → (length l ≤ n)%nat → pres_le n (json_string fuel l acc).
Proof.
  revert l acc. induction fuel as [|fuel IH]; intros l acc Hf Hn; [lia|]. simpl.
  pose proof (json_str_step_length l) as Hl. destruct (json_str_step l); simpl in *; [lia| |done].
  apply IH; lia.
Qed.

Lemma scan_opt_length zs l n r : scan_opt zs l = (n, r) → (length r ≤ length l)%nat.
Proof.
  unfold scan_opt. destruct l as [|c l]; [by intros [= <- <-]|].
  case_match; intros [= <- <-]; simpl; lia.
Qed.

Lemma scan_int_length l n r : scan_int l = Some (n, r) → (length r < length l)%nat.
Proof.
  unfold scan_int. destruct (span_digits l) as [ds r1] eqn:Es.
  apply span_digits_app in Es as ->. rewrite length_app.
  destruct ds as [|d ds]; [done|]. case_match; intros [= <- <-]; rewrite ?length_app; simpl; lia.
Qed.

Lemma scan_frac_length l n r : scan_frac l = Some (n, r) → (length r ≤ length l)%nat.
Proof.
  unfold scan_frac. destruct l as [|c l]; [by intros [= <- <-]|].
  case_match; [|by intros [= <- <-]].
  destruct (span_digits l) as [[|d ds] r1] eqn:Es; [done|]. intros [= <- <-].
  apply span_digits_app in Es as ->. rewrite length_cons, length_app. lia.
Qed.

Lemma scan_exp_length l n r : scan_exp l = Some (n, r) → (length r ≤ length l)%nat.
Proof.
  unfold scan_exp. destruct l as [|c l]; [by intros [= <- <-]|].
  case_match; [|by intros [= <- <-]].
  destruct (scan_opt [43; 45] l) as [sg l1] eqn:Eo. apply scan_opt_length in Eo.
  destruct (span_digits l1) as [[|d ds] r1] eqn:Es; [done|]. intros [= <- <-].
  apply span_digits_app in Es as ->. rewrite length_app in Eo. simpl. lia.
Qed.

Lemma scan_number_length l n r : scan_number l = Some (n, r) → (length r < length l)%nat.
Proof.
  unfold scan_number. destruct (scan_opt [45] l) as [neg l0] eqn:E0.
  apply scan_opt_length in E0. intros H.
  apply bind_Some in H as ([i l1] & Hi%scan_int_length & H).
  apply bind_Some in H as ([f l2] & Hf%scan_frac_length & H).
  apply bind_Some in H as ([e l3] & He%scan_exp_length & H). injection H as _ <-. lia.
Qed.

Lemma expect_le p v l n :
  (length l ≤ n)%nat → pres_le n (expect p v l).
Proof. intros Hl. unfold expect. case_match; [|done]. simpl. rewrite length_drop. lia. Qed.

Section value_fuel.
Context (value : bytes → pres json) (N : nat).
Context (Hvalue : ∀ l, (length l ≤ N)%nat → pres_le (length l) (value l)).

Lemma members_le fuel first acc l n :
  (length l < fuel)%nat → (length l ≤ n)%nat → (length l ≤ N)%nat →
  pres_le n (members value fuel first acc l).
Proof using Hvalue.
  revert first acc l. induction fuel as [|fuel IH]; intros first acc l Hf Hn HN; [lia|].
  cbn [members]. pose proof (skip_ws_length l). destruct (skip_ws l) as [|c r]; [done|].
  simpl length in *. case_match; [simpl; lia|]. case_match; [|done].
  pose proof (json_string_le (S (length r)) r [] (length r) ltac:(lia) ltac:(lia)) as Hs.
  destruct (json_string (S (length r)) r []) as [k r1| |]; [|done..]. simpl in Hs.
  pose proof (skip_ws_length r1). destruct (skip_ws r1) as [|c1 r2]; [done|].
  simpl length in *. case_match; [|done].
  pose proof (Hvalue r2 ltac:(lia)) as Hv. destruct (value r2) as [v r3| |]; [|done..].
  simpl in Hv. pose proof (skip_ws_length r3). destruct (skip_ws r3) as [|c3 r4]; [done|].
  simpl length in *. case_match; [apply IH; lia|]. case_match; [simpl; lia|done].
Qed.

Lemma array_elements_le fuel first acc l n :
  (length l < fuel)%nat → (length l ≤ n)%nat → (length l ≤ N)%nat →
  pres_le n (array_elements value fuel first acc l).
Proof using Hvalue.
  revert first acc l. induction fuel as [|fuel IH]; intros first acc l Hf Hn HN; [lia|].
  cbn [array_elements]. pose proof (skip_ws_length l). destruct (skip_ws l) as [|c r]; [done|].
  simpl length in *. case_match; [simpl; lia|].
  pose proof (Hvalue (c :: r) ltac:(simpl; lia)) as Hv.
  destruct (value (c :: r)) as [v r3| |]; [|done..]. simpl in Hv.
  pose proof (skip_ws_length r3). destruct (skip_ws r3) as [|c3 r4]; [done|].
  simpl length in *. case_match; [apply IH; lia|]. case_match; [simpl; lia|done].
Qed.
End value_fuel.

Lemma parse_value_le depth l : pres_le (length l) (parse_value depth l).
Proof.
  revert l. induction depth as [|depth IH]; intros l; cbn [parse_value];
    pose proof (skip_ws_length l); (destruct (skip_ws l) as [|c r]; [done|]); simpl length in *;
    repeat (case_match; try done);
    try (apply expect_le; simpl; lia);
    try (match goal with E : json_string _ ?r _ = _ |- _ =>
      pose proof (json_string_le (S (length r)) r [] (length r) ltac:(lia) ltac:(lia)) as Hs;
      rewrite E in Hs; simpl in *; lia end);
    try (match goal with E : scan_number _ = Some _ |- _ =>
      apply scan_number_length in E; simpl in *; lia end).
  - apply (members_le _ (length r)); [intros l' _; apply IH|lia..].
  - apply (array_elements_le _ (length r)); [intros l' _; apply IH|lia..].
Qed.

Lemma json_parse_no_panic l w : json_parse l ≠ Panic w.
Proof.
  unfold json_parse. pose proof (parse_value_le maxNestingDepth l).
  destruct (parse_value maxNestingDepth l) as [v r| |]; [case_match|..]; done.
Qed.

(** ** Printed objects parse back *)

(** Text that stands for itself between quotes. *)
Definition plain_byte (c : ascii) : bool :=
  (32 <=? Z_of_byte c) && (Z_of_byte c <? 128) &&
  negb (Z_of_byte c =? 34) && negb (Z_of_byte c =? 92).
Definition plain (l : bytes) : Prop := Forall (λ c, plain_byte c = true) l.

Definition quote (l : bytes) : bytes := byte_of_Z 34 :: l ++ [byte_of_Z 34].
Fixpoint members_text (kv : list (bytes * bytes)) : bytes :=
  match kv with
  | [] => [byte_of_Z 125]
  | [(k, v)] => quote k ++ [byte_of_Z 58] ++ quote v ++ [byte_of_Z 125]
  | (k, v) :: kv => quote k ++ [byte_of_Z 58] ++ quote v ++ [byte_of_Z 44] ++ members_text kv
  end.
(** A JSON object of string members, as an inscription writes it. *)
Definition object_text (kv : list (bytes * bytes)) : bytes := byte_of_Z 123 :: members_text kv.

Lemma json_str_step_plain c r : plain_byte c = true → json_str_step (c :: r) = SEmit [c] r.
Proof.
  unfold plain_byte. intros H. apply andb_prop in H as [H ?%negb_true_iff].
  apply andb_prop in H as [H ?%negb_true_iff]. apply andb_prop in H as [Hlo Hhi].
  unfold json_str_step. repeat match goal with H : _ = false |- _ => rewrite H; clear H end.
  rewrite (proj2 (Z.ltb_ge _ _)) by lia.
  assert (utf8_len (c :: r) = 1%nat) as ->; [|done].
  unfold utf8_len, in_range. cbn [lookup list_lookup].
  by rewrite (proj2 (Z.leb_le 0 _)), (proj2 (Z.leb_le _ 127)) by lia.
Qed.

Lemma json_string_plain s rest fuel acc :
  plain s → (length s < fuel)%nat →
  json_string fuel (s ++ byte_of_Z 34 :: rest) acc = POk (acc ++ s) rest.
Proof.
  intros Hs. revert fuel acc. induction Hs as [|c s Hc Hs IH]; intros fuel acc Hf.
  - destruct fuel; [simpl in Hf; lia|]. by rewrite app_nil_r.
  - destruct fuel as [|fuel]; [simpl in Hf; lia|]. cbn [json_string app].
    rewrite json_str_step_plain by done. rewrite IH by (simpl in Hf; lia). by rewrite <-app_assoc.
Qed.

Lemma parse_value_quote depth s rest :
  plain s → parse_value depth (quote s ++ rest) = POk (JStr s) rest.
Proof.
  intros Hs. unfold quote. cbn [app]. rewrite <-app_assoc. cbn [app].
  destruct depth; cbn [parse_value skip_ws]; change (is_ws (byte_of_Z 34)) with false; cbv iota zeta;
    change (Z_of_byte (byte_of_Z 34)) with 34; cbn [Z.eqb Pos.eqb];
    rewrite json_string_plain; try done; rewrite length_app; simpl; lia.
Qed.

Lemma members_step depth fuel k v acc first tail :
  plain k → plain v →
  members (parse_value depth) (S fuel) first acc (quote k ++ [byte_of_Z 58] ++ quote v ++ tail) =
    match skip_ws tail with
    | c :: r =>
      if Z_of_byte c =? 44 then members (parse_value depth) fuel false (acc ++ [(k, JStr v)]) r
      else if Z_of_byte c =? 125 then POk (JObj (acc ++ [(k, JStr v)])) r
      else PErr
    | [] => PErr
    end.
Proof.
  intros Hk Hv. cbn [members]. unfold quote at 1. cbn [app skip_ws]. rewrite <-app_assoc. cbn [app].
  change (is_ws (byte_of_Z 34)) with false. cbv iota.
  change (Z_of_byte (byte_of_Z 34)) with 34. rewrite andb_false_r. cbn [Z.eqb Pos.eqb].
  rewrite json_string_plain; [|done|rewrite length_app; simpl; lia].
  change (skip_ws (byte_of_Z 58 :: quote v ++ tail)) with (byte_of_Z 58 :: quote v ++ tail).
  change (Z_of_byte (byte_of_Z 58) =? 58) with true. cbv iota.
  by rewrite parse_value_quote.
Qed.

Lemma members_text_parse depth kv fuel acc :
  Forall (λ p, plain p.1 ∧ plain p.2) kv → kv ≠ [] → (length kv ≤ fuel)%nat → ∀ first,
  members (parse_value depth) fuel first acc (members_text kv) =
    POk (JObj (acc ++ map (λ p, (p.1, JStr p.2)) kv)) [].
Proof.
  intros Hkv. revert fuel acc. induction Hkv as [|[k v] kv [Hk Hv] Hkv IH];
    intros fuel acc Hne Hf first; [done|]. simpl in Hk, Hv.
  destruct fuel as [|fuel]; [simpl in Hf; lia|].
  destruct kv as [|p kv].
  - cbn [members_text]. rewrite members_step by done. done.
  - change (members_text ((k, v) :: p :: kv))
      with (quote k ++ [byte_of_Z 58] ++ quote v ++ [byte_of_Z 44] ++ members_text (p :: kv)).
    rewrite members_step by done. set (t := members_text (p :: kv)).
    change (skip_ws ([byte_of_Z 44] ++ t)) with (byte_of_Z 44 :: t).
    change (Z_of_byte (byte_of_Z 44) =? 44) with true. cbv iota. unfold t.
    rewrite IH; [by rewrite <-app_assoc|done|simpl in *; lia].
Qed.

Lemma members_text_long kv : (length kv < length (members_text kv) + 1)%nat.
Proof.
  induction kv as [|[k v] kv IH]; [simpl; lia|]. destruct kv as [|p kv]; [simpl; lia|].
  change (members_text ((k, v) :: p :: kv))
    with (quote k ++ [byte_of_Z 58] ++ quote v ++ [byte_of_Z 44] ++ members_text (p :: kv)).
  rewrite !length_app. simpl length in *. lia.
Qed.

Lemma json_parse_object_text kv :
  Forall (λ p, plain p.1 ∧ plain p.2) kv →
  json_parse (object_text kv) = Ret (JObj (map (λ p, (p.1, JStr p.2)) kv)).
Proof.
  intros Hkv. unfold json_parse, object_text.
  assert (parse_value maxNestingDepth (byte_of_Z 123 :: members_text kv) =
    POk (JObj (map (λ p, (p.1, JStr p.2)) kv)) []) as ->; [|done].
  change maxNestingDepth with (S (Z.to_nat 9999)).
  cbn [parse_value skip_ws]. change (is_ws (byte_of_Z 123)) with false. cbv iota zeta.
  change (Z_of_byte (byte_of_Z 123)) with 123. cbn [Z.eqb Pos.eqb].
  destruct kv as [|p kv]; [done|].
  pose proof (members_text_long (p :: kv)).
  by rewrite members_text_parse by (done || lia).
Qed.

Lemma has_overflow_strings kv :
  has_overflow (JObj (map (λ p : bytes * bytes, (p.1, JStr p.2)) kv)) = false.
Proof. simpl. induction kv as [|p kv IH]; [done|]. simpl. exact IH. Qed.

(** A printed object decodes to its members. *)
Lemma unmarshal_map_object_text kv :
  Forall (λ p, plain p.1 ∧ plain p.2) kv →
  unmarshal_map (object_text kv) = Ret (map (λ p, (p.1, JStr p.2)) kv).
Proof.
  intros Hkv. unfold unmarshal_map. rewrite json_parse_object_text by done.
  unfold mbind, outcome_bind. by rewrite has_overflow_strings.
Qed.

(** Conversion leaves the parser alone as long as it can. *)
#[global] Strategy 1000 [parse_value json_parse unmarshal_map unmarshal_members].
