(* ===== verification/Model.v ===== *)
(** * model/model.go and conf/conf.go: inscription data, ticker and balance records

    Pointers to objects that are never written after they are shared stand for
    the objects themselves; balance objects, which two maps alias, live in a heap
    (file Indexer).  A nil map that the code only reads, or makes before it writes
    to it, is the empty map. *)
From S2P Require Import Prelude GoStd Decimal Script Utils Json.

(** ** conf/conf.go *)
Module Conf.
Record Config := mk {
    TICKS_ENABLED : string;
    ENABLE_SELF_MINT_HEIGHT : Z;
    ENABLE_SWAP_WITHDRAW_HEIGHT : Z;
    MODULE_SWAP_SOURCE_INSCRIPTION_ID : string;
  }.
Definition default_conf : Config :=
  mk "" 837090 847090 "93ce120ff87364c261a534fea4c39196a615f449412fb3547a185d92306a39b8i0".
End Conf.
Abbreviation Config := Conf.Config.
Existing Class Conf.Config.
Definition conf {c : Config} : Config := c.

(** An inscription event: creation or move of an inscription. *)
Module Data.
Record InscriptionBRC20Data := mk {
    IsTransfer : bool;
    TxId : string;
    Idx : Z;
    Vout : Z;
    Offset : Z;
    Satoshi : Z;
    PkScript : string;
    Fee : Z;
    InscriptionNumber : Z;
    Parent : bytes;
    ContentBody : bytes;
    CreateIdxKey : string;
    Height : Z;
    TxIdx : Z;
    BlockTime : Z;
    Sequence : Z;
    InscriptionId : string;
  }.
#[global] Instance eta : EtaRecord InscriptionBRC20Data := λ r,
    mk (IsTransfer r) (TxId r) (Idx r) (Vout r) (Offset r) (Satoshi r) (PkScript r) (Fee r)
      (InscriptionNumber r) (Parent r) (ContentBody r) (CreateIdxKey r) (Height r) (TxIdx r)
      (BlockTime r) (Sequence r) (InscriptionId r).
#[global] Instance eq_dec : EqDecision InscriptionBRC20Data.
Proof. solve_decision. Defined.
End Data.
Abbreviation InscriptionBRC20Data := Data.InscriptionBRC20Data.

(** The identifier is cached in the object; the cache holds what would be
    computed, so the getter is a function. *)
Definition GetInscriptionId (data : InscriptionBRC20Data) : string :=
  if bool_decide (Data.InscriptionId data = "")
  then inscription_id (HashString (s2b (Data.TxId data))) (Data.Idx data)
  else Data.InscriptionId data.

(** The text form of an inscription, for the API and the history. *)
Module InfoResp.
Record InscriptionBRC20InfoResp := mk {
    Operation : string;
    BRC20Tick : string;
    BRC20Max : string;
    BRC20Limit : string;
    BRC20Amount : string;
    BRC20Decimal : string;
    BRC20Minted : string;
    BRC20SelfMint : string;
  }.
#[global] Instance eta : EtaRecord InscriptionBRC20InfoResp := λ r,
    mk (Operation r) (BRC20Tick r) (BRC20Max r) (BRC20Limit r) (BRC20Amount r) (BRC20Decimal
      r) (BRC20Minted r) (BRC20SelfMint r).
#[global] Instance eq_dec : EqDecision InscriptionBRC20InfoResp.
Proof. solve_decision. Defined.
End InfoResp.
Abbreviation InscriptionBRC20InfoResp := InfoResp.InscriptionBRC20InfoResp.

(** ** Inscription bodies *)
(** Protocol and operation. *)
Module ProtoBody.
Record InscriptionBRC20ProtocalContent := mk {
    Proto : string;
    Operation : string;
  }.
#[global] Instance eta : EtaRecord InscriptionBRC20ProtocalContent := λ r,
    mk (Proto r) (Operation r).
#[global] Instance eq_dec : EqDecision InscriptionBRC20ProtocalContent.
Proof. solve_decision. Defined.
End ProtoBody.
Abbreviation InscriptionBRC20ProtocalContent := ProtoBody.InscriptionBRC20ProtocalContent.

Definition Unmarshal_Protocal (contentBody : bytes) : outcome InscriptionBRC20ProtocalContent :=
  bodyMap ← unmarshal_map contentBody;
  Ret (ProtoBody.mk (map_string "p" "" bodyMap) (map_string "op" "" bodyMap)).

(** Mint and transfer. *)
Module MintBody.
Record InscriptionBRC20MintTransferContent := mk {
    Proto : string;
    Operation : string;
    BRC20Tick : string;
    BRC20Amount : string;
  }.
#[global] Instance eta : EtaRecord InscriptionBRC20MintTransferContent := λ r,
    mk (Proto r) (Operation r) (BRC20Tick r) (BRC20Amount r).
#[global] Instance eq_dec : EqDecision InscriptionBRC20MintTransferContent.
Proof. solve_decision. Defined.
End MintBody.
Abbreviation InscriptionBRC20MintTransferContent := MintBody.InscriptionBRC20MintTransferContent.

Definition Unmarshal_MintTransfer (contentBody : bytes)
    : outcome InscriptionBRC20MintTransferContent :=
  bodyMap ← unmarshal_map contentBody;
  Ret (MintBody.mk (map_string "p" "" bodyMap) (map_string "op" "" bodyMap)
    (map_string "tick" "" bodyMap) (map_string "amt" "" bodyMap)).

(** Deploy. *)
Module DeployBody.
Record InscriptionBRC20DeployContent := mk {
    Proto : string;
    Operation : string;
    BRC20Tick : string;
    BRC20Max : string;
    BRC20Limit : string;
    BRC20Decimal : string;
    BRC20SelfMint : string;
  }.
#[global] Instance eta : EtaRecord InscriptionBRC20DeployContent := λ r,
    mk (Proto r) (Operation r) (BRC20Tick r) (BRC20Max r) (BRC20Limit r) (BRC20Decimal r)
      (BRC20SelfMint r).
#[global] Instance eq_dec : EqDecision InscriptionBRC20DeployContent.
Proof. solve_decision. Defined.
End DeployBody.
Abbreviation InscriptionBRC20DeployContent := DeployBody.InscriptionBRC20DeployContent.

Definition Unmarshal_Deploy (contentBody : bytes) : outcome InscriptionBRC20DeployContent :=
  bodyMap ← unmarshal_map contentBody;
  let selfMint := if map_has "self_mint" bodyMap then "false" else "" in
  let max := map_string "max" "" bodyMap in
  Ret (DeployBody.mk (map_string "p" "" bodyMap) (map_string "op" "" bodyMap)
    (map_string "tick" "" bodyMap) max
    (if map_has "lim" bodyMap then map_string "lim" "" bodyMap else max)
    (if map_has "dec" bodyMap then map_string "dec" "" bodyMap else MAX_PRECISION_STRING)
    (map_string "self_mint" selfMint bodyMap)).

(** ** Ticker information *)
Definition nil_deref : string := "invalid memory address or nil pointer dereference".
(** Reading through a pointer. *)
Definition deref_ptr {A} (p : option A) : outcome A :=
  match p with Some a => Ret a | None => Panic nil_deref end.
(** A deploy, mint or transfer inscription, with the mint state of a ticker. *)
Module TickInfo.
Record InscriptionBRC20TickInfo := mk {
    Data : option InscriptionBRC20InfoResp;
    Tick : string;
    Amount : option Decimal;
    Meta : option InscriptionBRC20Data;
    SelfMint : bool;
    Max : option Decimal;
    Limit : option Decimal;
    TotalMinted : option Decimal;
    ConfirmedMinted : option Decimal;
    ConfirmedMinted1h : option Decimal;
    ConfirmedMinted24h : option Decimal;
    Burned : option Decimal;
    MintTimes : Z;
    Decimals : Z;
    TxId : string;
    Idx : Z;
    Vout : Z;
    Offset : Z;
    Satoshi : Z;
    PkScript : string;
    InscriptionNumber : Z;
    CreateIdxKey : string;
    Height : Z;
    TxIdx : Z;
    BlockTime : Z;
    CompleteHeight : Z;
    CompleteBlockTime : Z;
    InscriptionNumberStart : Z;
    InscriptionNumberEnd : Z;
  }.
#[global] Instance eta : EtaRecord InscriptionBRC20TickInfo := λ r,
    mk (Data r) (Tick r) (Amount r) (Meta r) (SelfMint r) (Max r) (Limit r) (TotalMinted r)
      (ConfirmedMinted r) (ConfirmedMinted1h r) (ConfirmedMinted24h r) (Burned r) (MintTimes
      r) (Decimals r) (TxId r) (Idx r) (Vout r) (Offset r) (Satoshi r) (PkScript r)
      (InscriptionNumber r) (CreateIdxKey r) (Height r) (TxIdx r) (BlockTime r)
      (CompleteHeight r) (CompleteBlockTime r) (InscriptionNumberStart r)
      (InscriptionNumberEnd r).
#[global] Instance eq_dec : EqDecision InscriptionBRC20TickInfo.
Proof. solve_decision. Defined.
End TickInfo.
Abbreviation InscriptionBRC20TickInfo := TickInfo.InscriptionBRC20TickInfo.

Definition TickInfo_GetInscriptionId (d : InscriptionBRC20TickInfo) : string :=
  inscription_id (HashString (s2b (TickInfo.TxId d))) (TickInfo.Idx d).

(** [DeepCopy] leaves [Meta] nil and shares [Data]. *)
Definition TickInfo_DeepCopy (d : InscriptionBRC20TickInfo) : InscriptionBRC20TickInfo :=
  d <| TickInfo.Meta := None |>
    <| TickInfo.Max ::= NewDecimalCopy |> <| TickInfo.Limit ::= NewDecimalCopy |>
    <| TickInfo.TotalMinted ::= NewDecimalCopy |> <| TickInfo.ConfirmedMinted ::= NewDecimalCopy |>
    <| TickInfo.ConfirmedMinted1h ::= NewDecimalCopy |>
    <| TickInfo.ConfirmedMinted24h ::= NewDecimalCopy |>
    <| TickInfo.Burned ::= NewDecimalCopy |> <| TickInfo.Amount ::= NewDecimalCopy |>.

Definition NewInscriptionBRC20TickInfo (tick operation : string) (data : InscriptionBRC20Data)
    : InscriptionBRC20TickInfo :=
  {| TickInfo.Data := Some (InfoResp.mk operation tick "" "" "" "" "" "");
     TickInfo.Tick := tick;
     TickInfo.Amount := None;
     TickInfo.Meta := None;
     TickInfo.SelfMint := false;
     TickInfo.Max := None; TickInfo.Limit := None; TickInfo.TotalMinted := None;
     TickInfo.ConfirmedMinted := None; TickInfo.ConfirmedMinted1h := None;
     TickInfo.ConfirmedMinted24h := None; TickInfo.Burned := None;
     TickInfo.MintTimes := 0;
     TickInfo.Decimals := 18;
     TickInfo.TxId := Data.TxId data;
     TickInfo.Idx := Data.Idx data;
     TickInfo.Vout := Data.Vout data;
     TickInfo.Offset := Data.Offset data;
     TickInfo.Satoshi := Data.Satoshi data;
     TickInfo.PkScript := Data.PkScript data;
     TickInfo.InscriptionNumber := Data.InscriptionNumber data;
     TickInfo.CreateIdxKey := Data.CreateIdxKey data;
     TickInfo.Height := Data.Height data;
     TickInfo.TxIdx := Data.TxIdx data;
     TickInfo.BlockTime := Data.BlockTime data;
     TickInfo.CompleteHeight := 0; TickInfo.CompleteBlockTime := 0;
     TickInfo.InscriptionNumberStart := 0; TickInfo.InscriptionNumberEnd := 0 |}.

(** A deployed ticker: state and history. *)
Module TokenInfo.
Record BRC20TokenInfo := mk {
    UpdateHeight : Z;
    Ticker : string;
    Deploy : InscriptionBRC20TickInfo;
    History : list Z;
    HistoryMint : list Z;
    HistoryInscribeTransfer : list Z;
    HistoryTransfer : list Z;
    HistoryWithdraw : list Z;
  }.
#[global] Instance eta : EtaRecord BRC20TokenInfo := λ r,
    mk (UpdateHeight r) (Ticker r) (Deploy r) (History r) (HistoryMint r)
      (HistoryInscribeTransfer r) (HistoryTransfer r) (HistoryWithdraw r).
#[global] Instance eq_dec : EqDecision BRC20TokenInfo.
Proof. solve_decision. Defined.
End TokenInfo.
Abbreviation BRC20TokenInfo := TokenInfo.BRC20TokenInfo.

(** ** Balances *)
(** Balance and history of one holder of one ticker. *)
Module Bal.
Record BRC20TokenBalance := mk {
    UpdateHeight : Z;
    Ticker : string;
    PkScript : string;
    AvailableBalance : option Decimal;
    AvailableBalanceSafe : option Decimal;
    TransferableBalance : option Decimal;
    ValidTransferMap : gmap string InscriptionBRC20TickInfo;
    History : list Z;
    HistoryMint : list Z;
    HistoryInscribeTransfer : list Z;
    HistorySend : list Z;
    HistoryReceive : list Z;
  }.
#[global] Instance eta : EtaRecord BRC20TokenBalance := λ r,
    mk (UpdateHeight r) (Ticker r) (PkScript r) (AvailableBalance r) (AvailableBalanceSafe
      r) (TransferableBalance r) (ValidTransferMap r) (History r) (HistoryMint r)
      (HistoryInscribeTransfer r) (HistorySend r) (HistoryReceive r).
#[global] Instance eq_dec : EqDecision BRC20TokenBalance.
Proof. solve_decision. Defined.
End Bal.
Abbreviation BRC20TokenBalance := Bal.BRC20TokenBalance.

(** [&BRC20TokenBalance{Ticker: ticker, PkScript: pkScript}] *)
Definition new_balance (ticker pkScript : string) : BRC20TokenBalance :=
  Bal.mk 0 ticker pkScript None None None ∅ [] [] [] [] [].

Definition OverallBalance (bal : BRC20TokenBalance) : outcome (option Decimal) :=
  Add (Bal.AvailableBalance bal) (Bal.TransferableBalance bal).

Definition BRC20TokenBalance_DeepCopy (b : BRC20TokenBalance) : BRC20TokenBalance :=
  b <| Bal.UpdateHeight := 0 |>
    <| Bal.AvailableBalance ::= NewDecimalCopy |> <| Bal.AvailableBalanceSafe ::= NewDecimalCopy |>
    <| Bal.TransferableBalance ::= NewDecimalCopy |>
    <| Bal.ValidTransferMap ::= fmap TickInfo_DeepCopy |>.

(** ** The inscription bodies *)

Lemma unmarshal_map_no_panic l w : unmarshal_map l ≠ Panic w.
Proof.
  unfold unmarshal_map, mbind, outcome_bind. pose proof (json_parse_no_panic l) as Hp.
  destruct (json_parse l) as [v|e|p] eqn:E; [|done|by destruct (Hp p)].
  repeat (case_match; try done).
Qed.
Lemma map_body_no_panic {A} (f : list (bytes * json) → A) l w :
  (m ← unmarshal_map l; Ret (f m)) ≠ Panic w.
Proof.
  unfold mbind, outcome_bind. pose proof (unmarshal_map_no_panic l) as Hp.
  destruct (unmarshal_map l) as [v|e|p]; [done..|]. by destruct (Hp p).
Qed.
Lemma Unmarshal_Deploy_no_panic l w : Unmarshal_Deploy l ≠ Panic w.
Proof. apply map_body_no_panic. Qed.
Lemma Unmarshal_MintTransfer_no_panic l w : Unmarshal_MintTransfer l ≠ Panic w.
Proof. apply map_body_no_panic. Qed.

(** The text of member [k] of an inscription: the last one given. *)
Fixpoint member_text (k : string) (kv : list (bytes * bytes)) : option string :=
  match kv with
  | [] => None
  | (k', v) :: kv =>
    match member_text k kv with
    | Some s => Some s
    | None => if bool_decide (k' = s2b k) then Some (b2s v) else None
    end
  end.

Lemma lookup_last_strings k kv :
  lookup_last k (map (λ p, (p.1, JStr p.2)) kv) = (λ s, JStr (s2b s)) <$> member_text k kv.
Proof.
  induction kv as [|[k' v] kv IH]; [done|]. simpl. rewrite IH.
  destruct (member_text k kv); [done|]. simpl. case_bool_decide; [|done]. simpl. by rewrite s2b_b2s.
Qed.
Lemma map_string_strings k d kv :
  map_string k d (map (λ p, (p.1, JStr p.2)) kv) = default d (member_text k kv).
Proof.
  unfold map_string. rewrite lookup_last_strings. destruct (member_text k kv); [|done].
  simpl. by rewrite b2s_s2b.
Qed.
Lemma map_has_strings k kv :
  map_has k (map (λ p, (p.1, JStr p.2)) kv) = bool_decide (is_Some (member_text k kv)).
Proof.
  unfold map_has. rewrite lookup_last_strings. apply bool_decide_ext. by rewrite fmap_is_Some.
Qed.

(** C40: A deploy inscription that is a JSON object of string members, in any order and
    with repetitions, is read member by member: the last occurrence of a member counts,
    a missing limit is the maximum, missing decimals are 18, and the other missing
    members are empty. *)
Theorem Unmarshal_Deploy_object kv :
  Forall (λ p, plain p.1 ∧ plain p.2) kv →
  let field k d := default d (member_text k kv) in
  Unmarshal_Deploy (object_text kv) =
    Ret {| DeployBody.Proto := field "p" "";
           DeployBody.Operation := field "op" "";
           DeployBody.BRC20Tick := field "tick" "";
           DeployBody.BRC20Max := field "max" "";
           DeployBody.BRC20Limit := field "lim" (field "max" "");
           DeployBody.BRC20Decimal := field "dec" "18";
           DeployBody.BRC20SelfMint := field "self_mint" "" |}.
Proof.
  intros Hkv field. unfold Unmarshal_Deploy. rewrite unmarshal_map_object_text by done.
  unfold mbind, outcome_bind. cbv zeta. rewrite !map_string_strings, !map_has_strings. unfold field.
  by destruct (member_text "lim" kv), (member_text "dec" kv), (member_text "self_mint" kv).
Qed.
Lemma Unmarshal_Deploy_object_witness :
  Unmarshal_Deploy (object_text [(s2b "op", s2b "deploy"); (s2b "max", s2b "7"); (s2b "max", s2b "9")]) =
    Ret (DeployBody.mk "" "deploy" "" "9" "9" "18" "").
Proof.
  assert (Forall (λ p : bytes * bytes, plain p.1 ∧ plain p.2)
    [(s2b "op", s2b "deploy"); (s2b "max", s2b "7"); (s2b "max", s2b "9")]) as Hkv.
  { repeat apply Forall_cons_2; try (split; repeat apply Forall_cons_2); try reflexivity;
      apply Forall_nil_2. }
  exact (Unmarshal_Deploy_object _ Hkv).
Defined.

(** None of the inscription body parsers panics, whatever bytes an inscription
    holds: each returns a body or an error. *)
Theorem Unmarshal_bodies_total l :
  ((∃ b, Unmarshal_Protocal l = Ret b) ∨ (∃ e, Unmarshal_Protocal l = Error e)) ∧
  ((∃ b, Unmarshal_MintTransfer l = Ret b) ∨ (∃ e, Unmarshal_MintTransfer l = Error e)) ∧
  ((∃ b, Unmarshal_Deploy l = Ret b) ∨ (∃ e, Unmarshal_Deploy l = Error e)).
Proof.
  assert (∀ {A} (f : list (bytes * json) → A),
    let o := (m ← unmarshal_map l; Ret (f m)) in (∃ b, o = Ret b) ∨ (∃ e, o = Error e)) as H.
  { intros A f o. destruct o as [b|e|w] eqn:E; [eauto|eauto|]. by destruct (map_body_no_panic f l w). }
  split_and!; apply H.
Qed.
