(* ===== verification/History.v ===== *)
(** * model/history.go: history records and their serialised form

    [Marshal] fills a buffer of 1024 bytes and panics when the record does not
    fit; the text fields are dropped when they are too long for their length
    byte.  [Unmarshal] returns early, leaving the rest of the record zero, when the
    buffer ends inside a variable-length number. *)
From S2P Require Import Prelude GoStd Decimal Script Utils Model.

(** Type, position, sender and receiver of an event. *)
Module HBase.
Record BRC20HistoryBase := mk {
    Type_ : Z;
    Valid : bool;
    TxId : string;
    Idx : Z;
    Vout : Z;
    Offset : Z;
    PkScriptFrom : string;
    PkScriptTo : string;
    Satoshi : Z;
    Fee : Z;
    Height : Z;
    TxIdx : Z;
    BlockTime : Z;
  }.
#[global] Instance eta : EtaRecord BRC20HistoryBase := λ r,
    mk (Type_ r) (Valid r) (TxId r) (Idx r) (Vout r) (Offset r) (PkScriptFrom r) (PkScriptTo
      r) (Satoshi r) (Fee r) (Height r) (TxIdx r) (BlockTime r).
#[global] Instance eq_dec : EqDecision BRC20HistoryBase.
Proof. solve_decision. Defined.
End HBase.
Abbreviation BRC20HistoryBase := HBase.BRC20HistoryBase.

(** The inscription an event is about. *)
Module TickInfoResp.
Record InscriptionBRC20TickInfoResp := mk {
    Height : Z;
    Data : option InscriptionBRC20InfoResp;
    InscriptionNumber : Z;
    InscriptionId : string;
    Satoshi : Z;
  }.
#[global] Instance eta : EtaRecord InscriptionBRC20TickInfoResp := λ r,
    mk (Height r) (Data r) (InscriptionNumber r) (InscriptionId r) (Satoshi r).
#[global] Instance eq_dec : EqDecision InscriptionBRC20TickInfoResp.
Proof. solve_decision. Defined.
End TickInfoResp.
Abbreviation InscriptionBRC20TickInfoResp := TickInfoResp.InscriptionBRC20TickInfoResp.

(** A history record. *)
Module Hist.
Record BRC20History := mk {
    Base : BRC20HistoryBase;
    Inscription : InscriptionBRC20TickInfoResp;
    Amount : string;
    OverallBalance : string;
    TransferableBalance : string;
    AvailableBalance : string;
  }.
#[global] Instance eta : EtaRecord BRC20History := λ r,
    mk (Base r) (Inscription r) (Amount r) (OverallBalance r) (TransferableBalance r)
      (AvailableBalance r).
#[global] Instance eq_dec : EqDecision BRC20History.
Proof. solve_decision. Defined.
End Hist.
Abbreviation BRC20History := Hist.BRC20History.

Definition history_of (historyType : Z) (isValid isTransfer : bool)
    (from : InscriptionBRC20TickInfo) (to : InscriptionBRC20Data) : BRC20HistoryBase :=
  if isTransfer then
    HBase.mk historyType isValid (Data.TxId to) (Data.Idx to) (Data.Vout to) (Data.Offset to)
      (TickInfo.PkScript from)
      (if Data.Satoshi to =? 0 then TickInfo.PkScript from else Data.PkScript to)
      (Data.Satoshi to) (Data.Fee to) (Data.Height to) (Data.TxIdx to) (Data.BlockTime to)
  else
    HBase.mk historyType isValid (TickInfo.TxId from) (TickInfo.Idx from) (TickInfo.Vout from)
      (TickInfo.Offset from) "" (TickInfo.PkScript from) (TickInfo.Satoshi from)
      (Data.Fee to) (Data.Height to) (Data.TxIdx to) (Data.BlockTime to).

Definition NewBRC20History (historyType : Z) (isValid isTransfer : bool)
    (from : InscriptionBRC20TickInfo) (bal : option BRC20TokenBalance) (to : InscriptionBRC20Data)
    : outcome BRC20History :=
  amount ← Decimal_String (TickInfo.Amount from);
  let inscription := TickInfoResp.mk (TickInfo.Height from) (TickInfo.Data from)
    (TickInfo.InscriptionNumber from) (TickInfo_GetInscriptionId from) (TickInfo.Satoshi from) in
  let base := history_of historyType isValid isTransfer from to in
  match bal with
  | Some bal =>
    overall ← OverallBalance bal;
    overall ← Decimal_String overall;
    transferable ← Decimal_String (Bal.TransferableBalance bal);
    available ← Decimal_String (Bal.AvailableBalance bal);
    Ret (Hist.mk base inscription amount overall transferable available)
  | None => Ret (Hist.mk base inscription amount "0" "0" "0")
  end.

(** ** Marshal

    The state is the part of the buffer written so far. *)
Definition buf_size : Z := 1024.
Definition room (out : bytes) : Z := buf_size - blen out.

Definition put_bytes (bs : bytes) : GoM bytes unit := λ out,
  if room out <? blen bs then (Panic "slice bounds out of range", out) else (Ret tt, out ++ bs).
Definition put_vlq (n : Z) : GoM bytes unit := λ out,
  match PutVLQ (room out) n with
  | Ret v => (Ret tt, out ++ v)
  | Error e => (Error e, out)
  | Panic p => (Panic p, out)
  end.
(** A script longer than the room is truncated, and the next write panics. *)
Definition put_script (script : string) : GoM bytes unit := λ out,
  match PutCompressedScript (room out) (s2b script) with
  | Ret (b, n) =>
    if room out <? n then (Panic "slice bounds out of range", out) else (Ret tt, out ++ b)
  | Error e => (Error e, out)
  | Panic p => (Panic p, out)
  end.
(** A length byte and the text, or a zero when the text is too long. *)
Definition put_text (limit : Z) (s : string) : GoM bytes unit :=
  let n := len s in
  if n <? limit then put_bytes [byte_of_Z n] ;; put_bytes (s2b s) else put_bytes [byte_of_Z 0].

Definition put_info (data : InscriptionBRC20InfoResp) : GoM bytes unit :=
  put_text 16 (InfoResp.BRC20Tick data) ;;
  put_text 40 (InfoResp.BRC20Max data) ;;
  put_text 40 (InfoResp.BRC20Limit data) ;;
  put_text 40 (InfoResp.BRC20Amount data) ;;
  put_text 8 (InfoResp.BRC20Decimal data) ;;
  put_text 40 (InfoResp.BRC20Minted data) ;;
  put_text 8 (InfoResp.BRC20SelfMint data).

(** [copy(buf[2:34], h.TxId[:])] *)
Definition txid_bytes (s : string) : bytes := take 32 (s2b s ++ replicate 32 (byte_of_Z 0)).

Definition Marshal_go (h : BRC20History) : GoM bytes unit :=
  let b := Hist.Base h in
  let i := Hist.Inscription h in
  put_bytes [byte_of_Z (HBase.Type_ b)] ;;
  put_bytes [byte_of_Z (if HBase.Valid b then 1 else 0)] ;;
  put_bytes (txid_bytes (HBase.TxId b)) ;;
  put_vlq (HBase.Idx b) ;;
  put_vlq (HBase.Vout b) ;;
  put_vlq (HBase.Offset b) ;;
  put_script (HBase.PkScriptFrom b) ;;
  put_script (HBase.PkScriptTo b) ;;
  put_vlq (HBase.Satoshi b) ;;
  put_vlq (u64 (HBase.Fee b)) ;;
  put_bytes (le_bytes 4 (HBase.Height b)) ;;
  put_vlq (HBase.TxIdx b) ;;
  put_bytes (le_bytes 4 (HBase.BlockTime b)) ;;
  put_text 40 (Hist.Amount h) ;;
  put_text 40 (Hist.OverallBalance h) ;;
  put_text 40 (Hist.TransferableBalance h) ;;
  put_text 40 (Hist.AvailableBalance h) ;;
  put_bytes (le_bytes 4 (TickInfoResp.Height i)) ;;
  put_vlq (u64 (TickInfoResp.InscriptionNumber i)) ;;
  put_vlq (TickInfoResp.Satoshi i) ;;
  put_text 70 (TickInfoResp.InscriptionId i) ;;
  match TickInfoResp.Data i with None => mret tt | Some data => put_info data end.

Definition Marshal (h : BRC20History) : outcome bytes :=
  match Marshal_go h [] with
  | (Ret _, out) => Ret out
  | (Error e, _) => Error e
  | (Panic p, _) => Panic p
  end.

(** ** Unmarshal

    The state is what is left of the buffer and the record read so far; the early
    [return] is an [Error], which keeps the record. *)
Abbreviation Reader := (GoM (bytes * BRC20History)).

Definition rd_upd (f : BRC20History → BRC20History) : Reader unit := modify (λ s, (s.1, f s.2)).
Definition early {A} : Reader A := throw "return".

(** [buf[offset : offset+n]] *)
Definition rd_bytes (n : Z) : Reader bytes := λ s,
  if (n <? 0) || (blen s.1 <? n) then (Panic "slice bounds out of range", s)
  else (Ret (take (Z.to_nat n) s.1), (drop (Z.to_nat n) s.1, s.2)).
Definition rd_byte : Reader Z := λ s,
  match s.1 with
  | c :: r => (Ret (Z_of_byte c), (r, s.2))
  | [] => (Panic "index out of range", s)
  end.
Definition rd_u32 : Reader Z := b ← rd_bytes 4; mret (le_val b).
Definition rd_vlq : Reader Z := λ s,
  let '(n, bytesRead) := DeserializeVLQ s.1 in
  if blen s.1 <=? bytesRead then (Error "return", s)
  else (Ret n, (drop (Z.to_nat bytesRead) s.1, s.2)).
Definition rd_script : Reader string :=
  rest ← gets fst;
  let scriptSize := DecodeCompressedScriptSize rest in
  if blen rest <? scriptSize then early
  else b ← rd_bytes scriptSize; s ← lift (DecompressScript b); mret (b2s s).
Definition rd_text : Reader string :=
  n ← rd_byte; if 0 <? n then b ← rd_bytes n; mret (b2s b) else mret "".

Definition set_base (f : BRC20HistoryBase → BRC20HistoryBase) : Reader unit :=
  rd_upd (λ h, h <| Hist.Base ::= f |>).
Definition set_inscription (f : InscriptionBRC20TickInfoResp → InscriptionBRC20TickInfoResp)
    : Reader unit := rd_upd (λ h, h <| Hist.Inscription ::= f |>).
Definition set_info (f : InscriptionBRC20InfoResp → InscriptionBRC20InfoResp) : Reader unit :=
  set_inscription (λ i, i <| TickInfoResp.Data ::= fmap f |>).

Definition Unmarshal_info : Reader unit :=
  s ← rd_text; set_info (λ d, d <| InfoResp.BRC20Tick := s |>) ;;
  s ← rd_text; set_info (λ d, d <| InfoResp.BRC20Max := s |>) ;;
  s ← rd_text; set_info (λ d, d <| InfoResp.BRC20Limit := s |>) ;;
  s ← rd_text; set_info (λ d, d <| InfoResp.BRC20Amount := s |>) ;;
  s ← rd_text; set_info (λ d, d <| InfoResp.BRC20Decimal := s |>) ;;
  s ← rd_text; set_info (λ d, d <| InfoResp.BRC20Minted := s |>) ;;
  s ← rd_text; set_info (λ d, d <| InfoResp.BRC20SelfMint := s |>).

Definition empty_info : InscriptionBRC20InfoResp := InfoResp.mk "" "" "" "" "" "" "" "".

Definition Unmarshal_go : Reader unit :=
  n ← rd_byte; set_base (λ b, b <| HBase.Type_ := n |>) ;;
  n ← rd_byte; set_base (λ b, b <| HBase.Valid := n =? 1 |>) ;;
  t ← rd_bytes 32; set_base (λ b, b <| HBase.TxId := b2s t |>) ;;
  n ← rd_vlq; set_base (λ b, b <| HBase.Idx := u32 n |>) ;;
  n ← rd_vlq; set_base (λ b, b <| HBase.Vout := u32 n |>) ;;
  n ← rd_vlq; set_base (λ b, b <| HBase.Offset := n |>) ;;
  s ← rd_script; set_base (λ b, b <| HBase.PkScriptFrom := s |>) ;;
  s ← rd_script; set_base (λ b, b <| HBase.PkScriptTo := s |>) ;;
  n ← rd_vlq; set_base (λ b, b <| HBase.Satoshi := n |>) ;;
  n ← rd_vlq; set_base (λ b, b <| HBase.Fee := i64 n |>) ;;
  n ← rd_u32; set_base (λ b, b <| HBase.Height := n |>) ;;
  n ← rd_vlq; set_base (λ b, b <| HBase.TxIdx := u32 n |>) ;;
  n ← rd_u32; set_base (λ b, b <| HBase.BlockTime := n |>) ;;
  s ← rd_text; rd_upd (λ h, h <| Hist.Amount := s |>) ;;
  s ← rd_text; rd_upd (λ h, h <| Hist.OverallBalance := s |>) ;;
  s ← rd_text; rd_upd (λ h, h <| Hist.TransferableBalance := s |>) ;;
  s ← rd_text; rd_upd (λ h, h <| Hist.AvailableBalance := s |>) ;;
  n ← rd_u32; set_inscription (λ i, i <| TickInfoResp.Height := n |>) ;;
  n ← rd_vlq; set_inscription (λ i, i <| TickInfoResp.InscriptionNumber := i64 n |>) ;;
  n ← rd_vlq; set_inscription (λ i, i <| TickInfoResp.Satoshi := n |>) ;;
  s ← rd_text; set_inscription (λ i, i <| TickInfoResp.InscriptionId := s |>) ;;
  rest ← gets fst;
  if blen rest =? 0 then mret tt
  else set_inscription (λ i, i <| TickInfoResp.Data := Some empty_info |>) ;; Unmarshal_info.

Definition empty_history : BRC20History :=
  Hist.mk (HBase.mk 0 false "" 0 0 0 "" "" 0 0 0 0 0) (TickInfoResp.mk 0 None 0 "" 0) "" "" "" "".

(** [h := &BRC20History{}; h.Unmarshal(buf)] *)
Definition Unmarshal (buf : bytes) : outcome BRC20History :=
  match Unmarshal_go (buf, empty_history) with
  | (Panic p, _) => Panic p
  | (_, (_, h)) => Ret h
  end.

(** ** Reading back what was written *)
Definition u32_ok (n : Z) : Prop := 0 ≤ n < 2 ^ 32.
Definition u64_ok (n : Z) : Prop := 0 ≤ n < 2 ^ 64.
Definition i64_ok (n : Z) : Prop := - 2 ^ 63 ≤ n < 2 ^ 63.


(** Field reader [r] recovers [a] from what [m] writes; [strict] readers need
    something behind their field. *)
Definition item {A} (strict : bool) (m : GoM bytes unit) (r : Reader A) (a : A) : Prop :=
  ∀ out out', m out = (Ret tt, out') →
    ∃ bs, out' = out ++ bs ∧ bs ≠ [] ∧
      ∀ rest h, (strict = true → rest ≠ []) → r (bs ++ rest, h) = (Ret a, (rest, h)).

(** [r] takes record [h] to [h'] on exactly what [m] writes. *)
Definition codec (ne : bool) (m : GoM bytes unit) (r : Reader unit) (h h' : BRC20History) : Prop :=
  ∀ out out', m out = (Ret tt, out') →
    ∃ bs, out' = out ++ bs ∧ (ne = true → bs ≠ []) ∧ r (bs, h) = (Ret tt, ([], h')).

Lemma codec_nil h : codec false (mret tt) (mret tt) h h.
Proof. intros out out' [= <-]. exists []. by rewrite app_nil_r. Qed.

Lemma bind_ret_inv {S A B} (m : GoM S A) (k : A → GoM S B) s b s' :
  (m ≫= k) s = (Ret b, s') → ∃ a s1, m s = (Ret a, s1) ∧ k a s1 = (Ret b, s').
Proof.
  unfold mbind, GoM_bind. destruct (m s) as [[a|e|p] s1]; [eauto|done..].
Qed.

Lemma bind_ret {S A B} (m : GoM S A) (k : A → GoM S B) s a s1 :
  m s = (Ret a, s1) → (m ≫= k) s = k a s1.
Proof. unfold mbind, GoM_bind. by intros ->. Qed.

Lemma codec_cons {A} strict ne m (r : Reader A) a F k kr h h' :
  item strict m r a → (strict = true → ne = true) → codec ne k kr (F a h) h' →
  codec true (m ;; k) (x ← r; rd_upd (F x) ;; kr) h h'.
Proof.
  intros Hi Hs Hk out out' (u & o1 & Hm & Hk')%bind_ret_inv. destruct u.
  destruct (Hi _ _ Hm) as (b1 & -> & Hb1 & Hr).
  destruct (Hk _ _ Hk') as (b2 & -> & Hb2 & Hr2).
  exists (b1 ++ b2). split_and!; [by rewrite app_assoc|by destruct b1|].
  erewrite bind_ret by (apply Hr; auto). exact Hr2.
Qed.

(** The last field. *)
Lemma codec_last {A} m (r : Reader A) a F h :
  item false m r a → codec true m (x ← r; rd_upd (F x)) h (F a h).
Proof.
  intros Hi out out' Hm. destruct (Hi _ _ Hm) as (bs & -> & Hb & Hr).
  exists bs. split_and!; [done|done|].
  erewrite bind_ret; [|rewrite <-(app_nil_r bs); by apply Hr]. done.
Qed.

Lemma put_bytes_inv bs out out' : put_bytes bs out = (Ret tt, out') → out' = out ++ bs.
Proof. unfold put_bytes. case_match; [done|]. by intros [= <-]. Qed.

Lemma item_byte n : 0 ≤ n < 256 → item false (put_bytes [byte_of_Z n]) rd_byte n.
Proof.
  intros Hn out out' ->%put_bytes_inv. eexists; split_and!; [done..|]. intros rest h _.
  unfold rd_byte. simpl. by rewrite Z_of_byte_of_Z, Z.mod_small.
Qed.

Lemma rd_bytes_app bs rest h :
  rd_bytes (blen bs) (bs ++ rest, h) = (Ret bs, (rest, h)).
Proof.
  unfold rd_bytes, blen. simpl. rewrite length_app.
  rewrite (proj2 (Z.ltb_ge _ 0)), (proj2 (Z.ltb_ge _ _)) by lia. cbn [orb].
  by rewrite Nat2Z.id, take_app_length, drop_app_length.
Qed.

Lemma item_bytes bs : bs ≠ [] → item false (put_bytes bs) (rd_bytes (blen bs)) bs.
Proof.
  intros Hne out out' ->%put_bytes_inv. eexists; split_and!; [done..|]. intros rest h _.
  apply rd_bytes_app.
Qed.

Lemma item_txid s : len s = 32 → item false (put_bytes (txid_bytes s)) (rd_bytes 32) (s2b s).
Proof.
  intros Hs. assert (blen (s2b s) = 32) as Hb by (rewrite <-len_b2s, b2s_s2b; lia).
  assert (txid_bytes s = s2b s) as ->.
  { unfold txid_bytes. apply take_app_length'. unfold blen in Hb. lia. }
  rewrite <-Hb. apply item_bytes. intros E. by rewrite E in Hb.
Qed.

Lemma item_u32 n : u32_ok n → item false (put_bytes (le_bytes 4 n)) rd_u32 n.
Proof.
  unfold u32_ok. intros Hn out out' ->%put_bytes_inv. eexists; split_and!; [done..|].
  intros rest h _. unfold rd_u32. erewrite bind_ret by apply (rd_bytes_app (le_bytes 4 n)). rewrite le_val_bytes, Z.mod_small by lia. done.
Qed.

Lemma item_vlq n : u64_ok n → item true (put_vlq n) rd_vlq n.
Proof.
  unfold u64_ok. intros Hn out out' Hput. unfold put_vlq, PutVLQ in Hput.
  destruct (room out <? blen (vlq n)) eqn:Er; [done|]. injection Hput as <-.
  pose proof (vlq_length n Hn) as Hlen. exists (vlq n). split_and!; [done| |].
  { intros E. rewrite E in Hlen. unfold blen in Hlen. simpl in Hlen. lia. }
  intros rest h Hne. unfold rd_vlq. simpl. rewrite DeserializeVLQ_vlq by done.
  rewrite (proj2 (Z.leb_gt _ _)).
  - unfold blen. by rewrite Nat2Z.id, drop_app_length.
  - specialize (Hne eq_refl). unfold blen. rewrite length_app. destruct rest; [done|].
    simpl. lia.
Qed.

Lemma item_text limit s :
  limit ≤ 256 → len s < limit → item false (put_text limit s) rd_text s.
Proof.
  intros Hl Hs out out' Hput. unfold put_text in Hput.
  rewrite (proj2 (Z.ltb_lt _ _)) in Hput by done.
  apply bind_ret_inv in Hput as ([] & ? & ->%put_bytes_inv & ->%put_bytes_inv).
  pose proof (len_nonneg s). assert (blen (s2b s) = len s) as Hb by by rewrite <-len_b2s, b2s_s2b.
  exists ([byte_of_Z (len s)] ++ s2b s). split_and!; [by rewrite app_assoc|done|].
  intros rest h _. unfold rd_text. erewrite bind_ret; [|done].
  rewrite Z_of_byte_of_Z, Z.mod_small by lia. destruct (Z.ltb_spec 0 (len s)).
  - rewrite <-Hb. erewrite bind_ret by apply rd_bytes_app. by rewrite b2s_s2b.
  - assert (s2b s = []) as E.
    { destruct (s2b s); [done|]. unfold blen in Hb. simpl in Hb. lia. }
    assert (s = "") as -> by (apply s2b_inj; done). done.
Qed.

Lemma item_script s : len s < 2 ^ 61 → item false (put_script s) rd_script s.
Proof.
  intros Hs out out' Hput. unfold put_script in Hput.
  assert (blen (s2b s) = len s) as Hb by by rewrite <-len_b2s, b2s_s2b.
  destruct (PutCompressedScript (room out) (s2b s)) as [[b n]| |] eqn:Eput; [|done..].
  destruct (room out <? n) eqn:Er; [done|]. injection Hput as <-. apply Z.ltb_ge in Er.
  assert (blen (s2b s) + 6 < 2 ^ 62) as H62 by lia.
  pose proof (PutCompressedScript_size _ _ _ _ H62 Eput) as ->.
  destruct (compress_ok_exists (room out) (s2b s) H62 Er) as (enc & Henc & Hlen & Hsize & Hdec).
  rewrite Henc in Eput. injection Eput as ->. exists b. split_and!; [done| |].
  { intros ->. specialize (Hsize [byte_of_Z 0]). rewrite <-Hlen in Hsize. done. }
  intros rest h _. unfold rd_script. erewrite bind_ret; [|done]. cbv zeta. cbn [fst].
  rewrite Hsize, <-Hlen. rewrite (proj2 (Z.ltb_ge _ _)) by (unfold blen; rewrite length_app; lia).
  erewrite bind_ret by apply rd_bytes_app. rewrite Hdec. unfold lift, mbind, GoM_bind, mret, GoM_ret.
  by rewrite b2s_s2b.
Qed.

(** Records [Marshal] keeps whole. *)
Definition base_ok (b : BRC20HistoryBase) : Prop :=
  0 ≤ HBase.Type_ b < 256 ∧ len (HBase.TxId b) = 32 ∧ u32_ok (HBase.Idx b) ∧
  u32_ok (HBase.Vout b) ∧ u64_ok (HBase.Offset b) ∧ len (HBase.PkScriptFrom b) < 2 ^ 61 ∧
  len (HBase.PkScriptTo b) < 2 ^ 61 ∧ u64_ok (HBase.Satoshi b) ∧ i64_ok (HBase.Fee b) ∧
  u32_ok (HBase.Height b) ∧ u32_ok (HBase.TxIdx b) ∧ u32_ok (HBase.BlockTime b).
Definition info_ok (d : InscriptionBRC20InfoResp) : Prop :=
  len (InfoResp.BRC20Tick d) < 16 ∧ len (InfoResp.BRC20Max d) < 40 ∧
  len (InfoResp.BRC20Limit d) < 40 ∧ len (InfoResp.BRC20Amount d) < 40 ∧
  len (InfoResp.BRC20Decimal d) < 8 ∧ len (InfoResp.BRC20Minted d) < 40 ∧
  len (InfoResp.BRC20SelfMint d) < 8.
Definition history_ok (h : BRC20History) : Prop :=
  let i := Hist.Inscription h in
  base_ok (Hist.Base h) ∧ len (Hist.Amount h) < 40 ∧ len (Hist.OverallBalance h) < 40 ∧
  len (Hist.TransferableBalance h) < 40 ∧ len (Hist.AvailableBalance h) < 40 ∧
  u32_ok (TickInfoResp.Height i) ∧ i64_ok (TickInfoResp.InscriptionNumber i) ∧
  u64_ok (TickInfoResp.Satoshi i) ∧ len (TickInfoResp.InscriptionId i) < 70 ∧
  (∀ d, TickInfoResp.Data i = Some d → info_ok d).

(** The operation name is not serialised. *)
Definition drop_operation (h : BRC20History) : BRC20History :=
  h <| Hist.Inscription ::= λ i, i <| TickInfoResp.Data ::=
    fmap (λ d : InscriptionBRC20InfoResp, d <| InfoResp.Operation := "" |>) |> |>.

Lemma u64_small n : u64_ok n → u64_ok n ∧ u64 n = n.
Proof. intros Hn. split; [done|]. unfold u64. by apply Z.mod_small. Qed.
Lemma u64_ok_u64 n : u64_ok (u64 n).
Proof. unfold u64_ok, u64. by apply Z.mod_pos_bound. Qed.
Lemma u32_u64 n : u32_ok n → u64_ok n.
Proof. unfold u32_ok, u64_ok. lia. Qed.
Lemma u32_id n : u32_ok n → u32 n = n.
Proof. intros Hn. by apply Z.mod_small. Qed.
Lemma i64_u64 n : i64_ok n → i64 (u64 n) = n.
Proof.
  unfold i64_ok, i64, u64. intros Hn. rewrite Z.mod_mod by lia.
  destruct (decide (0 ≤ n)).
  - rewrite Z.mod_small by lia. by rewrite (proj2 (Z.ltb_lt _ _)) by lia.
  - assert (n mod 2 ^ 64 = n + 2 ^ 64) as -> by (symmetry; apply Z.mod_unique with (-1); lia).
    rewrite (proj2 (Z.ltb_ge _ _)) by lia. lia.
Qed.

Ltac codec_field :=
  lazymatch goal with
  | |- codec _ (put_bytes [byte_of_Z _] ;; _) _ _ _ => eapply codec_cons; [apply item_byte; try lia|discriminate|]
  | |- codec _ (put_bytes (txid_bytes _) ;; _) _ _ _ => eapply codec_cons; [by apply item_txid|discriminate|]
  | |- codec _ (put_bytes (le_bytes _ _) ;; _) _ _ _ => eapply codec_cons; [by apply item_u32|discriminate|]
  | |- codec _ (put_vlq _ ;; _) _ _ _ =>
    eapply codec_cons; [apply item_vlq; auto using u32_u64, u64_ok_u64|done|]
  | |- codec _ (put_script _ ;; _) _ _ _ => eapply codec_cons; [by apply item_script|discriminate|]
  | |- codec _ (put_text _ _ ;; _) _ _ _ => eapply codec_cons; [by apply item_text|discriminate|]
  end.

(** The record read so far, in constructor form. *)
Ltac codec_norm :=
  try lazymatch goal with |- codec ?n ?m ?r ?h ?h' =>
    let x := eval lazy -[u32 u64 i64 b2s s2b Z.eqb] in h in change (codec n m r x h')
  end.

Lemma info_codec d h :
  info_ok d → TickInfoResp.Data (Hist.Inscription h) = Some empty_info →
  codec true (put_info d) Unmarshal_info h
    (h <| Hist.Inscription ::= λ i, i <| TickInfoResp.Data :=
       Some (d <| InfoResp.Operation := "" |>) |> |>).
Proof.
  intros (?&?&?&?&?&?&?) Hd. unfold put_info, Unmarshal_info, set_info, set_inscription.
  repeat codec_field.
  match goal with |- codec _ (put_text ?l ?s) (_ ≫= λ x, rd_upd (@?F x)) ?h0 _ =>
    pose proof (codec_last (put_text l s) rd_text s F h0 ltac:(by apply item_text)) as Hl end.
  eapply eq_ind; [exact Hl|]. destruct h as [b [ht dt num id sat] ? ? ? ?], d.
  simpl in Hd. subst dt. done.
Qed.

(** Data part: absent, or the rest of the buffer. *)
Lemma data_codec o h :
  (∀ d, o = Some d → info_ok d) → TickInfoResp.Data (Hist.Inscription h) = None →
  codec false (match o with None => mret tt | Some data => put_info data end)
    (rest ← gets fst;
     if blen rest =? 0 then mret tt
     else set_inscription (λ i, i <| TickInfoResp.Data := Some empty_info |>) ;; Unmarshal_info) h
    (h <| Hist.Inscription ::= λ i, i <| TickInfoResp.Data :=
       (λ d : InscriptionBRC20InfoResp, d <| InfoResp.Operation := "" |>) <$> o |> |>).
Proof.
  intros Ho Hn out out' Hput. destruct o as [d|].
  - set (h1 := h <| Hist.Inscription ::= λ i, i <| TickInfoResp.Data := Some empty_info |> |>).
    assert (TickInfoResp.Data (Hist.Inscription h1) = Some empty_info) as Hh1 by done.
    destruct (info_codec d h1 (Ho d eq_refl) Hh1 out out' Hput) as (bs & -> & Hne & Hr).
    exists bs. split_and!; [done|done|]. erewrite bind_ret; [|done]. cbn [fst].
    rewrite (proj2 (Z.eqb_neq _ _)).
    + unfold set_inscription. erewrite bind_ret; [|done]. exact Hr.
    + specialize (Hne eq_refl). destruct bs; [done|]. unfold blen. simpl. lia.
  - injection Hput as <-. exists []. split_and!; [by rewrite app_nil_r|done|].
    destruct h as [b [ht dt num id sat] ? ? ? ?]. simpl in Hn. subst dt. done.
Qed.

Lemma history_codec h :
  history_ok h → codec true (Marshal_go h) Unmarshal_go empty_history (drop_operation h).
Proof.
  destruct h as [[] [] ? ? ? ?]. unfold history_ok, base_ok. cbn.
  intros ((?&?&?&?&?&?&?&?&?&?&?&?)&?&?&?&?&?&?&?&?&?).
  unfold Marshal_go, Unmarshal_go, set_base. cbv beta zeta. cbn [Hist.Base Hist.Inscription
    Hist.Amount Hist.OverallBalance Hist.TransferableBalance Hist.AvailableBalance
    HBase.Type_ HBase.Valid HBase.TxId HBase.Idx HBase.Vout HBase.Offset HBase.PkScriptFrom
    HBase.PkScriptTo HBase.Satoshi HBase.Fee HBase.Height HBase.TxIdx HBase.BlockTime
    TickInfoResp.Height TickInfoResp.Data TickInfoResp.InscriptionNumber
    TickInfoResp.InscriptionId TickInfoResp.Satoshi].
  repeat (codec_field; codec_norm).
  { by case_match. }
  match goal with |- codec _ (match ?o with None => _ | Some _ => _ end) _ ?h0 _ =>
    pose proof (data_codec o h0 ltac:(done) ltac:(done)) as Hd end.
  eapply eq_ind; [exact Hd|]. clear Hd. cbv [field_update drop_operation]. cbn.
  rewrite ?u32_id, ?i64_u64, ?b2s_s2b by done.
  match goal with |- context [(if ?v then 1 else 0) =? 1] => by destruct v end.
Qed.

(** C32: Reading back a marshalled history record gives the record, apart from the
    operation name, which is not stored: every field of the binary format survives,
    for all records whose fields fit their widths. *)
Theorem Unmarshal_Marshal h buf :
  history_ok h → Marshal h = Ret buf → Unmarshal buf = Ret (drop_operation h).
Proof.
  intros Hok. unfold Marshal. destruct (Marshal_go h []) as [[u|e|p] out] eqn:E; [|done..].
  intros [= <-]. destruct u. destruct (history_codec h Hok _ _ E) as (bs & -> & _ & Hr).
  unfold Unmarshal. simpl. by rewrite Hr.
Qed.

(** ** Records with scripts of ordinary size fit the buffer *)

(** [m] writes at most [n] bytes and succeeds when they fit. *)
Definition fits (n : Z) (m : GoM bytes unit) : Prop :=
  ∀ out, blen out + n ≤ buf_size → ∃ out', m out = (Ret tt, out') ∧ blen out' ≤ blen out + n.

Lemma fits_seq n1 n2 m k : 0 ≤ n2 → fits n1 m → fits n2 k → fits (n1 + n2) (m ;; k).
Proof.
  intros Hn Hm Hk out Hout. destruct (Hm out ltac:(lia)) as (o1 & E1 & H1).
  destruct (Hk o1 ltac:(lia)) as (o2 & E2 & H2). exists o2. split; [|lia].
  by erewrite bind_ret by exact E1.
Qed.
Lemma fits_ret : fits 0 (mret tt).
Proof. intros out _. exists out. split; [done|lia]. Qed.
Lemma fits_mono n n' m : n ≤ n' → fits n m → fits n' m.
Proof.
  intros Hn Hm out Hout. destruct (Hm out ltac:(lia)) as (o1 & E1 & H1). exists o1.
  split; [done|lia].
Qed.

Lemma blen_app l k : blen (l ++ k) = blen l + blen k.
Proof. unfold blen. rewrite length_app. lia. Qed.
Lemma fits_bytes bs : fits (blen bs) (put_bytes bs).
Proof.
  intros out Hout. exists (out ++ bs). unfold put_bytes, room.
  rewrite (proj2 (Z.ltb_ge _ _)) by lia. rewrite blen_app. split; [done|lia].
Qed.
Lemma fits_txid s : fits 32 (put_bytes (txid_bytes s)).
Proof.
  eapply fits_mono; [|apply fits_bytes]. unfold txid_bytes, blen. rewrite length_take. lia.
Qed.
Lemma fits_vlq n : u64_ok n → fits 10 (put_vlq n).
Proof.
  intros Hn out Hout. pose proof (vlq_length n Hn). exists (out ++ vlq n).
  unfold put_vlq, PutVLQ, room. rewrite (proj2 (Z.ltb_ge _ _)) by lia. rewrite blen_app.
  split; [done|lia].
Qed.
Lemma fits_script s :
  len s < 2 ^ 61 → fits (compressedScriptSize (s2b s)) (put_script s).
Proof.
  intros Hs out Hout. assert (blen (s2b s) = len s) as Hb by by rewrite <-len_b2s, b2s_s2b.
  destruct (compress_ok_exists (room out) (s2b s)) as (enc & Henc & Hlen & _);
    [lia|unfold room; lia|].
  exists (out ++ enc). unfold put_script. rewrite Henc.
  rewrite (proj2 (Z.ltb_ge _ _)) by (unfold room; lia). rewrite blen_app. split; [done|lia].
Qed.
Lemma fits_text limit s : 1 ≤ limit → fits limit (put_text limit s).
Proof.
  intros Hl. assert (blen (s2b s) = len s) as Hb by by rewrite <-len_b2s, b2s_s2b.
  unfold put_text. destruct (Z.ltb_spec (len s) limit).
  - eapply fits_mono; [|apply fits_seq; [|apply fits_bytes|apply fits_bytes]].
    + rewrite Hb. change (blen [byte_of_Z (len s)]) with 1. lia.
    + rewrite Hb. apply len_nonneg.
  - eapply fits_mono; [|apply fits_bytes]. change (blen _) with 1. lia.
Qed.

Lemma fits_info d : fits 192 (put_info d).
Proof.
  unfold put_info. change 192 with (16 + (40 + (40 + (40 + (8 + (40 + 8)))))).
  repeat (apply fits_seq; [lia|apply fits_text; lia|]). apply fits_text. lia.
Qed.

Lemma fits_cons n1 n m k : fits n1 m → n1 ≤ n → fits (n - n1) k → fits n (m ;; k).
Proof.
  intros Hm Hn Hk out Hout. destruct (Hm out ltac:(lia)) as (o1 & E1 & H1).
  destruct (Hk o1 ltac:(lia)) as (o2 & E2 & H2). exists o2. split; [|lia].
  by erewrite bind_ret by exact E1.
Qed.

Ltac fits_field :=
  lazymatch goal with
  | |- fits _ (put_bytes [_] ;; _) => eapply (fits_cons 1); [apply (fits_bytes [_])|lia|]
  | |- fits _ (put_bytes (txid_bytes _) ;; _) => eapply fits_cons; [apply fits_txid|lia|]
  | |- fits _ (put_bytes (le_bytes _ _) ;; _) =>
    eapply (fits_cons 4); [apply (fits_bytes (le_bytes 4 _))|lia|]
  | |- fits _ (put_vlq _ ;; _) =>
    eapply fits_cons; [apply fits_vlq; auto using u32_u64, u64_ok_u64|lia|]
  | |- fits _ (put_script _ ;; _) => eapply fits_cons; [by apply fits_script|lia|]
  | |- fits _ (put_text _ _ ;; _) => eapply fits_cons; [by apply fits_text|lia|]
  end.

Lemma compressedScriptSize_nonneg s : blen s < 2 ^ 61 → 0 ≤ compressedScriptSize s.
Proof.
  intros Hs. destruct (compress_ok_exists (compressedScriptSize s) s) as (enc & _ & Henc & _);
    [lia|lia|]. rewrite <-Henc. unfold blen. lia.
Qed.

Lemma Marshal_small h :
  base_ok (Hist.Base h) → u32_ok (TickInfoResp.Height (Hist.Inscription h)) →
  u64_ok (TickInfoResp.Satoshi (Hist.Inscription h)) →
  compressedScriptSize (s2b (HBase.PkScriptFrom (Hist.Base h))) +
    compressedScriptSize (s2b (HBase.PkScriptTo (Hist.Base h))) ≤ 476 →
  ∃ buf, Marshal h = Ret buf.
Proof.
  intros (?&?&?&?&?&?&?&?&?&?&?&?) ?? Hscripts.
  assert (∀ s, len s < 2 ^ 61 → 0 ≤ compressedScriptSize (s2b s)) as Hnn.
  { intros s Hs. apply compressedScriptSize_nonneg. by rewrite <-len_b2s, b2s_s2b. }
  pose proof (Hnn (HBase.PkScriptFrom (Hist.Base h)) ltac:(done)).
  pose proof (Hnn (HBase.PkScriptTo (Hist.Base h)) ltac:(done)).
  assert (fits 1024 (Marshal_go h)) as Hfits.
  { unfold Marshal_go. set (sf := compressedScriptSize (s2b (HBase.PkScriptFrom (Hist.Base h)))) in *.
    set (st := compressedScriptSize (s2b (HBase.PkScriptTo (Hist.Base h)))) in *.
    assert (fits 192 (match TickInfoResp.Data (Hist.Inscription h) with
      | None => mret tt | Some data => put_info data end)) as Hlast.
    { destruct (TickInfoResp.Data _); [apply fits_info|].
      eapply fits_mono; [|apply fits_ret]. lia. }
    repeat fits_field. eapply fits_mono, Hlast. lia. }
  destruct (Hfits []) as (out & E & _); [done|]. exists out. unfold Marshal. by rewrite E.
Qed.

(** ** Records with long scripts do not fit *)

(** When [m] succeeds it appends at least [n] bytes within the buffer; otherwise it
    panics. *)
Definition writes (n : Z) (m : GoM bytes unit) : Prop := ∀ out, blen out ≤ buf_size →
  match m out with
  | (Ret _, out') => blen out + n ≤ blen out' ≤ buf_size
  | (Error _, _) => False
  | (Panic _, _) => True
  end.

Lemma writes_seq n1 n2 m k : writes n1 m → writes n2 k → writes (n1 + n2) (m ;; k).
Proof.
  intros Hm Hk out Hout. specialize (Hm out Hout). unfold mbind, GoM_bind.
  destruct (m out) as [[u|e|p] o1]; [|done..]. specialize (Hk o1 ltac:(lia)).
  destruct (k o1) as [[v|e|p] o2]; [lia|done..].
Qed.
Lemma writes_skip n m k : writes 0 m → writes n k → writes n (m ;; k).
Proof. intros Hm Hk. by apply (writes_seq 0 n). Qed.
Lemma writes_mono n n' m : n' ≤ n → writes n m → writes n' m.
Proof.
  intros Hn Hm out Hout. specialize (Hm out Hout). destruct (m out) as [[u|e|p] o1]; [lia|done..].
Qed.
Lemma writes_ret : writes 0 (mret tt).
Proof. intros out Hout. simpl. lia. Qed.
Lemma blen_nonneg l : 0 ≤ blen l.
Proof. unfold blen. lia. Qed.
Lemma writes_bytes bs : writes 0 (put_bytes bs).
Proof.
  intros out Hout. unfold put_bytes, room. destruct (Z.ltb_spec (buf_size - blen out) (blen bs)); [done|].
  rewrite blen_app. pose proof (blen_nonneg bs). lia.
Qed.
Lemma writes_vlq n : writes 0 (put_vlq n).
Proof.
  intros out Hout. unfold put_vlq, PutVLQ, room.
  destruct (Z.ltb_spec (buf_size - blen out) (blen (vlq n))); [done|].
  rewrite blen_app. pose proof (blen_nonneg (vlq n)). lia.
Qed.
Lemma writes_text limit s : writes 0 (put_text limit s).
Proof. unfold put_text. case_match; repeat apply writes_skip; apply writes_bytes. Qed.
Lemma PutCompressedScript_no_error room s e : PutCompressedScript room s ≠ Error e.
Proof.
  unfold PutCompressedScript, PutVLQ, mbind, outcome_bind. repeat case_match; naive_solver.
Qed.
Lemma writes_script s : len s < 2 ^ 61 → writes (compressedScriptSize (s2b s)) (put_script s).
Proof.
  intros Hs out Hout. assert (blen (s2b s) = len s) as Hb by by rewrite <-len_b2s, b2s_s2b.
  unfold put_script. destruct (Z.leb_spec (compressedScriptSize (s2b s)) (room out)) as [Hr|Hr].
  - destruct (compress_ok_exists (room out) (s2b s)) as (enc & -> & Hlen & _); [lia|lia|].
    rewrite (proj2 (Z.ltb_ge _ _)) by lia. rewrite blen_app. unfold room in *. lia.
  - destruct (PutCompressedScript (room out) (s2b s)) as [[b n]|e|p] eqn:E; [| |done].
    + apply PutCompressedScript_size in E as ->; [|lia]. by rewrite (proj2 (Z.ltb_lt _ _)).
    + by apply PutCompressedScript_no_error in E.
Qed.
Lemma writes_info d : writes 0 (put_info d).
Proof. unfold put_info. repeat (apply writes_skip; [apply writes_text|]). apply writes_text. Qed.

Ltac writes_field :=
  lazymatch goal with
  | |- writes _ (put_bytes _ ;; _) => apply writes_skip; [apply writes_bytes|]
  | |- writes _ (put_vlq _ ;; _) => apply writes_skip; [apply writes_vlq|]
  | |- writes _ (put_text _ _ ;; _) => apply writes_skip; [apply writes_text|]
  | |- writes _ (put_script _ ;; _) => apply writes_seq; [by apply writes_script|]
  end.

Lemma Marshal_writes h :
  len (HBase.PkScriptFrom (Hist.Base h)) < 2 ^ 61 → len (HBase.PkScriptTo (Hist.Base h)) < 2 ^ 61 →
  writes (compressedScriptSize (s2b (HBase.PkScriptFrom (Hist.Base h))) +
    (compressedScriptSize (s2b (HBase.PkScriptTo (Hist.Base h))) + 0)) (Marshal_go h).
Proof.
  intros H1 H2. unfold Marshal_go. repeat writes_field.
  destruct (TickInfoResp.Data _); [apply writes_info|apply writes_ret].
Qed.

(** C33: Marshalling a record with field widths in range and two scripts that compress
    to at most 476 bytes together returns at most 1024 bytes; when the two scripts
    compress to more than the 1024-byte buffer it panics. *)
Theorem Marshal_buffer h :
  base_ok (Hist.Base h) → u32_ok (TickInfoResp.Height (Hist.Inscription h)) →
  u64_ok (TickInfoResp.Satoshi (Hist.Inscription h)) →
  let scripts := compressedScriptSize (s2b (HBase.PkScriptFrom (Hist.Base h))) +
    compressedScriptSize (s2b (HBase.PkScriptTo (Hist.Base h))) in
  (scripts ≤ 476 → ∃ buf, Marshal h = Ret buf ∧ blen buf ≤ 1024) ∧
  (1024 < scripts → ∃ w, Marshal h = Panic w).
Proof.
  intros Hb Hh Hs scripts. assert (Hb' := Hb). destruct Hb' as (_&_&_&_&_&Hf&Ht&_).
  pose proof (Marshal_writes h Hf Ht []) as Hw. unfold Marshal at 2.
  specialize (Hw ltac:(by vm_compute)). split.
  - intros Hsmall. destruct (Marshal_small h Hb Hh Hs Hsmall) as [buf Hbuf]. exists buf.
    split; [done|]. unfold Marshal in Hbuf.
    destruct (Marshal_go h []) as [[u|e|p] out]; [|done..]. injection Hbuf as <-.
    unfold buf_size in Hw. lia.
  - intros Hbig. destruct (Marshal_go h []) as [[u|e|p] out]; [|done|by eexists].
    unfold buf_size, scripts in *. change (blen []) with 0 in Hw. lia.
Qed.

(** A record with scripts of [n] and [m] bytes. *)
Definition sample_history (n m : nat) : BRC20History :=
  Hist.mk (HBase.mk 1 true (b2s (replicate 32 (byte_of_Z 1))) 0 0 0 (b2s (replicate n (byte_of_Z 81)))
    (b2s (replicate m (byte_of_Z 81))) 546 1000 800000 1 1700000000)
    (TickInfoResp.mk 800000 (Some (InfoResp.mk "transfer" "ordi" "" "" "5" "" "" "")) 7 "id" 546)
    "5" "5" "0" "5".
Lemma Unmarshal_Marshal_witness :
  ∃ buf, Marshal (sample_history 22 34) = Ret buf ∧
    Unmarshal buf = Ret (drop_operation (sample_history 22 34)).
Proof.
  destruct (Marshal (sample_history 22 34)) as [buf|e|w] eqn:E; [|by vm_compute in E..].
  exists buf. split; [done|]. apply (Unmarshal_Marshal (sample_history 22 34) buf); [|exact E].
  unfold history_ok, base_ok, u32_ok, u64_ok, i64_ok.
  repeat match goal with |- _ ∧ _ => split end; try by vm_compute.
  intros d [= <-]. unfold info_ok. repeat match goal with |- _ ∧ _ => split end; by vm_compute.
Defined.
Lemma Marshal_buffer_witness : ∃ w, Marshal (sample_history 600 600) = Panic w.
Proof.
  apply (Marshal_buffer (sample_history 600 600)); [|by vm_compute..].
  unfold base_ok, u32_ok, u64_ok, i64_ok.
  repeat match goal with |- _ ∧ _ => split end; by vm_compute.
Defined.
