(* ===== verification/Swap.v ===== *)
(** * model/swap.go, model/module.go, model/history_module.go and
    model/conditional_approve.go: the state of a swap module

    Objects of type [*BRC20ModuleTokenBalance] are reached from two maps, so they
    live in a heap of the module and the maps hold locations.  LP balances are
    immutable [*Decimal] values that the code writes to both of their maps.  A pool
    is reached from one map only and is a value. *)
From S2P Require Import Prelude GoStd Decimal Script Utils Json Model History.

(** A location of a heap. *)
Abbreviation loc := positive.

(** ** Module inscriptions *)
(** Body of a module deployment. *)
Module DeploySwapBody.
Record InscriptionBRC20ModuleDeploySwapContent := mk {
    Proto : string;
    Operation : string;
    Name : string;
    Source : string;
    Init : gmap string string;
  }.
#[global] Instance eta : EtaRecord InscriptionBRC20ModuleDeploySwapContent := λ r,
    mk (Proto r) (Operation r) (Name r) (Source r) (Init r).
#[global] Instance eq_dec : EqDecision InscriptionBRC20ModuleDeploySwapContent.
Proof. solve_decision. Defined.
End DeploySwapBody.
Abbreviation InscriptionBRC20ModuleDeploySwapContent := DeploySwapBody.InscriptionBRC20ModuleDeploySwapContent.

Definition Unmarshal_DeploySwap (body : bytes) : outcome InscriptionBRC20ModuleDeploySwapContent :=
  kv ← unmarshal_members body;
  proto ← type_error (string_field "p" "" kv);
  op ← type_error (string_field "op" "" kv);
  name ← type_error (string_field "name" "" kv);
  source ← type_error (string_field "source" "" kv);
  init ← type_error (string_map_field "init" ∅ kv);
  Ret (DeploySwapBody.mk proto op name source init).

(** Body of an approve, conditional approve or withdraw: the two Go structs have the same members. *)
Module ApproveBody.
Record InscriptionBRC20ModuleSwapApproveContent := mk {
    Proto : string;
    Operation : string;
    Module_ : string;
    Tick : string;
    Amount : string;
  }.
#[global] Instance eta : EtaRecord InscriptionBRC20ModuleSwapApproveContent := λ r,
    mk (Proto r) (Operation r) (Module_ r) (Tick r) (Amount r).
#[global] Instance eq_dec : EqDecision InscriptionBRC20ModuleSwapApproveContent.
Proof. solve_decision. Defined.
End ApproveBody.
Abbreviation InscriptionBRC20ModuleSwapApproveContent := ApproveBody.InscriptionBRC20ModuleSwapApproveContent.

Definition Unmarshal_Approve (body : bytes) : outcome InscriptionBRC20ModuleSwapApproveContent :=
  kv ← unmarshal_members body;
  proto ← type_error (string_field "p" "" kv);
  op ← type_error (string_field "op" "" kv);
  modul ← type_error (string_field "module" "" kv);
  tick ← type_error (string_field "tick" "" kv);
  amt ← type_error (string_field "amt" "" kv);
  Ret (ApproveBody.mk proto op modul tick amt).

(** One function of a commit. *)
Module SwapFunction.
Record SwapFunctionData := mk {
    Address : string;
    Function_ : string;
    Params : list string;
    Timestamp : Z;
    Signature : string;
    ID : string;
    PkScript : string;
  }.
#[global] Instance eta : EtaRecord SwapFunctionData := λ r,
    mk (Address r) (Function_ r) (Params r) (Timestamp r) (Signature r) (ID r) (PkScript r).
#[global] Instance eq_dec : EqDecision SwapFunctionData.
Proof. solve_decision. Defined.
End SwapFunction.
Abbreviation SwapFunctionData := SwapFunction.SwapFunctionData.

(** Body of a commit; a function is nil where the text says [null]. *)
Module CommitBody.
Record InscriptionBRC20ModuleSwapCommitContent := mk {
    Proto : string;
    Operation : string;
    Module_ : string;
    Parent : string;
    GasPrice : string;
    CommitData : list (option SwapFunctionData);
  }.
#[global] Instance eta : EtaRecord InscriptionBRC20ModuleSwapCommitContent := λ r,
    mk (Proto r) (Operation r) (Module_ r) (Parent r) (GasPrice r) (CommitData r).
#[global] Instance eq_dec : EqDecision InscriptionBRC20ModuleSwapCommitContent.
Proof. solve_decision. Defined.
End CommitBody.
Abbreviation InscriptionBRC20ModuleSwapCommitContent := CommitBody.InscriptionBRC20ModuleSwapCommitContent.

(** ** Expected results a verifier may send with a commit *)
(** A user balance after a function. *)
Module UserResult.
Record SwapFunctionResultCheckStateForUser := mk {
    Address : string;
    Tick : string;
    Balance : string;
  }.
#[global] Instance eta : EtaRecord SwapFunctionResultCheckStateForUser := λ r,
    mk (Address r) (Tick r) (Balance r).
#[global] Instance eq_dec : EqDecision SwapFunctionResultCheckStateForUser.
Proof. solve_decision. Defined.
End UserResult.
Abbreviation SwapFunctionResultCheckStateForUser := UserResult.SwapFunctionResultCheckStateForUser.

(** A pool after a function. *)
Module PoolResult.
Record SwapFunctionResultCheckStateForPool := mk {
    Pair : string;
    ReserveAmount0 : string;
    ReserveAmount1 : string;
    LPAmount : string;
  }.
#[global] Instance eta : EtaRecord SwapFunctionResultCheckStateForPool := λ r,
    mk (Pair r) (ReserveAmount0 r) (ReserveAmount1 r) (LPAmount r).
#[global] Instance eq_dec : EqDecision SwapFunctionResultCheckStateForPool.
Proof. solve_decision. Defined.
End PoolResult.
Abbreviation SwapFunctionResultCheckStateForPool := PoolResult.SwapFunctionResultCheckStateForPool.

(** Expected state after one function. *)
Module CheckState.
Record SwapFunctionResultCheckState := mk {
    Users : list SwapFunctionResultCheckStateForUser;
    Pools : list SwapFunctionResultCheckStateForPool;
    CommitId : string;
    FunctionIdx : Z;
  }.
#[global] Instance eta : EtaRecord SwapFunctionResultCheckState := λ r,
    mk (Users r) (Pools r) (CommitId r) (FunctionIdx r).
#[global] Instance eq_dec : EqDecision SwapFunctionResultCheckState.
Proof. solve_decision. Defined.
End CheckState.
Abbreviation SwapFunctionResultCheckState := CheckState.SwapFunctionResultCheckState.

(** ** Module history *)
Inductive ModuleHistoryData : Type :=
  | NoData
  | WithdrawData (tick amount : string)
  | ApproveData (tick amount : string)
  | CondApproveData (tick amount balance transferInscriptionId transferMax : string).
#[global] Instance ModuleHistoryData_eq_dec : EqDecision ModuleHistoryData.
Proof. solve_decision. Defined.

(** The inscription a module event is about. *)
Module SwapInfoResp.
Record InscriptionBRC20SwapInfoResp := mk {
    ContentBody : bytes;
    InscriptionNumber : Z;
    InscriptionId : string;
    Height : Z;
  }.
#[global] Instance eta : EtaRecord InscriptionBRC20SwapInfoResp := λ r,
    mk (ContentBody r) (InscriptionNumber r) (InscriptionId r) (Height r).
#[global] Instance eq_dec : EqDecision InscriptionBRC20SwapInfoResp.
Proof. solve_decision. Defined.
End SwapInfoResp.
Abbreviation InscriptionBRC20SwapInfoResp := SwapInfoResp.InscriptionBRC20SwapInfoResp.

(** A module history record. *)
Module ModHist.
Record BRC20ModuleHistory := mk {
    Base : BRC20HistoryBase;
    Inscription : InscriptionBRC20SwapInfoResp;
    Data : ModuleHistoryData;
  }.
#[global] Instance eta : EtaRecord BRC20ModuleHistory := λ r,
    mk (Base r) (Inscription r) (Data r).
#[global] Instance eq_dec : EqDecision BRC20ModuleHistory.
Proof. solve_decision. Defined.
End ModHist.
Abbreviation BRC20ModuleHistory := ModHist.BRC20ModuleHistory.

Definition NewBRC20ModuleHistory (isTransfer : bool) (historyType : Z)
    (from to : InscriptionBRC20Data) (data : ModuleHistoryData) (isValid : bool)
    : BRC20ModuleHistory :=
  let inscription := SwapInfoResp.mk (Data.ContentBody from) (Data.InscriptionNumber from)
    (GetInscriptionId from) (Data.Height from) in
  let base :=
    if isTransfer then
      HBase.mk historyType isValid (Data.TxId to) (Data.Idx to) (Data.Vout to) (Data.Offset to)
        (Data.PkScript from) (Data.PkScript to) (Data.Satoshi to) 0
        (Data.Height to) (Data.TxIdx to) (Data.BlockTime to)
    else
      HBase.mk historyType isValid (Data.TxId from) (Data.Idx from) (Data.Vout from)
        (Data.Offset from) "" (Data.PkScript from) (Data.Satoshi from) 0
        (Data.Height from) (Data.TxIdx from) (Data.BlockTime from) in
  ModHist.mk base inscription data.

(** ** Balances and pools *)
(** Totals of deposits and conditional approves of a ticker. *)
Module CondBal.
Record BRC20ModuleConditionalApproveStateBalance := mk {
    Tick : string;
    BalanceDeposite : option Decimal;
    BalanceApprove : option Decimal;
    BalanceNewApprove : option Decimal;
    BalanceCancelApprove : option Decimal;
    BalanceWaitApprove : option Decimal;
  }.
#[global] Instance eta : EtaRecord BRC20ModuleConditionalApproveStateBalance := λ r,
    mk (Tick r) (BalanceDeposite r) (BalanceApprove r) (BalanceNewApprove r)
      (BalanceCancelApprove r) (BalanceWaitApprove r).
#[global] Instance eq_dec : EqDecision BRC20ModuleConditionalApproveStateBalance.
Proof. solve_decision. Defined.
End CondBal.
Abbreviation BRC20ModuleConditionalApproveStateBalance := CondBal.BRC20ModuleConditionalApproveStateBalance.

(** Balance of a user in a module. *)
Module MBal.
Record BRC20ModuleTokenBalance := mk {
    UpdateHeight : Z;
    Tick : string;
    PkScript : string;
    SwapAccountBalanceSafe : option Decimal;
    ModuleAccountBalanceSafe : option Decimal;
    SwapAccountBalance : option Decimal;
    AvailableBalanceSafe : option Decimal;
    AvailableBalance : option Decimal;
    ApproveableBalance : option Decimal;
    CondApproveableBalance : option Decimal;
    ReadyToWithdrawAmount : option Decimal;
    ValidConditionalApproveMap : gmap string InscriptionBRC20Data;
    ValidApproveMap : gmap string InscriptionBRC20Data;
    ReadyToWithdrawMap : gmap string InscriptionBRC20Data;
    History : list BRC20ModuleHistory;
  }.
#[global] Instance eta : EtaRecord BRC20ModuleTokenBalance := λ r,
    mk (UpdateHeight r) (Tick r) (PkScript r) (SwapAccountBalanceSafe r)
      (ModuleAccountBalanceSafe r) (SwapAccountBalance r) (AvailableBalanceSafe r)
      (AvailableBalance r) (ApproveableBalance r) (CondApproveableBalance r)
      (ReadyToWithdrawAmount r) (ValidConditionalApproveMap r) (ValidApproveMap r)
      (ReadyToWithdrawMap r) (History r).
#[global] Instance eq_dec : EqDecision BRC20ModuleTokenBalance.
Proof. solve_decision. Defined.
End MBal.
Abbreviation BRC20ModuleTokenBalance := MBal.BRC20ModuleTokenBalance.

Definition new_module_balance (ticker userPkScript : string) : BRC20ModuleTokenBalance :=
  MBal.mk 0 ticker userPkScript None None None None None None None None ∅ ∅ ∅ [].

Definition ModuleBalance (bal : BRC20ModuleTokenBalance) : outcome (option Decimal) :=
  a ← Add (MBal.AvailableBalance bal) (MBal.ApproveableBalance bal);
  Add a (MBal.CondApproveableBalance bal).

(** A liquidity pool: two reserves and the LP supply. *)
Module Pool.
Record BRC20ModulePoolTotalBalance := mk {
    UpdateHeight : Z;
    Tick : string * string;
    TickBalance : option Decimal * option Decimal;
    LpBalance : option Decimal;
    LastRootK : option Decimal;
    History : list BRC20ModuleHistory;
  }.
#[global] Instance eta : EtaRecord BRC20ModulePoolTotalBalance := λ r,
    mk (UpdateHeight r) (Tick r) (TickBalance r) (LpBalance r) (LastRootK r) (History r).
#[global] Instance eq_dec : EqDecision BRC20ModulePoolTotalBalance.
Proof. solve_decision. Defined.
End Pool.
Abbreviation BRC20ModulePoolTotalBalance := Pool.BRC20ModulePoolTotalBalance.

(** [pool.TickBalance[i]] for [i] 0 ([false]) or 1 ([true]). *)
Definition tick_balance (i : bool) (pool : BRC20ModulePoolTotalBalance) : option Decimal :=
  if i then (Pool.TickBalance pool).2 else (Pool.TickBalance pool).1.
Definition set_tick_balance (i : bool) (d : option Decimal) (pool : BRC20ModulePoolTotalBalance)
    : BRC20ModulePoolTotalBalance :=
  pool <| Pool.TickBalance ::= λ b, if i then (b.1, d) else (d, b.2) |>.

(** An approve or withdraw inscription. *)
Module SwapInfo.
Record InscriptionBRC20SwapInfo := mk {
    Module_ : string;
    Tick : string;
    Amount : option Decimal;
    Data : InscriptionBRC20Data;
  }.
#[global] Instance eta : EtaRecord InscriptionBRC20SwapInfo := λ r,
    mk (Module_ r) (Tick r) (Amount r) (Data r).
#[global] Instance eq_dec : EqDecision InscriptionBRC20SwapInfo.
Proof. solve_decision. Defined.
End SwapInfo.
Abbreviation InscriptionBRC20SwapInfo := SwapInfo.InscriptionBRC20SwapInfo.

(** A conditional approve inscription. *)
Module CondInfo.
Record InscriptionBRC20SwapConditionalApproveInfo := mk {
    UpdateHeight : Z;
    Module_ : string;
    Tick : string;
    Amount : option Decimal;
    Balance : option Decimal;
    HasMoved : bool;
    OwnerPkScript : string;
    DelegatorPkScript : string;
    Data : InscriptionBRC20Data;
  }.
#[global] Instance eta : EtaRecord InscriptionBRC20SwapConditionalApproveInfo := λ r,
    mk (UpdateHeight r) (Module_ r) (Tick r) (Amount r) (Balance r) (HasMoved r)
      (OwnerPkScript r) (DelegatorPkScript r) (Data r).
#[global] Instance eq_dec : EqDecision InscriptionBRC20SwapConditionalApproveInfo.
Proof. solve_decision. Defined.
End CondInfo.
Abbreviation InscriptionBRC20SwapConditionalApproveInfo := CondInfo.InscriptionBRC20SwapConditionalApproveInfo.

(** A transfer of the current transaction, with the amount not matched yet. *)
Module TransState.
Record TransferStateForConditionalApprove := mk {
    Tick : string;
    From : string;
    To : string;
    Balance : option Decimal;
    InscriptionId : string;
    Max : string;
  }.
#[global] Instance eta : EtaRecord TransferStateForConditionalApprove := λ r,
    mk (Tick r) (From r) (To r) (Balance r) (InscriptionId r) (Max r).
#[global] Instance eq_dec : EqDecision TransferStateForConditionalApprove.
Proof. solve_decision. Defined.
End TransState.
Abbreviation TransferStateForConditionalApprove := TransState.TransferStateForConditionalApprove.

(** A conditional approve moved in the current transaction; [ApproveInfo] points into the heap of conditional approves of the indexer. *)
Module ApprState.
Record ApproveStateForConditionalApprove := mk {
    Module_ : string;
    Tick : string;
    Owner : string;
    Balance : option Decimal;
    ApproveInfo : loc;
    ToData : InscriptionBRC20Data;
  }.
#[global] Instance eta : EtaRecord ApproveStateForConditionalApprove := λ r,
    mk (Module_ r) (Tick r) (Owner r) (Balance r) (ApproveInfo r) (ToData r).
#[global] Instance eq_dec : EqDecision ApproveStateForConditionalApprove.
Proof. solve_decision. Defined.
End ApprState.
Abbreviation ApproveStateForConditionalApprove := ApprState.ApproveStateForConditionalApprove.

(** ** A module *)
(** State of a module; [Balances] is the heap of its balance objects, [TransferStatesForConditionalApprove] points into the heap of transfer states of the indexer. *)
Module Mod.
Record BRC20ModuleSwapInfo := mk {
    UpdateHeight : Z;
    ID : string;
    Name : string;
    DeployerPkScript : string;
    SequencerPkScript : string;
    GasToPkScript : string;
    LpFeePkScript : string;
    FeeRateSwap : string;
    GasTick : string;
    History : list BRC20ModuleHistory;
    CommitInvalidMap : gset string;
    CommitIdMap : gset string;
    CommitIdChainMap : gset string;
    UsersTokenBalanceDataMap : gmap string (gmap string loc);
    TokenUsersBalanceDataMap : gmap string (gmap string loc);
    Balances : gmap loc BRC20ModuleTokenBalance;
    LPTokenUsersBalanceMap : gmap string (gmap string (option Decimal));
    LPTokenUsersBalanceUpdatedMap : gset string;
    UsersLPTokenBalanceMap : gmap string (gmap string (option Decimal));
    SwapPoolTotalBalanceDataMap : gmap string BRC20ModulePoolTotalBalance;
    ConditionalApproveStateBalanceDataMap : gmap string BRC20ModuleConditionalApproveStateBalance;
    ThisTxId : string;
    TransferStatesForConditionalApprove : list loc;
    ApproveStatesForConditionalApprove : list ApproveStateForConditionalApprove;
  }.
#[global] Instance eta : EtaRecord BRC20ModuleSwapInfo := λ r,
    mk (UpdateHeight r) (ID r) (Name r) (DeployerPkScript r) (SequencerPkScript r)
      (GasToPkScript r) (LpFeePkScript r) (FeeRateSwap r) (GasTick r) (History r)
      (CommitInvalidMap r) (CommitIdMap r) (CommitIdChainMap r) (UsersTokenBalanceDataMap r)
      (TokenUsersBalanceDataMap r) (Balances r) (LPTokenUsersBalanceMap r)
      (LPTokenUsersBalanceUpdatedMap r) (UsersLPTokenBalanceMap r)
      (SwapPoolTotalBalanceDataMap r) (ConditionalApproveStateBalanceDataMap r) (ThisTxId r)
      (TransferStatesForConditionalApprove r) (ApproveStatesForConditionalApprove r).
#[global] Instance eq_dec : EqDecision BRC20ModuleSwapInfo.
Proof. solve_decision. Defined.
End Mod.
Abbreviation BRC20ModuleSwapInfo := Mod.BRC20ModuleSwapInfo.


Section module_ops.
Context `{GoUnicode}.
Implicit Types m : BRC20ModuleSwapInfo.

Definition mod_alloc (b : BRC20ModuleTokenBalance) : GoM BRC20ModuleSwapInfo loc :=
  m ← get;
  let l := fresh (dom (Mod.Balances m)) in
  modify (λ m, m <| Mod.Balances ::= <[l := b]> |>) ;; mret l.

(** Read and write through a balance pointer. *)
Definition mod_load (l : loc) : GoM BRC20ModuleSwapInfo BRC20ModuleTokenBalance :=
  m ← get;
  match Mod.Balances m !! l with
  | Some b => mret b
  | None => gopanic "invalid memory address or nil pointer dereference"
  end.
Definition mod_store (l : loc) (f : BRC20ModuleTokenBalance → BRC20ModuleTokenBalance)
    : GoM BRC20ModuleSwapInfo unit :=
  b ← mod_load l; modify (λ m, m <| Mod.Balances ::= <[l := f b]> |>).

(** The object for [ticker] and [userPkScript], made on first use; the entry of
    the by-ticker map is written only then. *)
Definition Module_GetUserTokenBalance (ticker userPkScript : string)
    : GoM BRC20ModuleSwapInfo loc :=
  let uniqueLowerTicker := ToLower ticker in
  m ← get;
  let usersTokens := default ∅ (Mod.UsersTokenBalanceDataMap m !! userPkScript) in
  match usersTokens !! uniqueLowerTicker with
  | Some tb => mret tb
  | None =>
    l ← mod_alloc (new_module_balance ticker userPkScript);
    modify (λ m, m
      <| Mod.UsersTokenBalanceDataMap ::= <[userPkScript := <[uniqueLowerTicker := l]> usersTokens]> |>
      <| Mod.TokenUsersBalanceDataMap ::= λ t,
           <[uniqueLowerTicker := <[userPkScript := l]> (default ∅ (t !! uniqueLowerTicker))]> t |>) ;;
    mret l
  end.

(** The state balance of a ticker, updated by [f]. *)
Definition update_state_balance (ticker : string)
    (f : BRC20ModuleConditionalApproveStateBalance → outcome BRC20ModuleConditionalApproveStateBalance)
    : GoM BRC20ModuleSwapInfo unit :=
  let uniqueLowerTicker := ToLower ticker in
  m ← get;
  let stateBalance := default (CondBal.mk ticker None None None None None)
    (Mod.ConditionalApproveStateBalanceDataMap m !! uniqueLowerTicker) in
  modify (λ m, m <| Mod.ConditionalApproveStateBalanceDataMap ::=
    <[uniqueLowerTicker := stateBalance]> |>) ;;
  stateBalance ← lift (f stateBalance);
  modify (λ m, m <| Mod.ConditionalApproveStateBalanceDataMap ::=
    <[uniqueLowerTicker := stateBalance]> |>).

Definition mod_history (h : BRC20ModuleHistory) : GoM BRC20ModuleSwapInfo unit :=
  modify (λ m, m <| Mod.History ::= λ l, l ++ [h] |>).
(** [history.Valid = v] on the record appended last. *)
Fixpoint set_last_valid (v : bool) (l : list BRC20ModuleHistory) : list BRC20ModuleHistory :=
  match l with
  | [] => []
  | [h] => [h <| ModHist.Base ::= λ b, b <| HBase.Valid := v |> |>]
  | h :: l => h :: set_last_valid v l
  end.
Definition mod_history_valid (v : bool) : GoM BRC20ModuleSwapInfo unit :=
  modify (λ m, m <| Mod.History ::= set_last_valid v |>).

End module_ops.
