(* ===== verification/CommitJson.v ===== *)
(** * Reading a commit: json.Unmarshal of its body and the sizes of its functions

    [Unmarshal_Commit] decodes the body of a commit into Go values; a slice keeps the
    elements a longer value has left behind it, which a repeated member can show
    again.  [GetEachItemLengthOfCommitJsonData] of indexer/module_commit_utils.go
    runs over the tokens of a [json.Decoder]. *)
From S2P Require Import Prelude GoStd Decimal Script Utils Json Model History Swap.

(** ** Slices

    A slice that is decoded again writes over its old elements: the elements with
    those behind its length. *)
Section slice.
Context {A : Type} (dec : A → json → option A) (zero : A).

Fixpoint fill (back : list A) (l : list json) : option (list A) :=
  match l with
  | [] => Some back
  | v :: l =>
    a ← dec (nth 0 back zero) v;
    back ← fill (tail back) l;
    Some (a :: back)
  end.
(** [(elements, those behind)] *)
Definition decode_slice (s : list A * list A) (v : json) : option (list A * list A) :=
  match v with
  | JNull | JArr [] => Some ([], [])
  | JArr l =>
    back ← fill (s.1 ++ s.2) l;
    Some (take (length l) back, drop (length l) back)
  | _ => None
  end.
End slice.

(** The values of all members a struct field is decoded from, in order. *)
Definition members_named (name : string) (kv : list (bytes * json)) : list json :=
  omap (λ p : bytes * json, if bool_decide (fold_key p.1 = s2b name) then Some p.2 else None) kv.
Definition slice_field {A} (dec : A → json → option A) (zero : A) (name : string)
    (s : list A * list A) (kv : list (bytes * json)) : option (list A * list A) :=
  foldl (λ s v, s ← s; decode_slice dec zero s v) (Some s) (members_named name kv).

(** A field of type [uint] and an element of type [string]. *)
Definition uint_field (name : string) (cur : Z) (kv : list (bytes * json)) : option Z :=
  foldl (λ cur v, cur ← cur;
    match v with JNum raw => ParseUint 64 (b2s raw) | JNull => Some cur | _ => None end)
    (Some cur) (members_named name kv).
Definition decode_string (cur : string) (v : json) : option string :=
  match v with JStr s => Some (b2s s) | JNull => Some cur | _ => None end.

(** ** Commits *)

(** A function with the elements behind its parameters; nil for [null]. *)
Definition fn_slot : Type := option (SwapFunctionData * list string).
Definition zero_function : SwapFunctionData := SwapFunction.mk "" "" [] 0 "" "" "".

Definition decode_function (slot : fn_slot) (v : json) : option fn_slot :=
  match v with
  | JNull => Some None
  | JObj kv =>
    let '(f, stale) := default (zero_function, []) slot in
    address ← string_field "addr" (SwapFunction.Address f) kv;
    function ← string_field "func" (SwapFunction.Function_ f) kv;
    '(params, stale) ← slice_field decode_string "" "params" (SwapFunction.Params f, stale) kv;
    timestamp ← uint_field "ts" (SwapFunction.Timestamp f) kv;
    signature ← string_field "sig" (SwapFunction.Signature f) kv;
    Some (Some (SwapFunction.mk address function params timestamp signature "" "", stale))
  | _ => None
  end.

(** [json.Unmarshal(content, &body)] of a nil pointer: nil for [null]. *)
Definition Unmarshal_Commit (body : bytes) : outcome (option InscriptionBRC20ModuleSwapCommitContent) :=
  v ← json_parse body;
  match v with
  | JNull => Ret None
  | JObj kv =>
    proto ← type_error (string_field "p" "" kv);
    op ← type_error (string_field "op" "" kv);
    modul ← type_error (string_field "module" "" kv);
    parent ← type_error (string_field "parent" "" kv);
    gas_price ← type_error (string_field "gas_price" "" kv);
    data ← type_error (slice_field decode_function None "data" ([], []) kv);
    Ret (Some (CommitBody.mk proto op modul parent gas_price (map (fmap fst) data.1)))
  | _ => Error "json: cannot unmarshal into Go value"
  end.

(** ** Tokens of a [json.Decoder] *)
Inductive token : Type :=
  | Delim (c : Z)
  | StringTok (s : bytes)
  | OtherTok.

(** [tokenState] *)
Inductive token_state : Type :=
  | TopValue | ArrayStart | ArrayValue | ArrayComma
  | ObjectStart | ObjectKey | ObjectColon | ObjectValue | ObjectComma.
#[global] Instance token_state_eq_dec : EqDecision token_state.
Proof. solve_decision. Defined.

Definition tokenValueAllowed (s : token_state) : bool :=
  match s with TopValue | ArrayStart | ArrayValue | ObjectValue => true | _ => false end.
(** After a value. *)
Definition tokenValueEnd (s : token_state) : token_state :=
  match s with
  | ArrayStart | ArrayValue => ArrayComma
  | ObjectValue => ObjectComma
  | _ => s
  end.

Record decoder := mkDecoder { rest : bytes; state : token_state; stack : list token_state }.

(** A scalar read by [Decode] into an [interface{}]. *)
Definition decode_scalar (l : bytes) : outcome (token * bytes) :=
  match parse_value 0 l with
  | POk v r =>
    if has_overflow v then Error "json: cannot unmarshal number" else
    Ret (match v with JStr s => StringTok s | _ => OtherTok end, r)
  | PErr => Error "invalid JSON"
  | POut => Panic "model: out of fuel"
  end.

(** [Token()]; [None] at the end of the input.  A colon or a comma is passed over,
    so a call takes as many rounds as there are bytes at most.  A closing bracket pops
    [tokenStack], which panics when it is empty. *)
Fixpoint Token (fuel : nat) (d : decoder) : outcome (option (token * decoder)) :=
  let tokenError := Error "invalid character" in
  match fuel with
  | O => Panic "model: out of fuel"
  | S fuel =>
    match skip_ws (rest d) with
    | [] => Ret None
    | c :: r =>
      let z := Z_of_byte c in
      let opened s := Ret (Some (Delim z, mkDecoder r s (state d :: stack d))) in
      let closed (ok : bool) :=
        if ok then
          match stack d with
          | s :: stk => Ret (Some (Delim z, mkDecoder r (tokenValueEnd s) stk))
          | [] => Panic "index out of range"
          end
        else tokenError in
      let skip s := Token fuel (mkDecoder r s (stack d)) in
      if z =? 91 then if tokenValueAllowed (state d) then opened ArrayStart else tokenError
      else if z =? 93 then
        closed (bool_decide (state d = ArrayStart) || bool_decide (state d = ArrayComma))
      else if z =? 123 then if tokenValueAllowed (state d) then opened ObjectStart else tokenError
      else if z =? 125 then
        closed (bool_decide (state d = ObjectStart) || bool_decide (state d = ObjectComma))
      else if z =? 58 then
        if bool_decide (state d = ObjectColon) then skip ObjectValue else tokenError
      else if z =? 44 then
        if bool_decide (state d = ArrayComma) then skip ArrayValue
        else if bool_decide (state d = ObjectComma) then skip ObjectKey
        else tokenError
      else if (z =? 34) && (bool_decide (state d = ObjectStart) || bool_decide (state d = ObjectKey)) then
        '(t, r) ← decode_scalar (c :: r);
        Ret (Some (t, mkDecoder r ObjectColon (stack d)))
      else if tokenValueAllowed (state d) then
        '(t, r) ← decode_scalar (c :: r);
        Ret (Some (t, mkDecoder r (tokenValueEnd (state d)) (stack d)))
      else tokenError
    end
  end.

(** ** GetEachItemLengthOfCommitJsonData *)
Inductive item_type : Type := TOKEN_TYPE_OBJ | TOKEN_TYPE_ARR.
Inductive item_ele : Type := TOKEN_VALUE_MAPKEY | TOKEN_VALUE_MAPVALUE | TOKEN_VALUE_ARRAY_ELEMENT.
#[global] Instance item_type_eq_dec : EqDecision item_type.
Proof. solve_decision. Defined.
#[global] Instance item_ele_eq_dec : EqDecision item_ele.
Proof. solve_decision. Defined.

Module Scan.
Record item_scan := mk {
    curType : option item_type;
    curEle : option item_ele;
    indentLevel : Z;
    types : list item_type;
    readyDataProcess : bool;
    startDataProcess : bool;
    lastPos : Z;
    results : list Z;
  }.
#[global] Instance eta : EtaRecord item_scan := λ r,
    mk (curType r) (curEle r) (indentLevel r) (types r) (readyDataProcess r)
      (startDataProcess r) (lastPos r) (results r).
End Scan.
Abbreviation item_scan := Scan.item_scan.
Definition scan_start : item_scan := Scan.mk None None 0 [] false false 0 [].

(** [curType = t; setEleType()] *)
Definition set_type (t : item_type) (s : item_scan) : item_scan :=
  s <| Scan.curType := Some t |>
    <| Scan.curEle := Some (match t with TOKEN_TYPE_OBJ => TOKEN_VALUE_MAPKEY
                            | TOKEN_TYPE_ARR => TOKEN_VALUE_ARRAY_ELEMENT end) |>.
Definition push_type (t : item_type) (s : item_scan) : item_scan :=
  set_type t (s <| Scan.types ::= cons t |>) <| Scan.indentLevel ::= Z.add 1 |>.
(** [stack.Remove(stack.Back())]: the last element of an empty list is nil, which
    [Remove] dereferences.  The element type is only reset when the stack is not empty
    afterwards. *)
Definition pop_type (s : item_scan) : outcome item_scan :=
  match Scan.types s with
  | [] => Panic nil_deref
  | _ :: types =>
    let s := s <| Scan.types := types |> in
    let s := match types with t :: _ => set_type t s | [] => s end in
    Ret (s <| Scan.indentLevel ::= λ n, n - 1 |>)
  end.

Definition scan_token (tok : token) (offset : Z) (s : item_scan) : outcome item_scan :=
  let counting := Scan.readyDataProcess s && Scan.startDataProcess s in
  match tok with
  | Delim c =>
    if c =? 123 then
      Ret (push_type TOKEN_TYPE_OBJ
        (if (Scan.indentLevel s =? 2) && counting then s <| Scan.lastPos := offset |> else s))
    else if c =? 125 then
      pop_type
        (if (Scan.indentLevel s =? 3) && counting
         then s <| Scan.results ::= λ l, l ++ [u64 (offset - Scan.lastPos s + 1)] |> else s)
    else if c =? 91 then
      Ret (push_type TOKEN_TYPE_ARR
        (if (Scan.indentLevel s =? 1) && Scan.readyDataProcess s && negb (Scan.startDataProcess s)
         then s <| Scan.results := [] |> <| Scan.startDataProcess := true |> else s))
    else
      pop_type
        (if (Scan.indentLevel s =? 2) && counting
         then s <| Scan.readyDataProcess := false |> <| Scan.startDataProcess := false |> else s)
  | _ =>
    if bool_decide (Scan.curType s = Some TOKEN_TYPE_OBJ) then
      if bool_decide (Scan.curEle s = Some TOKEN_VALUE_MAPKEY) then
        let s :=
          if Scan.indentLevel s =? 1 then
            match tok with
            | StringTok k =>
              if bool_decide (k = s2b "data")
              then s <| Scan.results := [] |> <| Scan.readyDataProcess := true |>
                     <| Scan.startDataProcess := false |>
              else s <| Scan.readyDataProcess := false |> <| Scan.startDataProcess := false |>
            | _ => s <| Scan.readyDataProcess := false |> <| Scan.startDataProcess := false |>
            end
          else s in
        Ret (s <| Scan.curEle := Some TOKEN_VALUE_MAPVALUE |>)
      else if bool_decide (Scan.curEle s = Some TOKEN_VALUE_MAPVALUE)
      then Ret (s <| Scan.curEle := Some TOKEN_VALUE_MAPKEY |>)
      else Ret s
    else Ret s
  end.

Fixpoint scan_tokens (fuel : nat) (total : Z) (d : decoder) (s : item_scan) : outcome (list Z) :=
  match fuel with
  | O => Panic "model: out of fuel"
  | S fuel =>
    t ← Token (S (length (rest d))) d;
    match t with
    | None => Ret (Scan.results s)
    | Some (tok, d) =>
      s ← scan_token tok (total - blen (rest d)) s;
      scan_tokens fuel total d s
    end
  end.

Definition GetEachItemLengthOfCommitJsonData (body : bytes) : outcome (list Z) :=
  scan_tokens (S (length body)) (blen body) (mkDecoder body TopValue []) scan_start.

(** The sizes are those of the texts of the functions; text outside the [data] of the
    top level does not count. *)
Definition quoted (s : string) : bytes :=
  map (λ c, if bool_decide (c = "'"%char) then byte_of_Z 34 else c) (s2b s).
Example sizes_of_functions :
  GetEachItemLengthOfCommitJsonData
    (quoted "{'x':{'data':[{}]}, 'data' : [ {'func':'send','params':['a',{}]} ,{}, {'a':[[]]}],'z':1}") =
  Ret [Z.of_nat (length (quoted "{'func':'send','params':['a',{}]}")); 2; 10].
Proof. by vm_compute. Qed.
Example sizes_of_bad_text :
  GetEachItemLengthOfCommitJsonData (quoted "{'data':[{}") = Ret [2] ∧
  GetEachItemLengthOfCommitJsonData (quoted "{'data':[{}}") = Error "invalid character".
Proof. by vm_compute. Qed.
Example commit_with_null :
  Unmarshal_Commit (quoted "{'module':'m','data':[null,{'func':'send','ts':7}]}") =
  Ret (Some (CommitBody.mk "" "" "m" "" "" [None; Some (SwapFunction.mk "" "send" [] 7 "" "" "")])).
Proof. by vm_compute. Qed.

(** ** The scan ends, and the sizes are of parts of the text *)
Lemma scalar_lt l v r : parse_value 0 l = POk v r → (length r < length l)%nat.
Proof.
  cbn [parse_value]. pose proof (skip_ws_length l). destruct (skip_ws l) as [|c r']; [done|].
  simpl length in *.
  assert (∀ p w, (0 < length p)%nat → expect p w (c :: r') = POk v r → (length r < length l)%nat) as He.
  { intros p w Hp. unfold expect. case_match; [|done]. intros [= <- <-]. rewrite length_drop. simpl. lia. }
  repeat (case_match; try done); try (by apply He; simpl; lia); intros ?; simplify_eq.
  - pose proof (json_string_le (S (length r')) r' [] (length r') ltac:(lia) ltac:(lia)) as Hs.
    match goal with E : json_string _ _ _ = _ |- _ => rewrite E in Hs end. simpl in Hs. lia.
  - match goal with E : scan_number _ = Some _ |- _ => apply scan_number_length in E; simpl in E; lia end.
Qed.

(** The decoder is at the top level exactly when its stack is empty, and so was it at
    every bracket that is still open. *)
Fixpoint nested (st : token_state) (stk : list token_state) : Prop :=
  match stk with
  | [] => st = TopValue
  | s :: stk => st ≠ TopValue ∧ nested s stk
  end.
Lemma nested_same st st' stk : (st = TopValue ↔ st' = TopValue) → nested st stk → nested st' stk.
Proof. destruct stk; simpl; intuition. Qed.
Lemma nested_value st stk : nested st stk → nested (tokenValueEnd st) stk.
Proof. apply nested_same. by destruct st. Qed.
Lemma nested_open st stk : st ≠ TopValue → nested st stk → ∃ s stk', stk = s :: stk' ∧ nested s stk'.
Proof. destruct stk as [|s stk]; simpl; [done|]. intros _ [_ H]. by exists s, stk. Qed.

(** What a token does to the number of open brackets. *)
Definition depth_after (tok : token) (k k' : nat) : Prop :=
  match tok with
  | Delim c => if (c =? 123) || (c =? 91) then k' = S k else k = S k'
  | _ => k' = k
  end.
(** A token takes some of the text, opens or closes a bracket or neither, and the
    decoder stays nested. *)
Definition advances (n k : nat) (o : outcome (option (token * decoder))) : Prop :=
  match o with
  | Ret (Some (tok, d)) =>
    (length (rest d) < n)%nat ∧ nested (state d) (stack d) ∧ depth_after tok k (length (stack d))
  | Ret None | Error _ => True
  | Panic _ => False
  end.
Lemma advances_mono n m k o : (n ≤ m)%nat → advances n k o → advances m k o.
Proof. destruct o as [[[]|]| |]; simpl; [|done..]. intros Hle [? [??]]. split_and!; [lia|done..]. Qed.
Lemma decode_scalar_advances l st stk n :
  nested st stk → (length l ≤ n)%nat →
  advances n (length stk) ('(t, r) ← decode_scalar l; Ret (Some (t, mkDecoder r st stk))).
Proof.
  intros Hk Hn. unfold decode_scalar. pose proof (parse_value_le 0 l) as Hp.
  destruct (parse_value 0 l) as [v r| |] eqn:E; [|done..]. apply scalar_lt in E.
  case_match; [done|]. simpl. split_and!; [lia|done|]. by destruct v.
Qed.
Lemma Token_advances fuel d :
  nested (state d) (stack d) → (length (rest d) < fuel)%nat →
  advances (length (rest d)) (length (stack d)) (Token fuel d).
Proof.
  revert d. induction fuel as [|fuel IH]; intros d Hd Hf; [lia|]. cbn [Token].
  pose proof (skip_ws_length (rest d)) as Hl. destruct (skip_ws (rest d)) as [|c r]; [done|]. simpl in Hl.
  assert (∀ s, s ≠ TopValue → state d ≠ TopValue →
    advances (length (rest d)) (length (stack d)) (Token fuel (mkDecoder r s (stack d)))) as Hskip.
  { intros s Hs Hst. eapply advances_mono; [|apply (IH (mkDecoder r s (stack d)))]; simpl; [lia| |lia].
    by eapply nested_same; [|exact Hd]. }
  assert (∀ z, (z =? 123) || (z =? 91) = false → state d ≠ TopValue →
    advances (length (rest d)) (length (stack d))
      match stack d with
      | s :: stk => Ret (Some (Delim z, mkDecoder r (tokenValueEnd s) stk))
      | [] => Panic "index out of range"
      end) as Hclose.
  { intros z Hz Hst. destruct (nested_open _ _ Hst Hd) as (s & stk & -> & Hs). simpl. rewrite Hz.
    split_and!; [lia|by apply nested_value|done]. }
  destruct (Z.eqb_spec (Z_of_byte c) 91) as [->|].
  { destruct (tokenValueAllowed _); [|done]. simpl. by split_and!; [lia|..]. }
  destruct (Z.eqb_spec (Z_of_byte c) 93) as [->|].
  { destruct (_ || _) eqn:E; [|done]. apply Hclose; [done|]. by intros E'; rewrite E' in E. }
  destruct (Z.eqb_spec (Z_of_byte c) 123) as [->|].
  { destruct (tokenValueAllowed _); [|done]. simpl. by split_and!; [lia|..]. }
  destruct (Z.eqb_spec (Z_of_byte c) 125) as [->|].
  { destruct (_ || _) eqn:E; [|done]. apply Hclose; [done|]. by intros E'; rewrite E' in E. }
  destruct (_ =? 58).
  { case_bool_decide; [|done]. apply Hskip; congruence. }
  destruct (_ =? 44).
  { repeat (case_bool_decide; [apply Hskip; congruence|]). done. }
  destruct (_ && _) eqn:E.
  { apply decode_scalar_advances; [|simpl; lia]. eapply nested_same; [|exact Hd].
    apply andb_prop in E as [_ E]. split; [|done]. by intros E'; rewrite E' in E. }
  destruct (tokenValueAllowed _); [|done].
  apply decode_scalar_advances; [by apply nested_value|simpl; lia].
Qed.

(** Sizes that do not wrap around in a text whose positions do not. *)
Definition sizes_ok (total : Z) (sizes : list Z) : Prop :=
  total < 2 ^ 64 - 1 → Forall (λ z, 2 ≤ z ≤ total + 1) sizes.
(** The offset of the scan, and what has been recorded so far. *)
Record scan_ok (total n : Z) (s : item_scan) : Prop := {
  sc_pos : 0 ≤ Scan.lastPos s ≤ total - n;
  sc_sizes : sizes_ok total (Scan.results s);
}.
Lemma pop_type_ok s k : length (Scan.types s) = S k →
  ∃ s', pop_type s = Ret s' ∧ length (Scan.types s') = k ∧
    Scan.lastPos s' = Scan.lastPos s ∧ Scan.results s' = Scan.results s.
Proof.
  unfold pop_type. destruct (Scan.types s) as [|t types]; intros [= <-].
  eexists. split; [done|]. by destruct types.
Qed.
(** The stack of the scan is as deep as that of the decoder. *)
Lemma scan_token_ok total n n' tok s k :
  0 ≤ n' < n → scan_ok total n s → depth_after tok (length (Scan.types s)) k →
  ∃ s', scan_token tok (total - n') s = Ret s' ∧ scan_ok total n' s' ∧ length (Scan.types s') = k.
Proof.
  intros Hn [Hp Hs] Hk.
  assert (sizes_ok total []) as Hnil by (intros _; constructor).
  assert (∀ s', Scan.lastPos s' = Scan.lastPos s → sizes_ok total (Scan.results s') →
    scan_ok total n' s') as Hkeep.
  { intros s' E Hs'. split; [rewrite E; lia|done]. }
  assert (∀ s' : item_scan, Scan.lastPos s' = Scan.lastPos s →
    sizes_ok total (Scan.results s') → length (Scan.types s') = S k →
    ∃ s'', pop_type s' = Ret s'' ∧ scan_ok total n' s'' ∧ length (Scan.types s'') = k) as Hpop.
  { intros s' Hl Hr Hd. destruct (pop_type_ok s' k Hd) as (s'' & -> & Hk' & El & Er).
    exists s''. split_and!; [done| |done]. apply Hkeep; [congruence|by rewrite Er]. }
  unfold scan_token. destruct tok as [c|x|]; simpl in Hk.
  - destruct (Z.eqb_spec c 123).
    { eexists. split; [done|]. simpl in Hk. case_match; (split; [|simpl; congruence]).
      - split; [|done]. change (0 ≤ total - n' ≤ total - n'). lia.
      - by apply Hkeep. }
    destruct (Z.eqb_spec c 91) as [->|]; simpl in Hk.
    { simpl. eexists. split; [done|]. case_match; (split; [|simpl; congruence]); apply Hkeep; done. }
    destruct (c =? 125); apply Hpop; case_match; try done.
    intros Ht. apply Forall_app. split; [by apply Hs|]. constructor; [|constructor]. unfold u64. rewrite Z.mod_small; lia.
  - repeat case_match; eexists; (split; [done|]); (split; [apply Hkeep|simpl; congruence]); done.
  - repeat case_match; eexists; (split; [done|]); (split; [apply Hkeep|simpl; congruence]); done.
Qed.
Definition sized (total : Z) (o : outcome (list Z)) : Prop :=
  match o with
  | Ret sizes => sizes_ok total sizes
  | Error _ => True
  | Panic _ => False
  end.
Lemma scan_tokens_sized fuel total d s :
  blen (rest d) ≤ total → (length (rest d) < fuel)%nat →
  nested (state d) (stack d) → length (Scan.types s) = length (stack d) →
  scan_ok total (blen (rest d)) s → sized total (scan_tokens fuel total d s).
Proof.
  revert d s. induction fuel as [|fuel IH]; intros d s Hd Hf Hn Hk Hs; [lia|]. cbn [scan_tokens].
  pose proof (Token_advances (S (length (rest d))) d Hn ltac:(lia)) as Hl.
  destruct (Token _ d) as [[[tok d']|]| |]; simpl; [|by apply Hs|done..].
  destruct Hl as (Hl & Hn' & Hd'). rewrite <- Hk in Hd'. unfold blen in *.
  destruct (scan_token_ok total (Z.of_nat (length (rest d))) (Z.of_nat (length (rest d'))) tok s _ ltac:(lia) Hs Hd') as (s' & -> & Hs' & Hk').
  simpl. apply IH; done || lia.
Qed.
Lemma GetEachItemLength_sized body :
  sized (blen body) (GetEachItemLengthOfCommitJsonData body).
Proof.
  apply scan_tokens_sized; simpl; try done; [lia|]. split; [cbn; unfold blen; lia|]. intros _. constructor.
Qed.

(** C28: The scan over the tokens of a commit ends with a list of sizes or an error and
    never panics, whatever the text: a closing bracket is only read as a token while one
    is open, so neither the scan nor the decoder pops an empty stack. *)
Theorem GetEachItemLength_total body w : GetEachItemLengthOfCommitJsonData body ≠ Panic w.
Proof. intros E. pose proof (GetEachItemLength_sized body) as H. by rewrite E in H. Qed.

(** C29: Every size a commit is charged gas for is between 2 bytes, those of an empty
    object, and one more than the length of the text, without wrapping around. *)
Theorem GetEachItemLength_bounds body sizes :
  blen body < 2 ^ 64 - 1 → GetEachItemLengthOfCommitJsonData body = Ret sizes →
  Forall (λ z, 2 ≤ z ≤ blen body + 1) sizes.
Proof. intros Hb E. pose proof (GetEachItemLength_sized body) as H. rewrite E in H. by apply H. Qed.
Definition sized_text : bytes := quoted "{'data':[{},{'func':'send'}]}".
Lemma GetEachItemLength_bounds_witness :
  GetEachItemLengthOfCommitJsonData sized_text = Ret [2; 15] ∧ Forall (λ z, 2 ≤ z ≤ blen sized_text + 1) [2; 15].
Proof.
  assert (GetEachItemLengthOfCommitJsonData sized_text = Ret [2; 15]) as E by by vm_compute.
  assert (blen sized_text < 2 ^ 64 - 1) as Hb by by vm_compute.
  split; [exact E|exact (GetEachItemLength_bounds sized_text [2; 15] Hb E)].
Defined.
