(* ===== verification/Indexer.v ===== *)
(** * indexer/init.go: the state of the indexer and its basic operations

    Heaps stand for the Go objects several references share: token balances
    (reached by address and by ticker), conditional approves and transfer states.
    Maps of the struct that [Init] leaves nil are [None].  The entry a deploy
    makes in the map of valid inscriptions shares its data with the ticker, which
    [OfTicker] records. *)
From S2P Require Import Prelude GoStd Decimal Script Utils Json Model History Swap.

(** Go visits the keys of a map in an order of its own choice. *)
Class MapOrder := {
  map_order : list string → list string;
  map_order_perm l : map_order l ≡ₚ l;
}.

Inductive InfoRef : Type :=
  | OfTicker (lowerTicker : string)
  | OwnInfo (info : option InscriptionBRC20InfoResp).

(** The indexer; [Balances], [CondApproves] and [TransferStates] are heaps. *)
Module G.
Record BRC20ModuleIndexer := mk {
    BestHeight : Z;
    Durty : bool;
    EnableHistory : bool;
    HistoryCount : Z;
    HistoryData : list bytes;
    FirstHistoryByHeight : gmap Z Z;
    LastHistoryHeight : Z;
    AllHistory : list Z;
    UserAllHistory : gmap string (list Z);
    InscriptionsTickerInfoMap : gmap string BRC20TokenInfo;
    UserTokensBalanceData : gmap string (gmap string loc);
    TokenUsersBalanceData : gmap string (gmap string loc);
    Balances : gmap loc BRC20TokenBalance;
    InscriptionsValidBRC20DataMap : gmap string InfoRef;
    InscriptionsTransferRemoveMap : gmap string Z;
    InscriptionsValidTransferMap : gmap string InscriptionBRC20TickInfo;
    InscriptionsInvalidTransferMap : gmap string InscriptionBRC20TickInfo;
    ModulesInfoMap : gmap string BRC20ModuleSwapInfo;
    UsersModuleWithTokenMap : gmap string string;
    UsersModuleWithLpTokenMap : gmap string string;
    InscriptionsValidApproveMap : gmap string InscriptionBRC20SwapInfo;
    InscriptionsInvalidApproveMap : gmap string InscriptionBRC20SwapInfo;
    InscriptionsApproveRemoveMap : gmap string Z;
    InscriptionsCondApproveRemoveMap : gmap string Z;
    CondApproves : gmap loc InscriptionBRC20SwapConditionalApproveInfo;
    InscriptionsValidConditionalApproveMap : gmap string loc;
    InscriptionsInvalidConditionalApproveMap : gmap string loc;
    InscriptionsCommitRemoveMap : gmap string Z;
    InscriptionsValidCommitMap : gmap string InscriptionBRC20Data;
    InscriptionsInvalidCommitMap : gmap string InscriptionBRC20Data;
    InscriptionsValidCommitMapById : gmap string InscriptionBRC20Data;
    InscriptionsWithdrawRemoveMap : option (gmap string Z);
    InscriptionsWithdrawMap : option (gmap string InscriptionBRC20SwapInfo);
    InscriptionsValidWithdrawMap : option (gmap string Z);
    ThisTxId : string;
    TransferStates : gmap loc TransferStateForConditionalApprove;
    TxStaticTransferStatesForConditionalApprove : list loc;
  }.
#[global] Instance eta : EtaRecord BRC20ModuleIndexer := λ r,
    mk (BestHeight r) (Durty r) (EnableHistory r) (HistoryCount r) (HistoryData r)
      (FirstHistoryByHeight r) (LastHistoryHeight r) (AllHistory r) (UserAllHistory r)
      (InscriptionsTickerInfoMap r) (UserTokensBalanceData r) (TokenUsersBalanceData r)
      (Balances r) (InscriptionsValidBRC20DataMap r) (InscriptionsTransferRemoveMap r)
      (InscriptionsValidTransferMap r) (InscriptionsInvalidTransferMap r) (ModulesInfoMap r)
      (UsersModuleWithTokenMap r) (UsersModuleWithLpTokenMap r) (InscriptionsValidApproveMap
      r) (InscriptionsInvalidApproveMap r) (InscriptionsApproveRemoveMap r)
      (InscriptionsCondApproveRemoveMap r) (CondApproves r)
      (InscriptionsValidConditionalApproveMap r) (InscriptionsInvalidConditionalApproveMap
      r) (InscriptionsCommitRemoveMap r) (InscriptionsValidCommitMap r)
      (InscriptionsInvalidCommitMap r) (InscriptionsValidCommitMapById r)
      (InscriptionsWithdrawRemoveMap r) (InscriptionsWithdrawMap r)
      (InscriptionsValidWithdrawMap r) (ThisTxId r) (TransferStates r)
      (TxStaticTransferStatesForConditionalApprove r).
End G.
Abbreviation BRC20ModuleIndexer := G.BRC20ModuleIndexer.

Abbreviation Idx := (GoM BRC20ModuleIndexer).

(** [&BRC20ModuleIndexer{}] after [Init]: the three withdraw maps stay nil. *)
Definition Init : BRC20ModuleIndexer :=
  {| G.BestHeight := 0; G.Durty := false; G.EnableHistory := true;
     G.HistoryCount := 0; G.HistoryData := [];
     G.FirstHistoryByHeight := ∅; G.LastHistoryHeight := 0;
     G.AllHistory := []; G.UserAllHistory := ∅;
     G.InscriptionsTickerInfoMap := ∅;
     G.UserTokensBalanceData := ∅; G.TokenUsersBalanceData := ∅; G.Balances := ∅;
     G.InscriptionsValidBRC20DataMap := ∅;
     G.InscriptionsTransferRemoveMap := ∅;
     G.InscriptionsValidTransferMap := ∅; G.InscriptionsInvalidTransferMap := ∅;
     G.ModulesInfoMap := ∅;
     G.UsersModuleWithTokenMap := ∅; G.UsersModuleWithLpTokenMap := ∅;
     G.InscriptionsValidApproveMap := ∅; G.InscriptionsInvalidApproveMap := ∅;
     G.InscriptionsApproveRemoveMap := ∅;
     G.InscriptionsCondApproveRemoveMap := ∅; G.CondApproves := ∅;
     G.InscriptionsValidConditionalApproveMap := ∅;
     G.InscriptionsInvalidConditionalApproveMap := ∅;
     G.InscriptionsCommitRemoveMap := ∅;
     G.InscriptionsValidCommitMap := ∅; G.InscriptionsInvalidCommitMap := ∅;
     G.InscriptionsValidCommitMapById := ∅;
     G.InscriptionsWithdrawRemoveMap := None; G.InscriptionsWithdrawMap := None;
     G.InscriptionsValidWithdrawMap := None;
     G.ThisTxId := ""; G.TransferStates := ∅;
     G.TxStaticTransferStatesForConditionalApprove := [] |}.

(** ** Token balances *)
Section balances.
Context `{GoUnicode}.


Definition alloc_balance (b : BRC20TokenBalance) : Idx loc :=
  g ← get;
  let l := fresh (dom (G.Balances g)) in
  modify (λ g, g <| G.Balances ::= <[l := b]> |>) ;; mret l.

Definition load_balance (l : loc) : Idx BRC20TokenBalance :=
  g ← get; match G.Balances g !! l with Some b => mret b | None => gopanic nil_deref end.
Definition store_balance (l : loc) (b : BRC20TokenBalance) : Idx unit :=
  modify (λ g, g <| G.Balances ::= <[l := b]> |>).
(** [bal.f = v] for some fields of the object [l] points to. *)
Definition update_balance (l : loc) (f : BRC20TokenBalance → BRC20TokenBalance) : Idx unit :=
  b ← load_balance l; store_balance l (f b).

(** The object of [userPkScript] for the ticker, made when it is missing. *)
Definition find_or_new_balance (uniqueLowerTicker ticker userPkScript : string) : Idx loc :=
  g ← get;
  let userTokens := default ∅ (G.UserTokensBalanceData g !! userPkScript) in
  l ← match userTokens !! uniqueLowerTicker with
      | Some tb => mret tb
      | None => alloc_balance (new_balance ticker userPkScript)
      end;
  modify (λ g, g <| G.UserTokensBalanceData ::=
    <[userPkScript := <[uniqueLowerTicker := l]> userTokens]> |>) ;;
  mret l.

(** [tokenUsers[userPkScript] = tokenBalance]; panics for an unknown ticker. *)
Definition set_token_user (uniqueLowerTicker userPkScript : string) (l : loc) : Idx unit :=
  g ← get;
  match G.TokenUsersBalanceData g !! uniqueLowerTicker with
  | None => gopanic ("g.TokenUsersBalanceData[" +:+ uniqueLowerTicker +:+ "], not exists")
  | Some tokenUsers =>
    modify (λ g, g <| G.TokenUsersBalanceData ::=
      <[uniqueLowerTicker := <[userPkScript := l]> tokenUsers]> |>)
  end.

Definition GetUserTokenBalance (ticker userPkScript : string) : Idx loc :=
  let uniqueLowerTicker := ToLower ticker in
  l ← find_or_new_balance uniqueLowerTicker ticker userPkScript;
  set_token_user uniqueLowerTicker userPkScript l ;;
  mret l.

(** ** History *)

(** [g.GetBRC20HistoryByUser(pkScript).History = append(..., history)] *)
Definition add_user_history (pkScript : string) (history : Z) : Idx unit :=
  modify (λ g, g <| G.UserAllHistory ::= λ m, <[pkScript := default [] (m !! pkScript) ++ [history]]> m |>).
Definition add_all_history (history : Z) : Idx unit :=
  modify (λ g, g <| G.AllHistory ::= λ l, l ++ [history] |>).
Definition GetBRC20HistoryByUserForAPI (pkScript : string) (g : BRC20ModuleIndexer) : list Z :=
  default [] (G.UserAllHistory g !! pkScript).

(** Heights [from], [from + 1], ..., [to] get [history] as their first record. *)
Definition first_history_range (from to history : Z) (m : gmap Z Z) : gmap Z Z :=
  foldl (λ m h, <[h := history]> m) m (seqZ from (to - from + 1)).

Definition UpdateHistoryHeightAndGetHistoryIndex (historyObj : BRC20History) : Idx Z :=
  let height := HBase.Height (Hist.Base historyObj) in
  g ← get;
  let history := G.HistoryCount g in
  buf ← lift (Marshal historyObj);
  modify (λ g, g <| G.HistoryData ::= λ l, l ++ [buf] |> <| G.HistoryCount ::= λ n, u32 (n + 1) |>) ;;
  if (height =? G.LastHistoryHeight g) || (height =? MEMPOOL_HEIGHT) then mret history
  else
    modify (λ g, g
      <| G.FirstHistoryByHeight ::=
           if G.LastHistoryHeight g =? 0 then <[height := history]>
           else first_history_range (u32 (G.LastHistoryHeight g + 1)) height history |>
      <| G.LastHistoryHeight := height |>) ;;
    mret history.

(** A history record about [from], appended to the global history. *)
Definition new_history (historyType : Z) (isValid isTransfer : bool)
    (from : InscriptionBRC20TickInfo) (bal : option BRC20TokenBalance) (to : InscriptionBRC20Data)
    : Idx Z :=
  h ← lift (NewBRC20History historyType isValid isTransfer from bal to);
  UpdateHistoryHeightAndGetHistoryIndex h.

(** ** Tickers and modules *)
Definition update_token (uniqueLowerTicker : string) (f : BRC20TokenInfo → BRC20TokenInfo)
    : Idx unit :=
  modify (λ g, g <| G.InscriptionsTickerInfoMap ::= alter f uniqueLowerTicker |>).
Definition update_deploy (uniqueLowerTicker : string)
    (f : InscriptionBRC20TickInfo → InscriptionBRC20TickInfo) : Idx unit :=
  update_token uniqueLowerTicker (λ t, t <| TokenInfo.Deploy ::= f |>).

(** A method call on [g.ModulesInfoMap[moduleId]], which exists. *)
Definition on_module {A} (moduleId : string) (m : GoM BRC20ModuleSwapInfo A) : Idx A := λ g,
  match G.ModulesInfoMap g !! moduleId with
  | None => (Panic nil_deref, g)
  | Some moduleInfo =>
    let '(o, moduleInfo) := m moduleInfo in
    (o, g <| G.ModulesInfoMap ::= <[moduleId := moduleInfo]> |>)
  end.

End balances.
