(* ===== verification/CondApprove.v ===== *)
(** * Conditional approves: model/swap.go (event generation), indexer/init.go and
    indexer/module_cond_approve.go

    Transfers of the current transaction are matched against conditional approves
    moved in it, module by module.  The lists of transfer states hold locations:
    the indexer and its modules share the objects. *)
From S2P Require Import Prelude GoStd Decimal Script Utils Json Model History Swap Indexer.

(** A match of a transfer with a conditional approve. *)
Module Event.
Record ConditionalApproveEvent := mk {
    Module_ : string;
    Tick : string;
    TransferInscriptionId : string;
    TransferMax : string;
    From : string;
    To : string;
    Amount : option Decimal;
    Balance : option Decimal;
    FromData : InscriptionBRC20Data;
    ToData : InscriptionBRC20Data;
    ApproveInfo : loc;
  }.
#[global] Instance eta : EtaRecord ConditionalApproveEvent := λ r,
    mk (Module_ r) (Tick r) (TransferInscriptionId r) (TransferMax r) (From r) (To r)
      (Amount r) (Balance r) (FromData r) (ToData r) (ApproveInfo r).
#[global] Instance eq_dec : EqDecision ConditionalApproveEvent.
Proof. solve_decision. Defined.
End Event.
Abbreviation ConditionalApproveEvent := Event.ConditionalApproveEvent.


Section cond_approve.
Context `{GoUnicode, MapOrder, Config}.

Definition load_cond_approve (l : loc) : Idx InscriptionBRC20SwapConditionalApproveInfo :=
  g ← get; match G.CondApproves g !! l with Some i => mret i | None => gopanic nil_deref end.
Definition update_cond_approve (l : loc)
    (f : InscriptionBRC20SwapConditionalApproveInfo → InscriptionBRC20SwapConditionalApproveInfo)
    : Idx unit :=
  i ← load_cond_approve l; modify (λ g, g <| G.CondApproves ::= <[l := f i]> |>).
Definition alloc_cond_approve (i : InscriptionBRC20SwapConditionalApproveInfo) : Idx loc :=
  g ← get;
  let l := fresh (dom (G.CondApproves g)) in
  modify (λ g, g <| G.CondApproves ::= <[l := i]> |>) ;; mret l.

Definition load_transfer_state (l : loc) : Idx TransferStateForConditionalApprove :=
  g ← get; match G.TransferStates g !! l with Some t => mret t | None => gopanic nil_deref end.
Definition store_transfer_state (l : loc) (t : TransferStateForConditionalApprove) : Idx unit :=
  modify (λ g, g <| G.TransferStates ::= <[l := t]> |>).
Definition alloc_transfer_state (t : TransferStateForConditionalApprove) : Idx loc :=
  g ← get;
  let l := fresh (dom (G.TransferStates g)) in
  store_transfer_state l t ;; mret l.

Definition NewConditionalApproveEvent (senderPkScript receiverPkScript : string)
    (amount balance : option Decimal) (data : InscriptionBRC20Data) (approveInfo : loc)
    (transferInscriptionId transferMax : string) : Idx ConditionalApproveEvent :=
  i ← load_cond_approve approveInfo;
  mret (Event.mk (CondInfo.Module_ i) (CondInfo.Tick i) transferInscriptionId transferMax
    senderPkScript receiverPkScript amount balance
    (CondInfo.Data i <| Data.PkScript := senderPkScript |>)
    (data <| Data.PkScript := receiverPkScript |>) approveInfo).

(** ** Matching, in one module *)

(** The loop of [moduleInfo.GenerateApproveEventsByTransfer]: the amount left, the
    approve states and the events. *)
Fixpoint match_approves (transState : TransferStateForConditionalApprove)
    (balanceAmt : option Decimal) (l : list ApproveStateForConditionalApprove)
    : Idx (option Decimal * list ApproveStateForConditionalApprove * list ConditionalApproveEvent) :=
  match l with
  | [] => mret (balanceAmt, [], [])
  | apprState :: l' =>
    if negb (bool_decide (ApprState.Tick apprState = TransState.Tick transState)) ||
       negb (bool_decide (ApprState.Owner apprState = TransState.To transState)) ||
       (Sign (ApprState.Balance apprState) =? 0)
    then
      '(b, l', events) ← match_approves transState balanceAmt l';
      mret (b, apprState :: l', events)
    else if Sign balanceAmt =? 0 then mret (balanceAmt, l, [])
    else
      c ← lift (Cmp (ApprState.Balance apprState) balanceAmt);
      let senderPkScript := ApprState.Owner apprState in
      let receiverPkScript := TransState.From transState in
      if c <=? 0 then
        left ← lift (Sub balanceAmt (ApprState.Balance apprState));
        event ← NewConditionalApproveEvent senderPkScript receiverPkScript
          (ApprState.Balance apprState) None (ApprState.ToData apprState)
          (ApprState.ApproveInfo apprState)
          (TransState.InscriptionId transState) (TransState.Max transState);
        '(b, l', events) ← match_approves transState left l';
        mret (b, apprState <| ApprState.Balance := None |> :: l', event :: events)
      else
        rest ← lift (Sub (ApprState.Balance apprState) balanceAmt);
        event ← NewConditionalApproveEvent senderPkScript receiverPkScript
          balanceAmt rest (ApprState.ToData apprState) (ApprState.ApproveInfo apprState)
          (TransState.InscriptionId transState) (TransState.Max transState);
        mret (None, apprState <| ApprState.Balance := rest |> :: l', [event])
  end.

Definition Module_GenerateApproveEventsByTransfer (moduleId : string) (transLoc : loc)
    : Idx (list ConditionalApproveEvent) :=
  transState ← load_transfer_state transLoc;
  states ← on_module moduleId (gets Mod.ApproveStatesForConditionalApprove);
  '(balanceAmt, states, events) ← match_approves transState (TransState.Balance transState) states;
  on_module moduleId (modify (λ m, m <| Mod.ApproveStatesForConditionalApprove := states |>)) ;;
  when (0 <? Sign balanceAmt)
    (store_transfer_state transLoc (transState <| TransState.Balance := balanceAmt |>) ;;
     on_module moduleId (modify (λ m, m
       <| Mod.TransferStatesForConditionalApprove ::= λ l, l ++ [transLoc] |>))) ;;
  mret events.

(** The loop of [moduleInfo.GenerateApproveEventsByApprove]. *)
Fixpoint match_transfers (owner tick : string) (data : InscriptionBRC20Data) (approveInfo : loc)
    (balanceAmt : option Decimal) (l : list loc)
    : Idx (option Decimal * list ConditionalApproveEvent) :=
  match l with
  | [] => mret (balanceAmt, [])
  | transLoc :: l' =>
    if Sign balanceAmt =? 0 then mret (balanceAmt, [])
    else
      transState ← load_transfer_state transLoc;
      if negb (bool_decide (TransState.Tick transState = tick)) ||
         negb (bool_decide (TransState.To transState = owner)) ||
         (Sign (TransState.Balance transState) =? 0)
      then match_transfers owner tick data approveInfo balanceAmt l'
      else
        c ← lift (Cmp (TransState.Balance transState) balanceAmt);
        let receiverPkScript := TransState.From transState in
        if c <=? 0 then
          left ← lift (Sub balanceAmt (TransState.Balance transState));
          event ← NewConditionalApproveEvent owner receiverPkScript
            (TransState.Balance transState) left data approveInfo
            (TransState.InscriptionId transState) (TransState.Max transState);
          store_transfer_state transLoc (transState <| TransState.Balance := None |>) ;;
          '(b, events) ← match_transfers owner tick data approveInfo left l';
          mret (b, event :: events)
        else
          rest ← lift (Sub (TransState.Balance transState) balanceAmt);
          event ← NewConditionalApproveEvent owner receiverPkScript
            balanceAmt None data approveInfo
            (TransState.InscriptionId transState) (TransState.Max transState);
          store_transfer_state transLoc (transState <| TransState.Balance := rest |>) ;;
          mret (None, [event])
  end.

Definition Module_GenerateApproveEventsByApprove (moduleId owner : string)
    (balance : option Decimal) (data : InscriptionBRC20Data) (approveInfo : loc)
    : Idx (list ConditionalApproveEvent) :=
  i ← load_cond_approve approveInfo;
  transfers ← on_module moduleId (gets Mod.TransferStatesForConditionalApprove);
  '(balanceAmt, events) ← match_transfers owner (CondInfo.Tick i) data approveInfo
    (NewDecimalCopy balance) transfers;
  when (0 <? Sign balanceAmt)
    (on_module moduleId (modify (λ m, m
       <| Mod.ApproveStatesForConditionalApprove ::= λ l,
            l ++ [ApprState.mk (CondInfo.Module_ i) (CondInfo.Tick i) owner balanceAmt
                    approveInfo data] |>))) ;;
  mret events.

(** ** Matching, over all modules *)

(** The first event of a transaction in a module clears its states. *)
Definition enter_tx (moduleId : string) : Idx unit :=
  g ← get;
  on_module moduleId (modify (λ m,
    if bool_decide (G.ThisTxId g = Mod.ThisTxId m) then m
    else m <| Mod.TransferStatesForConditionalApprove := [] |>
           <| Mod.ApproveStatesForConditionalApprove := [] |>
           <| Mod.ThisTxId := G.ThisTxId g |>)).

Fixpoint by_transfer_modules (mk : TransferStateForConditionalApprove) (modules : list string)
    : Idx (list ConditionalApproveEvent) :=
  match modules with
  | [] => mret []
  | moduleId :: modules =>
    enter_tx moduleId ;;
    states ← on_module moduleId (gets Mod.ApproveStatesForConditionalApprove);
    innerEvents ←
      (if (length states =? 0)%nat then mret []
       else l ← alloc_transfer_state mk; Module_GenerateApproveEventsByTransfer moduleId l);
    events ← by_transfer_modules mk modules;
    mret (innerEvents ++ events)
  end.

Definition GenerateApproveEventsByTransfer (inscription tick from to : string)
    (amt : option Decimal) : Idx (list ConditionalApproveEvent) :=
  max ← lift (Decimal_String amt);
  let transState := TransState.mk tick from to (NewDecimalCopy amt) inscription max in
  l ← alloc_transfer_state transState;
  modify (λ g, g <| G.TxStaticTransferStatesForConditionalApprove ::= λ s, s ++ [l] |>) ;;
  g ← get;
  by_transfer_modules transState (map_order (elements (dom (G.ModulesInfoMap g)))).

Definition GenerateApproveEventsByApprove (owner : string) (balance : option Decimal)
    (data : InscriptionBRC20Data) (approveInfo : loc) : Idx (list ConditionalApproveEvent) :=
  i ← load_cond_approve approveInfo;
  let moduleId := CondInfo.Module_ i in
  g ← get;
  match G.ModulesInfoMap g !! moduleId with
  | None => mret []
  | Some _ =>
    enter_tx moduleId ;;
    g ← get;
    on_module moduleId (modify (λ m,
      if (length (Mod.ApproveStatesForConditionalApprove m) =? 0)%nat
      then m <| Mod.TransferStatesForConditionalApprove :=
                 G.TxStaticTransferStatesForConditionalApprove g |>
      else m)) ;;
    Module_GenerateApproveEventsByApprove moduleId owner balance data approveInfo
  end.

(** ** indexer/module_cond_approve.go *)
Definition GetConditionalApproveInfoByKey (createIdxKey : string) (g : BRC20ModuleIndexer)
    : option loc * bool :=
  match G.InscriptionsValidConditionalApproveMap g !! createIdxKey with
  | Some l => (Some l, false)
  | None => (G.InscriptionsInvalidConditionalApproveMap g !! createIdxKey, true)
  end.

(** The object a user holds for a ticker in a module, and the errors of its
    absence. *)
Definition mod_find_balance (uniqueLowerTicker pkScript : string) (no_user no_ticker : string)
    : GoM BRC20ModuleSwapInfo loc :=
  m ← get;
  match Mod.UsersTokenBalanceDataMap m !! pkScript with
  | None => throw no_user
  | Some tokens =>
    match tokens !! uniqueLowerTicker with None => throw no_ticker | Some l => mret l end
  end.

(** One round of the first loop of [ProcessConditionalApproveEvents], on the
    module of the event. *)
Definition apply_event (bestHeight : Z) (event : ConditionalApproveEvent)
    : GoM BRC20ModuleSwapInfo unit :=
  let uniqueLowerTicker := ToLower (Event.Tick event) in
  amount ← lift (Decimal_String (Event.Amount event));
  balance ← lift (Decimal_String (Event.Balance event));
  let data := CondApproveData (Event.Tick event) amount balance
    (Event.TransferInscriptionId event) (Event.TransferMax event) in
  let hist t d := NewBRC20ModuleHistory true t (Event.FromData event) (Event.ToData event) d true in
  mod_history (hist BRC20_HISTORY_SWAP_TYPE_N_CONDITIONAL_APPROVE data) ;;
  fromTokenBalance ← mod_find_balance uniqueLowerTicker (Event.From event)
    "approve, send from user missing" "approve, send from ticker missing";
  from ← mod_load fromTokenBalance;
  if bool_decide (MBal.ValidConditionalApproveMap from !! Data.CreateIdxKey (Event.ToData event) = None)
  then throw "approve, send from approve missing(dup)"
  else
    tokenBalance ← Module_GetUserTokenBalance (Event.Tick event) (Event.To event);
    from ← mod_load fromTokenBalance;
    condApproveable ← lift (Sub (MBal.CondApproveableBalance from) (Event.Amount event));
    mod_store fromTokenBalance (λ b, b
      <| MBal.CondApproveableBalance := condApproveable |>
      <| MBal.UpdateHeight := bestHeight |>
      <| MBal.History ::= λ l, l ++ [hist BRC20_HISTORY_SWAP_TYPE_N_APPROVE_FROM NoData] |>) ;;
    to ← mod_load tokenBalance;
    safe ← (if 0 <? Data.BlockTime (Event.ToData event)
            then lift (Add (MBal.SwapAccountBalanceSafe to) (Event.Amount event))
            else mret (MBal.SwapAccountBalanceSafe to));
    swap ← lift (Add (MBal.SwapAccountBalance to) (Event.Amount event));
    mod_store tokenBalance (λ b, b
      <| MBal.SwapAccountBalanceSafe := safe |>
      <| MBal.SwapAccountBalance := swap |>
      <| MBal.UpdateHeight := bestHeight |>
      <| MBal.History ::= λ l, l ++ [hist BRC20_HISTORY_SWAP_TYPE_N_APPROVE_TO NoData] |>) ;;
    update_state_balance (Event.Tick event) (λ s,
      if bool_decide (Event.From event = Event.To event) then
        c ← Add (CondBal.BalanceCancelApprove s) (Event.Amount event);
        Ret (s <| CondBal.BalanceCancelApprove := c |>)
      else
        c ← Add (CondBal.BalanceApprove s) (Event.Amount event);
        Ret (s <| CondBal.BalanceApprove := c |>)).

Definition process_event (event : ConditionalApproveEvent) : Idx unit :=
  let uniqueLowerTicker := ToLower (Event.Tick event) in
  g ← get;
  if bool_decide (G.InscriptionsTickerInfoMap g !! uniqueLowerTicker = None)
  then throw "approve event, invalid ticker"
  else if bool_decide (G.ModulesInfoMap g !! Event.Module_ event = None)
  then throw "approve event, module invalid"
  else on_module (Event.Module_ event) (apply_event (G.BestHeight g) event).

Definition ProcessConditionalApproveEvents (events : list ConditionalApproveEvent) : Idx unit :=
  for_each process_event events ;;
  g ← get;
  for_each (λ event, update_cond_approve (Event.ApproveInfo event) (λ i, i
    <| CondInfo.UpdateHeight := G.BestHeight g |>
    <| CondInfo.Balance := Event.Balance event |>)) events.

(** A new transaction forgets the transfers of the previous one. *)
Definition enter_global_tx (txId : string) : Idx unit :=
  modify (λ g, if bool_decide (G.ThisTxId g = txId) then g
    else g <| G.TxStaticTransferStatesForConditionalApprove := [] |> <| G.ThisTxId := txId |>).

Definition ProcessConditionalApprove (data : InscriptionBRC20Data) (approveInfo : loc)
    (isInvalid : bool) : Idx unit :=
  i ← load_cond_approve approveInfo;
  g ← get;
  if bool_decide (G.InscriptionsTickerInfoMap g !! ToLower (CondInfo.Tick i) = None)
  then throw "approve, invalid ticker"
  else if bool_decide (G.ModulesInfoMap g !! CondInfo.Module_ i = None)
  then throw "approve, module invalid"
  else if isInvalid then
    on_module (CondInfo.Module_ i) (mod_history
      (NewBRC20ModuleHistory true BRC20_HISTORY_SWAP_TYPE_N_CONDITIONAL_APPROVE
        (CondInfo.Data i) data NoData (negb isInvalid)))
  else
    let senderPkScript := Data.PkScript (CondInfo.Data i) in
    let receiverPkScript := Data.PkScript data in
    if negb (CondInfo.HasMoved i) then
      update_cond_approve approveInfo (λ i, i <| CondInfo.HasMoved := true |>) ;;
      if (Data.Satoshi data =? 0) || bool_decide (senderPkScript = receiverPkScript) then
        update_cond_approve approveInfo (λ i, i <| CondInfo.Balance := None |>) ;;
        event ← NewConditionalApproveEvent senderPkScript senderPkScript (CondInfo.Amount i) None
          data approveInfo "" "";
        ProcessConditionalApproveEvents [event]
      else
        update_cond_approve approveInfo (λ i, i <| CondInfo.DelegatorPkScript := receiverPkScript |>)
    else
      let senderPkScript := CondInfo.DelegatorPkScript i in
      if (Data.Satoshi data =? 0) || negb (bool_decide (senderPkScript = receiverPkScript)) then
        let senderPkScript := CondInfo.OwnerPkScript i in
        update_cond_approve approveInfo (λ i, i <| CondInfo.Balance := None |>) ;;
        event ← NewConditionalApproveEvent senderPkScript senderPkScript (CondInfo.Balance i) None
          data approveInfo "" "";
        ProcessConditionalApproveEvents [event]
      else
        enter_global_tx (Data.TxId data) ;;
        events ← GenerateApproveEventsByApprove (CondInfo.OwnerPkScript i) (CondInfo.Balance i)
          data approveInfo;
        ProcessConditionalApproveEvents events.

Definition ProcessInscribeConditionalApprove (data : InscriptionBRC20Data) : Idx unit :=
  if Conf.ENABLE_SWAP_WITHDRAW_HEIGHT conf <=? Data.Height data then throw "invalid operation" else
  body ← lift (Unmarshal_Approve (Data.ContentBody data));
  let modul := ApproveBody.Module_ body in
  if negb (bool_decide (modul = ToLower modul)) then throw "module id invalid" else
  g ← get;
  if bool_decide (G.ModulesInfoMap g !! modul = None) then throw "module invalid" else
  if negb (len (ApproveBody.Tick body) =? 4) then throw "tick invalid" else
  match G.InscriptionsTickerInfoMap g !! ToLower (ApproveBody.Tick body) with
  | None => throw "tick not exist"
  | Some tokenInfo =>
    let tinfo := TokenInfo.Deploy tokenInfo in
    amt ← lift (or_error (NewDecimalFromString (ApproveBody.Amount body) (TickInfo.Decimals tinfo))
      ("cond approve amount invalid: " +:+ ApproveBody.Amount body));
    let amt := Some amt in
    c ← (if Sign amt <=? 0 then mret 1 else lift (Cmp amt (TickInfo.Max tinfo)));
    if (Sign amt <=? 0) || (0 <? c) then throw "amount out of range" else
    let balanceCondApprove := NewDecimalCopy amt in
    let tick := TokenInfo.Ticker tokenInfo in
    let condApproveInfo := CondInfo.mk (G.BestHeight g) modul tick balanceCondApprove
      (NewDecimalCopy balanceCondApprove) false (Data.PkScript data) "" data in
    amount ← lift (Decimal_String (CondInfo.Amount condApproveInfo));
    balance ← lift (Decimal_String (CondInfo.Balance condApproveInfo));
    on_module modul (mod_history (NewBRC20ModuleHistory false
      BRC20_HISTORY_SWAP_TYPE_N_INSCRIBE_CONDITIONAL_APPROVE data data
      (CondApproveData tick amount balance "" "") true)) ;;
    l ← on_module modul (Module_GetUserTokenBalance tick (Data.PkScript data));
    b ← on_module modul (mod_load l);
    c ← lift (Cmp (MBal.AvailableBalance b) balanceCondApprove);
    info ← alloc_cond_approve condApproveInfo;
    if c <? 0 then
      on_module modul (mod_history_valid false) ;;
      modify (λ g, g <| G.InscriptionsInvalidConditionalApproveMap ::=
        <[Data.CreateIdxKey data := info]> |>)
    else
      on_module modul (
        mod_history_valid true ;;
        safe ← lift (Sub (MBal.AvailableBalanceSafe b) balanceCondApprove);
        available ← lift (Sub (MBal.AvailableBalance b) balanceCondApprove);
        condApproveable ← lift (Add (MBal.CondApproveableBalance b) balanceCondApprove);
        mod_store l (λ b, b
          <| MBal.AvailableBalanceSafe := safe |>
          <| MBal.AvailableBalance := available |>
          <| MBal.CondApproveableBalance := condApproveable |>
          <| MBal.ValidConditionalApproveMap ::= <[Data.CreateIdxKey data := data]> |>
          <| MBal.UpdateHeight := G.BestHeight g |>)) ;;
      modify (λ g, g <| G.InscriptionsValidConditionalApproveMap ::=
        <[Data.CreateIdxKey data := info]> |>) ;;
      on_module modul (update_state_balance tick (λ s,
        n ← Add (CondBal.BalanceNewApprove s) balanceCondApprove;
        Ret (s <| CondBal.BalanceNewApprove := n |>)))
  end.

End cond_approve.
