(* ===== verification/Ledger.v ===== *)
(** * indexer/brc20_deploy.go, brc20_mint.go and brc20_transfer.go: the token ledger

    One definition per handler.  [now] is [time.Now().Unix()]; what the handlers
    log is left out. *)
From S2P Require Import Prelude GoStd Decimal Script Utils Json Model History Swap Indexer CondApprove.

Section ledger.
Context `{GoUnicode, MapOrder, Config}.

(** [len(pkScript) == 1 && pkScript[0] == 0x6a]: an OP_RETURN output burns. *)
Definition is_burn (pkScript : string) : bool :=
  (len pkScript =? 1) && byte_is (s2b pkScript) 0 106.

(** Reading through a pointer. *)
Definition deref {A} (o : option A) : Idx A :=
  match o with Some a => mret a | None => gopanic nil_deref end.

(** ** Deploy *)

(** The checks on length and enabled tickers; [false] rejects silently. *)
Definition deploy_tick_ok (body : InscriptionBRC20DeployContent) (data : InscriptionBRC20Data)
    (uniqueLowerTicker : string) : bool :=
  let five := len (DeployBody.BRC20Tick body) =? 5 in
  if five && negb (bool_decide (DeployBody.BRC20SelfMint body = "true")) then false
  else if five && (Data.Height data <? Conf.ENABLE_SELF_MINT_HEIGHT conf) then false
  else if bool_decide (Conf.TICKS_ENABLED conf = "") then true
  else negb (Contains uniqueLowerTicker " ") && Contains (Conf.TICKS_ENABLED conf) uniqueLowerTicker.

(** A supply or limit: zero means unlimited for a self-mint ticker. *)
Definition deploy_range (selfMint : bool) (zero_msg : string) (d : Decimal)
    : outcome (option Decimal) :=
  if Sign (Some d) =? 0 then
    if selfMint then GetMaxUint64 (Some d) else Error zero_msg
  else Ret (Some d).

Definition deploy_out_of_range (d : Decimal) : outcome bool :=
  if Sign (Some d) <? 0 then Ret true else IsOverflowUint64 (Some d).

Definition deploy_info (body : InscriptionBRC20DeployContent) (data : InscriptionBRC20Data)
    : InscriptionBRC20TickInfo :=
  let selfMint := (len (DeployBody.BRC20Tick body) =? 5) &&
    bool_decide (DeployBody.BRC20SelfMint body = "true") in
  NewInscriptionBRC20TickInfo (DeployBody.BRC20Tick body) (DeployBody.Operation body) data
    <| TickInfo.Data ::= fmap (λ d : InscriptionBRC20InfoResp, d
         <| InfoResp.BRC20Max := DeployBody.BRC20Max body |>
         <| InfoResp.BRC20Limit := DeployBody.BRC20Limit body |>
         <| InfoResp.BRC20Decimal := DeployBody.BRC20Decimal body |>
         <| InfoResp.BRC20Minted := "0" |>
         <| InfoResp.BRC20SelfMint := if selfMint then "true" else "" |>) |>
    <| TickInfo.InscriptionNumberStart := Data.InscriptionNumber data |>
    <| TickInfo.SelfMint := selfMint |>.

(** Register the ticker and its first, empty, balance. *)
Definition deploy_register (uniqueLowerTicker : string) (tinfo : InscriptionBRC20TickInfo)
    (data : InscriptionBRC20Data) : Idx unit :=
  let ticker := TickInfo.Tick tinfo in
  let pkScript := Data.PkScript data in
  modify (λ g, g <| G.InscriptionsTickerInfoMap ::=
    <[uniqueLowerTicker := TokenInfo.mk 0 ticker tinfo [] [] [] [] []]> |>) ;;
  tokenBalance ← alloc_balance (new_balance ticker pkScript <| Bal.UpdateHeight := Data.Height data |>);
  g ← get;
  when (G.EnableHistory g)
    (history ← new_history BRC20_HISTORY_TYPE_N_INSCRIBE_DEPLOY true false tinfo None data;
     update_balance tokenBalance (λ b, b <| Bal.History ::= λ l, l ++ [history] |>) ;;
     update_token uniqueLowerTicker (λ t, t <| TokenInfo.History ::= λ l, l ++ [history] |>) ;;
     add_user_history pkScript history ;;
     add_all_history history) ;;
  update_token uniqueLowerTicker (λ t, t <| TokenInfo.UpdateHeight := Data.Height data |>) ;;
  modify (λ g, g
    <| G.UserTokensBalanceData ::= λ u,
         <[pkScript := <[uniqueLowerTicker := tokenBalance]> (default ∅ (u !! pkScript))]> u |>
    <| G.TokenUsersBalanceData ::= <[uniqueLowerTicker := {[pkScript := tokenBalance]}]> |>
    <| G.InscriptionsValidBRC20DataMap ::=
         <[Data.CreateIdxKey data := OfTicker uniqueLowerTicker]> |>).

Definition ProcessDeploy (data : InscriptionBRC20Data) : Idx unit :=
  match Unmarshal_Deploy (Data.ContentBody data) with
  | Panic p => gopanic p
  | Error _ => mret tt
  | Ret body =>
    match GetValidUniqueLowerTickerTicker (DeployBody.BRC20Tick body) with
    | Panic p => gopanic p
    | Error _ => mret tt
    | Ret uniqueLowerTicker =>
      if negb (deploy_tick_ok body data uniqueLowerTicker) then mret tt else
      g ← get;
      if bool_decide (is_Some (G.InscriptionsTickerInfoMap g !! uniqueLowerTicker)) then mret tt else
      if bool_decide (DeployBody.BRC20Max body = "") then throw "deploy, but max missing" else
      let tinfo := deploy_info body data in
      match ParseUint 64 (DeployBody.BRC20Decimal body) with
      | None => throw "deploy, but dec invalid"
      | Some dec =>
        if 18 <? dec then throw "deploy, but dec invalid" else
        max ← lift (or_error (NewDecimalFromString (DeployBody.BRC20Max body) dec)
          "deploy, but max invalid");
        out ← lift (deploy_out_of_range max);
        if (out : bool) then mret tt else
        tmax ← lift (deploy_range (TickInfo.SelfMint tinfo) "deploy, but max invalid (0)" max);
        lim ← lift (or_error (NewDecimalFromString (DeployBody.BRC20Limit body) dec)
          "deploy, but lim invalid");
        out ← lift (deploy_out_of_range lim);
        if (out : bool) then throw "deploy, but lim invalid (range)" else
        tlim ← lift (deploy_range (TickInfo.SelfMint tinfo) "deploy, but lim invalid (0)" lim);
        deploy_register uniqueLowerTicker
          (tinfo <| TickInfo.Decimals := u8 dec |> <| TickInfo.Max := tmax |>
                 <| TickInfo.Limit := tlim |>) data
      end
    end
  end.

(** ** Mint *)

(** The part of [amt] that is still available. *)
Definition mint_amount (tinfo : InscriptionBRC20TickInfo) (amt : option Decimal)
    : outcome (option Decimal) :=
  total ← Add (TickInfo.TotalMinted tinfo) amt;
  c ← Cmp total (TickInfo.Max tinfo);
  if 0 <? c then Sub (TickInfo.Max tinfo) (TickInfo.TotalMinted tinfo) else Ret (NewDecimalCopy amt).

(** Mint state of the ticker after minting [balanceMinted]. *)
Definition mint_tinfo (now : Z) (data : InscriptionBRC20Data) (balanceMinted : option Decimal)
    (tinfo : InscriptionBRC20TickInfo) : outcome InscriptionBRC20TickInfo :=
  total ← Add (TickInfo.TotalMinted tinfo) balanceMinted;
  c ← Cmp total (TickInfo.Max tinfo);
  let confirmed := 0 <? Data.BlockTime data in
  let older s := confirmed && (Data.BlockTime data <? u32 (u32 now - s)) in
  let add (b : bool) d := if b then Add d balanceMinted else Ret d in
  m ← add confirmed (TickInfo.ConfirmedMinted tinfo);
  m1 ← add (older 3600) (TickInfo.ConfirmedMinted1h tinfo);
  m24 ← add (older 86400) (TickInfo.ConfirmedMinted24h tinfo);
  minted ← Decimal_String total;
  deployed ← deref_ptr (TickInfo.Data tinfo);
  burned ← add (is_burn (Data.PkScript data)) (TickInfo.Burned tinfo);
  Ret (tinfo
    <| TickInfo.TotalMinted := total |>
    <| TickInfo.CompleteHeight ::= λ h, if 0 <=? c then Data.Height data else h |>
    <| TickInfo.CompleteBlockTime ::= λ t, if 0 <=? c then Data.BlockTime data else t |>
    <| TickInfo.ConfirmedMinted := m |>
    <| TickInfo.ConfirmedMinted1h := m1 |>
    <| TickInfo.ConfirmedMinted24h := m24 |>
    <| TickInfo.MintTimes ::= λ n, u32 (n + 1) |>
    <| TickInfo.Data := Some (deployed <| InfoResp.BRC20Minted := minted |>) |>
    <| TickInfo.InscriptionNumberEnd := Data.InscriptionNumber data |>
    <| TickInfo.Burned := burned |>).

(** [tokenBalance.AvailableBalance += amt], and the safe balance when confirmed. *)
Definition credit (data : InscriptionBRC20Data) (amt : option Decimal) (b : BRC20TokenBalance)
    : outcome BRC20TokenBalance :=
  safe ← (if 0 <? Data.BlockTime data then Add (Bal.AvailableBalanceSafe b) amt
          else Ret (Bal.AvailableBalanceSafe b));
  available ← Add (Bal.AvailableBalance b) amt;
  Ret (b <| Bal.AvailableBalanceSafe := safe |> <| Bal.AvailableBalance := available |>).

Definition mint_history (uniqueLowerTicker : string) (valid : bool)
    (mintInfo : InscriptionBRC20TickInfo) (tokenBalance : loc) (data : InscriptionBRC20Data)
    : Idx unit :=
  b ← load_balance tokenBalance;
  history ← new_history BRC20_HISTORY_TYPE_N_INSCRIBE_MINT valid false mintInfo (Some b) data;
  update_balance tokenBalance (λ b, b <| Bal.History ::= λ l, l ++ [history] |>
    <| Bal.HistoryMint ::= λ l, l ++ [history] |>) ;;
  update_token uniqueLowerTicker (λ t, t <| TokenInfo.History ::= λ l, l ++ [history] |>
    <| TokenInfo.HistoryMint ::= λ l, l ++ [history] |>) ;;
  when valid (add_user_history (Data.PkScript data) history ;; add_all_history history).

(** The supply is not exhausted: mint what is left of it, at most [amt]. *)
Definition mint_valid (now : Z) (uniqueLowerTicker : string)
    (tinfo mintInfo : InscriptionBRC20TickInfo) (tokenBalance : loc) (amt : option Decimal)
    (data : InscriptionBRC20Data) : Idx unit :=
  balanceMinted ← lift (mint_amount tinfo amt);
  tinfo' ← lift (mint_tinfo now data balanceMinted tinfo);
  update_token uniqueLowerTicker (λ t, t <| TokenInfo.UpdateHeight := Data.Height data |>
    <| TokenInfo.Deploy := tinfo' |>) ;;
  minted ← lift (Decimal_String balanceMinted);
  let mintInfo := mintInfo
    <| TickInfo.Data ::= fmap (λ d : InscriptionBRC20InfoResp, d <| InfoResp.BRC20Minted := minted |>) |>
    <| TickInfo.Amount := balanceMinted |> in
  b ← load_balance tokenBalance;
  b ← lift (credit data balanceMinted b);
  store_balance tokenBalance b ;;
  g ← get;
  when (G.EnableHistory g) (mint_history uniqueLowerTicker true mintInfo tokenBalance data).

(** From the balance object on: a valid amount within the limit. *)
Definition mint_apply (now : Z) (uniqueLowerTicker : string) (tokenInfo : BRC20TokenInfo)
    (body : InscriptionBRC20MintTransferContent) (amt : option Decimal)
    (data : InscriptionBRC20Data) : Idx unit :=
  let tinfo := TokenInfo.Deploy tokenInfo in
  tokenBalance ← GetUserTokenBalance (TokenInfo.Ticker tokenInfo) (Data.PkScript data);
  update_balance tokenBalance (λ b, b <| Bal.UpdateHeight := Data.Height data |>) ;;
  minted ← lift (Decimal_String amt);
  let mintInfo :=
    NewInscriptionBRC20TickInfo (TokenInfo.Ticker tokenInfo) (MintBody.Operation body) data
      <| TickInfo.Data ::= fmap (λ d : InscriptionBRC20InfoResp, d
           <| InfoResp.BRC20Amount := MintBody.BRC20Amount body |>
           <| InfoResp.BRC20Minted := minted |>) |>
      <| TickInfo.Decimals := TickInfo.Decimals tinfo |>
      <| TickInfo.Amount := amt |> in
  c ← lift (Cmp (TickInfo.TotalMinted tinfo) (TickInfo.Max tinfo));
  g ← get;
  if 0 <=? c then
    when (G.EnableHistory g) (mint_history uniqueLowerTicker false mintInfo tokenBalance data)
  else mint_valid now uniqueLowerTicker tinfo mintInfo tokenBalance amt data.

Definition ProcessMint (now : Z) (data : InscriptionBRC20Data) : Idx unit :=
  match Unmarshal_MintTransfer (Data.ContentBody data) with
  | Panic p => gopanic p
  | Error _ => mret tt
  | Ret body =>
    match GetValidUniqueLowerTickerTicker (MintBody.BRC20Tick body) with
    | Panic p => gopanic p
    | Error _ => mret tt
    | Ret uniqueLowerTicker =>
      g ← get;
      match G.InscriptionsTickerInfoMap g !! uniqueLowerTicker with
      | None => mret tt
      | Some tokenInfo =>
        let tinfo := TokenInfo.Deploy tokenInfo in
        if TickInfo.SelfMint tinfo && negb (bool_decide
             (DecodeInscriptionFromBin (Data.Parent data) = TickInfo_GetInscriptionId tinfo))
        then throw ("self mint " +:+ MintBody.BRC20Tick body +:+ ", but parent invalid")
        else
          amt ← lift (or_error
            (NewDecimalFromString (MintBody.BRC20Amount body) (TickInfo.Decimals tinfo))
            ("mint " +:+ MintBody.BRC20Tick body +:+ ", but invalid amount(" +:+
             MintBody.BRC20Amount body +:+ ")"));
          let amt := Some amt in
          c ← (if Sign amt <=? 0 then mret 1 else lift (Cmp amt (TickInfo.Limit tinfo)));
          if (Sign amt <=? 0) || (0 <? c) then
            limit ← lift (Decimal_String (TickInfo.Limit tinfo));
            throw ("mint " +:+ MintBody.BRC20Tick body +:+ ", invalid amount(" +:+
              MintBody.BRC20Amount body +:+ "), limit(" +:+ limit +:+ ")")
          else mint_apply now uniqueLowerTicker tokenInfo body amt data
      end
    end
  end.

(** ** Inscribe transfer *)
Definition inscribe_transfer_history (uniqueLowerTicker : string) (valid : bool)
    (transferInfo : InscriptionBRC20TickInfo) (tokenBalance : loc) (data : InscriptionBRC20Data)
    : Idx unit :=
  b ← load_balance tokenBalance;
  g ← get;
  let history := G.HistoryCount g in
  historyObj ← lift (NewBRC20History BRC20_HISTORY_TYPE_N_INSCRIBE_TRANSFER valid false
    transferInfo (Some b) data);
  update_balance tokenBalance (λ b, b <| Bal.History ::= λ l, l ++ [history] |>
    <| Bal.HistoryInscribeTransfer ::= λ l, l ++ [history] |>) ;;
  update_token uniqueLowerTicker (λ t, t <| TokenInfo.History ::= λ l, l ++ [history] |>
    <| TokenInfo.HistoryInscribeTransfer ::= λ l, l ++ [history] |>) ;;
  add_user_history (Data.PkScript data) history ;;
  when valid (add_all_history history) ;;
  UpdateHistoryHeightAndGetHistoryIndex historyObj ;; mret tt.

(** From available to transferable. *)
Definition lock_transfer (key : string) (transferInfo : InscriptionBRC20TickInfo)
    (b : BRC20TokenBalance) : outcome BRC20TokenBalance :=
  let amt := TickInfo.Amount transferInfo in
  safe ← Sub (Bal.AvailableBalanceSafe b) amt;
  available ← Sub (Bal.AvailableBalance b) amt;
  transferable ← Add (Bal.TransferableBalance b) amt;
  Ret (b <| Bal.AvailableBalanceSafe := safe |> <| Bal.AvailableBalance := available |>
         <| Bal.TransferableBalance := transferable |>
         <| Bal.ValidTransferMap ::= <[key := transferInfo]> |>).

Definition inscribe_transfer_apply (uniqueLowerTicker : string) (tokenInfo : BRC20TokenInfo)
    (body : InscriptionBRC20MintTransferContent) (amt : option Decimal)
    (data : InscriptionBRC20Data) : Idx unit :=
  let tinfo := TokenInfo.Deploy tokenInfo in
  let key := Data.CreateIdxKey data in
  tokenBalance ← find_or_new_balance uniqueLowerTicker (TokenInfo.Ticker tokenInfo) (Data.PkScript data);
  set_token_user uniqueLowerTicker (Data.PkScript data) tokenBalance ;;
  update_balance tokenBalance (λ b, b <| Bal.UpdateHeight := Data.Height data |>) ;;
  deployed ← deref (TickInfo.Data tinfo);
  let transferInfo :=
    NewInscriptionBRC20TickInfo (TokenInfo.Ticker tokenInfo) (MintBody.Operation body) data
      <| TickInfo.Data ::= fmap (λ d : InscriptionBRC20InfoResp, d
           <| InfoResp.BRC20Amount := MintBody.BRC20Amount body |>
           <| InfoResp.BRC20Limit := InfoResp.BRC20Limit deployed |>
           <| InfoResp.BRC20Decimal := InfoResp.BRC20Decimal deployed |>) |>
      <| TickInfo.Tick := TokenInfo.Ticker tokenInfo |>
      <| TickInfo.Amount := NewDecimalCopy amt |>
      <| TickInfo.Meta := Some data |> in
  b ← load_balance tokenBalance;
  c ← lift (Cmp (Bal.AvailableBalance b) (TickInfo.Amount transferInfo));
  g ← get;
  when (G.EnableHistory g)
    (inscribe_transfer_history uniqueLowerTicker (negb (c <? 0)) transferInfo tokenBalance data) ;;
  if c <? 0 then
    modify (λ g, g <| G.InscriptionsInvalidTransferMap ::= <[key := transferInfo]> |>)
  else
    b ← load_balance tokenBalance;
    b ← lift (lock_transfer key transferInfo b);
    store_balance tokenBalance b ;;
    modify (λ g, g <| G.InscriptionsValidTransferMap ::= <[key := transferInfo]> |>
      <| G.InscriptionsValidBRC20DataMap ::= <[key := OwnInfo (TickInfo.Data transferInfo)]> |>).

Definition ProcessInscribeTransfer (data : InscriptionBRC20Data) : Idx unit :=
  match Unmarshal_MintTransfer (Data.ContentBody data) with
  | Panic p => gopanic p
  | Error _ => mret tt
  | Ret body =>
    match GetValidUniqueLowerTickerTicker (MintBody.BRC20Tick body) with
    | Panic p => gopanic p
    | Error _ => mret tt
    | Ret uniqueLowerTicker =>
      g ← get;
      match G.InscriptionsTickerInfoMap g !! uniqueLowerTicker with
      | None => mret tt
      | Some tokenInfo =>
        let tinfo := TokenInfo.Deploy tokenInfo in
        match NewDecimalFromString (MintBody.BRC20Amount body) (TickInfo.Decimals tinfo) with
        | Panic p => gopanic p
        | Error _ => mret tt
        | Ret amt =>
          let amt := Some amt in
          c ← (if Sign amt <=? 0 then mret 1 else lift (Cmp amt (TickInfo.Max tinfo)));
          if (Sign amt <=? 0) || (0 <? c) then mret tt
          else inscribe_transfer_apply uniqueLowerTicker tokenInfo body amt data
        end
      end
    end
  end.

(** ** Transfer *)
Definition GetTransferInfoByKey (createIdxKey : string) (g : BRC20ModuleIndexer)
    : option InscriptionBRC20TickInfo * bool :=
  match G.InscriptionsValidTransferMap g !! createIdxKey with
  | Some transferInfo => (Some transferInfo, false)
  | None => (G.InscriptionsInvalidTransferMap g !! createIdxKey, true)
  end.

Definition transfer_history (uniqueLowerTicker : string) (isInvalid : bool)
    (transferInfo : InscriptionBRC20TickInfo) (data : InscriptionBRC20Data) : Idx unit :=
  history ← new_history BRC20_HISTORY_TYPE_N_TRANSFER (negb isInvalid) true transferInfo None data;
  update_token uniqueLowerTicker (λ t, t <| TokenInfo.History ::= λ l, l ++ [history] |>
    <| TokenInfo.HistoryTransfer ::= λ l, l ++ [history] |>) ;;
  when (negb isInvalid) (add_all_history history).

(** The record of the sender ([send]) or of the receiver. *)
Definition move_history (send valid : bool) (transferInfo : InscriptionBRC20TickInfo)
    (tokenBalance : loc) (pkScript : string) (data : InscriptionBRC20Data) : Idx unit :=
  b ← load_balance tokenBalance;
  history ← new_history
    (if send then BRC20_HISTORY_TYPE_N_SEND else BRC20_HISTORY_TYPE_N_RECEIVE)
    valid true transferInfo (Some b) data;
  update_balance tokenBalance (λ b,
    let b := b <| Bal.History ::= λ l, l ++ [history] |> in
    if send then b <| Bal.HistorySend ::= λ l, l ++ [history] |>
    else b <| Bal.HistoryReceive ::= λ l, l ++ [history] |>) ;;
  add_user_history pkScript history.

(** Take the amount out of the sender's transferable balance. *)
Definition unlock_transfer (key : string) (amt : option Decimal) (b : BRC20TokenBalance)
    : outcome BRC20TokenBalance :=
  transferable ← Sub (Bal.TransferableBalance b) amt;
  Ret (b <| Bal.TransferableBalance := transferable |> <| Bal.ValidTransferMap ::= delete key |>).

(** A transfer to a module address is a deposit of the sender. *)
Definition module_deposit (transferInfo : InscriptionBRC20TickInfo) (senderPkScript : string)
    (data meta : InscriptionBRC20Data) : GoM BRC20ModuleSwapInfo unit :=
  let amt := TickInfo.Amount transferInfo in
  mod_history (NewBRC20ModuleHistory true BRC20_HISTORY_TYPE_N_TRANSFER meta data NoData true) ;;
  moduleTokenBalance ← Module_GetUserTokenBalance (TickInfo.Tick transferInfo) senderPkScript;
  b ← mod_load moduleTokenBalance;
  safe ← (if 0 <? Data.BlockTime data then lift (Add (MBal.SwapAccountBalanceSafe b) amt)
          else mret (MBal.SwapAccountBalanceSafe b));
  swap ← lift (Add (MBal.SwapAccountBalance b) amt);
  mod_store moduleTokenBalance (λ b, b <| MBal.UpdateHeight := Data.Height data |>
    <| MBal.SwapAccountBalanceSafe := safe |> <| MBal.SwapAccountBalance := swap |>) ;;
  update_state_balance (TickInfo.Tick transferInfo) (λ s,
    d ← Add (CondBal.BalanceDeposite s) amt; Ret (s <| CondBal.BalanceDeposite := d |>)).

(** After the balances: conditional approves and module deposit. *)
Definition transfer_modules (uniqueLowerTicker : string)
    (transferInfo : InscriptionBRC20TickInfo) (senderPkScript receiverPkScript : string)
    (data : InscriptionBRC20Data) : Idx unit :=
  enter_global_tx (Data.TxId data) ;;
  when (Data.Height data <? Conf.ENABLE_SWAP_WITHDRAW_HEIGHT conf)
    (meta ← deref (TickInfo.Meta transferInfo);
     events ← GenerateApproveEventsByTransfer (GetInscriptionId meta) (TickInfo.Tick transferInfo)
       senderPkScript receiverPkScript (TickInfo.Amount transferInfo);
     ProcessConditionalApproveEvents events) ;;
  match GetModuleFromScript (s2b receiverPkScript) with
  | None => mret tt
  | Some moduleId =>
    g ← get;
    match G.ModulesInfoMap g !! moduleId with
    | None => mret tt
    | Some _ =>
      meta ← deref (TickInfo.Meta transferInfo);
      on_module moduleId (module_deposit transferInfo senderPkScript data meta)
    end
  end.

(** The receiver's half: credit, burn, history. *)
Definition transfer_receive (uniqueLowerTicker : string) (transferInfo : InscriptionBRC20TickInfo)
    (receiverPkScript : string) (data : InscriptionBRC20Data) : Idx unit :=
  let amt := TickInfo.Amount transferInfo in
  g ← get;
  tokenBalance ← GetUserTokenBalance (TickInfo.Tick transferInfo) receiverPkScript;
  b ← load_balance tokenBalance;
  b ← lift (credit data amt (b <| Bal.UpdateHeight := Data.Height data |>));
  store_balance tokenBalance b ;;
  (if is_burn receiverPkScript then
     g ← get;
     tokenInfo ← deref (G.InscriptionsTickerInfoMap g !! uniqueLowerTicker);
     burned ← lift (Add (TickInfo.Burned (TokenInfo.Deploy tokenInfo)) amt);
     update_deploy uniqueLowerTicker (λ t, t <| TickInfo.Burned := burned |>)
   else mret tt) ;;
  when (G.EnableHistory g)
    (move_history false true transferInfo tokenBalance receiverPkScript data).

(** A valid transfer inscription moves from sender to receiver. *)
Definition transfer_apply (uniqueLowerTicker : string) (transferInfo : InscriptionBRC20TickInfo)
    (fromTokenBalance : loc) (senderPkScript receiverPkScript : string)
    (data : InscriptionBRC20Data) : Idx unit :=
  from ← load_balance fromTokenBalance;
  from ← lift (unlock_transfer (Data.CreateIdxKey data) (TickInfo.Amount transferInfo) from);
  store_balance fromTokenBalance from ;;
  g ← get;
  when (G.EnableHistory g)
    (move_history true true transferInfo fromTokenBalance senderPkScript data) ;;
  transfer_receive uniqueLowerTicker transferInfo receiverPkScript data.

Definition ProcessTransfer (data : InscriptionBRC20Data) (transferInfo : InscriptionBRC20TickInfo)
    (isInvalid : bool) : Idx unit :=
  let uniqueLowerTicker := ToLower (TickInfo.Tick transferInfo) in
  g ← get;
  match G.InscriptionsTickerInfoMap g !! uniqueLowerTicker with
  | None => throw "transfer, invalid ticker"
  | Some tokenInfo =>
    let senderPkScript := TickInfo.PkScript transferInfo in
    let receiverPkScript := if Data.Satoshi data =? 0 then senderPkScript else Data.PkScript data in
    let data := if Data.Satoshi data =? 0 then data <| Data.PkScript := senderPkScript |> else data in
    when (G.EnableHistory g) (transfer_history uniqueLowerTicker isInvalid transferInfo data) ;;
    match G.UserTokensBalanceData g !! senderPkScript with
    | None => throw "transfer, invalid from data"
    | Some fromUserTokens =>
      match fromUserTokens !! uniqueLowerTicker with
      | None => throw "transfer, invalid from balance"
      | Some fromTokenBalance =>
        update_balance fromTokenBalance (λ b, b <| Bal.UpdateHeight := Data.Height data |>) ;;
        if isInvalid then
          when (G.EnableHistory g)
            (move_history true false transferInfo fromTokenBalance senderPkScript data)
        else
          from ← load_balance fromTokenBalance;
          if bool_decide (Bal.ValidTransferMap from !! Data.CreateIdxKey data = None)
          then throw "transfer, invalid transfer"
          else
            transfer_apply uniqueLowerTicker transferInfo fromTokenBalance
              senderPkScript receiverPkScript data ;;
            if TickInfo.SelfMint (TokenInfo.Deploy tokenInfo) then mret tt
            else transfer_modules uniqueLowerTicker transferInfo senderPkScript receiverPkScript data
      end
    end
  end.

End ledger.
