(* ===== verification/EarlyErrors.v ===== *)
(** * Inscriptions of the ledger that fail

    A deploy, mint or transfer inscription fails before its handler writes anything, or
    not at all. *)
From S2P Require Import Prelude GoStd Decimal Script Utils Json Model History Swap Indexer CondApprove Ledger.

(** ** Operations that cannot fail *)
Ltac noerr :=
  repeat first
    [ progress intros
    | solve [eauto with noerr]
    | apply never_fails_bind
    | apply no_error_bind
    | case_match ].

Lemma precisionFactor_no_error p : no_error (precisionFactor p).
Proof. unfold precisionFactor. noerr. Qed.
#[export] Hint Resolve precisionFactor_no_error : noerr.
Lemma Decimal_String_no_error d : no_error (Decimal_String d).
Proof. unfold Decimal_String. cbv zeta. noerr. Qed.
#[export] Hint Resolve Decimal_String_no_error : noerr.

Section marshal.
Lemma put_bytes_never_fails bs : never_fails (put_bytes bs).
Proof. intros s e. unfold put_bytes. by case_match. Qed.
Lemma put_vlq_never_fails n : never_fails (put_vlq n).
Proof. intros s e. unfold put_vlq, PutVLQ. by case_match; repeat case_match; simplify_eq. Qed.
Lemma put_script_never_fails s : never_fails (put_script s).
Proof.
  intros out e. unfold put_script. destruct (PutCompressedScript _ _) as [[b n]|e'|p] eqn:E; [by case_match| |done].
  by apply PutCompressedScript_no_error in E.
Qed.
Hint Resolve put_bytes_never_fails put_vlq_never_fails put_script_never_fails : noerr.
Lemma put_text_never_fails limit s : never_fails (put_text limit s).
Proof. unfold put_text. noerr. Qed.
Hint Resolve put_text_never_fails : noerr.
Lemma put_info_never_fails data : never_fails (put_info data).
Proof. unfold put_info. noerr. Qed.
Hint Resolve put_info_never_fails : noerr.
Lemma Marshal_no_error h : no_error (Marshal h).
Proof.
  assert (never_fails (Marshal_go h)) as Hm by (unfold Marshal_go; noerr).
  intros e E. unfold Marshal in E. destruct (Marshal_go h []) as [[]] eqn:Eg; try done.
  apply (Hm [] e). rewrite Eg. by injection E as ->.
Qed.
End marshal.
#[export] Hint Resolve Marshal_no_error : noerr.

Section handlers.
Context `{GoUnicode, MapOrder, Config}.

Lemma NewBRC20History_no_error ty v tr from bal to : no_error (NewBRC20History ty v tr from bal to).
Proof. unfold NewBRC20History, OverallBalance. cbv zeta. noerr. Qed.
Hint Resolve NewBRC20History_no_error : noerr.
Lemma load_balance_never_fails l : never_fails (load_balance l).
Proof. unfold load_balance. noerr. Qed.
Lemma store_balance_never_fails l b : never_fails (store_balance l b).
Proof. unfold store_balance. noerr. Qed.
Hint Resolve load_balance_never_fails store_balance_never_fails : noerr.
Lemma update_balance_never_fails l f : never_fails (update_balance l f).
Proof. unfold update_balance. noerr. Qed.
Lemma update_token_never_fails t f : never_fails (update_token t f).
Proof. unfold update_token. noerr. Qed.
Lemma alloc_balance_never_fails b : never_fails (alloc_balance b).
Proof. unfold alloc_balance. noerr. Qed.
Hint Resolve update_balance_never_fails update_token_never_fails alloc_balance_never_fails : noerr.
Lemma find_or_new_balance_never_fails t ticker a : never_fails (find_or_new_balance t ticker a).
Proof. unfold find_or_new_balance. cbv zeta. noerr. Qed.
Lemma set_token_user_never_fails t a l : never_fails (set_token_user t a l).
Proof. unfold set_token_user. noerr. Qed.
Hint Resolve find_or_new_balance_never_fails set_token_user_never_fails : noerr.
Lemma GetUserTokenBalance_never_fails ticker a : never_fails (GetUserTokenBalance ticker a).
Proof. unfold GetUserTokenBalance. cbv zeta. noerr. Qed.
Lemma UpdateHistory_never_fails h : never_fails (UpdateHistoryHeightAndGetHistoryIndex h).
Proof. unfold UpdateHistoryHeightAndGetHistoryIndex. cbv zeta. noerr. Qed.
Hint Resolve GetUserTokenBalance_never_fails UpdateHistory_never_fails : noerr.
Lemma new_history_never_fails ty v tr from bal to : never_fails (new_history ty v tr from bal to).
Proof. unfold new_history. noerr. Qed.
Lemma add_user_history_never_fails a h : never_fails (add_user_history a h).
Proof. unfold add_user_history. noerr. Qed.
Lemma add_all_history_never_fails h : never_fails (add_all_history h).
Proof. unfold add_all_history. noerr. Qed.
Lemma deref_never_fails {A} (o : option A) : never_fails (deref o).
Proof. unfold deref. noerr. Qed.
Hint Resolve new_history_never_fails add_user_history_never_fails add_all_history_never_fails
  deref_never_fails : noerr.
Lemma when_never_fails b (m : Idx unit) : never_fails m → never_fails (when b m).
Proof. destruct b; [done|]. intros _. apply never_fails_ret. Qed.
Hint Resolve when_never_fails : noerr.

Lemma mint_amount_no_error i amt : no_error (mint_amount i amt).
Proof. unfold mint_amount. noerr. Qed.
Lemma mint_tinfo_no_error now data m i : no_error (mint_tinfo now data m i).
Proof. unfold mint_tinfo, deref_ptr. cbv zeta. noerr. Qed.
Lemma credit_no_error data amt b : no_error (credit data amt b).
Proof. unfold credit. noerr. Qed.
Lemma lock_transfer_no_error k i b : no_error (lock_transfer k i b).
Proof. unfold lock_transfer. cbv zeta. noerr. Qed.
Hint Resolve mint_amount_no_error mint_tinfo_no_error credit_no_error lock_transfer_no_error : noerr.
Lemma mint_history_never_fails t v i l data : never_fails (mint_history t v i l data).
Proof. unfold mint_history. noerr. Qed.
Lemma inscribe_transfer_history_never_fails t v i l data : never_fails (inscribe_transfer_history t v i l data).
Proof. unfold inscribe_transfer_history. noerr. Qed.
Hint Resolve mint_history_never_fails inscribe_transfer_history_never_fails : noerr.
Lemma mint_apply_never_fails now t x body amt data : never_fails (mint_apply now t x body amt data).
Proof. unfold mint_apply, mint_valid. cbv zeta. noerr. Qed.
Lemma inscribe_transfer_apply_never_fails t x body amt data :
  never_fails (inscribe_transfer_apply t x body amt data).
Proof. unfold inscribe_transfer_apply. cbv zeta. noerr. Qed.
Lemma deploy_register_never_fails t i data : never_fails (deploy_register t i data).
Proof. unfold deploy_register, when, add_user_history, add_all_history. cbv zeta. noerr. Qed.

(** ** Failing before the first write *)
Definition fails_early {A} (m : Idx A) : Prop := ∀ g, holds m g (λ _ _, True) (eq g).
Lemma fails_early_never {A} (m : Idx A) : never_fails m → fails_early m.
Proof. intros Hm g. specialize (Hm g). unfold holds. destruct (m g) as [[a|e|w] g']; [done|by destruct (Hm e)|done]. Qed.
Lemma fails_early_ret {A} (a : A) : fails_early (mret a).
Proof. done. Qed.
Lemma fails_early_throw {A} e : fails_early (@throw _ A e).
Proof. done. Qed.
Lemma fails_early_gopanic {A} e : fails_early (@gopanic _ A e).
Proof. done. Qed.
Lemma fails_early_lift {A} (o : outcome A) : fails_early (lift o).
Proof. intros g. by apply holds_lift. Qed.
Lemma fails_early_get {A} (k : BRC20ModuleIndexer → Idx A) : (∀ g, fails_early (k g)) → fails_early (get ≫= k).
Proof. intros Hk g. apply holds_bind, holds_get, Hk. Qed.
Lemma fails_early_bind {A B} (o : outcome A) (k : A → Idx B) :
  (∀ a, fails_early (k a)) → fails_early (lift o ≫= k).
Proof. intros Hk g. apply holds_bind, holds_lift; [intros a _; apply Hk|done]. Qed.
Lemma fails_early_pure {A B} (b : bool) (a : A) (o : outcome A) (k : A → Idx B) :
  (∀ a, fails_early (k a)) → fails_early ((if b then mret a else lift o) ≫= k).
Proof. intros Hk. destruct b; [apply Hk|by apply fails_early_bind]. Qed.
Ltac early :=
  intros;
  lazymatch goal with
  | |- fails_early (mret _) => apply fails_early_ret
  | |- fails_early (throw _) => apply fails_early_throw
  | |- fails_early (gopanic _) => apply fails_early_gopanic
  | |- fails_early (get ≫= _) => apply fails_early_get; early
  | |- fails_early ((if _ then mret _ else lift _) ≫= _) => apply fails_early_pure; early
  | |- fails_early (lift _ ≫= _) => apply fails_early_bind; early
  | |- fails_early (match ?x with _ => _ end) => destruct x; early
  | _ => solve [auto]
  end.
Lemma ProcessDeploy_early data : fails_early (ProcessDeploy data).
Proof.
  assert (∀ t i, fails_early (deploy_register t i data)) by (intros; apply fails_early_never, deploy_register_never_fails).
  unfold ProcessDeploy. cbv zeta. early.
Qed.
Lemma ProcessMint_early now data : fails_early (ProcessMint now data).
Proof.
  assert (∀ t x body amt, fails_early (mint_apply now t x body amt data))
    by (intros; apply fails_early_never, mint_apply_never_fails).
  unfold ProcessMint. cbv zeta. early.
Qed.
Lemma ProcessInscribeTransfer_early data : fails_early (ProcessInscribeTransfer data).
Proof.
  assert (∀ t x body amt, fails_early (inscribe_transfer_apply t x body amt data))
    by (intros; apply fails_early_never, inscribe_transfer_apply_never_fails).
  unfold ProcessInscribeTransfer. cbv zeta. early.
Qed.
End handlers.
