(* ===== verification/LedgerSpec.v ===== *)
(** * Abstract specification of the token ledger

    What the handlers of file Ledger promise, on integers: no heap, no history, no
    [Decimal] pointers.  A ledger holds the deployed tickers, for every ticker and
    holder an available amount and the amounts locked in live transfer inscriptions,
    and which ticker and holder every transfer inscription belongs to.  File
    LedgerProof shows that the handlers implement it. *)
From S2P Require Import Prelude GoStd Decimal Script Utils Json Model History Swap Indexer CondApprove Ledger.

(** A ticker; [Parent] is the inscription a self mint must name. *)
Module ATok.
Record AToken := mk {
    Ticker : string;
    Decimals : Z;
    Max : Z;
    Limit : Z;
    Parent : option string;
    Minted : Z;
  }.
#[global] Instance eta : EtaRecord AToken := λ r,
    mk (Ticker r) (Decimals r) (Max r) (Limit r) (Parent r) (Minted r).
#[global] Instance eq_dec : EqDecision AToken.
Proof. solve_decision. Defined.
End ATok.
Abbreviation AToken := ATok.AToken.

(** A holding: available amount and live transfers by key. *)
Module ABal.
Record ABalance := mk {
    Avail : Z;
    Pending : gmap string Z;
  }.
#[global] Instance eta : EtaRecord ABalance := λ r,
    mk (Avail r) (Pending r).
#[global] Instance eq_dec : EqDecision ABalance.
Proof. solve_decision. Defined.
End ABal.
Abbreviation ABalance := ABal.ABalance.

(** The ledger; balances are keyed by lower-case ticker and holder. *)
Module AL.
Record ALedger := mk {
    Tokens : gmap string AToken;
    Bals : gmap (string * string) ABalance;
    Transfers : gmap string (string * string);
  }.
#[global] Instance eta : EtaRecord ALedger := λ r,
    mk (Tokens r) (Bals r) (Transfers r).
#[global] Instance eq_dec : EqDecision ALedger.
Proof. solve_decision. Defined.
End AL.
Abbreviation ALedger := AL.ALedger.

Definition no_balance : ABalance := ABal.mk 0 ∅.
Definition empty_ledger : ALedger := AL.mk ∅ ∅ ∅.

Definition abal (L : ALedger) (t a : string) : ABalance := default no_balance (AL.Bals L !! (t, a)).
Definition set_abal (t a : string) (b : ABalance) (L : ALedger) : ALedger :=
  L <| AL.Bals ::= <[(t, a) := b]> |>.

(** ** Operations *)
Section spec_ops.
Context `{GoUnicode, Config}.

Definition parse_amount (s : string) (p : Z) : option Z :=
  match NewDecimalFromString s p with Ret d => Some (Val d) | _ => None end.

Definition max_units (p : Z) : Z := max_uint64 * 10 ^ p.

(** A maximum or limit in range; 0 stands for the largest amount of a self mint. *)
Definition deploy_amount (selfMint : bool) (s : string) (p : Z) : option Z :=
  v ← parse_amount s p;
  if (v <? 0) || (max_units p <? v) then None
  else if v =? 0 then if selfMint then Some (max_units p) else None
  else Some v.

Definition ok {A} (o : outcome A) : option A := match o with Ret a => Some a | _ => None end.

Definition deploy_request (data : InscriptionBRC20Data) : option (string * AToken) :=
  body ← ok (Unmarshal_Deploy (Data.ContentBody data));
  let tick := DeployBody.BRC20Tick body in
  t ← ok (GetValidUniqueLowerTickerTicker tick);
  if negb (deploy_tick_ok body data t) then None
  else if bool_decide (DeployBody.BRC20Max body = "") then None
  else
    let selfMint := (len tick =? 5) && bool_decide (DeployBody.BRC20SelfMint body = "true") in
    p ← ParseUint 64 (DeployBody.BRC20Decimal body);
    if 18 <? p then None
    else
      max ← deploy_amount selfMint (DeployBody.BRC20Max body) p;
      lim ← deploy_amount selfMint (DeployBody.BRC20Limit body) p;
      Some (t, ATok.mk tick p max lim
        (if selfMint then Some (inscription_id (HashString (s2b (Data.TxId data))) (Data.Idx data))
         else None) 0).

Definition a_deploy (data : InscriptionBRC20Data) (L : ALedger) : ALedger :=
  match deploy_request data with
  | Some (t, tok) =>
    match AL.Tokens L !! t with
    | Some _ => L
    | None => L <| AL.Tokens ::= <[t := tok]> |>
    end
  | None => L
  end.

(** Ticker, token and positive amount an inscription asks for. *)
Definition amount_request (data : InscriptionBRC20Data) (L : ALedger)
    : option (string * AToken * Z) :=
  body ← ok (Unmarshal_MintTransfer (Data.ContentBody data));
  t ← ok (GetValidUniqueLowerTickerTicker (MintBody.BRC20Tick body));
  tok ← AL.Tokens L !! t;
  amt ← parse_amount (MintBody.BRC20Amount body) (ATok.Decimals tok);
  if amt <=? 0 then None else Some (t, tok, amt).

Definition parent_ok (data : InscriptionBRC20Data) (tok : AToken) : bool :=
  match ATok.Parent tok with
  | Some id => bool_decide (DecodeInscriptionFromBin (Data.Parent data) = id)
  | None => true
  end.

(** Mint what is left of the supply, at most [amt]. *)
Definition mint_step (t a : string) (tok : AToken) (amt : Z) (L : ALedger) : ALedger :=
  let m := Z.min amt (ATok.Max tok - ATok.Minted tok) in
  set_abal t a (abal L t a <| ABal.Avail ::= Z.add m |>)
    (L <| AL.Tokens ::= <[t := tok <| ATok.Minted ::= Z.add m |>]> |>).
Definition a_mint (data : InscriptionBRC20Data) (L : ALedger) : ALedger :=
  match amount_request data L with
  | Some (t, tok, amt) =>
    if negb (parent_ok data tok) || (ATok.Limit tok <? amt) ||
       (ATok.Max tok <=? ATok.Minted tok) then L
    else mint_step t (Data.PkScript data) tok amt L
  | None => L
  end.

(** Lock an available amount in a transfer inscription. *)
Definition lock_step (t a key : string) (amt : Z) (L : ALedger) : ALedger :=
  set_abal t a (abal L t a <| ABal.Avail ::= λ v, v - amt |> <| ABal.Pending ::= <[key := amt]> |>)
    (L <| AL.Transfers ::= <[key := (t, a)]> |>).
Definition a_inscribe_transfer (data : InscriptionBRC20Data) (L : ALedger) : ALedger :=
  match amount_request data L with
  | Some (t, tok, amt) =>
    if (ATok.Max tok <? amt) || (ABal.Avail (abal L t (Data.PkScript data)) <? amt) then L
    else lock_step t (Data.PkScript data) (Data.CreateIdxKey data) amt L
  | None => L
  end.

(** A live transfer inscription pays its receiver. *)
Definition move_step (t sender receiver key : string) (amt : Z) (L : ALedger) : ALedger :=
  let L := set_abal t sender (abal L t sender <| ABal.Pending ::= delete key |>) L in
  set_abal t receiver (abal L t receiver <| ABal.Avail ::= Z.add amt |>) L.
Definition a_transfer (data : InscriptionBRC20Data) (L : ALedger) : ALedger :=
  let key := Data.CreateIdxKey data in
  match AL.Transfers L !! key with
  | Some (t, sender) =>
    match ABal.Pending (abal L t sender) !! key with
    | Some amt =>
      let receiver := if Data.Satoshi data =? 0 then sender else Data.PkScript data in
      move_step t sender receiver key amt L
    | None => L
    end
  | None => L
  end.
End spec_ops.

(** ** Invariant *)

(** Everything held: available and locked. *)
Definition locked (b : ABalance) : Z := msum (λ _ v, v) (ABal.Pending b).
Definition holding (b : ABalance) : Z := ABal.Avail b + locked b.
Definition supply (L : ALedger) (t : string) : Z :=
  msum (λ (ta : string * string) b, if bool_decide (ta.1 = t) then holding b else 0) (AL.Bals L).

Record ledger_inv (L : ALedger) : Prop := {
  inv_minted t tok : AL.Tokens L !! t = Some tok → 0 ≤ ATok.Minted tok ≤ ATok.Max tok;
  inv_avail t a : 0 ≤ ABal.Avail (abal L t a);
  inv_pending t a k v : ABal.Pending (abal L t a) !! k = Some v → 0 < v;
  inv_transfers t a k v : ABal.Pending (abal L t a) !! k = Some v → AL.Transfers L !! k = Some (t, a);
  inv_known t a : AL.Tokens L !! t = None → AL.Bals L !! (t, a) = None;
  inv_supply t tok : AL.Tokens L !! t = Some tok → supply L t = ATok.Minted tok;
}.

Lemma holding_no_balance : holding no_balance = 0.
Proof. done. Qed.

Lemma abal_set t a b L t' a' :
  abal (set_abal t a b L) t' a' = if bool_decide (t = t' ∧ a = a') then b else abal L t' a'.
Proof.
  unfold abal, set_abal. rsimpl. case_bool_decide as E.
  - destruct E as [-> ->]. by rewrite lookup_insert_eq.
  - rewrite lookup_insert_ne; [done|]. naive_solver.
Qed.
Lemma abal_set_eq t a b L : abal (set_abal t a b L) t a = b.
Proof. rewrite abal_set. by rewrite bool_decide_eq_true_2. Qed.

Lemma supply_set t a b L t' :
  supply (set_abal t a b L) t' =
    supply L t' + (if bool_decide (t = t') then holding b - holding (abal L t a) else 0).
Proof.
  unfold supply, set_abal, abal. rsimpl. destruct (AL.Bals L !! (t, a)) as [b0|] eqn:E.
  - erewrite msum_insert by done. simpl. case_bool_decide; lia.
  - rewrite msum_insert_new by done. simpl. rewrite holding_no_balance.
    case_bool_decide; lia.
Qed.

Lemma locked_insert b k v :
  ABal.Pending b !! k = None → locked (b <| ABal.Pending ::= <[k := v]> |>) = locked b + v.
Proof. intros Hk. unfold locked. rsimpl. rewrite msum_insert_new by done. lia. Qed.
Lemma locked_delete b k v :
  ABal.Pending b !! k = Some v → locked (b <| ABal.Pending ::= delete k |>) = locked b - v.
Proof. intros Hk. unfold locked. rsimpl. by erewrite msum_delete by done. Qed.
Lemma locked_nonneg b : (∀ k v, ABal.Pending b !! k = Some v → 0 < v) → 0 ≤ locked b.
Proof. intros Hb. apply msum_nonneg. intros k v Hk. specialize (Hb _ _ Hk). lia. Qed.

(** ** Every operation preserves the invariant *)
Lemma empty_ledger_inv : ledger_inv empty_ledger.
Proof. split; cbn; intros; simplify_map_eq/=; try done. Qed.

Lemma supply_unknown L t :
  (∀ a, AL.Bals L !! (t, a) = None) → supply L t = 0.
Proof.
  intros Hn. apply msum_zero. intros [t' a] b Hb. simpl. case_bool_decide as E; [|done].
  subst. by rewrite Hn in Hb.
Qed.

(** Parts of the ledger an operation leaves alone. *)
Lemma abal_tokens f L t a : abal (L <| AL.Tokens ::= f |>) t a = abal L t a.
Proof. done. Qed.
Lemma abal_transfers f L t a : abal (L <| AL.Transfers ::= f |>) t a = abal L t a.
Proof. done. Qed.
Lemma supply_tokens f L t : supply (L <| AL.Tokens ::= f |>) t = supply L t.
Proof. done. Qed.
Lemma supply_transfers f L t : supply (L <| AL.Transfers ::= f |>) t = supply L t.
Proof. done. Qed.
Lemma tokens_set t a b L : AL.Tokens (set_abal t a b L) = AL.Tokens L.
Proof. done. Qed.
Lemma transfers_set t a b L : AL.Transfers (set_abal t a b L) = AL.Transfers L.
Proof. done. Qed.
Lemma bals_set t a b L : AL.Bals (set_abal t a b L) = <[(t, a) := b]> (AL.Bals L).
Proof. done. Qed.
Create Rewrite HintDb ledger.
#[export] Hint Rewrite abal_tokens abal_transfers supply_tokens supply_transfers tokens_set
  transfers_set bals_set supply_set abal_set : ledger.

(** Writing a balance of a known ticker. *)
Lemma set_abal_inv t a b L tok :
  ledger_inv L → AL.Tokens L !! t = Some tok → 0 ≤ ABal.Avail b →
  (∀ k v, ABal.Pending b !! k = Some v → 0 < v ∧ AL.Transfers L !! k = Some (t, a)) →
  holding b = holding (abal L t a) →
  ledger_inv (set_abal t a b L).
Proof.
  intros HL Ht Hav Hp Hh. split; intros t'; intros; autorewrite with ledger in *.
  - by apply (inv_minted _ HL t').
  - case_bool_decide; [done|apply (inv_avail _ HL)].
  - case_bool_decide; [by eapply Hp|by eapply (inv_pending _ HL)].
  - case_bool_decide as E; [destruct E as [-> ->]; by eapply Hp|by eapply (inv_transfers _ HL)].
  - rewrite lookup_insert_ne; [by apply (inv_known _ HL)|]. intros [= <- <-]. congruence.
  - rewrite (inv_supply _ HL _ _ H). case_bool_decide; lia.
Qed.

Section preservation.
Context `{GoUnicode, Config}.

Lemma max_units_nonneg p : 0 ≤ max_units p.
Proof. unfold max_units, max_uint64. pose proof (Z.pow_nonneg 10 p). lia. Qed.

Lemma deploy_amount_nonneg self s p v : deploy_amount self s p = Some v → 0 ≤ v ≤ max_units p.
Proof.
  unfold deploy_amount. intros (x & _ & Hx)%bind_Some. pose proof (max_units_nonneg p).
  destruct (Z.ltb_spec x 0); [done|]. destruct (Z.ltb_spec (max_units p) x); [done|].
  cbn [orb] in Hx. destruct (x =? 0); [destruct self; [|done]|]; injection Hx as <-; lia.
Qed.

Lemma deploy_request_ok data t tok :
  deploy_request data = Some (t, tok) →
  t = ToLower (ATok.Ticker tok) ∧ ATok.Minted tok = 0 ∧ 0 ≤ ATok.Max tok ∧ 0 ≤ ATok.Limit tok.
Proof.
  unfold deploy_request. intros (body & _ & H1)%bind_Some.
  apply bind_Some in H1 as (t' & Ht & H1). do 2 (case_match; [done|]).
  apply bind_Some in H1 as (p & _ & H1). case_match; [done|].
  apply bind_Some in H1 as (max & Hmax%deploy_amount_nonneg & H1).
  apply bind_Some in H1 as (lim & Hlim%deploy_amount_nonneg & H1).
  injection H1 as <- <-. cbn. split_and!; [|lia..].
  unfold GetValidUniqueLowerTickerTicker in Ht. by case_match; simplify_eq/=.
Qed.

Lemma a_deploy_inv data L : ledger_inv L → ledger_inv (a_deploy data L).
Proof.
  intros HL. unfold a_deploy. destruct (deploy_request data) as [[t tok]|] eqn:E; [|done].
  destruct (AL.Tokens L !! t) as [tok'|] eqn:Et; [done|].
  destruct (deploy_request_ok _ _ _ E) as (_ & Hm & Hx & _).
  split; intros t'; intros; autorewrite with ledger in *.
  - destruct (decide (t = t')) as [<-|]; rsimpl; simplify_map_eq; [lia|by eapply (inv_minted _ HL)].
  - apply (inv_avail _ HL).
  - by eapply (inv_pending _ HL).
  - by eapply (inv_transfers _ HL).
  - rsimpl. destruct (decide (t = t')) as [<-|]; simplify_map_eq. by apply (inv_known _ HL).
  - rsimpl. destruct (decide (t = t')) as [<-|]; simplify_map_eq; [|by apply (inv_supply _ HL)].
    rewrite Hm. apply supply_unknown. intros a. by apply (inv_known _ HL).
Qed.

Lemma amount_request_ok data L t tok amt :
  amount_request data L = Some (t, tok, amt) → AL.Tokens L !! t = Some tok ∧ 0 < amt.
Proof.
  unfold amount_request. intros (body & _ & H1)%bind_Some.
  apply bind_Some in H1 as (t' & _ & H1). apply bind_Some in H1 as (tok' & Ht & H1).
  apply bind_Some in H1 as (v & _ & H1). destruct (Z.leb_spec v 0); [done|].
  by injection H1 as <- <- <-.
Qed.

Lemma mint_step_inv t a tok amt L :
  ledger_inv L → AL.Tokens L !! t = Some tok → 0 < amt → ATok.Minted tok < ATok.Max tok →
  ledger_inv (mint_step t a tok amt L).
Proof.
  intros HL Ht Hamt Hlt. unfold mint_step. set (m := Z.min _ _).
  assert (0 < m ≤ ATok.Max tok - ATok.Minted tok) by (unfold m; lia).
  pose proof (inv_minted _ HL _ _ Ht).
  split; intros t'; intros; autorewrite with ledger in *; rsimpl.
  - destruct (decide (t = t')) as [<-|]; simplify_map_eq; [cbn; lia|by eapply (inv_minted _ HL)].
  - case_bool_decide; cbn; [|apply (inv_avail _ HL)].
    pose proof (inv_avail _ HL t a). lia.
  - case_bool_decide; cbn in *; by eapply (inv_pending _ HL).
  - case_bool_decide as E; cbn in *; [destruct E as [<- <-]|]; by eapply (inv_transfers _ HL).
  - destruct (decide (t = t')) as [<-|]; simplify_map_eq. rewrite lookup_insert_ne; [|congruence].
    by apply (inv_known _ HL).
  - unfold holding, locked. cbn. destruct (decide (t = t')) as [<-|]; simplify_map_eq.
    + rewrite bool_decide_eq_true_2 by done. cbn. rewrite (inv_supply _ HL _ _ Ht). lia.
    + rewrite bool_decide_eq_false_2 by done. rewrite Z.add_0_r. by apply (inv_supply _ HL).
Qed.

Lemma a_mint_inv data L : ledger_inv L → ledger_inv (a_mint data L).
Proof.
  intros HL. unfold a_mint. destruct (amount_request data L) as [[[t tok] amt]|] eqn:E; [|done].
  destruct (amount_request_ok _ _ _ _ _ E) as [Ht Hamt]. case_match eqn:Eb; [done|].
  apply orb_false_iff in Eb as [_ Hlt%Z.leb_gt]. by apply mint_step_inv.
Qed.

Lemma a_inscribe_transfer_inv data L :
  ledger_inv L → AL.Transfers L !! Data.CreateIdxKey data = None →
  ledger_inv (a_inscribe_transfer data L).
Proof.
  intros HL Hkey. unfold a_inscribe_transfer.
  destruct (amount_request data L) as [[[t tok] amt]|] eqn:E; [|done].
  destruct (amount_request_ok _ _ _ _ _ E) as [Ht Hamt]. case_match eqn:Eb; [done|].
  apply orb_false_iff in Eb as [_ Hav%Z.ltb_ge]. unfold lock_step.
  set (a := Data.PkScript data) in *. set (key := Data.CreateIdxKey data) in *.
  assert (ABal.Pending (abal L t a) !! key = None) as Hnew.
  { destruct (ABal.Pending (abal L t a) !! key) as [v|] eqn:Ep; [|done].
    apply (inv_transfers _ HL) in Ep. congruence. }
  assert (ledger_inv (L <| AL.Transfers ::= <[key := (t, a)]> |>)) as HL'.
  { split; intros t'; intros; autorewrite with ledger in *; rsimpl; try by eapply HL.
    rewrite lookup_insert_ne; [by apply (inv_transfers _ HL) in H1|].
    intros <-. apply (inv_transfers _ HL) in H1. congruence. }
  eapply set_abal_inv; [done|done|rsimpl; lia| |].
  - intros k v Hk. rsimpl. destruct (decide (k = key)) as [->|]; simplify_map_eq; [done|].
    split; [by eapply (inv_pending _ HL)|by eapply (inv_transfers _ HL)].
  - unfold holding. autorewrite with ledger.
    transitivity (ABal.Avail (abal L t a) - amt + (locked (abal L t a) + amt)); [|lia].
    f_equal. unfold locked. rsimpl. rewrite msum_insert_new by done. lia.
Qed.

Lemma move_step_inv t sender receiver key amt tok L :
  ledger_inv L → AL.Tokens L !! t = Some tok →
  ABal.Pending (abal L t sender) !! key = Some amt →
  ledger_inv (move_step t sender receiver key amt L).
Proof.
  intros HL Ht Hp. pose proof (inv_pending _ HL _ _ _ _ Hp) as Hamt. unfold move_step.
  set (L1 := set_abal t sender _ L).
  assert (∀ t a k v, ABal.Pending (abal L1 t a) !! k = Some v →
    ABal.Pending (abal L t a) !! k = Some v) as Hsub.
  { intros t' a k v. unfold L1. rewrite abal_set. case_bool_decide as E; [|done].
    destruct E as [<- <-]. rsimpl. by intros [_ ?]%lookup_delete_Some. }
  split; intros t'; intros.
  - by apply (inv_minted _ HL t').
  - rewrite !abal_set. unfold L1. rewrite !abal_set.
    repeat case_bool_decide; rsimpl; pose proof (inv_avail _ HL t' a);
      destruct_and?; simplify_eq; try pose proof (inv_avail _ HL t sender); lia.
  - rewrite abal_set in H1. case_bool_decide; rsimpl; apply Hsub in H1; by eapply (inv_pending _ HL).
  - rewrite abal_set in H1. case_bool_decide as E; rsimpl; [destruct E as [<- <-]|];
      apply Hsub in H1; by eapply (inv_transfers _ HL).
  - change (AL.Tokens L !! t' = None) in H1. assert (t ≠ t') by congruence.
    rewrite bals_set, lookup_insert_ne by congruence. unfold L1.
    rewrite bals_set, lookup_insert_ne by congruence. by apply (inv_known _ HL).
  - change (AL.Tokens L !! t' = Some tok0) in H1. rewrite supply_set. unfold L1 at 1.
    rewrite supply_set. rewrite (inv_supply _ HL _ _ H1). case_bool_decide; [|lia].
    unfold holding. pose proof (locked_delete _ _ _ Hp) as Hd.
    change (locked (abal L1 t receiver <| ABal.Avail ::= Z.add amt |>))
      with (locked (abal L1 t receiver)).
    change (ABal.Avail (abal L1 t receiver <| ABal.Avail ::= Z.add amt |>))
      with (amt + ABal.Avail (abal L1 t receiver)).
    rewrite Hd. rsimpl. lia.
Qed.

Lemma a_transfer_inv data L : ledger_inv L → ledger_inv (a_transfer data L).
Proof.
  intros HL. unfold a_transfer. destruct (AL.Transfers L !! _) as [[t sender]|]; [|done].
  destruct (ABal.Pending _ !! _) as [amt|] eqn:Ep; [|done].
  destruct (AL.Tokens L !! t) as [tok|] eqn:Et; [by eapply move_step_inv|].
  unfold abal in Ep. by rewrite (inv_known _ HL _ _ Et) in Ep.
Qed.
End preservation.
