(* ===== verification/LedgerFrame.v ===== *)
(** * What the ledger depends on, and what leaves it alone

    [core g] is the part of the indexer's state the abstract ledger is read from.
    Histories, the module state and conditional approves are not in it: the
    operations on them are frames, and records about small scripts never overflow
    the buffer they are printed to. *)
From S2P Require Import Prelude GoStd Decimal Script Utils Json Model History Swap Indexer CondApprove Ledger LedgerSpec.

(** ** The part of the state the ledger depends on *)
Definition bcore (b : BRC20TokenBalance) : BRC20TokenBalance :=
  Bal.mk 0 (Bal.Ticker b) (Bal.PkScript b) (Bal.AvailableBalance b) (Bal.AvailableBalanceSafe b)
    (Bal.TransferableBalance b) (Bal.ValidTransferMap b) [] [] [] [] [].
Definition tcore (t : BRC20TokenInfo) : string * InscriptionBRC20TickInfo :=
  (TokenInfo.Ticker t, TokenInfo.Deploy t).

Module C.
Record Core := mk {
    tickers : gmap string (string * InscriptionBRC20TickInfo);
    users : gmap string (gmap string loc);
    tokens : gmap string (gmap string loc);
    heap : gmap loc BRC20TokenBalance;
    valid : gmap string InscriptionBRC20TickInfo;
    invalid : gmap string InscriptionBRC20TickInfo;
  }.
#[global] Instance eta : EtaRecord Core := λ r,
    mk (tickers r) (users r) (tokens r) (heap r) (valid r) (invalid r).
End C.
Abbreviation Core := C.Core.

Definition core (g : BRC20ModuleIndexer) : Core :=
  C.mk (tcore <$> G.InscriptionsTickerInfoMap g) (G.UserTokensBalanceData g)
    (G.TokenUsersBalanceData g) (bcore <$> G.Balances g) (G.InscriptionsValidTransferMap g)
    (G.InscriptionsInvalidTransferMap g).

(** ** Frames *)
Definition preserves {A} (m : Idx A) : Prop := ∀ g, core (m g).2 = core g.

Section frames.
Context `{GoUnicode, MapOrder, Config}.

Lemma preserves_ret {A} (a : A) : preserves (mret a).
Proof. done. Qed.
Lemma preserves_lift {A} (o : outcome A) : preserves (lift o).
Proof. done. Qed.
Lemma preserves_get : preserves get.
Proof. done. Qed.
Lemma preserves_throw {A} e : preserves (@throw _ A e).
Proof. done. Qed.
Lemma preserves_gopanic {A} e : preserves (@gopanic _ A e).
Proof. done. Qed.
Lemma preserves_modify f : (∀ g, core (f g) = core g) → preserves (modify f).
Proof. intros Hf g. apply Hf. Qed.
Lemma preserves_bind {A B} (m : Idx A) (k : A → Idx B) :
  preserves m → (∀ a, preserves (k a)) → preserves (m ≫= k).
Proof.
  intros Hm Hk g. unfold mbind, GoM_bind. specialize (Hm g).
  destruct (m g) as [[a|e|p] g1]; simpl in *; [|done..]. by rewrite (Hk a g1).
Qed.
Lemma preserves_when b (m : Idx unit) : preserves m → preserves (when b m).
Proof. by destruct b. Qed.
Lemma preserves_for_each {A} (f : A → Idx unit) l :
  (∀ x, preserves (f x)) → preserves (for_each f l).
Proof.
  intros Hf. induction l as [|x l IH]; [apply preserves_ret|]. by apply preserves_bind.
Qed.
Lemma preserves_on_module {A} id (m : GoM BRC20ModuleSwapInfo A) : preserves (on_module id m).
Proof. intros g. unfold on_module. case_match; [|done]. by case_match. Qed.

Create HintDb frame.
Hint Resolve preserves_ret preserves_lift preserves_get preserves_throw preserves_gopanic
  preserves_when preserves_for_each preserves_on_module : frame.
Ltac frame :=
  repeat first
    [ progress intros
    | solve [eauto with frame]
    | apply preserves_bind
    | apply preserves_modify; intros; repeat case_bool_decide; reflexivity
    | apply preserves_when
    | apply preserves_for_each
    | case_match ].

Lemma load_cond_approve_frame l : preserves (load_cond_approve l).
Proof. unfold load_cond_approve. frame. Qed.
Hint Resolve load_cond_approve_frame : frame.
Lemma update_cond_approve_frame l f : preserves (update_cond_approve l f).
Proof. unfold update_cond_approve. frame. Qed.
Lemma load_transfer_state_frame l : preserves (load_transfer_state l).
Proof. unfold load_transfer_state. frame. Qed.
Lemma store_transfer_state_frame l t : preserves (store_transfer_state l t).
Proof. unfold store_transfer_state. frame. Qed.
Hint Resolve update_cond_approve_frame load_transfer_state_frame store_transfer_state_frame : frame.
Lemma alloc_transfer_state_frame t : preserves (alloc_transfer_state t).
Proof. unfold alloc_transfer_state. frame. Qed.
Lemma NewConditionalApproveEvent_frame s r a b d i t m :
  preserves (NewConditionalApproveEvent s r a b d i t m).
Proof. unfold NewConditionalApproveEvent. frame. Qed.
Hint Resolve alloc_transfer_state_frame NewConditionalApproveEvent_frame : frame.
Lemma match_approves_frame t b l : preserves (match_approves t b l).
Proof. revert b. induction l as [|x l IH]; intros b; cbn [match_approves]; frame. Qed.
Hint Resolve match_approves_frame : frame.
Lemma Module_GenerateApproveEventsByTransfer_frame id l :
  preserves (Module_GenerateApproveEventsByTransfer id l).
Proof. unfold Module_GenerateApproveEventsByTransfer. frame. Qed.
Lemma enter_tx_frame id : preserves (enter_tx id).
Proof. unfold enter_tx. frame. Qed.
Hint Resolve Module_GenerateApproveEventsByTransfer_frame enter_tx_frame : frame.
Lemma by_transfer_modules_frame t l : preserves (by_transfer_modules t l).
Proof. induction l as [|x l IH]; cbn [by_transfer_modules]; frame. Qed.
Hint Resolve by_transfer_modules_frame : frame.
Lemma GenerateApproveEventsByTransfer_frame i t f to a :
  preserves (GenerateApproveEventsByTransfer i t f to a).
Proof. unfold GenerateApproveEventsByTransfer. frame. Qed.
Lemma process_event_frame e : preserves (process_event e).
Proof. unfold process_event. frame. Qed.
Hint Resolve GenerateApproveEventsByTransfer_frame process_event_frame : frame.
Lemma ProcessConditionalApproveEvents_frame l : preserves (ProcessConditionalApproveEvents l).
Proof. unfold ProcessConditionalApproveEvents. frame. Qed.
Lemma enter_global_tx_frame t : preserves (enter_global_tx t).
Proof. unfold enter_global_tx. frame. Qed.
Hint Resolve ProcessConditionalApproveEvents_frame enter_global_tx_frame : frame.
Lemma deref_frame {A} (o : option A) : preserves (deref o).
Proof. unfold deref. frame. Qed.
Hint Resolve deref_frame : frame.
Lemma transfer_modules_frame t i s r d : preserves (transfer_modules t i s r d).
Proof. unfold transfer_modules. frame. Qed.
End frames.

(** ** Sizes that make a history record fit its buffer *)
Definition script_small (s : string) : Prop :=
  len s < 2 ^ 61 ∧ compressedScriptSize (s2b s) ≤ 238.
Definition data_ok (d : InscriptionBRC20Data) : Prop :=
  len (Data.TxId d) = 32 ∧ u32_ok (Data.Idx d) ∧ u32_ok (Data.Vout d) ∧ u64_ok (Data.Offset d) ∧
  u64_ok (Data.Satoshi d) ∧ i64_ok (Data.Fee d) ∧ u32_ok (Data.Height d) ∧
  u32_ok (Data.TxIdx d) ∧ u32_ok (Data.BlockTime d) ∧ script_small (Data.PkScript d).
Definition info_small (i : InscriptionBRC20TickInfo) : Prop :=
  len (TickInfo.TxId i) = 32 ∧ u32_ok (TickInfo.Idx i) ∧ u32_ok (TickInfo.Vout i) ∧
  u64_ok (TickInfo.Offset i) ∧ u64_ok (TickInfo.Satoshi i) ∧ u32_ok (TickInfo.Height i) ∧
  script_small (TickInfo.PkScript i) ∧ ∃ p, 0 ≤ p ≤ 18 ∧ dec_ok p (TickInfo.Amount i).

Lemma Decimal_String_ok p d : 0 ≤ p ≤ 18 → dec_ok p d → ∃ s, Decimal_String d = Ret s.
Proof.
  intros Hp Hd. destruct d as [[q v]|]; [|by eexists]. simpl in Hd. subst q.
  unfold Decimal_String. cbn [Val Precition]. rewrite precisionFactor_ok by done.
  unfold mbind, outcome_bind. case_match; eauto.
Qed.

Lemma script_small_empty : script_small "".
Proof. split; [change "" with (b2s []); by rewrite len_b2s|by vm_compute]. Qed.

Lemma u32_u64_ok n : u32_ok n → u64_ok n.
Proof. apply u32_u64. Qed.

Lemma history_base_ok ty valid tr from to :
  0 ≤ ty < 256 → info_small from → data_ok to →
  base_ok (history_of ty valid tr from to) ∧
  compressedScriptSize (s2b (HBase.PkScriptFrom (history_of ty valid tr from to))) +
    compressedScriptSize (s2b (HBase.PkScriptTo (history_of ty valid tr from to))) ≤ 476.
Proof.
  intros Hty (?&?&?&?&?&?&[? ?]&_) (?&?&?&?&?&?&?&?&?&[? ?]).
  pose proof script_small_empty as [? ?].
  unfold base_ok. destruct tr; unfold history_of;
    cbn [HBase.Type_ HBase.Valid HBase.TxId HBase.Idx HBase.Vout HBase.Offset HBase.PkScriptFrom
      HBase.PkScriptTo HBase.Satoshi HBase.Fee HBase.Height HBase.TxIdx HBase.BlockTime].
  - split; [|case_match; lia]. split_and!; try done; try lia; case_match; done.
  - split; [|lia]. split_and!; try done; lia.
Qed.

Section proofs.
Context `{GoUnicode, MapOrder, Config}.

Lemma NewBRC20History_ok ty valid tr from bal to p :
  0 ≤ ty < 256 → info_small from → data_ok to → 0 ≤ p ≤ 18 →
  (∀ b, bal = Some b → dec_ok p (Bal.AvailableBalance b) ∧ dec_ok p (Bal.TransferableBalance b)) →
  ∃ h buf, NewBRC20History ty valid tr from bal to = Ret h ∧ Marshal h = Ret buf.
Proof.
  intros Hty Hfrom Hto Hp Hbal.
  destruct (history_base_ok ty valid tr from to Hty Hfrom Hto) as [Hbase Hscripts].
  destruct Hfrom as (?&?&?&?&?&?&?&q&?&?).
  assert (∀ h, Hist.Base h = history_of ty valid tr from to →
    TickInfoResp.Height (Hist.Inscription h) = TickInfo.Height from →
    TickInfoResp.Satoshi (Hist.Inscription h) = TickInfo.Satoshi from →
    ∃ buf, Marshal h = Ret buf) as Hmar.
  { intros h Eb Eh Es. apply Marshal_small; rewrite ?Eb, ?Eh, ?Es; done. }
  unfold NewBRC20History. destruct (Decimal_String_ok q (TickInfo.Amount from)) as [s ->]; [done..|].
  unfold mbind, outcome_bind. destruct bal as [b|].
  - destruct (Hbal b eq_refl) as [Ha Ht]. unfold OverallBalance.
    rewrite (Add_ok p) by done.
    destruct (Decimal_String_ok p (dadd (Bal.AvailableBalance b) (Bal.TransferableBalance b)))
      as [s1 ->]; [done|auto with dec|].
    destruct (Decimal_String_ok p (Bal.TransferableBalance b)) as [s2 ->]; [done..|].
    destruct (Decimal_String_ok p (Bal.AvailableBalance b)) as [s3 ->]; [done..|].
    eexists. destruct (Hmar (Hist.mk (history_of ty valid tr from to) (TickInfoResp.mk
      (TickInfo.Height from) (TickInfo.Data from) (TickInfo.InscriptionNumber from)
      (TickInfo_GetInscriptionId from) (TickInfo.Satoshi from)) s s1 s2 s3)) as [buf Hbuf]; [done..|].
    by exists buf.
  - eexists. destruct (Hmar (Hist.mk (history_of ty valid tr from to) (TickInfoResp.mk
      (TickInfo.Height from) (TickInfo.Data from) (TickInfo.InscriptionNumber from)
      (TickInfo_GetInscriptionId from) (TickInfo.Satoshi from)) s "0" "0" "0")) as [buf Hbuf]; [done..|].
    by exists buf.
Qed.

(** [m] returns and leaves the ledger part of the state, and the switch for
    histories, as they are. *)
Definition frames (m : Idx unit) (g : BRC20ModuleIndexer) : Prop :=
  returns m g (λ _ g', core g' = core g).

Lemma UpdateHistory_returns h buf g :
  Marshal h = Ret buf →
  returns (UpdateHistoryHeightAndGetHistoryIndex h) g
    (λ n g', core g' = core g ∧ n = G.HistoryCount g).
Proof.
  intros Hh. unfold UpdateHistoryHeightAndGetHistoryIndex.
  apply returns_bind, returns_get. cbv zeta. apply returns_bind. eapply returns_lift; [done|].
  apply returns_bind, returns_modify. case_match; [by apply returns_ret|].
  apply returns_bind, returns_modify, returns_ret. done.
Qed.

Lemma new_history_returns ty valid tr from bal to p g :
  0 ≤ ty < 256 → info_small from → data_ok to → 0 ≤ p ≤ 18 →
  (∀ b, bal = Some b → dec_ok p (Bal.AvailableBalance b) ∧ dec_ok p (Bal.TransferableBalance b)) →
  returns (new_history ty valid tr from bal to) g (λ _ g', core g' = core g).
Proof.
  intros. destruct (NewBRC20History_ok ty valid tr from bal to p) as (h & buf & Eh & Eb); [done..|].
  unfold new_history. apply returns_bind. eapply returns_lift; [done|].
  eapply returns_mono; [by eapply UpdateHistory_returns|]. by intros ?? [? _].
Qed.

(** Writes that only touch histories or heights. *)
Lemma update_balance_frames l f g b :
  G.Balances g !! l = Some b → bcore (f b) = bcore b → frames (update_balance l f) g.
Proof.
  intros Hl Hf. unfold frames, update_balance, load_balance, store_balance.
  apply returns_bind, returns_bind, returns_get. rewrite Hl. apply returns_ret, returns_modify.
  unfold core. rsimpl. f_equal. rewrite fmap_insert, Hf, <-fmap_insert.
  by rewrite (insert_id _ _ _ Hl).
Qed.

Lemma update_token_frames t f g :
  (∀ x, tcore (f x) = tcore x) → frames (update_token t f) g.
Proof.
  intros Hf. unfold frames, update_token. apply returns_modify. unfold core. rsimpl. f_equal.
  apply map_eq. intros i. rewrite !lookup_fmap. destruct (decide (t = i)) as [<-|].
  - rewrite lookup_alter_eq. destruct (_ !! _); simpl; [by rewrite Hf|done].
  - by rewrite lookup_alter_ne.
Qed.

Lemma add_user_history_frames pk n g : frames (add_user_history pk n) g.
Proof. unfold frames. by apply returns_modify. Qed.
Lemma add_all_history_frames n g : frames (add_all_history n) g.
Proof. unfold frames. by apply returns_modify. Qed.

Lemma frames_bind m (k : unit → Idx unit) g :
  frames m g → (∀ g', core g' = core g → frames (k tt) g') → frames (m ≫= k) g.
Proof.
  intros Hm Hk. apply returns_bind. eapply returns_mono; [exact Hm|].
  intros [] g' Hg'. eapply returns_mono; [by apply Hk|]. simpl. congruence.
Qed.
Lemma frames_when b m g : (b = true → frames m g) → frames (when b m) g.
Proof. intros Hm. apply returns_when; [exact Hm|done]. Qed.

(** A heap object seen through [core]. *)
Lemma core_heap_inv g l b :
  C.heap (core g) !! l = Some b → ∃ b', G.Balances g !! l = Some b' ∧ b = bcore b'.
Proof. cbn. rewrite lookup_fmap. intros (b' & ? & ?)%fmap_Some. eauto. Qed.
Lemma core_heap g l b : G.Balances g !! l = Some b → C.heap (core g) !! l = Some (bcore b).
Proof. cbn. rewrite lookup_fmap. by intros ->. Qed.

(** Adding a record about [from] to the histories of an existing object. *)
Lemma load_balance_returns l b g (Q : BRC20TokenBalance → BRC20ModuleIndexer → Prop) :
  G.Balances g !! l = Some b → Q b g → returns (load_balance l) g Q.
Proof.
  intros Hl HQ. unfold load_balance. apply returns_bind, returns_get. rewrite Hl.
  by apply returns_ret.
Qed.

Definition heap_dec_ok (p : Z) (l : loc) (c : Core) : Prop :=
  ∃ b, C.heap c !! l = Some b ∧ dec_ok p (Bal.AvailableBalance b) ∧
    dec_ok p (Bal.TransferableBalance b).

Lemma mint_history_frames t valid from l data p g :
  info_small from → data_ok data → 0 ≤ p ≤ 18 → heap_dec_ok p l (core g) →
  frames (mint_history t valid from l data) g.
Proof.
  intros Hfrom Hdata Hp (b0 & Hb & Ha & Ht). destruct (core_heap_inv _ _ _ Hb) as (b & Hl & ->).
  unfold mint_history. apply returns_bind. eapply load_balance_returns; [done|].
  apply returns_bind. eapply returns_mono; [eapply (new_history_returns _ _ _ _ _ _ p)|];
    [done..| |].
  { intros ? [= <-]. done. }
  intros n g1 Hg1. rewrite <-Hg1 in Hb. destruct (core_heap_inv _ _ _ Hb) as (b1 & Hl1 & _).
  rewrite <-Hg1. apply frames_bind; [by eapply update_balance_frames|]. intros g2 Hg2.
  apply frames_bind; [by apply update_token_frames|]. intros g3 Hg3.
  apply frames_when. intros _. apply frames_bind; [apply add_user_history_frames|].
  intros g4 Hg4. apply add_all_history_frames.
Qed.

Lemma inscribe_transfer_history_frames t valid from l data p g :
  info_small from → data_ok data → 0 ≤ p ≤ 18 → heap_dec_ok p l (core g) →
  frames (inscribe_transfer_history t valid from l data) g.
Proof.
  intros Hfrom Hdata Hp (b0 & Hb & Ha & Ht). destruct (core_heap_inv _ _ _ Hb) as (b & Hl & ->).
  unfold inscribe_transfer_history. apply returns_bind. eapply load_balance_returns; [done|].
  apply returns_bind, returns_get. cbv zeta.
  destruct (NewBRC20History_ok BRC20_HISTORY_TYPE_N_INSCRIBE_TRANSFER valid false from (Some b)
    data p) as (h & buf & Eh & Ebuf); [done..| |].
  { intros ? [= <-]. done. }
  apply returns_bind. eapply returns_lift; [done|].
  apply frames_bind; [by eapply update_balance_frames|]. intros g2 Hg2.
  apply frames_bind; [by apply update_token_frames|]. intros g3 Hg3.
  apply frames_bind; [by apply add_user_history_frames|]. intros g4 Hg4.
  apply frames_bind; [apply frames_when; intros _; apply add_all_history_frames|]. intros g5 Hg5.
  unfold frames. apply returns_bind. eapply returns_mono; [by eapply UpdateHistory_returns|].
  intros n g6 [Hg6 _]. by apply returns_ret.
Qed.

Lemma move_history_frames send valid from l pk data p g :
  info_small from → data_ok data → 0 ≤ p ≤ 18 → heap_dec_ok p l (core g) →
  frames (move_history send valid from l pk data) g.
Proof.
  intros Hfrom Hdata Hp (b0 & Hb & Ha & Ht). destruct (core_heap_inv _ _ _ Hb) as (b & Hl & ->).
  unfold move_history. apply returns_bind. eapply load_balance_returns; [done|].
  apply returns_bind. eapply returns_mono; [eapply (new_history_returns _ _ _ _ _ _ p)|];
    [by destruct send|done..| |].
  { intros ? [= <-]. done. }
  intros n g1 Hg1. rewrite <-Hg1 in Hb. destruct (core_heap_inv _ _ _ Hb) as (b1 & Hl1 & _).
  rewrite <-Hg1. apply frames_bind; [|intros; apply add_user_history_frames].
  eapply update_balance_frames; [done|]. by destruct send.
Qed.

Lemma transfer_history_frames t inv from data g :
  info_small from → data_ok data → frames (transfer_history t inv from data) g.
Proof.
  intros Hfrom Hdata. unfold transfer_history. apply returns_bind.
  eapply returns_mono; [eapply (new_history_returns _ _ _ _ _ _ 0)|]; [done..|].
  intros n g1 Hg1. rewrite <-Hg1. apply frames_bind; [by apply update_token_frames|].
  intros g2 Hg2. apply frames_when. intros _. apply add_all_history_frames.
Qed.
End proofs.

