(* ===== verification/LedgerRep.v ===== *)
(** * How the indexer's state represents the abstract ledger

    [R c L]: the ticker map, the two indexes of balances (by holder and by ticker),
    the heap and the two maps of transfer inscriptions, seen through [core],
    represent the ledger [L]; and how [R] follows the writes the handlers make. *)
From S2P Require Import Prelude GoStd Decimal Script Utils Json Model History Swap Indexer CondApprove Ledger LedgerSpec LedgerFrame.

(** ** Representation relation *)
Section representation.
Context `{GoUnicode}.

Definition tok_abs (x : string * InscriptionBRC20TickInfo) : AToken :=
  ATok.mk x.1 (TickInfo.Decimals x.2) (dval (TickInfo.Max x.2)) (dval (TickInfo.Limit x.2))
    (if TickInfo.SelfMint x.2 then Some (TickInfo_GetInscriptionId x.2) else None)
    (dval (TickInfo.TotalMinted x.2)).

Definition tok_ok (t : string) (x : string * InscriptionBRC20TickInfo) : Prop :=
  let p := TickInfo.Decimals x.2 in
  ToLower x.1 = t ∧ 0 ≤ p ≤ 18 ∧ dec_ok p (TickInfo.Max x.2) ∧ dec_ok p (TickInfo.Limit x.2) ∧
  dec_ok p (TickInfo.TotalMinted x.2) ∧ dec_ok p (TickInfo.ConfirmedMinted x.2) ∧
  dec_ok p (TickInfo.ConfirmedMinted1h x.2) ∧ dec_ok p (TickInfo.ConfirmedMinted24h x.2) ∧
  dec_ok p (TickInfo.Burned x.2) ∧ is_Some (TickInfo.Data x.2).

Definition bal_abs (b : BRC20TokenBalance) : ABalance :=
  ABal.mk (dval (Bal.AvailableBalance b))
    ((λ i, dval (TickInfo.Amount i)) <$> Bal.ValidTransferMap b).

Definition bal_ok (valid : gmap string InscriptionBRC20TickInfo) (p : Z) (t a : string)
    (b : BRC20TokenBalance) : Prop :=
  Bal.PkScript b = a ∧ ToLower (Bal.Ticker b) = t ∧
  dec_ok p (Bal.AvailableBalance b) ∧ dec_ok p (Bal.AvailableBalanceSafe b) ∧
  dec_ok p (Bal.TransferableBalance b) ∧
  dval (Bal.TransferableBalance b) = locked (bal_abs b) ∧
  ∀ k i, Bal.ValidTransferMap b !! k = Some i →
    valid !! k = Some i ∧ TickInfo.PkScript i = a ∧ ToLower (TickInfo.Tick i) = t ∧
    dec_ok p (TickInfo.Amount i).

(** The object of holder [a] for ticker [t]. *)
Definition at_ (c : Core) (t a : string) : option loc := C.users c !! a ≫= lookup t.
Definition indexed (c : Core) (t a : string) (l : loc) : Prop :=
  ∃ us, C.tokens c !! t = Some us ∧ us !! a = Some l.

Record R (c : Core) (L : ALedger) : Prop := {
  r_tokens : AL.Tokens L = tok_abs <$> C.tickers c;
  r_tok_ok t x : C.tickers c !! t = Some x → tok_ok t x;
  r_transfers : AL.Transfers L =
    (λ i, (ToLower (TickInfo.Tick i), TickInfo.PkScript i)) <$> C.valid c;
  r_valid k i : C.valid c !! k = Some i → info_small i;
  r_invalid k i : C.invalid c !! k = Some i → info_small i;
  r_none t a : at_ c t a = None → abal L t a = no_balance;
  r_some t a l : at_ c t a = Some l →
    ∃ b x, C.heap c !! l = Some b ∧ C.tickers c !! t = Some x ∧
      bal_ok (C.valid c) (TickInfo.Decimals x.2) t a b ∧ abal L t a = bal_abs b;
  r_users t : is_Some (C.tokens c !! t) ↔ is_Some (C.tickers c !! t);
  r_index t a l : indexed c t a l → at_ c t a = Some l;
  r_complete t a l : at_ c t a = Some l → holding (abal L t a) ≠ 0 → indexed c t a l;
}.

Lemma R_init : R (core Init) empty_ledger.
Proof.
  split; unfold at_, indexed, core; cbn; intros; try done.
  all: try (rewrite ?fmap_empty; done). all: simplify_map_eq; try done. naive_solver.
Qed.

(** Two holdings never share an object. *)
Lemma at_inj c L t a t' a' l :
  R c L → at_ c t a = Some l → at_ c t' a' = Some l → t = t' ∧ a = a'.
Proof.
  intros HR H1 H2. destruct (r_some _ _ HR _ _ _ H1) as (b & x & Hb & _ & (? & ? & _) & _).
  destruct (r_some _ _ HR _ _ _ H2) as (b' & x' & Hb' & _ & (? & ? & _) & _).
  simplify_eq. done.
Qed.

Lemma at_insert_users c a t l us t' a' :
  default ∅ (C.users c !! a) = us →
  at_ (c <| C.users ::= <[a := <[t := l]> us]> |>) t' a' =
    if bool_decide (t = t' ∧ a = a') then Some l else at_ c t' a'.
Proof.
  intros Hus. unfold at_. rsimpl. destruct (decide (a = a')) as [<-|].
  - rewrite lookup_insert_eq. simpl. case_bool_decide as E.
    + destruct E as [<- _]. by rewrite lookup_insert_eq.
    + rewrite lookup_insert_ne by naive_solver. subst us. by destruct (C.users c !! a).
  - rewrite lookup_insert_ne by done. by rewrite bool_decide_eq_false_2 by naive_solver.
Qed.

(** *** Writing a balance object *)
Lemma R_store c L t a l b b0 x :
  R c L → at_ c t a = Some l → C.tickers c !! t = Some x →
  C.heap c !! l = Some b0 →
  bal_ok (C.valid c) (TickInfo.Decimals x.2) t a b →
  indexed c t a l →
  R (c <| C.heap ::= <[l := b]> |>) (set_abal t a (bal_abs b) L).
Proof.
  intros HR Hl Hx Hb0 Hb Hidx. split; rsimpl; try by eapply HR.
  - intros t' a' Hn. rewrite abal_set, bool_decide_eq_false_2; [by apply (r_none _ _ HR)|].
    intros [-> ->]. unfold at_ in *. rsimpl. congruence.
  - intros t' a' l' Hl'. change (at_ c t' a' = Some l') in Hl'. rewrite abal_set.
    case_bool_decide as E.
    + destruct E as [<- <-]. rewrite Hl in Hl'. injection Hl' as <-.
      exists b, x. by rewrite lookup_insert_eq.
    + rewrite lookup_insert_ne; [by apply (r_some _ _ HR)|].
      intros <-. destruct (at_inj _ _ _ _ _ _ _ HR Hl Hl'). naive_solver.
  - intros t' a' l' Hl' Hh. rewrite abal_set in Hh. case_bool_decide as E.
    + destruct E as [<- <-]. change (at_ c t a = Some l') in Hl'. rewrite Hl in Hl'.
      by injection Hl' as <-.
    + by apply (r_complete _ _ HR).
Qed.

(** *** Changing the mint state of a ticker *)
Lemma R_token c L t x x' :
  R c L → C.tickers c !! t = Some x → TickInfo.Decimals x'.2 = TickInfo.Decimals x.2 →
  tok_ok t x' →
  R (c <| C.tickers ::= <[t := x']> |>) (L <| AL.Tokens ::= <[t := tok_abs x']> |>).
Proof.
  intros HR Hx Hd Hok. split; rsimpl; try by eapply HR.
  - by rewrite (r_tokens _ _ HR), fmap_insert.
  - intros t' y. destruct (decide (t = t')) as [<-|].
    + rewrite lookup_insert_eq. by intros [= <-].
    + rewrite lookup_insert_ne by done. apply HR.
  - intros t' a l Hl. destruct (r_some _ _ HR _ _ _ Hl) as (b & y & ? & Hy & ? & ?).
    destruct (decide (t = t')) as [<-|].
    + exists b, x'. rewrite lookup_insert_eq. simplify_eq. by rewrite Hd.
    + exists b, y. by rewrite lookup_insert_ne.
  - intros t'. rewrite (r_users _ _ HR). destruct (decide (t = t')) as [<-|].
    + rewrite lookup_insert_eq, Hx. done.
    + by rewrite lookup_insert_ne.
Qed.

(** *** A new object for a known ticker *)
Lemma R_new_object c L t a l ticker x us :
  R c L → C.tickers c !! t = Some x → ToLower ticker = t → C.heap c !! l = None →
  at_ c t a = None → default ∅ (C.users c !! a) = us →
  R (c <| C.heap ::= <[l := bcore (new_balance ticker a)]> |>
       <| C.users ::= <[a := <[t := l]> us]> |>) L.
Proof.
  intros HR Hx Ht Hl Hn Hus. set (c1 := c <| C.heap ::= _ |>).
  assert (∀ t' a', at_ (c1 <| C.users ::= <[a := <[t := l]> us]> |>) t' a' =
    if bool_decide (t = t' ∧ a = a') then Some l else at_ c t' a') as Hat.
  { intros. by apply (at_insert_users c1). }
  split; rsimpl; try by eapply HR.
  - intros t' a'. rewrite Hat. case_bool_decide; [done|]. apply HR.
  - intros t' a' l'. rewrite Hat. case_bool_decide as E.
    + destruct E as [<- <-]. intros [= <-]. exists (bcore (new_balance ticker a)), x.
      rewrite lookup_insert_eq. split_and!; [done|done| |].
      * repeat split; cbn; try done; intros; by simplify_map_eq.
      * rewrite (r_none _ _ HR) by done. by unfold bal_abs, no_balance; cbn; rewrite fmap_empty.
    + intros Hl'. destruct (r_some _ _ HR _ _ _ Hl') as (b & y & Hb & ?).
      exists b, y. rewrite lookup_insert_ne; [done|]. congruence.
  - intros t' a' l' Hi. rewrite Hat. change (indexed c t' a' l') in Hi.
    apply (r_index _ _ HR) in Hi. case_bool_decide as E; [|done].
    destruct E as [<- <-]. congruence.
  - intros t' a' l'. rewrite Hat. case_bool_decide as E; [|apply HR].
    destruct E as [<- <-]. intros _. by rewrite (r_none _ _ HR).
Qed.

(** *** Listing an object under its ticker *)
Lemma R_set_index c L t a l us :
  R c L → at_ c t a = Some l → C.tokens c !! t = Some us →
  let c' := c <| C.tokens ::= <[t := <[a := l]> us]> |> in
  R c' L ∧ indexed c' t a l.
Proof.
  intros HR Hl Hus c'.
  assert (∀ t' a' l', indexed c' t' a' l' ↔ indexed c t' a' l' ∨ (t' = t ∧ a' = a ∧ l' = l)) as Hidx.
  { intros t' a' l'. unfold indexed, c'. rsimpl. destruct (decide (t = t')) as [<-|].
    - rewrite lookup_insert_eq. destruct (decide (a = a')) as [<-|].
      + split.
        * intros (? & [= <-] & E). rewrite lookup_insert_eq in E. naive_solver.
        * intros Hor. eexists. split; [done|]. rewrite lookup_insert_eq.
          destruct Hor as [Hi|(_ & _ & ->)]; [|done].
          assert (indexed c t a l') as Hi'%(r_index _ _ HR) by done. congruence.
      + split.
        * intros (? & [= <-] & E). rewrite lookup_insert_ne in E by done. eauto.
        * intros [(us' & ? & ?)|(_ & ? & _)]; [|congruence]. eexists. split; [done|].
          rewrite lookup_insert_ne by done. congruence.
    - rewrite lookup_insert_ne by done. naive_solver. }
  split; [|apply Hidx; by right]. split; try by eapply HR.
  - intros t'. unfold c'. rsimpl. rewrite <-(r_users _ _ HR). destruct (decide (t = t')) as [<-|].
    + by rewrite lookup_insert_eq, Hus.
    + by rewrite lookup_insert_ne.
  - intros t' a' l' [Hi|(-> & -> & ->)]%Hidx; [by apply (r_index _ _ HR)|done].
  - intros t' a' l' Hl' Hh. apply Hidx. left. by apply (r_complete _ _ HR).
Qed.

(** *** A new transfer inscription *)
Lemma R_valid c L k i :
  R c L → C.valid c !! k = None → info_small i →
  R (c <| C.valid ::= <[k := i]> |>)
    (L <| AL.Transfers ::= <[k := (ToLower (TickInfo.Tick i), TickInfo.PkScript i)]> |>).
Proof.
  intros HR Hk Hi. split; rsimpl; try by eapply HR.
  - by rewrite (r_transfers _ _ HR), fmap_insert.
  - intros k' i'. destruct (decide (k = k')) as [<-|].
    + rewrite lookup_insert_eq. by intros [= <-].
    + rewrite lookup_insert_ne by done. apply HR.
  - intros t a l Hl. destruct (r_some _ _ HR _ _ _ Hl) as (b & x & ? & ? & Hb & ?).
    exists b, x. split_and!; [done|done| |done].
    destruct Hb as (? & ? & ? & ? & ? & ? & Hv). repeat split; try done; try by eapply Hv.
    rewrite lookup_insert_ne; [by eapply Hv|]. intros <-.
    destruct (Hv k i0) as [? _]; [done|]. congruence.
Qed.
Lemma R_invalid c L k i :
  R c L → info_small i → R (c <| C.invalid ::= <[k := i]> |>) L.
Proof.
  intros HR Hi. split; rsimpl; try by eapply HR.
  intros k' i'. destruct (decide (k = k')) as [<-|].
  - rewrite lookup_insert_eq. by intros [= <-].
  - rewrite lookup_insert_ne by done. apply HR.
Qed.

(** *** A new ticker and its deployer's empty balance *)
Lemma R_deploy c L t a l x us :
  R c L → C.tickers c !! t = None → tok_ok t x → C.heap c !! l = None →
  default ∅ (C.users c !! a) = us →
  R (c <| C.tickers ::= <[t := x]> |> <| C.heap ::= <[l := bcore (new_balance x.1 a)]> |>
       <| C.users ::= <[a := <[t := l]> us]> |> <| C.tokens ::= <[t := {[a := l]}]> |>)
    (L <| AL.Tokens ::= <[t := tok_abs x]> |>).
Proof.
  intros HR Hn Hx Hl Hus.
  assert (∀ a', at_ c t a' = None) as Hnone.
  { intros a'. destruct (at_ c t a') as [l'|] eqn:E; [|done].
    destruct (r_some _ _ HR _ _ _ E) as (? & ? & _ & ? & _). congruence. }
  assert (C.tokens c !! t = None) as Htok.
  { destruct (C.tokens c !! t) eqn:E; [|done].
    destruct (proj1 (r_users _ _ HR t)) as [? ?]; [by eexists|]. congruence. }
  set (c0 := c <| C.tickers ::= <[t := x]> |>).
  set (c1 := c0 <| C.heap ::= _ |>). set (c2 := c1 <| C.users ::= _ |>).
  assert (∀ t' a', at_ c2 t' a' =
    if bool_decide (t = t' ∧ a = a') then Some l else at_ c t' a') as Hat.
  { intros. by apply (at_insert_users c1). }
  split; rsimpl; try by eapply HR.
  - by rewrite (r_tokens _ _ HR), fmap_insert.
  - intros t' y. destruct (decide (t = t')) as [<-|].
    + rewrite lookup_insert_eq. by intros [= <-].
    + rewrite lookup_insert_ne by done. apply HR.
  - intros t' a'. change (at_ _ t' a') with (at_ c2 t' a'). rewrite Hat.
    case_bool_decide; [done|]. apply HR.
  - intros t' a' l'. change (at_ _ t' a') with (at_ c2 t' a'). rewrite Hat. case_bool_decide as E.
    + destruct E as [<- <-]. intros [= <-]. exists (bcore (new_balance x.1 a)), x.
      rewrite !lookup_insert_eq. split_and!; [done|done| |].
      * repeat split; cbn; try done; try by apply Hx. all: intros; by simplify_map_eq.
      * change (abal L t a = bal_abs (bcore (new_balance x.1 a))).
        rewrite (r_none _ _ HR) by done. by unfold bal_abs, no_balance; cbn; rewrite fmap_empty.
    + intros Hl'. destruct (r_some _ _ HR _ _ _ Hl') as (b & y & Hb & Hy & ?).
      exists b, y. rewrite !lookup_insert_ne; [done|congruence..].
  - intros t'. destruct (decide (t = t')) as [<-|].
    + by rewrite !lookup_insert_eq.
    + rewrite !lookup_insert_ne by done. apply HR.
  - intros t' a' l'. change (at_ _ t' a') with (at_ c2 t' a'). rewrite Hat.
    unfold indexed. rsimpl. destruct (decide (t = t')) as [<-|].
    + rewrite lookup_insert_eq. intros (? & [= <-] & E).
      apply lookup_singleton_Some in E as [<- <-]. by rewrite bool_decide_eq_true_2.
    + rewrite lookup_insert_ne by done. rewrite bool_decide_eq_false_2 by naive_solver. apply HR.
  - intros t' a' l'. change (at_ _ t' a') with (at_ c2 t' a'). rewrite Hat.
    case_bool_decide as E.
    + destruct E as [<- <-]. intros _. change (holding (abal L t a) ≠ 0 →
        indexed (c2 <| C.tokens ::= <[t := {[a := l]}]> |>) t a l').
      rewrite (r_none _ _ HR) by done. done.
    + intros Hl' Hh. destruct (r_complete _ _ HR _ _ _ Hl' Hh) as (us' & ? & ?).
      exists us'. rsimpl. rewrite lookup_insert_ne; [done|]. congruence.
Qed.
End representation.

(** ** Writes of the handlers, seen through [core] *)
Section writes.
Context `{GoUnicode}.

Lemma core_store l b g :
  core (g <| G.Balances ::= <[l := b]> |>) = core g <| C.heap ::= <[l := bcore b]> |>.
Proof. unfold core. rsimpl. by rewrite fmap_insert. Qed.

Lemma core_update_token t f g x :
  G.InscriptionsTickerInfoMap g !! t = Some x →
  core (g <| G.InscriptionsTickerInfoMap ::= alter f t |>) =
    core g <| C.tickers ::= <[t := tcore (f x)]> |>.
Proof.
  intros Hx. unfold core. rsimpl. f_equal. apply map_eq. intros i. rewrite lookup_fmap.
  destruct (decide (t = i)) as [<-|].
  - by rewrite lookup_alter_eq, lookup_insert_eq, Hx.
  - by rewrite lookup_alter_ne, lookup_insert_ne, lookup_fmap by done.
Qed.

Lemma core_ticker g t x :
  C.tickers (core g) !! t = Some x → ∃ y, G.InscriptionsTickerInfoMap g !! t = Some y ∧ x = tcore y.
Proof. cbn. rewrite lookup_fmap. intros (y & ? & ?)%fmap_Some. eauto. Qed.
Lemma core_ticker_some g t y :
  G.InscriptionsTickerInfoMap g !! t = Some y → C.tickers (core g) !! t = Some (tcore y).
Proof. cbn. rewrite lookup_fmap. by intros ->. Qed.
Lemma core_ticker_none g t :
  G.InscriptionsTickerInfoMap g !! t = None → C.tickers (core g) !! t = None.
Proof. cbn. rewrite lookup_fmap. by intros ->. Qed.

Lemma R_ticker g L t y :
  R (core g) L → G.InscriptionsTickerInfoMap g !! t = Some y →
  AL.Tokens L !! t = Some (tok_abs (tcore y)) ∧ tok_ok t (tcore y).
Proof.
  intros HR Hy%core_ticker_some. split; [|by eapply r_tok_ok].
  by rewrite (r_tokens _ _ HR), lookup_fmap, Hy.
Qed.
Lemma R_ticker_none g L t :
  R (core g) L → G.InscriptionsTickerInfoMap g !! t = None → AL.Tokens L !! t = None.
Proof.
  intros HR Hy%core_ticker_none. by rewrite (r_tokens _ _ HR), lookup_fmap, Hy.
Qed.

(** What the state keeps while an object is looked up or made. *)
Definition same_tickers (c c' : Core) : Prop :=
  C.tickers c' = C.tickers c ∧ C.valid c' = C.valid c ∧ C.invalid c' = C.invalid c.

(** The object of [a] for [t], reachable through both indexes. *)
Definition balance_at (c : Core) (t a : string) (l : loc) (L : ALedger) : Prop :=
  R c L ∧ at_ c t a = Some l ∧ indexed c t a l.

Lemma find_or_new_balance_returns g L t ticker a y :
  R (core g) L → G.InscriptionsTickerInfoMap g !! t = Some y → ToLower ticker = t →
  returns (find_or_new_balance t ticker a) g (λ l g',
    R (core g') L ∧ at_ (core g') t a = Some l ∧ same_tickers (core g) (core g')).
Proof.
  intros HR Hy Ht. unfold find_or_new_balance. apply returns_bind, returns_get. cbv zeta.
  set (us := default ∅ (G.UserTokensBalanceData g !! a)).
  assert (at_ (core g) t a = us !! t) as Hat.
  { unfold at_, us. cbn. by destruct (_ !! a). }
  destruct (us !! t) as [l|] eqn:El.
  - apply returns_bind, returns_ret, returns_bind, returns_modify, returns_ret.
    match goal with |- context [core ?g'] => assert (core g' = core g) as -> end.
    { unfold core. rsimpl. f_equal. rewrite (insert_id us) by done.
      apply insert_id. unfold us in *. by destruct (_ !! a). }
    done.
  - apply returns_bind, returns_bind, returns_get. cbv zeta.
    set (l := fresh (dom (G.Balances g))).
    apply returns_bind, returns_modify, returns_ret, returns_bind, returns_modify, returns_ret.
    assert (C.heap (core g) !! l = None) as Hl.
    { cbn. rewrite lookup_fmap. apply fmap_None, not_elem_of_dom, is_fresh. }
    match goal with |- context [core ?g'] => assert (core g' =
      core g <| C.heap ::= <[l := bcore (new_balance ticker a)]> |>
             <| C.users ::= <[a := <[t := l]> us]> |>) as -> end.
    { unfold core. rsimpl. by rewrite fmap_insert. }
    split_and!.
    + eapply R_new_object; [done|by apply core_ticker_some|done..].
    + rewrite (at_insert_users (core g <| C.heap ::= _ |>)) by done.
      by rewrite bool_decide_eq_true_2.
    + done.
Qed.

Lemma set_token_user_returns g L t a l y :
  R (core g) L → G.InscriptionsTickerInfoMap g !! t = Some y → at_ (core g) t a = Some l →
  returns (set_token_user t a l) g (λ _ g',
    balance_at (core g') t a l L ∧ same_tickers (core g) (core g')).
Proof.
  intros HR Hy Hl. unfold set_token_user. apply returns_bind, returns_get.
  destruct (proj2 (r_users _ _ HR t)) as [us Hus]; [by rewrite (core_ticker_some _ _ _ Hy)|].
  cbn in Hus. rewrite Hus. apply returns_modify.
  destruct (R_set_index _ _ _ _ _ us HR Hl Hus) as [HR' Hi]. done.
Qed.

(** [GetUserTokenBalance] never fails for a deployed ticker. *)
Lemma balance_object_returns g L t ticker a y :
  R (core g) L → G.InscriptionsTickerInfoMap g !! t = Some y → ToLower ticker = t →
  returns (l ← find_or_new_balance t ticker a; set_token_user t a l ;; mret l) g (λ l g',
    balance_at (core g') t a l L ∧ same_tickers (core g) (core g')).
Proof.
  intros HR Hy Ht. apply returns_bind.
  eapply returns_mono; [by eapply find_or_new_balance_returns|].
  intros l g1 (HR1 & Hl1 & Hs1). apply returns_bind.
  destruct (core_ticker g1 t (tcore y)) as (y1 & Hy1 & _).
  { destruct Hs1 as [-> _]. by apply core_ticker_some. }
  eapply returns_mono; [by eapply set_token_user_returns|].
  intros _ g2 [Hb Hs2]. apply returns_ret. split; [done|].
  unfold same_tickers in *. naive_solver congruence.
Qed.

(** Storing an object whose new contents are well formed. *)
Lemma store_balance_returns g L t a l y b :
  balance_at (core g) t a l L → G.InscriptionsTickerInfoMap g !! t = Some y →
  bal_ok (C.valid (core g)) (TickInfo.Decimals (TokenInfo.Deploy y)) t a b →
  returns (store_balance l b) g (λ _ g',
    core g' = core g <| C.heap ::= <[l := bcore b]> |> ∧
    balance_at (core g') t a l (set_abal t a (bal_abs b) L)).
Proof.
  intros (HR & Hl & Hi) Hy Hb. unfold store_balance. apply returns_modify.
  rewrite core_store. split; [done|]. split; [|done].
  destruct (r_some _ _ HR _ _ _ Hl) as (b0 & x & Hb0 & _).
  change (bal_abs b) with (bal_abs (bcore b)).
  by eapply R_store; [..|apply core_ticker_some|done| |].
Qed.

(** The object [balance_at] speaks of. *)
Lemma balance_at_inv g t a l L y :
  balance_at (core g) t a l L → G.InscriptionsTickerInfoMap g !! t = Some y →
  ∃ b, G.Balances g !! l = Some b ∧ abal L t a = bal_abs b ∧
    bal_ok (C.valid (core g)) (TickInfo.Decimals (TokenInfo.Deploy y)) t a b.
Proof.
  intros (HR & Hl & Hi) Hy%core_ticker_some.
  destruct (r_some _ _ HR _ _ _ Hl) as (b & x & Hb & Hx & Hok & Ha).
  destruct (core_heap_inv _ _ _ Hb) as (b' & Hb' & ->). exists b'. simplify_eq. done.
Qed.
End writes.
