(* ===== verification/LedgerProof.v ===== *)
(** * The handlers implement the abstract ledger

    One refinement lemma per handler of file Ledger: on every outcome the new
    state represents the ledger its specification computes, and deploy, mint and
    inscribe-transfer never panic. *)
From S2P Require Import Prelude GoStd Decimal Script Utils Json Model History Swap Indexer CondApprove Ledger LedgerSpec LedgerFrame LedgerRep.

Definition no_panic {A} (o : outcome A) : Prop := ∀ w, o ≠ Panic w.
Lemma no_panic_ret {A} (a : A) : no_panic (Ret a).
Proof. done. Qed.
Lemma no_panic_error {A} e : no_panic (@Error A e).
Proof. done. Qed.

(** [m] does not panic and leads to a state that represents [L]. *)
Definition yields {A} (m : Idx A) (g : BRC20ModuleIndexer) `{GoUnicode} (L : ALedger) : Prop :=
  spec m g (λ o g', no_panic o ∧ R (core g') L).

(** [Some a ≫= f] is [f a]. *)
Ltac some_bind :=
  match goal with |- context [Some ?a ≫= ?f] => change (Some a ≫= f) with (f a); cbv beta zeta end.

Section refinement.
Context `{GoUnicode, MapOrder, Config}.

Lemma yields_ret g L : R (core g) L → yields (mret tt) g L.
Proof. done. Qed.
Lemma yields_throw {A} e g L : R (core g) L → yields (@throw _ A e) g L.
Proof. done. Qed.
Lemma yields_frames m g L : R (core g) L → frames m g → yields m g L.
Proof.
  intros HR Hm. apply spec_returns. eapply returns_mono; [exact Hm|].
  intros [] g' Hg. by rewrite Hg.
Qed.

Lemma yields_get {A} (k : BRC20ModuleIndexer → Idx A) g L : yields (k g) g L → yields (get ≫= k) g L.
Proof. done. Qed.
Lemma yields_ret_bind {A B} (a : A) (k : A → Idx B) g L : yields (k a) g L → yields (mret a ≫= k) g L.
Proof. done. Qed.
Lemma yields_lift_ret {A B} (o : outcome A) a (k : A → Idx B) g L :
  o = Ret a → yields (k a) g L → yields (lift o ≫= k) g L.
Proof. by intros ->. Qed.
Lemma yields_lift_error {A B} (o : outcome A) e (k : A → Idx B) g L :
  o = Error e → R (core g) L → yields (lift o ≫= k) g L.
Proof. by intros ->. Qed.
Lemma yields_bind {A B} (m : Idx A) (k : A → Idx B) g L :
  returns m g (λ a g', yields (k a) g' L) → yields (m ≫= k) g L.
Proof. apply spec_bind_returns. Qed.

Lemma yields_bind_frames m (k : unit → Idx unit) g L :
  frames m g → (∀ g', core g' = core g → yields (k tt) g' L) → yields (m ≫= k) g L.
Proof.
  intros Hm Hk. apply yields_bind. eapply returns_mono; [exact Hm|]. intros [] g' Hg'. by apply Hk.
Qed.

Lemma parse_amount_ret s p d :
  0 ≤ p ≤ 18 → NewDecimalFromString s p = Ret d →
  parse_amount s p = Some (Val d) ∧ Precition d = p.
Proof.
  intros Hp E. unfold parse_amount. rewrite E. split; [done|].
  by eapply NewDecimalFromString_precision.
Qed.
Lemma parse_amount_error s p e : NewDecimalFromString s p = Error e → parse_amount s p = None.
Proof. unfold parse_amount. by intros ->. Qed.

(** ** Deploy *)

Lemma deploy_out_of_range_ok d :
  0 ≤ Precition d ≤ 18 →
  deploy_out_of_range d = Ret ((Val d <? 0) || (max_units (Precition d) <? Val d)).
Proof.
  intros Hp. unfold deploy_out_of_range. destruct d as [p v]. simpl in *.
  rewrite precisionFactor_ok by done. destruct (Z.ltb_spec v 0), (Z.ltb_spec (Z.sgn v) 0); try lia; done.
Qed.
Lemma deploy_range_ok self msg s p d :
  0 ≤ p ≤ 18 → NewDecimalFromString s p = Ret d →
  (Val d <? 0) || (max_units p <? Val d) = false →
  match deploy_amount self s p with
  | Some v => ∃ d', deploy_range self msg d = Ret (Some d') ∧ Val d' = v ∧ Precition d' = p
  | None => ∃ e, deploy_range self msg d = Error e
  end.
Proof.
  intros Hp E Hr. unfold deploy_amount. destruct (parse_amount_ret _ _ _ Hp E) as [-> Hd].
  some_bind. rewrite Hr. unfold deploy_range, GetMaxUint64. destruct d as [q v]. simpl in *. subst q.
  rewrite precisionFactor_ok by done.
  destruct (Z.eqb_spec v 0), (Z.eqb_spec (Z.sgn v) 0); try lia; [|eauto].
  destruct self; [|eauto]. by eexists.
Qed.
Lemma deploy_amount_out self s p d :
  0 ≤ p ≤ 18 → NewDecimalFromString s p = Ret d →
  (Val d <? 0) || (max_units p <? Val d) = true → deploy_amount self s p = None.
Proof.
  intros Hp E Hr. unfold deploy_amount. destruct (parse_amount_ret _ _ _ Hp E) as [-> Hd].
  some_bind. by rewrite Hr.
Qed.
Lemma deploy_amount_error self s p e :
  NewDecimalFromString s p = Error e → deploy_amount self s p = None.
Proof. intros E. unfold deploy_amount. by rewrite (parse_amount_error _ _ _ E). Qed.

(** The record a deploy history describes is the inscription itself. *)
Lemma info_small_of tick op data d p :
  data_ok data → 0 ≤ p ≤ 18 → dec_ok p d →
  info_small (NewInscriptionBRC20TickInfo tick op data <| TickInfo.Amount := d |>).
Proof.
  intros (?&?&?&?&?&?&?&?&?&?) Hp Hd. unfold info_small. cbn. split_and!; try done.
  by exists p.
Qed.

(** The history part of [deploy_register] and the height. *)
Lemma deploy_history_frames t tinfo data l g :
  info_small tinfo → data_ok data → is_Some (C.heap (core g) !! l) →
  frames (history ← new_history BRC20_HISTORY_TYPE_N_INSCRIBE_DEPLOY true false tinfo None data;
     update_balance l (λ b, b <| Bal.History ::= λ l, l ++ [history] |>) ;;
     update_token t (λ t, t <| TokenInfo.History ::= λ l, l ++ [history] |>) ;;
     add_user_history (Data.PkScript data) history ;;
     add_all_history history) g.
Proof.
  intros Hi Hd [b0 Hb]. unfold frames. apply returns_bind.
  eapply returns_mono; [eapply (new_history_returns _ _ _ _ _ _ 0)|]; [done..|].
  intros n g1 Hg1. rewrite <-Hg1 in *. destruct (core_heap_inv _ _ _ Hb) as (b1 & Hl1 & _).
  apply frames_bind; [by eapply update_balance_frames|]. intros g2 Hg2.
  apply frames_bind; [by apply update_token_frames|]. intros g3 Hg3.
  apply frames_bind; [by apply add_user_history_frames|]. intros g4 Hg4.
  apply add_all_history_frames.
Qed.

Lemma deploy_register_yields t tinfo data g L :
  R (core g) L → G.InscriptionsTickerInfoMap g !! t = None →
  tok_ok t (TickInfo.Tick tinfo, tinfo) → info_small tinfo → data_ok data →
  yields (deploy_register t tinfo data) g
    (L <| AL.Tokens ::= <[t := tok_abs (TickInfo.Tick tinfo, tinfo)]> |>).
Proof.
  intros HR Hn Hok Hi Hd. apply spec_returns. unfold deploy_register. cbv zeta.
  apply returns_bind, returns_modify. set (g1 := g <| _ ::= _ |>).
  apply returns_bind. unfold alloc_balance at 1. apply returns_bind, returns_get. cbv zeta.
  set (l := fresh (dom (G.Balances g1))).
  apply returns_bind, returns_modify, returns_ret, returns_bind, returns_get.
  set (g2 := g1 <| G.Balances ::= _ |>).
  set (x := (TickInfo.Tick tinfo, tinfo)) in *.
  assert (core g2 = core g <| C.tickers ::= <[t := x]> |>
    <| C.heap ::= <[l := bcore (new_balance x.1 (Data.PkScript data))]> |>) as Hg2.
  { unfold g2. rewrite core_store. f_equal. unfold g1, core. rsimpl. by rewrite fmap_insert. }
  assert (C.heap (core g) !! l = None) as Hl.
  { change (C.heap (core g)) with (C.heap (core g1)). cbn. rewrite lookup_fmap.
    apply fmap_None, not_elem_of_dom, is_fresh. }
  apply returns_bind. eapply returns_mono.
  { apply frames_when. intros _. apply deploy_history_frames; [done..|].
    rewrite Hg2. rsimpl. rewrite lookup_insert_eq. by eexists. }
  intros [] g3 Hg3. simpl in Hg3. apply returns_bind. eapply returns_mono; [by apply update_token_frames|].
  intros [] g4 Hg4. simpl in Hg4. apply returns_modify. split; [done|].
  set (us := default ∅ (C.users (core g) !! Data.PkScript data)).
  match goal with |- R ?c _ => assert (c = core g <| C.tickers ::= <[t := x]> |>
    <| C.heap ::= <[l := bcore (new_balance x.1 (Data.PkScript data))]> |>
    <| C.users ::= <[Data.PkScript data := <[t := l]> us]> |>
    <| C.tokens ::= <[t := {[Data.PkScript data := l]}]> |>) as -> end.
  { rewrite Hg2 in Hg3. rewrite Hg3 in Hg4. unfold us, core in *. rsimpl.
    by injection Hg4 as -> -> -> -> -> ->. }
  apply R_deploy; [done|by apply core_ticker_none|done..].
Qed.

Lemma GetValidUniqueLowerTickerTicker_ret tick t :
  GetValidUniqueLowerTickerTicker tick = Ret t → t = ToLower tick.
Proof. unfold GetValidUniqueLowerTickerTicker. case_match; by intros; simplify_eq/=. Qed.

(** Fresh mint state: nothing minted yet. *)
Definition unminted (i : InscriptionBRC20TickInfo) : Prop :=
  TickInfo.TotalMinted i = None ∧ TickInfo.ConfirmedMinted i = None ∧
  TickInfo.ConfirmedMinted1h i = None ∧ TickInfo.ConfirmedMinted24h i = None ∧
  TickInfo.Burned i = None.
(** [i] carries the position of the inscription [data] and no amount. *)
Definition positioned (i : InscriptionBRC20TickInfo) (data : InscriptionBRC20Data) : Prop :=
  TickInfo.TxId i = Data.TxId data ∧ TickInfo.Idx i = Data.Idx data ∧
  TickInfo.Vout i = Data.Vout data ∧ TickInfo.Offset i = Data.Offset data ∧
  TickInfo.Satoshi i = Data.Satoshi data ∧ TickInfo.Height i = Data.Height data ∧
  TickInfo.PkScript i = Data.PkScript data.

Lemma positioned_small i data p :
  positioned i data → data_ok data → 0 ≤ p ≤ 18 → dec_ok p (TickInfo.Amount i) → info_small i.
Proof.
  intros (E1&E2&E3&E4&E5&E6&E7) (?&?&?&?&?&?&?&?&?&?) Hp Hd. unfold info_small.
  rewrite E1, E2, E3, E4, E5, E6, E7. split_and!; try done. by exists p.
Qed.

Lemma deploy_register_request t tick tinfo dec max lim self data g L :
  R (core g) L → G.InscriptionsTickerInfoMap g !! t = None → data_ok data →
  ToLower tick = t → 0 ≤ dec ≤ 18 → TickInfo.Tick tinfo = tick → TickInfo.Decimals tinfo = dec →
  TickInfo.Max tinfo = Some max → TickInfo.Limit tinfo = Some lim →
  TickInfo.SelfMint tinfo = self → TickInfo.Amount tinfo = None →
  Precition max = dec → Precition lim = dec → unminted tinfo → positioned tinfo data →
  is_Some (TickInfo.Data tinfo) →
  yields (deploy_register t tinfo data) g
    (L <| AL.Tokens ::= <[t := ATok.mk tick dec (Val max) (Val lim)
      (if self then Some (inscription_id (HashString (s2b (Data.TxId data))) (Data.Idx data))
       else None) 0]> |>).
Proof.
  intros HR Hn Hd Ht Hdec <- E1 E2 E3 E4 Eamt Hmax Hlim (M1&M2&M3&M4&M5) Hpos Hdata.
  assert (info_small tinfo) as Hsmall.
  { eapply positioned_small; [done|done|exact Hdec|by rewrite Eamt]. }
  destruct Hpos as (P1&P2&_). subst self.
  replace (ATok.mk _ _ _ _ _ _) with (tok_abs (TickInfo.Tick tinfo, tinfo)).
  - apply deploy_register_yields; [done|done| |done|done]. unfold tok_ok. simpl.
    rewrite E1, E2, E3, M1, M2, M3, M4, M5. done.
  - unfold tok_abs, TickInfo_GetInscriptionId. simpl. by rewrite E1, E2, E3, M1, P1, P2.
Qed.

Lemma ok_bind {A B} (o : outcome A) (a : A) (f : A → option B) : o = Ret a → ok o ≫= f = f a.
Proof. by intros ->. Qed.
Lemma ok_bind_none {A B} (o : outcome A) e (f : A → option B) : o = Error e → ok o ≫= f = None.
Proof. by intros ->. Qed.

Lemma a_deploy_known data body t tok L :
  Unmarshal_Deploy (Data.ContentBody data) = Ret body →
  GetValidUniqueLowerTickerTicker (DeployBody.BRC20Tick body) = Ret t →
  AL.Tokens L !! t = Some tok → a_deploy data L = L.
Proof.
  intros Eb Et Htok. unfold a_deploy. destruct (deploy_request data) as [[t' tok']|] eqn:E; [|done].
  assert (t' = t) as ->; [|by rewrite Htok].
  unfold deploy_request in E. rewrite (ok_bind _ _ _ Eb) in E. cbv zeta in E.
  rewrite (ok_bind _ _ _ Et) in E.
  do 2 (case_match; [done|]). apply bind_Some in E as (? & _ & E). case_match; [done|].
  apply bind_Some in E as (? & _ & E). apply bind_Some in E as (? & _ & E). congruence.
Qed.

(** The amounts of a deploy, from the decimals on. *)
Definition deploy_amounts (t : string) (body : InscriptionBRC20DeployContent)
    (data : InscriptionBRC20Data) (dec : Z) : Idx unit :=
  let tinfo := deploy_info body data in
  max ← lift (or_error (NewDecimalFromString (DeployBody.BRC20Max body) dec)
    "deploy, but max invalid");
  out ← lift (deploy_out_of_range max);
  if (out : bool) then mret tt else
  tmax ← lift (deploy_range (TickInfo.SelfMint tinfo) "deploy, but max invalid (0)" max);
  lim ← lift (or_error (NewDecimalFromString (DeployBody.BRC20Limit body) dec)
    "deploy, but lim invalid");
  out ← lift (deploy_out_of_range lim);
  if (out : bool) then throw "deploy, but lim invalid (range)" else
  tlim ← lift (deploy_range (TickInfo.SelfMint tinfo) "deploy, but lim invalid (0)" lim);
  deploy_register t (tinfo <| TickInfo.Decimals := u8 dec |> <| TickInfo.Max := tmax |>
    <| TickInfo.Limit := tlim |>) data.

Definition deploy_token (t : string) (body : InscriptionBRC20DeployContent)
    (data : InscriptionBRC20Data) (dec : Z) : option (string * AToken) :=
  let tick := DeployBody.BRC20Tick body in
  let selfMint := (len tick =? 5) && bool_decide (DeployBody.BRC20SelfMint body = "true") in
  max ← deploy_amount selfMint (DeployBody.BRC20Max body) dec;
  lim ← deploy_amount selfMint (DeployBody.BRC20Limit body) dec;
  Some (t, ATok.mk tick dec max lim
    (if selfMint then Some (inscription_id (HashString (s2b (Data.TxId data))) (Data.Idx data))
     else None) 0).

Lemma deploy_amounts_yields t body data dec g L :
  R (core g) L → data_ok data → G.InscriptionsTickerInfoMap g !! t = None → 0 ≤ dec ≤ 18 →
  ToLower (DeployBody.BRC20Tick body) = t →
  yields (deploy_amounts t body data dec) g
    (match deploy_token t body data dec with
     | Some (_, tok) => L <| AL.Tokens ::= <[t := tok]> |>
     | None => L
     end).
Proof.
  intros HR Hd Hn Hdec Ht. unfold deploy_amounts, deploy_token. cbv zeta.
  destruct (NewDecimalFromString (DeployBody.BRC20Max body) dec) as [max|e|w] eqn:Emax;
    [|by unfold deploy_amount; rewrite (parse_amount_error _ _ _ Emax)
     |by destruct (NewDecimalFromString_no_panic _ _ w Hdec Emax)].
  pose proof (NewDecimalFromString_precision _ _ _ Hdec Emax) as Hpm.
  eapply yields_lift_ret; [done|]. eapply yields_lift_ret; [apply deploy_out_of_range_ok; lia|].
  rewrite Hpm. destruct ((Val max <? 0) || (max_units dec <? Val max)) eqn:Eout.
  { by rewrite (deploy_amount_out _ _ _ _ Hdec Emax Eout). }
  set (self := (len (DeployBody.BRC20Tick body) =? 5) && _).
  change (TickInfo.SelfMint (deploy_info body data)) with self.
  pose proof (deploy_range_ok self "deploy, but max invalid (0)" _ _ _ Hdec Emax Eout) as Hmax.
  destruct (deploy_amount self (DeployBody.BRC20Max body) dec) as [mv|].
  2:{ destruct Hmax as [e He]. by eapply yields_lift_error. }
  destruct Hmax as (max' & Er & Hmv & Hmp). eapply yields_lift_ret; [exact Er|]. some_bind.
  destruct (NewDecimalFromString (DeployBody.BRC20Limit body) dec) as [lim|e|w] eqn:Elim;
    [|by rewrite (deploy_amount_error _ _ _ _ Elim)
     |by destruct (NewDecimalFromString_no_panic _ _ w Hdec Elim)].
  pose proof (NewDecimalFromString_precision _ _ _ Hdec Elim) as Hpl.
  eapply yields_lift_ret; [done|]. eapply yields_lift_ret; [apply deploy_out_of_range_ok; lia|].
  rewrite Hpl. destruct ((Val lim <? 0) || (max_units dec <? Val lim)) eqn:Eoutl.
  { by rewrite (deploy_amount_out _ _ _ _ Hdec Elim Eoutl). }
  pose proof (deploy_range_ok self "deploy, but lim invalid (0)" _ _ _ Hdec Elim Eoutl) as Hlim.
  destruct (deploy_amount self (DeployBody.BRC20Limit body) dec) as [lv|].
  2:{ destruct Hlim as [e He]. by eapply yields_lift_error. }
  destruct Hlim as (lim' & Erl & Hlv & Hlp). eapply yields_lift_ret; [exact Erl|]. some_bind.
  assert (u8 dec = dec) as -> by (unfold u8; rewrite Z.mod_small; lia).
  subst mv lv. apply (deploy_register_request t (DeployBody.BRC20Tick body) _ dec max' lim' self); done.
Qed.

Lemma ProcessDeploy_yields data g L :
  R (core g) L → data_ok data → yields (ProcessDeploy data) g (a_deploy data L).
Proof.
  intros HR Hd. unfold ProcessDeploy.
  destruct (Unmarshal_Deploy (Data.ContentBody data)) as [body|e|w] eqn:Eb;
    [|by unfold a_deploy, deploy_request; rewrite (ok_bind_none _ _ _ Eb)|by destruct (Unmarshal_Deploy_no_panic _ _ Eb)].
  destruct (GetValidUniqueLowerTickerTicker (DeployBody.BRC20Tick body)) as [t|e|w] eqn:Et;
    [|by unfold a_deploy, deploy_request; rewrite (ok_bind _ _ _ Eb); cbv zeta; rewrite (ok_bind_none _ _ _ Et)
     |by unfold GetValidUniqueLowerTickerTicker in Et; case_match].
  pose proof (GetValidUniqueLowerTickerTicker_ret _ _ Et) as Ht.
  destruct (G.InscriptionsTickerInfoMap g !! t) as [y|] eqn:Ey.
  { destruct (R_ticker _ _ _ _ HR Ey) as [Hy _]. erewrite a_deploy_known by done.
    case_match; [done|]. apply yields_get. by rewrite Ey, bool_decide_eq_true_2. }
  unfold a_deploy, deploy_request. rewrite (ok_bind _ _ _ Eb). cbv zeta. rewrite (ok_bind _ _ _ Et).
  destruct (deploy_tick_ok body data t); [|done]. cbn [negb]. apply yields_get.
  rewrite bool_decide_eq_false_2 by (rewrite Ey; by intros [? ?]).
  case_bool_decide; [done|].
  destruct (ParseUint 64 (DeployBody.BRC20Decimal body)) as [dec|] eqn:Edec; [|done].
  some_bind. destruct (Z.ltb_spec 18 dec); [done|].
  assert (0 ≤ dec ≤ 18) as Hdec by (apply ParseUint_nonneg in Edec; lia).
  pose proof (deploy_amounts_yields t body data dec g L HR Hd Ey Hdec (eq_sym Ht)) as Hy.
  change (yields (deploy_amounts t body data dec) g
    (match deploy_token t body data dec with
     | Some (t, tok) => match AL.Tokens L !! t with Some _ => L | None => L <| AL.Tokens ::= <[t := tok]> |> end
     | None => L
     end)).
  destruct (deploy_token t body data dec) as [[t' tok]|] eqn:Etok; [|done].
  assert (t' = t) as -> by (unfold deploy_token in Etok;
    apply bind_Some in Etok as (? & _ & Etok); apply bind_Some in Etok as (? & _ & Etok); congruence).
  by rewrite (R_ticker_none _ _ _ HR Ey).
Qed.

(** ** Mint *)

Lemma mint_amount_ok t x p amt :
  tok_ok t x → p = TickInfo.Decimals x.2 → dec_ok p amt →
  ∃ m, mint_amount x.2 amt = Ret m ∧ dec_ok p m ∧
    dval m = Z.min (dval amt) (dval (TickInfo.Max x.2) - dval (TickInfo.TotalMinted x.2)).
Proof.
  intros (_ & _ & Hmax & _ & Htot & _) -> Hamt. unfold mint_amount.
  rewrite (Add_ok (TickInfo.Decimals x.2)) by done. unfold mbind, outcome_bind.
  rewrite (Cmp_ok (TickInfo.Decimals x.2)) by auto with dec. autorewrite with dec.
  destruct (Z.ltb_spec (dval (TickInfo.Max x.2)) (dval (TickInfo.TotalMinted x.2) + dval amt)).
  - rewrite (Sub_ok (TickInfo.Decimals x.2)) by done. eexists.
    split_and!; [done|auto with dec|]. autorewrite with dec. lia.
  - eexists. split_and!; [done..|]. autorewrite with dec. lia.
Qed.

Lemma add_if_ok p (b : bool) d m :
  dec_ok p d → dec_ok p m →
  ∃ d', (if b then Add d m else Ret d) = Ret d' ∧ dec_ok p d'.
Proof.
  intros Hd Hm. destruct b; [|by exists d]. rewrite (Add_ok p) by done.
  eexists. split; [done|auto with dec].
Qed.

Lemma mint_tinfo_ok now data m t x :
  tok_ok t x → dec_ok (TickInfo.Decimals x.2) m →
  ∃ tinfo', mint_tinfo now data m x.2 = Ret tinfo' ∧ tok_ok t (x.1, tinfo') ∧
    TickInfo.Decimals tinfo' = TickInfo.Decimals x.2 ∧
    tok_abs (x.1, tinfo') = tok_abs x <| ATok.Minted ::= Z.add (dval m) |>.
Proof.
  intros (Ht & Hp & Hmax & Hlim & Htot & Hc & H1h & H24 & Hb & deployed & Edep) Hm.
  set (p := TickInfo.Decimals x.2) in *. unfold mint_tinfo.
  rewrite (Add_ok p (TickInfo.TotalMinted x.2) m) by done. unfold mbind, outcome_bind. cbv beta iota zeta.
  rewrite (Cmp_ok p) by auto with dec. cbv beta iota.
  edestruct (add_if_ok p) as (d1 & -> & ?); [exact Hc|exact Hm|].
  edestruct (add_if_ok p) as (d2 & -> & ?); [exact H1h|exact Hm|].
  edestruct (add_if_ok p) as (d3 & -> & ?); [exact H24|exact Hm|].
  destruct (Decimal_String_ok p (dadd (TickInfo.TotalMinted x.2) m)) as [str ->]; [done|auto with dec|].
  rewrite Edep. cbn [deref_ptr].
  edestruct (add_if_ok p) as (d4 & -> & ?); [exact Hb|exact Hm|].
  eexists. split; [done|]. split.
  - refine (conj Ht (conj Hp (conj Hmax (conj Hlim (conj _ (conj _ (conj _ (conj _ (conj _ _))))))))); [|try done..].
    change (dec_ok p (dadd (TickInfo.TotalMinted x.2) m)). auto with dec.
  - split; [reflexivity|].
    transitivity (ATok.mk x.1 p (dval (TickInfo.Max x.2)) (dval (TickInfo.Limit x.2))
      (if TickInfo.SelfMint x.2 then Some (TickInfo_GetInscriptionId x.2) else None)
      (dval (dadd (TickInfo.TotalMinted x.2) m))); [reflexivity|].
    rewrite dval_dadd, Z.add_comm. reflexivity.
Qed.

Lemma credit_ok p data amt b :
  dec_ok p (Bal.AvailableBalance b) → dec_ok p (Bal.AvailableBalanceSafe b) → dec_ok p amt →
  ∃ safe, credit data amt b = Ret (b <| Bal.AvailableBalanceSafe := safe |>
    <| Bal.AvailableBalance := dadd (Bal.AvailableBalance b) amt |>) ∧ dec_ok p safe.
Proof.
  intros Ha Hs Hamt. unfold credit.
  edestruct (add_if_ok p) as (safe & -> & ?); [exact Hs|exact Hamt|].
  unfold mbind, outcome_bind. rewrite (Add_ok p) by done. by exists safe.
Qed.

(** Crediting keeps an object well formed. *)
Lemma credit_bal_ok valid p t a b safe amt :
  bal_ok valid p t a b → dec_ok p safe → dec_ok p amt →
  let b' := b <| Bal.AvailableBalanceSafe := safe |>
    <| Bal.AvailableBalance := dadd (Bal.AvailableBalance b) amt |> in
  bal_ok valid p t a b' ∧ bal_abs b' = bal_abs b <| ABal.Avail ::= Z.add (dval amt) |>.
Proof.
  intros (? & ? & ? & ? & ? & ? & Hv) Hs Hamt b'. split.
  - unfold b', bal_ok. rsimpl. split_and!; try done; auto with dec.
  - unfold b', bal_abs. rsimpl. f_equal. autorewrite with dec. lia.
Qed.

(** Updates through [update_balance] and [update_token] that [core] sees. *)
Lemma touch_balance g L t a l f :
  balance_at (core g) t a l L → (∀ b, bcore (f b) = bcore b) →
  frames (update_balance l f) g.
Proof.
  intros (HR & Hl & _) Hf. destruct (r_some _ _ HR _ _ _ Hl) as (b & x & Hb & _).
  destruct (core_heap_inv _ _ _ Hb) as (b' & Hb' & _). by eapply update_balance_frames.
Qed.

Lemma balance_heap_dec_ok g L t a l y :
  balance_at (core g) t a l L → C.tickers (core g) !! t = Some y →
  heap_dec_ok (TickInfo.Decimals y.2) l (core g).
Proof.
  intros (HR & Hl & _) Hy. destruct (r_some _ _ HR _ _ _ Hl) as (b & x & Hb & Hx & Hok & _).
  destruct Hok as (? & ? & ? & ? & ? & _). exists b. simplify_eq. done.
Qed.

(** Writing the mint state of a ticker while an object is at hand. *)
Lemma update_token_returns g L t a l y f :
  balance_at (core g) t a l L → G.InscriptionsTickerInfoMap g !! t = Some y →
  TokenInfo.Ticker (f y) = TokenInfo.Ticker y →
  TickInfo.Decimals (TokenInfo.Deploy (f y)) = TickInfo.Decimals (TokenInfo.Deploy y) →
  tok_ok t (tcore (f y)) →
  returns (update_token t f) g (λ _ g',
    balance_at (core g') t a l (L <| AL.Tokens ::= <[t := tok_abs (tcore (f y))]> |>) ∧
    G.InscriptionsTickerInfoMap g' !! t = Some (f y) ∧ C.heap (core g') = C.heap (core g) ∧
    C.valid (core g') = C.valid (core g)).
Proof.
  intros (HR & Hl & Hi) Hy Hf Hd Hok. unfold update_token. apply returns_modify.
  rewrite (core_update_token _ _ _ _ Hy). split_and!; [|..].
  - split; [|done]. eapply R_token; [done|by apply core_ticker_some|done|done].
  - change (alter f t (G.InscriptionsTickerInfoMap g) !! t = Some (f y)).
    by rewrite lookup_alter_eq, Hy.
  - done.
  - done.
Qed.

(** From an exhausted test that says no. *)
Lemma mint_valid_yields now t a l x info d data g L :
  balance_at (core g) t a l L → C.tickers (core g) !! t = Some x → data_ok data →
  Precition d = TickInfo.Decimals x.2 → positioned info data →
  yields (mint_valid now t x.2 info l (Some d) data) g (mint_step t a (tok_abs x) (Val d) L).
Proof.
  intros Hat Hx Hd Hprec Hinfo. pose proof (r_tok_ok _ _ (proj1 Hat) _ _ Hx) as Hok.
  set (p := TickInfo.Decimals x.2) in *. assert (0 ≤ p ≤ 18) as Hp by apply Hok.
  unfold mint_valid.
  destruct (mint_amount_ok t x p (Some d)) as (m & Em & Hm & Hmv); [done..|].
  eapply yields_lift_ret; [exact Em|].
  destruct (mint_tinfo_ok now data m t x) as (tinfo' & Et & Hok' & Hdec & Habs); [done..|].
  eapply yields_lift_ret; [exact Et|].
  destruct (core_ticker _ _ _ Hx) as (y & Hy & ->).
  apply yields_bind. eapply returns_mono; [by eapply (update_token_returns g L t a l y)|].
  intros [] g3 (Hat3 & Hy3 & _ & _). set (y3 := y <| _ := _ |> <| _ := _ |>) in *.
  change (tcore y3) with ((tcore y).1, tinfo') in Hat3. rewrite Habs in Hat3.
  destruct (Decimal_String_ok p m) as [minted' Eminted]; [done..|].
  eapply yields_lift_ret; [exact Eminted|]. cbv zeta.
  destruct (balance_at_inv _ _ _ _ _ _ Hat3 Hy3) as (b & Hb & Hab & Hbok).
  apply yields_bind. eapply load_balance_returns; [exact Hb|].
  assert (TickInfo.Decimals (TokenInfo.Deploy y3) = p) as Hp3 by exact Hdec. rewrite Hp3 in Hbok.
  destruct (credit_ok p data m b) as (safe & Ecredit & Hsafe); [apply Hbok..|done|].
  destruct (credit_bal_ok _ _ _ _ _ safe m Hbok Hsafe Hm) as [Hbok' Habs'].
  eapply yields_lift_ret; [exact Ecredit|]. apply yields_bind. eapply returns_mono.
  { eapply store_balance_returns; [exact Hat3|exact Hy3|]. by rewrite Hp3. }
  intros [] g4 (Hc4 & Hat4). rewrite Habs' in Hat4. apply yields_get.
  assert (mint_step t a (tok_abs (tcore y)) (Val d) L = set_abal t a
    (bal_abs b <| ABal.Avail ::= Z.add (dval m) |>)
    (L <| AL.Tokens ::= <[t := tok_abs (tcore y) <| ATok.Minted ::= Z.add (dval m) |>]> |>)) as ->.
  { unfold mint_step. rewrite <-Hab. cbv zeta.
    change (Z.min (Val d) _) with (Z.min (dval (Some d)) (dval (TickInfo.Max (tcore y).2) -
      dval (TickInfo.TotalMinted (tcore y).2))). by rewrite <-Hmv. }
  apply yields_frames; [apply Hat4|]. apply frames_when. intros _.
  eapply (mint_history_frames _ _ _ _ _ p); [by eapply (positioned_small _ data p)|done|done|].
  rewrite <-Hp3. apply (balance_heap_dec_ok _ _ _ _ _ (tcore y3) Hat4). rewrite Hc4.
  by apply core_ticker_some.
Qed.

Lemma mint_apply_yields now t y body d data g L :
  R (core g) L → G.InscriptionsTickerInfoMap g !! t = Some y → data_ok data →
  Precition d = TickInfo.Decimals (TokenInfo.Deploy y) →
  let tok := tok_abs (tcore y) in
  yields (mint_apply now t y body (Some d) data) g
    (if ATok.Max tok <=? ATok.Minted tok then L else mint_step t (Data.PkScript data) tok (Val d) L).
Proof.
  intros HR Hy Hd Hprec tok. destruct (R_ticker _ _ _ _ HR Hy) as [_ Hok].
  set (p := TickInfo.Decimals (TokenInfo.Deploy y)) in *.
  assert (0 ≤ p ≤ 18) as Hp by apply Hok.
  unfold mint_apply, GetUserTokenBalance. cbv zeta. rewrite (proj1 Hok : ToLower (TokenInfo.Ticker y) = t).
  apply yields_bind. eapply returns_mono; [by eapply balance_object_returns; [..|apply Hok]|].
  intros l g1 [Hat1 Hs1].
  apply yields_bind_frames; [by eapply touch_balance|]. intros g2 Hg2.
  rewrite <-Hg2 in Hat1, Hs1. clear g1 Hg2.
  destruct (Decimal_String_ok p (Some d)) as [minted ->]; [done..|].
  eapply yields_lift_ret; [done|].
  destruct Hok as (Ht & _ & Hmax & Hlim & Htot & Hrest).
  eapply yields_lift_ret; [by apply (Cmp_ok p)|]. apply yields_get. rewrite cmp_geb.
  change (dval (TickInfo.Max (TokenInfo.Deploy y))) with (ATok.Max tok).
  change (dval (TickInfo.TotalMinted (TokenInfo.Deploy y))) with (ATok.Minted tok).
  assert (C.tickers (core g2) !! t = Some (tcore y)) as Hy2.
  { destruct Hs1 as [-> _]. by apply core_ticker_some. }
  match goal with |- context [mint_history t false ?i l data] => set (info := i) end.
  destruct (ATok.Max tok <=? ATok.Minted tok).
  - apply yields_frames; [apply Hat1|]. apply frames_when. intros _.
    eapply mint_history_frames; [|done|exact Hp|exact (balance_heap_dec_ok _ _ _ _ _ _ Hat1 Hy2)].
    eapply (positioned_small _ data p); done.
  - apply (mint_valid_yields now t (Data.PkScript data) l (tcore y)); done.
Qed.

Lemma ProcessMint_yields now data g L :
  R (core g) L → data_ok data → yields (ProcessMint now data) g (a_mint data L).
Proof.
  intros HR Hd. unfold ProcessMint, a_mint, amount_request.
  destruct (Unmarshal_MintTransfer (Data.ContentBody data)) as [body|e|w] eqn:Eb;
    [|by rewrite (ok_bind_none _ _ _ eq_refl)|by destruct (Unmarshal_MintTransfer_no_panic _ _ Eb)].
  rewrite (ok_bind _ _ _ eq_refl).
  destruct (GetValidUniqueLowerTickerTicker (MintBody.BRC20Tick body)) as [t|e|w] eqn:Et;
    [|by rewrite (ok_bind_none _ _ _ eq_refl)
     |by unfold GetValidUniqueLowerTickerTicker in Et; case_match].
  rewrite (ok_bind _ _ _ eq_refl). apply yields_get.
  destruct (G.InscriptionsTickerInfoMap g !! t) as [y|] eqn:Ey;
    [|by rewrite (R_ticker_none _ _ _ HR Ey)].
  destruct (R_ticker _ _ _ _ HR Ey) as [-> Hok]. some_bind.
  set (tok := tok_abs (tcore y)). set (p := TickInfo.Decimals (TokenInfo.Deploy y)).
  assert (0 ≤ p ≤ 18) as Hp by apply Hok.
  change (ATok.Decimals tok) with p. cbv zeta.
  assert (parent_ok data tok = negb (TickInfo.SelfMint (TokenInfo.Deploy y) && negb (bool_decide
    (DecodeInscriptionFromBin (Data.Parent data) = TickInfo_GetInscriptionId (TokenInfo.Deploy y)))))
    as Hpar.
  { unfold parent_ok, tok. cbn. destruct (TickInfo.SelfMint _); [|done]. cbn. by rewrite negb_involutive. }
  destruct (NewDecimalFromString (MintBody.BRC20Amount body) p) as [d|e|w] eqn:Ed;
    [| |by destruct (NewDecimalFromString_no_panic _ _ w Hp Ed)].
  2:{ rewrite (parse_amount_error _ _ _ Ed). by destruct (_ && _). }
  destruct (parse_amount_ret _ _ _ Hp Ed) as [-> Hprec]. some_bind.
  destruct (TickInfo.SelfMint _ && _).
  { destruct (Val d <=? 0); [done|]. by rewrite Hpar. }
  eapply yields_lift_ret; [done|]. rewrite Sign_dval.
  destruct (Decimal_String_ok p (TickInfo.Limit (TokenInfo.Deploy y))) as [limit Elimit];
    [done|apply Hok|].
  destruct (Z.leb_spec (Val d) 0), (Z.leb_spec (Z.sgn (dval (Some d))) 0); simpl dval in *; try lia.
  { apply yields_ret_bind. cbn [orb]. by eapply yields_lift_ret; [exact Elimit|]. }
  rewrite Hpar. eapply yields_lift_ret; [by apply (Cmp_ok p); [|apply Hok]|].
  rewrite cmp_gtb. cbn [negb orb]. change (dval (TickInfo.Limit _)) with (ATok.Limit tok).
  change (dval (Some d)) with (Val d). destruct (ATok.Limit tok <? Val d).
  - by eapply yields_lift_ret; [exact Elimit|].
  - by apply mint_apply_yields.
Qed.

(** ** Inscribe transfer *)

Lemma lock_transfer_ok valid p t a key i b :
  bal_ok valid p t a b → valid !! key = None → dec_ok p (TickInfo.Amount i) →
  TickInfo.PkScript i = a → ToLower (TickInfo.Tick i) = t →
  ∃ b', lock_transfer key i b = Ret b' ∧ bal_ok (<[key := i]> valid) p t a b' ∧
    bal_abs b' = bal_abs b <| ABal.Avail ::= λ v, v - dval (TickInfo.Amount i) |>
                           <| ABal.Pending ::= <[key := dval (TickInfo.Amount i)]> |>.
Proof.
  intros (Hpk & Ht & Ha & Hs & Htr & Hlock & Hv) Hkey Hi Hia Hit. unfold lock_transfer.
  assert (Bal.ValidTransferMap b !! key = None) as Hnew.
  { destruct (Bal.ValidTransferMap b !! key) as [i'|] eqn:E; [|done].
    destruct (Hv _ _ E) as [? _]. congruence. }
  rewrite !(Sub_ok p) by done. unfold mbind, outcome_bind. rewrite (Add_ok p) by done.
  eexists. split; [done|]. split.
  - unfold bal_ok. rsimpl. split_and!; try done; auto with dec.
    + rewrite dval_dadd, Hlock. unfold locked, bal_abs. cbn. rewrite fmap_insert.
      rewrite msum_insert_new by by rewrite lookup_fmap, Hnew. lia.
    + intros k i'. destruct (decide (key = k)) as [<-|].
      * rewrite lookup_insert_eq. intros [= <-]. by rewrite lookup_insert_eq.
      * rewrite !lookup_insert_ne by done. apply Hv.
  - unfold bal_abs. rsimpl. by rewrite fmap_insert, dval_dsub.
Qed.

(** Locking: the object and the map of valid transfers change together. *)
Lemma lock_yields g L t a l y key i :
  balance_at (core g) t a l L → G.InscriptionsTickerInfoMap g !! t = Some y →
  AL.Transfers L !! key = None → info_small i →
  dec_ok (TickInfo.Decimals (TokenInfo.Deploy y)) (TickInfo.Amount i) →
  TickInfo.PkScript i = a → ToLower (TickInfo.Tick i) = t →
  yields (b ← load_balance l; b ← lift (lock_transfer key i b); store_balance l b ;;
      modify (λ g, g <| G.InscriptionsValidTransferMap ::= <[key := i]> |>
        <| G.InscriptionsValidBRC20DataMap ::= <[key := OwnInfo (TickInfo.Data i)]> |>)) g
    (lock_step t a key (dval (TickInfo.Amount i)) L).
Proof.
  intros Hat Hy Hkey Hsmall Hdec Hia Hit.
  destruct (balance_at_inv _ _ _ _ _ _ Hat Hy) as (b & Hb & Hab & Hbok).
  destruct Hat as (HR & Hl & Hi).
  assert (C.valid (core g) !! key = None) as Hkey'.
  { rewrite (r_transfers _ _ HR), lookup_fmap in Hkey. by apply fmap_None in Hkey. }
  destruct (lock_transfer_ok _ _ _ _ key i _ Hbok) as (b' & Elock & Hbok' & Habs); [done..|].
  apply yields_bind. eapply load_balance_returns; [exact Hb|].
  eapply yields_lift_ret; [exact Elock|]. apply spec_bind, spec_modify, spec_modify. split; [done|].
  unfold lock_step. rewrite Hab, <-Habs.
  pose proof (R_valid _ _ _ _ HR Hkey' Hsmall) as HR'. rewrite Hit, Hia in HR'.
  set (c := core g <| C.valid ::= <[key := i]> |>) in *.
  pose proof (R_store c _ t a l (bcore b') (bcore b) (tcore y) HR' Hl
    (core_ticker_some _ _ _ Hy) (core_heap _ _ _ Hb) Hbok' Hi) as HR2.
  match goal with |- R ?c' _ => assert (c' = c <| C.heap ::= <[l := bcore b']> |>) as -> end; [|exact HR2].
  unfold core, c. rsimpl. by rewrite fmap_insert.
Qed.

(** Find or make the object, list it under its ticker, set its height. *)
Lemma yields_balance_object g L L' t ticker a y f (k : loc → Idx unit) :
  R (core g) L → G.InscriptionsTickerInfoMap g !! t = Some y → ToLower ticker = t →
  (∀ b, bcore (f b) = bcore b) →
  (∀ l g' y' b, balance_at (core g') t a l L → G.InscriptionsTickerInfoMap g' !! t = Some y' →
     tcore y' = tcore y → G.Balances g' !! l = Some b → abal L t a = bal_abs b →
     bal_ok (C.valid (core g')) (TickInfo.Decimals (TokenInfo.Deploy y)) t a b →
     yields (k l) g' L') →
  yields (l ← find_or_new_balance t ticker a; set_token_user t a l ;; update_balance l f ;; k l) g L'.
Proof.
  intros HR Hy Ht Hf Hk.
  apply yields_bind. eapply returns_mono; [by eapply find_or_new_balance_returns|].
  intros l g1 (HR1 & Hl1 & Hs1).
  destruct (core_ticker g1 t (tcore y)) as (y1 & Hy1 & _).
  { destruct Hs1 as [-> _]. by apply core_ticker_some. }
  apply yields_bind. eapply returns_mono; [by eapply set_token_user_returns|].
  intros [] g2 [Hat2 Hs2].
  apply yields_bind_frames; [by eapply touch_balance|]. intros g3 Hg3. rewrite <-Hg3 in Hat2, Hs2.
  destruct (core_ticker g3 t (tcore y)) as (y3 & Hy3 & Ey3).
  { destruct Hs2 as [-> _], Hs1 as [-> _]. by apply core_ticker_some. }
  destruct (balance_at_inv _ _ _ _ _ _ Hat2 Hy3) as (b & Hb & Hab & Hbok).
  eapply Hk; try done. by injection Ey3 as _ ->.
Qed.

Lemma inscribe_transfer_apply_yields t y body d data g L :
  R (core g) L → G.InscriptionsTickerInfoMap g !! t = Some y → data_ok data →
  Precition d = TickInfo.Decimals (TokenInfo.Deploy y) →
  AL.Transfers L !! Data.CreateIdxKey data = None →
  let a := Data.PkScript data in
  yields (inscribe_transfer_apply t y body (Some d) data) g
    (if ABal.Avail (abal L t a) <? Val d then L else lock_step t a (Data.CreateIdxKey data) (Val d) L).
Proof.
  intros HR Hy Hd Hprec Hkey a. destruct (R_ticker _ _ _ _ HR Hy) as [_ Hok].
  set (p := TickInfo.Decimals (TokenInfo.Deploy y)) in *.
  assert (0 ≤ p ≤ 18) as Hp by apply Hok. assert (ToLower (TokenInfo.Ticker y) = t) as Ht by apply Hok.
  unfold inscribe_transfer_apply. cbv zeta. fold a. set (key := Data.CreateIdxKey data) in *.
  apply (yields_balance_object _ L _ _ _ _ y); [done..|].
  intros l g3 y3 b Hat Hy3 Ey3 Hb Hab Hbok. fold p in Hbok.
  destruct Hok as (_ & _ & _ & _ & _ & _ & _ & _ & _ & deployed & Edep). cbn in Edep. rewrite Edep.
  apply (yields_lift_ret (Ret deployed) deployed); [done|].
  assert (TickInfo.Decimals (TokenInfo.Deploy y3) = p) as Hp3.
  { injection Ey3 as _ E. unfold p. by rewrite <-E. }
  match goal with |- context [lock_transfer key ?i _] => set (info := i) end.
  assert (TickInfo.Amount info = Some d) as Eamt by (destruct d; reflexivity).
  assert (info_small info) as Hsmall.
  { apply (positioned_small _ data p); [by repeat split|done|done|by rewrite Eamt]. }
  apply yields_bind. eapply load_balance_returns; [exact Hb|].
  eapply yields_lift_ret; [apply (Cmp_ok p); [apply Hbok|by rewrite Eamt]|].
  apply yields_get. rewrite cmp_ltb, Eamt. apply yields_bind_frames.
  { apply frames_when. intros _. apply (inscribe_transfer_history_frames _ _ _ _ _ p); [done..|].
    rewrite <-Hp3. apply (balance_heap_dec_ok _ _ _ _ _ (tcore y3) Hat). by apply core_ticker_some. }
  intros g4 Hg4. rewrite Hab. change (ABal.Avail (bal_abs b)) with (dval (Bal.AvailableBalance b)).
  rewrite <-Hg4 in Hat, Hbok. change (dval (Some d)) with (Val d).
  case_match.
  - apply spec_modify. split; [done|]. change (R (core g4 <| C.invalid ::= <[key := info]> |>) L).
    apply R_invalid; [apply Hat|done].
  - destruct (core_ticker g4 t (tcore y3)) as (y4 & Hy4 & Ey4).
    { rewrite Hg4. by apply core_ticker_some. }
    apply (lock_yields g4 L t a l y4); try done. rewrite Eamt. simpl.
    injection Ey4 as _ E4. by rewrite <-E4, Hp3.
Qed.

Lemma ProcessInscribeTransfer_yields data g L :
  R (core g) L → data_ok data → AL.Transfers L !! Data.CreateIdxKey data = None →
  yields (ProcessInscribeTransfer data) g (a_inscribe_transfer data L).
Proof.
  intros HR Hd Hkey. unfold ProcessInscribeTransfer, a_inscribe_transfer, amount_request.
  destruct (Unmarshal_MintTransfer (Data.ContentBody data)) as [body|e|w] eqn:Eb;
    [|by rewrite (ok_bind_none _ _ _ eq_refl)|by destruct (Unmarshal_MintTransfer_no_panic _ _ Eb)].
  rewrite (ok_bind _ _ _ eq_refl).
  destruct (GetValidUniqueLowerTickerTicker (MintBody.BRC20Tick body)) as [t|e|w] eqn:Et;
    [|by rewrite (ok_bind_none _ _ _ eq_refl)
     |by unfold GetValidUniqueLowerTickerTicker in Et; case_match].
  rewrite (ok_bind _ _ _ eq_refl). apply yields_get.
  destruct (G.InscriptionsTickerInfoMap g !! t) as [y|] eqn:Ey;
    [|by rewrite (R_ticker_none _ _ _ HR Ey)].
  destruct (R_ticker _ _ _ _ HR Ey) as [-> Hok]. some_bind.
  set (tok := tok_abs (tcore y)). set (p := TickInfo.Decimals (TokenInfo.Deploy y)).
  assert (0 ≤ p ≤ 18) as Hp by apply Hok. change (ATok.Decimals tok) with p. cbv zeta.
  destruct (NewDecimalFromString (MintBody.BRC20Amount body) p) as [d|e|w] eqn:Ed;
    [|by rewrite (parse_amount_error _ _ _ Ed)|by destruct (NewDecimalFromString_no_panic _ _ w Hp Ed)].
  destruct (parse_amount_ret _ _ _ Hp Ed) as [-> Hprec]. some_bind. rewrite Sign_dval.
  destruct (Z.leb_spec (Val d) 0), (Z.leb_spec (Z.sgn (dval (Some d))) 0); simpl dval in *; try lia;
    [done|].
  eapply yields_lift_ret; [by apply (Cmp_ok p); [|apply Hok]|].
  rewrite cmp_gtb. cbn [negb orb]. change (dval (TickInfo.Max _)) with (ATok.Max tok).
  change (dval (Some d)) with (Val d). destruct (ATok.Max tok <? Val d); [done|].
  by apply inscribe_transfer_apply_yields.
Qed.

(** ** Transfer *)

Lemma unlock_transfer_ok valid p t a key i b :
  bal_ok valid p t a b → Bal.ValidTransferMap b !! key = Some i →
  ∃ b', unlock_transfer key (TickInfo.Amount i) b = Ret b' ∧ bal_ok valid p t a b' ∧
    bal_abs b' = bal_abs b <| ABal.Pending ::= delete key |>.
Proof.
  intros (Hpk & Ht & Ha & Hs & Htr & Hlock & Hv) Hkey. unfold unlock_transfer.
  destruct (Hv _ _ Hkey) as (_ & _ & _ & Hi).
  rewrite (Sub_ok p) by done. eexists. split; [done|]. split.
  - unfold bal_ok. rsimpl. split_and!; try done; auto with dec.
    + rewrite dval_dsub, Hlock. unfold locked, bal_abs. cbn. rewrite fmap_delete.
      rewrite (msum_delete _ _ _ (dval (TickInfo.Amount i))); [done|]. by rewrite lookup_fmap, Hkey.
    + intros k i' [_ Hk]%lookup_delete_Some. by apply Hv.
  - unfold bal_abs. rsimpl. by rewrite fmap_delete.
Qed.

(** Burning writes the ticker, and nothing the ledger reads. *)
Lemma burn_returns g L t a l y burned :
  balance_at (core g) t a l L → G.InscriptionsTickerInfoMap g !! t = Some y →
  dec_ok (TickInfo.Decimals (TokenInfo.Deploy y)) burned →
  returns (update_deploy t (λ t, t <| TickInfo.Burned := burned |>)) g (λ _ g',
    balance_at (core g') t a l L ∧ ∃ y', G.InscriptionsTickerInfoMap g' !! t = Some y' ∧
      TickInfo.Decimals (TokenInfo.Deploy y') = TickInfo.Decimals (TokenInfo.Deploy y)).
Proof.
  intros Hat Hy Hb. destruct (R_ticker _ _ _ _ (proj1 Hat) Hy) as [HL Hok].
  unfold update_deploy. eapply returns_mono.
  - eapply update_token_returns; [exact Hat|exact Hy|done|done|].
    destruct Hok as (O1 & O2 & O3 & O4 & O5 & O6 & O7 & O8 & O9 & O10).
    exact (conj O1 (conj O2 (conj O3 (conj O4 (conj O5 (conj O6 (conj O7 (conj O8 (conj Hb O10))))))))).
  - intros _ g' (Hat' & Hy' & _). split; [|by eexists].
    assert (L <| AL.Tokens ::= <[t := tok_abs (tcore y)]> |> = L) as E.
    { destruct L as [T B S]. unfold field_update. cbn in *. by rewrite (insert_id T). }
    rewrite <-E. exact Hat'.
Qed.

Lemma transfer_receive_returns g L t info receiver data y :
  R (core g) L → G.InscriptionsTickerInfoMap g !! t = Some y → ToLower (TickInfo.Tick info) = t →
  info_small info → data_ok data →
  dec_ok (TickInfo.Decimals (TokenInfo.Deploy y)) (TickInfo.Amount info) →
  returns (transfer_receive t info receiver data) g (λ _ g', R (core g') (set_abal t receiver
    (abal L t receiver <| ABal.Avail ::= Z.add (dval (TickInfo.Amount info)) |>) L)).
Proof.
  intros HR Hy Ht Hsmall Hd Hamt. destruct (R_ticker _ _ _ _ HR Hy) as [_ Hok].
  set (p := TickInfo.Decimals (TokenInfo.Deploy y)) in *. assert (0 ≤ p ≤ 18) as Hp by apply Hok.
  unfold transfer_receive. cbv zeta. apply returns_bind, returns_get, returns_bind.
  unfold GetUserTokenBalance. cbv zeta. rewrite Ht.
  eapply returns_mono; [by eapply balance_object_returns|]. intros l g1 [Hat1 Hs1].
  destruct (core_ticker g1 t (tcore y)) as (y1 & Hy1 & [= _ Ey1]).
  { destruct Hs1 as [-> _]. by apply core_ticker_some. }
  assert (TickInfo.Decimals (TokenInfo.Deploy y1) = p) as Hp1 by (by rewrite <-Ey1).
  destruct (balance_at_inv _ _ _ _ _ _ Hat1 Hy1) as (b & Hb & Hab & Hbok).
  rewrite Hp1 in Hbok. apply returns_bind. eapply load_balance_returns; [exact Hb|].
  change (bal_ok (C.valid (core g1)) p t receiver (b <| Bal.UpdateHeight := Data.Height data |>)) in Hbok.
  change (abal L t receiver = bal_abs (b <| Bal.UpdateHeight := Data.Height data |>)) in Hab.
  set (b1 := b <| Bal.UpdateHeight := Data.Height data |>) in *.
  destruct (credit_ok p data (TickInfo.Amount info) b1) as (safe & Ecredit & Hsafe); [apply Hbok..|done|].
  destruct (credit_bal_ok _ _ _ _ _ safe _ Hbok Hsafe Hamt) as [Hbok' Habs'].
  apply returns_bind. eapply returns_lift; [exact Ecredit|].
  apply returns_bind. eapply returns_mono.
  { eapply store_balance_returns; [exact Hat1|exact Hy1|]. by rewrite Hp1. }
  intros [] g2 (Hc2 & Hat2). rewrite Habs', <-Hab in Hat2. set (L' := set_abal t receiver _ L) in *.
  destruct (core_ticker g2 t (tcore y1)) as (y2 & Hy2 & [= _ Ey2]).
  { rewrite Hc2. by apply core_ticker_some. }
  assert (TickInfo.Decimals (TokenInfo.Deploy y2) = p) as Hp2 by (by rewrite <-Ey2).
  apply returns_bind. eapply (returns_mono _ _ (λ _ g', balance_at (core g') t receiver l L' ∧
    ∃ y', G.InscriptionsTickerInfoMap g' !! t = Some y' ∧ TickInfo.Decimals (TokenInfo.Deploy y') = p)).
  - destruct (is_burn receiver); [|by apply returns_ret; eauto].
    apply returns_bind, returns_get. rewrite Hy2. apply returns_bind, returns_ret.
    destruct (R_ticker _ _ _ _ (proj1 Hat2) Hy2) as [_ Hok2].
    apply returns_bind. eapply returns_lift.
    { apply (Add_ok p); [|done]. rewrite <-Hp2. apply Hok2. }
    rewrite <-Hp2. eapply burn_returns; [done|done|].
    apply dadd_dec_ok; [apply Hok2|by rewrite Hp2].
  - intros [] g3 (Hat3 & y3 & Hy3 & Hp3). apply returns_when; [|intros _; apply Hat3].
    intros _. eapply returns_mono.
    { apply (move_history_frames false true info l receiver data p); [done..|].
      rewrite <-Hp3. apply (balance_heap_dec_ok _ _ _ _ _ (tcore y3) Hat3). by apply core_ticker_some. }
    intros [] g4 Hg4. simpl in Hg4. rewrite Hg4. apply Hat3.
Qed.

Lemma transfer_apply_returns g L t info sender receiver l data y b :
  balance_at (core g) t sender l L → G.InscriptionsTickerInfoMap g !! t = Some y →
  ToLower (TickInfo.Tick info) = t → info_small info → data_ok data →
  G.Balances g !! l = Some b → Bal.ValidTransferMap b !! Data.CreateIdxKey data = Some info →
  returns (transfer_apply t info l sender receiver data) g (λ _ g', R (core g')
    (move_step t sender receiver (Data.CreateIdxKey data) (dval (TickInfo.Amount info)) L)).
Proof.
  intros Hat Hy Ht Hsmall Hd Hb Hkey. set (p := TickInfo.Decimals (TokenInfo.Deploy y)).
  assert (0 ≤ p ≤ 18) as Hp by (destruct (R_ticker _ _ _ _ (proj1 Hat) Hy) as [_ Hok]; apply Hok).
  destruct (balance_at_inv _ _ _ _ _ _ Hat Hy) as (b' & Hb' & Hab & Hbok). simplify_eq.
  fold p in Hbok. assert (dec_ok p (TickInfo.Amount info)) as Hamt.
  { destruct Hbok as (_ & _ & _ & _ & _ & _ & Hv). by apply (Hv _ _ Hkey). }
  destruct (unlock_transfer_ok _ _ _ _ _ _ _ Hbok Hkey) as (b1 & E1 & Hbok1 & Habs1).
  unfold transfer_apply. apply returns_bind. eapply load_balance_returns; [exact Hb|].
  apply returns_bind. eapply returns_lift; [exact E1|].
  apply returns_bind. eapply returns_mono; [by eapply store_balance_returns|].
  intros [] g1 (Hc1 & Hat1). rewrite Habs1, <-Hab in Hat1.
  apply returns_bind, returns_get, returns_bind.
  destruct (core_ticker g1 (ToLower (TickInfo.Tick info)) (tcore y)) as (y1 & Hy1 & [= _ Ey1]).
  { rewrite Hc1. by apply core_ticker_some. }
  eapply returns_mono.
  { apply frames_when. intros _. apply (move_history_frames true true info l sender data p); [done..|].
    unfold p. apply (balance_heap_dec_ok _ _ _ _ _ (tcore y) Hat1).
    rewrite Hc1. by apply core_ticker_some. }
  intros [] g2 Hg2. simpl in Hg2. rewrite <-Hg2 in Hat1.
  destruct (core_ticker g2 (ToLower (TickInfo.Tick info)) (tcore y1)) as (y2 & Hy2 & [= _ Ey2]).
  { rewrite Hg2. by apply core_ticker_some. }
  eapply transfer_receive_returns; [apply Hat1|exact Hy2|done..|].
  by rewrite <-Ey2, <-Ey1.
Qed.

(** On every outcome the new state represents [L]. *)
Definition leads {A} (m : Idx A) (g : BRC20ModuleIndexer) (L : ALedger) : Prop :=
  spec m g (λ _ g', R (core g') L).

Lemma leads_bind_frames (m : Idx unit) (k : unit → Idx unit) g L :
  frames m g → (∀ g', core g' = core g → leads (k tt) g' L) → leads (m ≫= k) g L.
Proof.
  intros Hm Hk. apply spec_bind_returns. eapply returns_mono; [exact Hm|].
  intros [] g' Hg'. by apply Hk.
Qed.
Lemma leads_frames m g L : R (core g) L → frames m g → leads m g L.
Proof.
  intros HR Hm. apply spec_returns. eapply returns_mono; [exact Hm|].
  intros [] g' Hg. by rewrite Hg.
Qed.
Lemma leads_preserves (m : Idx unit) g L : R (core g) L → preserves m → leads m g L.
Proof. intros HR Hm. unfold leads, spec. by rewrite Hm. Qed.

(** A transfer inscription whose object is gone or empty has nothing to pay. *)
Lemma a_transfer_dead data L t sender :
  AL.Transfers L !! Data.CreateIdxKey data = Some (t, sender) →
  ABal.Pending (abal L t sender) !! Data.CreateIdxKey data = None → a_transfer data L = L.
Proof. intros E1 E2. unfold a_transfer. by rewrite E1, E2. Qed.

Lemma at_object g L t a l :
  R (core g) L → at_ (core g) t a = Some l →
  ∃ b y, G.Balances g !! l = Some b ∧ G.InscriptionsTickerInfoMap g !! t = Some y ∧
    let p := TickInfo.Decimals (TokenInfo.Deploy y) in
    0 ≤ p ≤ 18 ∧ bal_ok (C.valid (core g)) p t a b ∧ abal L t a = bal_abs b ∧
    heap_dec_ok p l (core g).
Proof.
  intros HR Hl. destruct (r_some _ _ HR _ _ _ Hl) as (b & x & Hb & Hx & Hok & Hab).
  destruct (core_heap_inv _ _ _ Hb) as (b' & Hb' & ->).
  destruct (core_ticker _ _ _ Hx) as (y & Hy & ->). exists b', y.
  destruct (r_tok_ok _ _ HR _ _ Hx) as (_ & Hp & _). pose proof Hok as (? & ? & ? & ? & ? & _).
  do 5 (split; [done|]). by exists (bcore b').
Qed.

(** Every way a transfer can fail leaves nothing to pay in the ledger. *)
Lemma a_transfer_no_object data L g info :
  R (core g) L → C.valid (core g) !! Data.CreateIdxKey data = Some info →
  at_ (core g) (ToLower (TickInfo.Tick info)) (TickInfo.PkScript info) = None →
  a_transfer data L = L.
Proof.
  intros HR Hv Hn. eapply a_transfer_dead.
  - by rewrite (r_transfers _ _ HR), lookup_fmap, Hv.
  - by rewrite (r_none _ _ HR) by done.
Qed.

(** With the sender's object at hand, and a valid inscription. *)
Lemma transfer_valid_leads g L l info data (rest : Idx unit) b y :
  let t := ToLower (TickInfo.Tick info) in
  let sender := TickInfo.PkScript info in
  let key := Data.CreateIdxKey data in
  let receiver := if Data.Satoshi data =? 0 then sender else Data.PkScript data in
  let data' := if Data.Satoshi data =? 0 then data <| Data.PkScript := sender |> else data in
  R (core g) L → ledger_inv L → data_ok data' → info_small info →
  C.valid (core g) !! key = Some info → at_ (core g) t sender = Some l →
  G.Balances g !! l = Some b → G.InscriptionsTickerInfoMap g !! t = Some y →
  preserves rest →
  leads (if bool_decide (Bal.ValidTransferMap b !! Data.CreateIdxKey data' = None)
         then throw "transfer, invalid transfer"
         else transfer_apply t info l sender receiver data' ;; rest) g (a_transfer data L).
Proof.
  intros t sender key receiver data' HR HL Hd Hsmall Hv Hl Hb Hy Hrest.
  assert (Data.CreateIdxKey data' = key) as Hkey by (unfold data'; by case_match).
  assert (AL.Transfers L !! key = Some (t, sender)) as Htr.
  { by rewrite (r_transfers _ _ HR), lookup_fmap, Hv. }
  destruct (at_object _ _ _ _ _ HR Hl) as (b0 & y0 & Hb0 & Hy0 & Hp & Hbok & Hab & _).
  assert (b0 = b) as -> by congruence. assert (y0 = y) as -> by congruence.
  rewrite Hkey. destruct (Bal.ValidTransferMap b !! key) as [i|] eqn:Ei.
  - rewrite bool_decide_eq_false_2 by done.
    destruct Hbok as (_ & _ & _ & _ & _ & _ & Hvm). destruct (Hvm _ _ Ei) as (Hi & _).
    assert (i = info) as -> by congruence.
    assert (ABal.Pending (abal L t sender) !! key = Some (dval (TickInfo.Amount info))) as Hp'.
    { rewrite Hab. cbn. by rewrite lookup_fmap, Ei. }
    assert (a_transfer data L = move_step t sender receiver key (dval (TickInfo.Amount info)) L) as ->.
    { unfold a_transfer. fold key. by rewrite Htr, Hp'. }
    assert (holding (abal L t sender) ≠ 0) as Hh.
    { unfold holding. pose proof (inv_avail _ HL t sender).
      pose proof (inv_pending _ HL _ _ _ _ Hp').
      assert (dval (TickInfo.Amount info) ≤ locked (abal L t sender)); [|lia].
      unfold locked. apply (msum_ge_elem (λ _ v, v) _ key); [|done].
      intros k v Hk. apply (inv_pending _ HL) in Hk. lia. }
    pose proof (r_complete _ _ HR _ _ _ Hl Hh) as Hidx.
    apply spec_bind_returns. eapply returns_mono.
    { eapply (transfer_apply_returns g L t info sender receiver l data'); try done. by rewrite Hkey. }
    intros [] g' Hg'. rewrite Hkey in Hg'. by apply leads_preserves.
  - rewrite bool_decide_eq_true_2 by done.
    erewrite a_transfer_dead; [exact HR|exact Htr|]. rewrite Hab. cbn.
    fold key. by rewrite lookup_fmap, Ei.
Qed.

Lemma ProcessTransfer_leads data info inv g L :
  R (core g) L → ledger_inv L → data_ok data →
  GetTransferInfoByKey (Data.CreateIdxKey data) g = (Some info, inv) →
  leads (ProcessTransfer data info inv) g (a_transfer data L).
Proof.
  intros HR HL Hd Hinfo. unfold ProcessTransfer. cbv zeta.
  set (t := ToLower (TickInfo.Tick info)). set (sender := TickInfo.PkScript info).
  set (data' := if Data.Satoshi data =? 0 then data <| Data.PkScript := sender |> else data).
  set (key := Data.CreateIdxKey data) in *.
  assert (info_small info ∧ (inv = false → C.valid (core g) !! key = Some info) ∧
    (inv = true → a_transfer data L = L)) as (Hsmall & Hval & Hinv).
  { unfold GetTransferInfoByKey in Hinfo.
    destruct (G.InscriptionsValidTransferMap g !! key) as [i|] eqn:E; simplify_eq.
    - split_and!; [by eapply (r_valid _ _ HR key)|done|done].
    - split_and!; [by eapply (r_invalid _ _ HR key)|done|]. intros _. unfold a_transfer. fold key.
      rewrite (r_transfers _ _ HR), lookup_fmap. cbn. by rewrite E. }
  assert (at_ (core g) t sender = None → a_transfer data L = L) as Hdead.
  { intros Hn. destruct inv; [by apply Hinv|]. exact (a_transfer_no_object data L g info HR (Hval eq_refl) Hn). }
  assert (data_ok data') as Hd'.
  { unfold data'. destruct (Data.Satoshi data =? 0); [|done].
    destruct Hd as (?&?&?&?&?&?&?&?&?&?), Hsmall as (?&?&?&?&?&?&?&?).
    unfold data_ok. by split_and!. }
  apply spec_bind, spec_get. simpl.
  destruct (G.InscriptionsTickerInfoMap g !! t) as [y|] eqn:Ey.
  2:{ rewrite Hdead; [exact HR|]. destruct (at_ (core g) t sender) as [l|] eqn:E; [|done].
      destruct (at_object _ _ _ _ _ HR E) as (? & ? & _ & ? & _). congruence. }
  apply leads_bind_frames.
  { apply frames_when. intros _. by apply transfer_history_frames. }
  intros g1 Hg1. rewrite <-Hg1 in HR, Hval, Hdead.
  assert (at_ (core g1) t sender = G.UserTokensBalanceData g !! sender ≫= lookup t) as Hat.
  { by rewrite Hg1. }
  destruct (G.UserTokensBalanceData g !! sender) as [us|]; [|by rewrite Hdead].
  simpl in Hat. destruct (us !! t) as [l|]; [|by rewrite Hdead].
  destruct (at_object _ _ _ _ _ HR Hat) as (b & y1 & Hb & Hy1 & _).
  apply leads_bind_frames; [by eapply update_balance_frames|]. intros g2 Hg2.
  rewrite <-Hg2 in HR, Hval, Hat, Hdead.
  destruct (at_object _ _ _ _ _ HR Hat) as (b2 & y2 & Hb2 & Hy2 & Hp & Hbok & Hab & Hheap).
  destruct inv.
  - rewrite Hinv by done. apply leads_frames; [done|]. apply frames_when. intros _.
    by eapply move_history_frames.
  - apply spec_bind_returns. eapply load_balance_returns; [exact Hb2|].
    apply (transfer_valid_leads g2 L l info data _ b2 y2); try done; [by apply Hval|].
    case_match; [apply preserves_ret|apply transfer_modules_frame].
Qed.
End refinement.
