(* ===== verification/Samples.v ===== *)
(** * Sample inscriptions for the witnesses

    Concrete parameters of the model and the inscriptions of a short run: a deploy,
    a mint, a transfer inscription and its move. *)
From S2P Require Import Prelude GoStd Decimal Script Utils Json Model History Swap Indexer.

(** ASCII tickers, keys visited in list order, the default configuration. *)
Definition sample_unicode : GoUnicode := {| unicode_ToLower := id |}.
Definition sample_order : MapOrder :=
  {| map_order := id; map_order_perm := λ l, reflexivity l |}.
Definition sample_config : Config := Conf.default_conf.

Definition sample_txid (n : Z) : string := b2s (replicate 32 (byte_of_Z n)).
(** Transaction [n]: the inscription [key] with members [body] at [pkScript]. *)
Definition sample_data (isTransfer : bool) (n : Z) (pkScript key : string)
    (body : list (string * string)) : InscriptionBRC20Data :=
  Data.mk isTransfer (sample_txid n) 0 0 0 546 pkScript 0 n []
    (object_text (map (λ p, (s2b p.1, s2b p.2)) body)) key 800000 1 1700000000 1 "".

Definition deploy_ordi : InscriptionBRC20Data := sample_data false 1 "alice" "k1"
  [("p", "brc-20"); ("op", "deploy"); ("tick", "ordi"); ("max", "21000000"); ("lim", "1000")].
Definition mint_ordi : InscriptionBRC20Data := sample_data false 2 "alice" "k2"
  [("p", "brc-20"); ("op", "mint"); ("tick", "ORDI"); ("amt", "1000")].
Definition inscribe_ordi : InscriptionBRC20Data := sample_data false 3 "alice" "k3"
  [("p", "brc-20"); ("op", "transfer"); ("tick", "ordi"); ("amt", "300.5")].
Definition move_ordi : InscriptionBRC20Data := sample_data true 4 "bob" "k3" [].
