(* ===== verification/LedgerRun.v ===== *)
(** * Runs of the token ledger

    Sequences of inscriptions and moves handled one after the other, from the state
    [Init] sets up, and what holds of every state they reach. *)
From S2P Require Import Prelude GoStd Decimal Script Utils Json Model History Swap Indexer CondApprove Ledger LedgerSpec LedgerFrame LedgerRep LedgerProof Samples.

Section run.
Context `{GoUnicode, MapOrder, Config}.

(** One event of the ledger; [Move] is the first move of an inscription. *)
Inductive ledger_op : Type :=
  | Deploy (data : InscriptionBRC20Data)
  | Mint (now : Z) (data : InscriptionBRC20Data)
  | InscribeTransfer (data : InscriptionBRC20Data)
  | Move (data : InscriptionBRC20Data).

Definition op_data (o : ledger_op) : InscriptionBRC20Data :=
  match o with Deploy d | Mint _ d | InscribeTransfer d | Move d => d end.

(** The handler the event is dispatched to. *)
Definition ledger_step (o : ledger_op) : Idx unit :=
  match o with
  | Deploy data => ProcessDeploy data
  | Mint now data => ProcessMint now data
  | InscribeTransfer data => ProcessInscribeTransfer data
  | Move data =>
    g ← get;
    match GetTransferInfoByKey (Data.CreateIdxKey data) g with
    | (Some transferInfo, isInvalid) => ProcessTransfer data transferInfo isInvalid
    | (None, _) => mret tt
    end
  end.

Definition a_step (o : ledger_op) (L : ALedger) : ALedger :=
  match o with
  | Deploy data => a_deploy data L
  | Mint _ data => a_mint data L
  | InscribeTransfer data => a_inscribe_transfer data L
  | Move data => a_transfer data L
  end.
Definition a_run (ops : list ledger_op) : ALedger := foldl (λ L o, a_step o L) empty_ledger ops.

(** The keys the transfer inscriptions of a run were given. *)
Definition transfer_keys (ops : list ledger_op) : list string :=
  omap (λ o, match o with InscribeTransfer d => Some (Data.CreateIdxKey d) | _ => None end) ops.

(** An event the indexer can meet after [ops]: sizes in range, and an inscription
    has a key of its own. *)
Definition op_ok (ops : list ledger_op) (o : ledger_op) : Prop :=
  data_ok (op_data o) ∧
  match o with InscribeTransfer d => Data.CreateIdxKey d ∉ transfer_keys ops | _ => True end.

(** States reached by events that did not panic; an error is logged and the run goes on. *)
Inductive reached : list ledger_op → BRC20ModuleIndexer → Prop :=
  | reached_init : reached [] Init
  | reached_step ops g o r g' :
      reached ops g → op_ok ops o → ledger_step o g = (r, g') → no_panic r →
      reached (ops ++ [o]) g'.

Lemma yields_inv {A} (m : Idx A) g L :
  yields m g L → ∃ r g', m g = (r, g') ∧ (∀ w, r ≠ Panic w) ∧ R (core g') L.
Proof. unfold yields, spec. destruct (m g) as [r g']. intros [Hr HR]. by exists r, g'. Qed.

Lemma a_step_transfers o L k :
  is_Some (AL.Transfers (a_step o L) !! k) →
  is_Some (AL.Transfers L !! k) ∨ ∃ d, o = InscribeTransfer d ∧ Data.CreateIdxKey d = k.
Proof.
  destruct o as [d|now d|d|d]; simpl.
  - unfold a_deploy. repeat case_match; auto.
  - unfold a_mint. repeat case_match; auto.
  - unfold a_inscribe_transfer. repeat case_match; auto. unfold lock_step.
    destruct (decide (Data.CreateIdxKey d = k)) as [<-|Hne]; [eauto|].
    rewrite transfers_set. rsimpl. rewrite lookup_insert_ne by done. auto.
  - unfold a_transfer. repeat case_match; auto.
Qed.

Lemma a_run_snoc ops o : a_run (ops ++ [o]) = a_step o (a_run ops).
Proof. unfold a_run. by rewrite foldl_app. Qed.

Lemma a_run_transfers ops k : is_Some (AL.Transfers (a_run ops) !! k) → k ∈ transfer_keys ops.
Proof.
  induction ops as [|o ops IH] using rev_ind.
  - intros [x E]. cbn in E. by rewrite lookup_empty in E.
  - rewrite a_run_snoc. unfold transfer_keys. rewrite omap_app, elem_of_app.
    intros [Hk|(d & -> & <-)]%a_step_transfers; [by left; apply IH|]. right. simpl. set_solver.
Qed.

Lemma ledger_step_refines ops o g :
  R (core g) (a_run ops) → ledger_inv (a_run ops) → op_ok ops o →
  leads (ledger_step o) g (a_step o (a_run ops)) ∧ ledger_inv (a_step o (a_run ops)).
Proof.
  intros HR HL [Hd Hkey]. destruct o as [d|now d|d|d]; simpl in Hd |- *.
  - split; [|by apply a_deploy_inv]. eapply spec_mono; [by apply ProcessDeploy_yields|]. by intros ?? [_ ?].
  - split; [|by apply a_mint_inv]. eapply spec_mono; [by apply ProcessMint_yields|]. by intros ?? [_ ?].
  - assert (AL.Transfers (a_run ops) !! Data.CreateIdxKey d = None) as Hn.
    { apply eq_None_not_Some. intros Hs%a_run_transfers. by apply Hkey. }
    split; [|by apply a_inscribe_transfer_inv].
    eapply spec_mono; [by apply ProcessInscribeTransfer_yields|]. by intros ?? [_ ?].
  - split; [|by apply a_transfer_inv]. apply spec_bind, spec_get. simpl.
    destruct (GetTransferInfoByKey (Data.CreateIdxKey d) g) as [[info|] inv] eqn:E.
    + by apply (ProcessTransfer_leads d info inv).
    + apply spec_ret. unfold a_transfer. rewrite (r_transfers _ _ HR), lookup_fmap.
      unfold GetTransferInfoByKey in E. cbn.
      by destruct (G.InscriptionsValidTransferMap g !! Data.CreateIdxKey d).
Qed.

Lemma reached_refines ops g :
  reached ops g → R (core g) (a_run ops) ∧ ledger_inv (a_run ops).
Proof.
  induction 1 as [|ops g o r g' Hg [HR HL] Hok Hs Hr]; [split; [apply R_init|apply empty_ledger_inv]|].
  rewrite a_run_snoc. destruct (ledger_step_refines ops o g HR HL Hok) as [Hl Hi].
  split; [|done]. unfold leads, spec in Hl. by rewrite Hs in Hl.
Qed.

(** ** What the holders of a ticker have *)

(** Available plus transferable over the index by holder. *)
Definition object_total (b : BRC20TokenBalance) : Z :=
  dval (Bal.AvailableBalance b) + dval (Bal.TransferableBalance b).
Definition held (g : BRC20ModuleIndexer) (t : string) : Z :=
  msum (λ _ (tokens : gmap string loc),
    match tokens !! t ≫= λ l, G.Balances g !! l with Some b => object_total b | None => 0 end)
    (G.UserTokensBalanceData g).

(** A sum over pairs seen as a sum over the second component. *)
Lemma msum_slice {X : Type} (t : string) (B : gmap (string * string) ABalance) (U : gmap string X)
    (F : string → Z) :
  (∀ a, F a = holding (default no_balance (B !! (t, a)))) →
  (∀ a, U !! a = None → F a = 0) →
  msum (λ (ta : string * string) b, if bool_decide (ta.1 = t) then holding b else 0) B =
    msum (λ a _, F a) U.
Proof.
  revert F. induction B as [|[t' a'] b B Hn IH] using map_ind; intros F HF HU.
  - rewrite msum_empty. symmetry. apply msum_zero. intros a x _. rewrite HF. by rewrite lookup_empty.
  - rewrite msum_insert_new by done. simpl. case_bool_decide as Ht.
    + subst t'. rewrite (IH (λ a, if bool_decide (a = a') then 0 else F a)).
      * destruct (U !! a') as [x|] eqn:Ex.
        -- rewrite <-(insert_delete_id U a' x Ex). rewrite !msum_insert_new by apply lookup_delete_eq.
           rewrite bool_decide_eq_true_2 by done. rewrite (HF a'), lookup_insert_eq. simpl.
           rewrite (msum_ext _ (λ a _, F a)); [lia|]. intros a y [Hne _]%lookup_delete_Some.
           by rewrite bool_decide_eq_false_2.
        -- rewrite (msum_ext _ (λ a _, F a)).
           ++ pose proof (HU _ Ex) as H0'. rewrite HF, lookup_insert_eq in H0'. simpl in H0'. lia.
           ++ intros a y Hy. rewrite bool_decide_eq_false_2; [done|]. congruence.
      * intros a. case_bool_decide as Ea; [subst; by rewrite Hn|].
        rewrite HF, lookup_insert_ne; [done|]. congruence.
      * intros a Ha. case_bool_decide; [done|]. by apply HU.
    + rewrite (IH F); [done| |done]. intros a. rewrite HF, lookup_insert_ne; [done|]. congruence.
Qed.

Lemma object_total_ok g L t a l b :
  R (core g) L → at_ (core g) t a = Some l → G.Balances g !! l = Some b →
  object_total b = holding (abal L t a).
Proof.
  intros HR Hl Hb. destruct (at_object _ _ _ _ _ HR Hl) as (b' & y & Hb' & _ & _ & Hok & -> & _).
  assert (b' = b) as -> by congruence. destruct Hok as (_ & _ & _ & _ & _ & Hlock & _).
  unfold object_total, holding. rewrite Hlock. done.
Qed.

Lemma held_supply g L t : R (core g) L → held g t = supply L t.
Proof.
  intros HR. symmetry. unfold supply, held.
  set (F := λ a, holding (abal L t a)). rewrite (msum_slice t _ (G.UserTokensBalanceData g) F).
  - apply msum_ext. intros a us Hus. unfold F.
    assert (at_ (core g) t a = us !! t) as Hat by (unfold at_; cbn; by rewrite Hus).
    destruct (us !! t) as [l|]; simpl.
    + destruct (at_object _ _ _ _ _ HR Hat) as (b & y & Hb & _). rewrite Hb.
      symmetry. by eapply object_total_ok.
    + by rewrite (r_none _ _ HR) by done.
  - done.
  - intros a Ha. unfold F. rewrite (r_none _ _ HR); [done|]. unfold at_. cbn. by rewrite Ha.
Qed.

(** ** Executable runs *)
#[global] Instance data_ok_dec d : Decision (data_ok d).
Proof.
  unfold data_ok, script_small, u32_ok, u64_ok, i64_ok.
  repeat apply and_dec; apply _.
Defined.
#[global] Instance op_ok_dec ops o : Decision (op_ok ops o).
Proof. unfold op_ok. apply and_dec; [apply _|]. destruct o; apply _. Defined.

Fixpoint run (g : BRC20ModuleIndexer) (ops : list ledger_op) : BRC20ModuleIndexer :=
  match ops with [] => g | o :: ops => run (ledger_step o g).2 ops end.
(** The events of [ops] are acceptable after [past], and none panics. *)
Fixpoint run_ok (past : list ledger_op) (g : BRC20ModuleIndexer) (ops : list ledger_op) : bool :=
  match ops with
  | [] => true
  | o :: ops =>
    bool_decide (op_ok past o) &&
    match (ledger_step o g).1 with Panic _ => false | _ => true end &&
    run_ok (past ++ [o]) (ledger_step o g).2 ops
  end.

Lemma run_reached past g ops :
  reached past g → run_ok past g ops = true → reached (past ++ ops) (run g ops).
Proof.
  revert past g. induction ops as [|o ops IH]; intros past g Hg Hok; simpl in *.
  - by rewrite app_nil_r.
  - apply andb_true_iff in Hok as [[Ho%bool_decide_eq_true Hp]%andb_true_iff Hr].
    rewrite cons_middle, app_assoc. apply IH; [|done].
    destruct (ledger_step o g) as [r g'] eqn:E. eapply reached_step; [done..|].
    intros w. by destruct r.
Qed.

(** ** Theorems *)

(** After any run of deploys, mints, transfer inscriptions and moves from the
    initial state, what the holders of a ticker have together (available plus
    transferable, over the index by holder) is exactly the ticker's recorded total
    minted, which never exceeds its maximum. *)
Theorem supply_conserved ops g t y :
  reached ops g → G.InscriptionsTickerInfoMap g !! t = Some y →
  held g t = dval (TickInfo.TotalMinted (TokenInfo.Deploy y)) ∧
  0 ≤ dval (TickInfo.TotalMinted (TokenInfo.Deploy y)) ≤ dval (TickInfo.Max (TokenInfo.Deploy y)).
Proof.
  intros [HR HL]%reached_refines Hy. destruct (R_ticker _ _ _ _ HR Hy) as [HT _].
  rewrite (held_supply _ _ _ HR), (inv_supply _ HL _ _ HT).
  split; [done|]. apply (inv_minted _ HL _ _ HT).
Qed.

(** C16: In every state of a run each balance object of a holder belongs to a
    deployed ticker, has no negative part, and its transferable balance is the sum
    of the amounts of its live transfer inscriptions, each of which is listed with
    the same content among the valid transfer inscriptions. *)
Theorem balances_well_formed ops g a tokens t l :
  reached ops g → G.UserTokensBalanceData g !! a = Some tokens → tokens !! t = Some l →
  ∃ b y, G.Balances g !! l = Some b ∧ G.InscriptionsTickerInfoMap g !! t = Some y ∧
    Bal.PkScript b = a ∧ ToLower (Bal.Ticker b) = t ∧
    0 ≤ dval (Bal.AvailableBalance b) ∧
    dval (Bal.TransferableBalance b) =
      msum (λ _ i, dval (TickInfo.Amount i)) (Bal.ValidTransferMap b) ∧
    ∀ k i, Bal.ValidTransferMap b !! k = Some i →
      G.InscriptionsValidTransferMap g !! k = Some i ∧ 0 < dval (TickInfo.Amount i).
Proof.
  intros [HR HL]%reached_refines Ha Hl.
  assert (at_ (core g) t a = Some l) as Hat by (unfold at_; cbn; by rewrite Ha).
  destruct (at_object _ _ _ _ _ HR Hat) as (b & y & Hb & Hy & _ & Hok & Hab & _).
  destruct Hok as (Hpk & Ht & _ & _ & _ & Hlock & Hv). exists b, y.
  pose proof (inv_avail _ HL t a) as Hav. rewrite Hab in Hav.
  split_and!; [done..| |].
  - rewrite Hlock. unfold locked, bal_abs. cbn. apply (msum_fmap (λ _ v, v) (λ i, dval (TickInfo.Amount i))).
  - intros k i Hk. split; [by apply (Hv _ _ Hk)|].
    apply (inv_pending _ HL t a k). rewrite Hab. cbn. by rewrite lookup_fmap, Hk.
Qed.

(** The two indexes of balances agree in every state of a run: an entry of the
    index by ticker is the holder's own object, and every holder with a non-zero
    balance is listed under the ticker. *)
Theorem indexes_agree ops g t a :
  reached ops g →
  (∀ users l, G.TokenUsersBalanceData g !! t = Some users → users !! a = Some l →
     G.UserTokensBalanceData g !! a ≫= lookup t = Some l) ∧
  (∀ l b, G.UserTokensBalanceData g !! a ≫= lookup t = Some l → G.Balances g !! l = Some b →
     object_total b ≠ 0 → ∃ users, G.TokenUsersBalanceData g !! t = Some users ∧ users !! a = Some l).
Proof.
  intros [HR HL]%reached_refines. split.
  - intros users l Hu Hl. apply (r_index _ _ HR). by exists users.
  - intros l b Hl Hb Hne. apply (r_complete _ _ HR); [done|].
    by rewrite <-(object_total_ok _ _ _ _ _ _ HR Hl Hb).
Qed.

(** C20: The deploy handler refines its specification: from any state that represents
    a ledger, for an inscription whose numbers are in range and whose script compresses
    to at most 238 bytes, it does not panic, and on every branch, rejections included,
    the new state represents the ledger [a_deploy] computes, which gains the ticker
    exactly when the request is valid and the ticker is new. *)
Theorem ProcessDeploy_refines data g L :
  R (core g) L → data_ok data →
  ∃ r g', ProcessDeploy data g = (r, g') ∧ (∀ w, r ≠ Panic w) ∧ R (core g') (a_deploy data L).
Proof. intros HR Hd. apply yields_inv. by apply ProcessDeploy_yields. Qed.

(** C18: The mint handler refines its specification: for an inscription whose numbers
    are in range and whose script compresses to at most 238 bytes (a longer one can
    overflow the buffer of the history record) it does not panic, an invalid mint (wrong
    parent, above the limit, supply exhausted, unreadable amount) changes no balance,
    and a valid one credits the holder and the ticker's total with the amount, cut to
    what is left of the maximum. *)
Theorem ProcessMint_refines now data g L :
  R (core g) L → data_ok data →
  ∃ r g', ProcessMint now data g = (r, g') ∧ (∀ w, r ≠ Panic w) ∧ R (core g') (a_mint data L).
Proof. intros HR Hd. apply yields_inv. by apply ProcessMint_yields. Qed.

(** C19: The handler of transfer inscriptions refines its specification: for an
    inscription whose numbers are in range, whose script compresses to at most 238 bytes
    and whose key is not that of an earlier transfer it does not panic, and it locks the
    amount of the available balance under the inscription's key exactly when the request
    is valid and covered. *)
Theorem ProcessInscribeTransfer_refines data g L :
  R (core g) L → data_ok data → AL.Transfers L !! Data.CreateIdxKey data = None →
  ∃ r g', ProcessInscribeTransfer data g = (r, g') ∧ (∀ w, r ≠ Panic w) ∧
    R (core g') (a_inscribe_transfer data L).
Proof. intros HR Hd Hk. apply yields_inv. by apply ProcessInscribeTransfer_yields. Qed.

(** C17: The handler of moves refines its specification: a live transfer inscription
    pays its locked amount to the receiver (back to the sender when it is spent as
    fee) exactly once, and a dead or invalid one changes no balance. *)
Theorem ProcessTransfer_refines data info inv g L :
  R (core g) L → ledger_inv L → data_ok data →
  GetTransferInfoByKey (Data.CreateIdxKey data) g = (Some info, inv) →
  ∃ r g', ProcessTransfer data info inv g = (r, g') ∧
    ((∀ w, r ≠ Panic w) → R (core g') (a_transfer data L)).
Proof.
  intros HR HL Hd Hi. pose proof (ProcessTransfer_leads data info inv g L HR HL Hd Hi) as Hl.
  unfold leads, spec in Hl. destruct (ProcessTransfer data info inv g) as [r g'] eqn:E.
  exists r, g'. split; [done|]. intros Hr. destruct r as [u|e|w]; [done|done|by destruct (Hr w)].
Qed.
End run.

(** ** A run *)
Section sample.
#[local] Existing Instance sample_unicode.
#[local] Existing Instance sample_order.
#[local] Existing Instance sample_config.

Definition sample_ops : list ledger_op :=
  [Deploy deploy_ordi; Mint 1700000000 mint_ordi; InscribeTransfer inscribe_ordi; Move move_ordi].
Definition sample_state : BRC20ModuleIndexer := run Init sample_ops.
Lemma sample_reached : reached sample_ops sample_state.
Proof. apply (run_reached [] Init sample_ops); [apply reached_init|by vm_compute]. Qed.

Lemma sample_data_ok : forallb (λ o, bool_decide (data_ok (op_data o))) sample_ops = true.
Proof. by vm_compute. Qed.

(** The state after [n] events. *)
Definition sample_at (n : nat) : BRC20ModuleIndexer := run Init (take n sample_ops).
Lemma sample_at_refines n : run_ok [] Init (take n sample_ops) = true →
  R (core (sample_at n)) (a_run (take n sample_ops)) ∧ ledger_inv (a_run (take n sample_ops)).
Proof. intros Hok. exact (reached_refines _ _ (run_reached [] Init _ reached_init Hok)). Qed.
Lemma sample_op_ok o : o ∈ sample_ops → data_ok (op_data o).
Proof.
  intros Ho. apply list_elem_of_In in Ho. apply (bool_decide_eq_true_1 _).
  exact (proj1 (forallb_forall _ _) sample_data_ok _ Ho).
Qed.

Lemma ProcessMint_refines_witness :
  ∃ g', ProcessMint 1700000000 mint_ordi (sample_at 1) = (Ret tt, g') ∧
    R (core g') (a_mint mint_ordi (a_run (take 1 sample_ops))).
Proof.
  destruct (ProcessMint_refines 1700000000 mint_ordi (sample_at 1) (a_run (take 1 sample_ops)))
    as (r & g' & E & _ & HR).
  - apply (sample_at_refines 1). by vm_compute.
  - apply (sample_op_ok (Mint 1700000000 mint_ordi)). right. left.
  - exists g'. split; [|exact HR].
    assert ((ProcessMint 1700000000 mint_ordi (sample_at 1)).1 = Ret tt) as Hr by by vm_compute.
    rewrite E in Hr. simpl in Hr. by rewrite E, Hr.
Defined.

Lemma ProcessInscribeTransfer_refines_witness :
  ∃ g', ProcessInscribeTransfer inscribe_ordi (sample_at 2) = (Ret tt, g') ∧
    R (core g') (a_inscribe_transfer inscribe_ordi (a_run (take 2 sample_ops))).
Proof.
  destruct (ProcessInscribeTransfer_refines inscribe_ordi (sample_at 2) (a_run (take 2 sample_ops)))
    as (r & g' & E & _ & HR).
  - apply (sample_at_refines 2). by vm_compute.
  - apply (sample_op_ok (InscribeTransfer inscribe_ordi)). right. right. left.
  - by vm_compute.
  - exists g'. split; [|exact HR].
    assert ((ProcessInscribeTransfer inscribe_ordi (sample_at 2)).1 = Ret tt) as Hr by by vm_compute.
    rewrite E in Hr. simpl in Hr. by rewrite E, Hr.
Defined.

Lemma ProcessTransfer_refines_witness :
  ∃ info g', GetTransferInfoByKey (Data.CreateIdxKey move_ordi) (sample_at 3) = (Some info, false) ∧
    ProcessTransfer move_ordi info false (sample_at 3) = (Ret tt, g') ∧
    R (core g') (a_transfer move_ordi (a_run (take 3 sample_ops))).
Proof.
  destruct (GetTransferInfoByKey (Data.CreateIdxKey move_ordi) (sample_at 3)) as [[info|] inv] eqn:Ei;
    [|by vm_compute in Ei].
  assert (inv = false) as -> by (vm_compute in Ei; by injection Ei).
  destruct (ProcessTransfer_refines move_ordi info false (sample_at 3) (a_run (take 3 sample_ops)))
    as (r & g' & E & HR).
  - apply (sample_at_refines 3). by vm_compute.
  - apply (sample_at_refines 3). by vm_compute.
  - apply (sample_op_ok (Move move_ordi)). right. right. right. left.
  - exact Ei.
  - exists info, g'. split; [done|].
    assert ((ProcessTransfer move_ordi info false (sample_at 3)).1 = Ret tt) as Hr.
    { assert (info = default info (fst (GetTransferInfoByKey (Data.CreateIdxKey move_ordi) (sample_at 3))))
        as -> by by rewrite Ei.
      vm_compute in Ei. injection Ei as <-. by vm_compute. }
    rewrite E in Hr. simpl in Hr. subst r. split; [exact E|]. by apply HR.
Defined.

Lemma ProcessDeploy_refines_witness :
  ∃ g', ProcessDeploy deploy_ordi Init = (Ret tt, g') ∧
    R (core g') (a_deploy deploy_ordi empty_ledger).
Proof.
  destruct (ProcessDeploy_refines deploy_ordi Init empty_ledger R_init) as (r & g' & E & _ & HR).
  - apply (sample_op_ok (Deploy deploy_ordi)). left.
  - exists g'. split; [|exact HR]. assert ((ProcessDeploy deploy_ordi Init).1 = Ret tt) as Hr by by vm_compute.
    rewrite E in Hr. simpl in Hr. by rewrite E, Hr.
Defined.

Lemma supply_conserved_witness :
  held sample_state "ordi" = 1000 * 10 ^ 18 ∧
  held sample_state "ordi" = dval (TickInfo.TotalMinted (TokenInfo.Deploy (default
    (TokenInfo.mk 0 "" (deploy_info (DeployBody.mk "" "" "" "" "" "" "") deploy_ordi) [] [] [] [] [])
    (G.InscriptionsTickerInfoMap sample_state !! "ordi")))).
Proof.
  split; [by vm_compute|].
  destruct (G.InscriptionsTickerInfoMap sample_state !! "ordi") as [y|] eqn:E; [|by vm_compute in E].
  exact (proj1 (supply_conserved sample_ops sample_state "ordi" y sample_reached E)).
Defined.

Lemma balances_well_formed_witness : ∃ l b,
  G.UserTokensBalanceData sample_state !! "alice" ≫= lookup "ordi" = Some l ∧
  G.Balances sample_state !! l = Some b ∧ 0 ≤ dval (Bal.AvailableBalance b) ∧
  dval (Bal.AvailableBalance b) = 6995 * 10 ^ 17.
Proof.
  destruct (G.UserTokensBalanceData sample_state !! "alice") as [tokens|] eqn:Ea; [|by vm_compute in Ea].
  destruct (tokens !! "ordi") as [l|] eqn:El; [|by vm_compute in Ea; injection Ea as <-].
  destruct (balances_well_formed sample_ops sample_state "alice" tokens "ordi" l sample_reached Ea El)
    as (b & y & Hb & _ & _ & _ & Hav & _).
  exists l, b. split; [exact El|]. split; [exact Hb|]. split; [exact Hav|].
  vm_compute in Ea. injection Ea as <-. vm_compute in El. injection El as <-.
  vm_compute in Hb. by injection Hb as <-.
Defined.

Lemma indexes_agree_witness : ∃ l users,
  G.UserTokensBalanceData sample_state !! "bob" ≫= lookup "ordi" = Some l ∧
  G.TokenUsersBalanceData sample_state !! "ordi" = Some users ∧ users !! "bob" = Some l.
Proof.
  destruct (G.UserTokensBalanceData sample_state !! "bob" ≫= lookup "ordi") as [l|] eqn:El;
    [|by vm_compute in El].
  destruct (G.Balances sample_state !! l) as [b|] eqn:Eb.
  - destruct (proj2 (indexes_agree sample_ops sample_state "ordi" "bob" sample_reached) l b El Eb)
      as (users & Hu & Hl).
    + vm_compute in El. injection El as <-. vm_compute in Eb. injection Eb as <-. by vm_compute.
    + exists l, users. exact (conj eq_refl (conj Hu Hl)).
  - exfalso. vm_compute in El. injection El as <-. by vm_compute in Eb.
Defined.
End sample.
