(* ===== verification/Modules.v ===== *)
(** * indexer/module_create.go, module_approve.go and module_withdraw.go

    Making a module, approves and withdraws; with the checks on amounts and tickers of
    indexer/module_commit_utils.go. *)
From S2P Require Import Prelude GoStd Decimal Script Utils Json Model History Swap Indexer CondApprove Ledger.

Section modules.
Context `{GoUnicode, MapOrder, Config, BtcAddr}.

(** ** Amounts and tickers

    [(amt, ok)]; the amount is nil when it is not ok, and for the empty text. *)
Definition CheckAmountVerify (amtStr : string) (nDecimal : Z) : outcome (option Decimal * bool) :=
  match NewDecimalFromString amtStr nDecimal with
  | Panic p => Panic p
  | Error _ => Ret (None, false)
  | Ret amt => if Sign (Some amt) <? 0 then Ret (None, false) else Ret (Some amt, true)
  end.

Definition CheckTickVerify (tick amtStr : string) (g : BRC20ModuleIndexer)
    : outcome (option Decimal * bool) :=
  match G.InscriptionsTickerInfoMap g !! ToLower tick with
  | None => Ret (None, false)
  | Some tokenInfo =>
    if bool_decide (amtStr = "") then Ret (None, true) else
    let tinfo := TokenInfo.Deploy tokenInfo in
    match NewDecimalFromString amtStr (TickInfo.Decimals tinfo) with
    | Panic p => Panic p
    | Error _ => Ret (None, false)
    | Ret amt =>
      if Sign (Some amt) <? 0 then Ret (None, false) else
      c ← Cmp (Some amt) (TickInfo.Max tinfo);
      if 0 <? c then Ret (None, false) else Ret (Some amt, true)
    end
  end.

(** The amount is a count of the smallest unit. *)
Definition CheckTickVerifyBigInt (tick amtStr : string) (g : BRC20ModuleIndexer)
    : outcome (option Decimal * bool) :=
  match G.InscriptionsTickerInfoMap g !! ToLower tick with
  | None => Ret (None, false)
  | Some tokenInfo =>
    if bool_decide (amtStr = "") then Ret (None, true) else
    let tinfo := TokenInfo.Deploy tokenInfo in
    match NewDecimalFromString amtStr 0 with
    | Panic p => Panic p
    | Error _ => Ret (None, false)
    | Ret amt =>
      let amt := mkDecimal (TickInfo.Decimals tinfo) (Val amt) in
      if Sign (Some amt) <? 0 then Ret (None, false) else
      c ← Cmp (Some amt) (TickInfo.Max tinfo);
      if 0 <? c then Ret (None, false) else Ret (Some amt, true)
    end
  end.

(** ** Module creation *)

(** [body.Init[k]] as an address: its script, or an error. *)
Definition init_script (k missing invalid : string) (init : gmap string string) : outcome string :=
  match init !! k with
  | None => Error missing
  | Some addr => pk ← or_error (GetPkScriptByAddress addr) invalid; Ret (b2s pk)
  end.

Definition new_module (inscriptionId : string) (body : InscriptionBRC20ModuleDeploySwapContent)
    (data : InscriptionBRC20Data)
    (sequencerPkScript gasToPkScript lpFeeToPkScript feeRateSwap gasTick : string)
    : BRC20ModuleSwapInfo :=
  {| Mod.UpdateHeight := Data.Height data;
     Mod.ID := inscriptionId; Mod.Name := DeploySwapBody.Name body;
     Mod.DeployerPkScript := Data.PkScript data;
     Mod.SequencerPkScript := sequencerPkScript;
     Mod.GasToPkScript := gasToPkScript; Mod.LpFeePkScript := lpFeeToPkScript;
     Mod.FeeRateSwap := feeRateSwap; Mod.GasTick := gasTick;
     Mod.History := [NewBRC20ModuleHistory false BRC20_HISTORY_MODULE_TYPE_N_INSCRIBE_MODULE
       data data NoData true];
     Mod.CommitInvalidMap := ∅; Mod.CommitIdMap := ∅; Mod.CommitIdChainMap := ∅;
     Mod.UsersTokenBalanceDataMap := ∅; Mod.TokenUsersBalanceDataMap := ∅; Mod.Balances := ∅;
     Mod.LPTokenUsersBalanceMap := ∅; Mod.LPTokenUsersBalanceUpdatedMap := ∅;
     Mod.UsersLPTokenBalanceMap := ∅; Mod.SwapPoolTotalBalanceDataMap := ∅;
     Mod.ConditionalApproveStateBalanceDataMap := ∅;
     Mod.ThisTxId := ""; Mod.TransferStatesForConditionalApprove := [];
     Mod.ApproveStatesForConditionalApprove := [] |}.

Definition ProcessCreateModule (data : InscriptionBRC20Data) : Idx unit :=
  body ← lift (Unmarshal_DeploySwap (Data.ContentBody data));
  if negb (bool_decide (Conf.MODULE_SWAP_SOURCE_INSCRIPTION_ID conf = DeploySwapBody.Source body))
  then throw ("source not match: " +:+ DeploySwapBody.Source body) else
  let inscriptionId := GetInscriptionId data in
  let init := DeploySwapBody.Init body in
  g ← get;
  if bool_decide (is_Some (G.ModulesInfoMap g !! inscriptionId)) then throw "dup module deploy" else
  let feeRateSwap := default "0" (init !! "swap_fee_rate") in
  fee ← lift (CheckAmountVerify feeRateSwap 3);
  if negb fee.2 then throw "swap fee invalid" else
  match init !! "gas_tick" with
  | None => throw "gas_tick missing"
  | Some gasTick =>
    gas ← lift (CheckTickVerify gasTick "" g);
    if negb gas.2 then throw "gas_tick invalid" else
    sequencer ← lift (init_script "sequencer" "sequencer missing" "sequencer invalid" init);
    gasTo ← lift (init_script "gas_to" "gas_to missing" "gasTo invalid" init);
    lpFeeTo ← lift (init_script "fee_to" "fee_to missing" "lpFeeTo invalid" init);
    modify (λ g, g <| G.ModulesInfoMap ::=
      <[inscriptionId := new_module inscriptionId body data sequencer gasTo lpFeeTo feeRateSwap gasTick]> |>)
  end.

(** ** Requests about a ticker in a module *)

(** A write through a balance pointer that may panic. *)
Definition mod_update (l : loc) (f : BRC20ModuleTokenBalance → outcome BRC20ModuleTokenBalance)
    : GoM BRC20ModuleSwapInfo unit :=
  b ← mod_load l; b ← lift (f b); mod_store l (λ _, b).

(** The checks approve and withdraw inscriptions share, from the ticker on: its
    token and the amount. *)
Definition request_amount (tick amount what : string) (g : BRC20ModuleIndexer)
    : outcome (BRC20TokenInfo * option Decimal) :=
  match G.InscriptionsTickerInfoMap g !! ToLower tick with
  | None => Error "tick not exist"
  | Some tokenInfo =>
    let tinfo := TokenInfo.Deploy tokenInfo in
    amt ← or_error (NewDecimalFromString amount (TickInfo.Decimals tinfo))
      (what +:+ " amount invalid: " +:+ amount);
    let amt := Some amt in
    if Sign amt <=? 0 then Error "amount out of range" else
    c ← Cmp amt (TickInfo.Max tinfo);
    if 0 <? c then Error "amount out of range" else Ret (tokenInfo, NewDecimalCopy amt)
  end.

(** ** Approve *)
Definition GetApproveInfoByKey (createIdxKey : string) (g : BRC20ModuleIndexer)
    : option InscriptionBRC20SwapInfo * bool :=
  match G.InscriptionsValidApproveMap g !! createIdxKey with
  | Some approveInfo => (Some approveInfo, false)
  | None => (G.InscriptionsInvalidApproveMap g !! createIdxKey, true)
  end.

(** The sender's approved amount becomes swap balance of the receiver. *)
Definition approve_move (bestHeight : Z) (data : InscriptionBRC20Data)
    (approveInfo : InscriptionBRC20SwapInfo) (fromTokenBalance : loc) (receiverPkScript : string)
    : GoM BRC20ModuleSwapInfo unit :=
  let amt := SwapInfo.Amount approveInfo in
  let hist t := NewBRC20ModuleHistory true t (SwapInfo.Data approveInfo) data NoData true in
  tokenBalance ← Module_GetUserTokenBalance (SwapInfo.Tick approveInfo) receiverPkScript;
  mod_update fromTokenBalance (λ b,
    approveable ← Sub (MBal.ApproveableBalance b) amt;
    Ret (b <| MBal.UpdateHeight := bestHeight |>
           <| MBal.ApproveableBalance := approveable |>
           <| MBal.ValidApproveMap ::= delete (Data.CreateIdxKey data) |>
           <| MBal.History ::= λ l, l ++ [hist BRC20_HISTORY_SWAP_TYPE_N_APPROVE_FROM] |>)) ;;
  mod_update tokenBalance (λ b,
    safe ← (if 0 <? Data.BlockTime data then Add (MBal.SwapAccountBalanceSafe b) amt
            else Ret (MBal.SwapAccountBalanceSafe b));
    swap ← Add (MBal.SwapAccountBalance b) amt;
    Ret (b <| MBal.UpdateHeight := bestHeight |>
           <| MBal.SwapAccountBalanceSafe := safe |>
           <| MBal.SwapAccountBalance := swap |>
           <| MBal.History ::= λ l, l ++ [hist BRC20_HISTORY_SWAP_TYPE_N_APPROVE_TO] |>)).

(** The part on the module, from the sender's balance on. *)
Definition approve_module (bestHeight : Z) (data : InscriptionBRC20Data)
    (approveInfo : InscriptionBRC20SwapInfo) (isInvalid : bool) : GoM BRC20ModuleSwapInfo unit :=
  let ownerPkScript := Data.PkScript (SwapInfo.Data approveInfo) in
  fromTokenBalance ← mod_find_balance (ToLower (SwapInfo.Tick approveInfo)) ownerPkScript
    "approve, send from user missing" "approve, send from ticker missing";
  from ← mod_load fromTokenBalance;
  if bool_decide (MBal.ValidApproveMap from !! Data.CreateIdxKey data = None)
  then throw "approve, send from approve missing(dup)" else
  let receiverPkScript := if Data.Satoshi data =? 0 then ownerPkScript else Data.PkScript data in
  let data := if Data.Satoshi data =? 0 then data <| Data.PkScript := ownerPkScript |> else data in
  amount ← lift (Decimal_String (SwapInfo.Amount approveInfo));
  mod_history (NewBRC20ModuleHistory true BRC20_HISTORY_SWAP_TYPE_N_APPROVE
    (SwapInfo.Data approveInfo) data (ApproveData (SwapInfo.Tick approveInfo) amount) (negb isInvalid)) ;;
  if isInvalid then
    mod_store fromTokenBalance (λ b, b <| MBal.History ::= λ l, l ++
      [NewBRC20ModuleHistory true BRC20_HISTORY_SWAP_TYPE_N_APPROVE_FROM
         (SwapInfo.Data approveInfo) data NoData false] |>)
  else approve_move bestHeight data approveInfo fromTokenBalance receiverPkScript.

Definition ProcessApprove (data : InscriptionBRC20Data) (approveInfo : InscriptionBRC20SwapInfo)
    (isInvalid : bool) : Idx unit :=
  g ← get;
  if bool_decide (G.InscriptionsTickerInfoMap g !! ToLower (SwapInfo.Tick approveInfo) = None)
  then throw "approve, invalid ticker" else
  if bool_decide (G.ModulesInfoMap g !! SwapInfo.Module_ approveInfo = None)
  then throw "approve, module invalid" else
  on_module (SwapInfo.Module_ approveInfo) (approve_module (G.BestHeight g) data approveInfo isInvalid).

(** From available to approveable. *)
Definition lock_approve (bestHeight : Z) (data : InscriptionBRC20Data) (amt : option Decimal)
    (b : BRC20ModuleTokenBalance) : outcome BRC20ModuleTokenBalance :=
  safe ← Sub (MBal.AvailableBalanceSafe b) amt;
  available ← Sub (MBal.AvailableBalance b) amt;
  approveable ← Add (MBal.ApproveableBalance b) amt;
  Ret (b <| MBal.AvailableBalanceSafe := safe |>
         <| MBal.AvailableBalance := available |>
         <| MBal.ApproveableBalance := approveable |>
         <| MBal.ValidApproveMap ::= <[Data.CreateIdxKey data := data]> |>
         <| MBal.UpdateHeight := bestHeight |>).

Definition ProcessInscribeApprove (data : InscriptionBRC20Data) : Idx unit :=
  body ← lift (Unmarshal_Approve (Data.ContentBody data));
  let modul := ApproveBody.Module_ body in
  if negb (bool_decide (modul = ToLower modul)) then throw "module id invalid" else
  g ← get;
  if bool_decide (G.ModulesInfoMap g !! modul = None) then throw "module invalid" else
  if negb (len (ApproveBody.Tick body) =? 4) then throw "tick invalid" else
  request ← lift (request_amount (ApproveBody.Tick body) (ApproveBody.Amount body) "approve" g);
  let tick := TokenInfo.Ticker request.1 in
  let balanceApprove := request.2 in
  let approveInfo := SwapInfo.mk modul tick balanceApprove data in
  amount ← lift (Decimal_String (SwapInfo.Amount approveInfo));
  on_module modul (mod_history (NewBRC20ModuleHistory false
    BRC20_HISTORY_SWAP_TYPE_N_INSCRIBE_APPROVE data data (ApproveData tick amount) true)) ;;
  l ← on_module modul (Module_GetUserTokenBalance tick (Data.PkScript data));
  b ← on_module modul (mod_load l);
  c ← lift (Cmp (MBal.AvailableBalance b) balanceApprove);
  if c <? 0 then
    on_module modul (mod_history_valid false) ;;
    modify (λ g, g <| G.InscriptionsInvalidApproveMap ::= <[Data.CreateIdxKey data := approveInfo]> |>)
  else
    on_module modul (
      mod_history_valid true ;;
      mod_update l (lock_approve (G.BestHeight g) data balanceApprove)) ;;
    modify (λ g, g <| G.InscriptionsValidApproveMap ::= <[Data.CreateIdxKey data := approveInfo]> |>).

(** ** Withdraw

    Reading a nil map finds nothing; writing to one panics. *)
Definition nil_map : string := "assignment to entry in nil map".

Definition GetWithdrawInfoByKey (createIdxKey : string) (g : BRC20ModuleIndexer)
    : option InscriptionBRC20SwapInfo :=
  G.InscriptionsWithdrawMap g ≫= lookup createIdxKey.

(** Take the request off the sender, and the amount too when it is available. *)
Definition withdraw_module (data : InscriptionBRC20Data) (withdrawInfo : InscriptionBRC20SwapInfo)
    : GoM BRC20ModuleSwapInfo unit :=
  let ownerPkScript := Data.PkScript (SwapInfo.Data withdrawInfo) in
  let amt := SwapInfo.Amount withdrawInfo in
  fromTokenBalance ← mod_find_balance (ToLower (SwapInfo.Tick withdrawInfo)) ownerPkScript
    "withdraw, send from user missing" "withdraw, send from ticker missing";
  from ← mod_load fromTokenBalance;
  if bool_decide (MBal.ReadyToWithdrawMap from !! Data.CreateIdxKey data = None)
  then throw "withdraw, send from withdraw missing(dup)" else
  mod_update fromTokenBalance (λ b,
    ready ← Sub (MBal.ReadyToWithdrawAmount b) amt;
    Ret (b <| MBal.ReadyToWithdrawAmount := ready |>
           <| MBal.ReadyToWithdrawMap ::= delete (Data.CreateIdxKey data) |>
           <| MBal.UpdateHeight := Data.Height data |>)) ;;
  from ← mod_load fromTokenBalance;
  c ← lift (Cmp (MBal.AvailableBalance from) amt);
  let isInvalid := c <? 0 in
  let data := if Data.Satoshi data =? 0 then data <| Data.PkScript := ownerPkScript |> else data in
  amount ← lift (Decimal_String amt);
  mod_history (NewBRC20ModuleHistory true BRC20_HISTORY_MODULE_TYPE_N_WITHDRAW
    (SwapInfo.Data withdrawInfo) data (WithdrawData (SwapInfo.Tick withdrawInfo) amount) (negb isInvalid)) ;;
  let hist v := NewBRC20ModuleHistory true BRC20_HISTORY_MODULE_TYPE_N_WITHDRAW_FROM
    (SwapInfo.Data withdrawInfo) data NoData v in
  if isInvalid then
    mod_store fromTokenBalance (λ b, b <| MBal.History ::= λ l, l ++ [hist false] |>) ;;
    throw "withdraw, insufficient available balance"
  else
    mod_update fromTokenBalance (λ b,
      safe ← Sub (MBal.AvailableBalanceSafe b) amt;
      available ← Sub (MBal.AvailableBalance b) amt;
      Ret (b <| MBal.AvailableBalanceSafe := safe |>
             <| MBal.AvailableBalance := available |>
             <| MBal.History ::= λ l, l ++ [hist true] |>)).

Definition ProcessWithdraw (data : InscriptionBRC20Data) (withdrawInfo : InscriptionBRC20SwapInfo)
    : Idx unit :=
  let uniqueLowerTicker := ToLower (SwapInfo.Tick withdrawInfo) in
  let amt := SwapInfo.Amount withdrawInfo in
  g ← get;
  match G.InscriptionsTickerInfoMap g !! uniqueLowerTicker with
  | None => throw "transfer, invalid ticker"
  | Some tokenInfo =>
    if bool_decide (G.ModulesInfoMap g !! SwapInfo.Module_ withdrawInfo = None)
    then throw "withdraw, module invalid" else
    on_module (SwapInfo.Module_ withdrawInfo) (withdraw_module data withdrawInfo) ;;
    let receiverPkScript := if Data.Satoshi data =? 0 then Data.PkScript (SwapInfo.Data withdrawInfo)
      else Data.PkScript data in
    tokenBalance ← GetUserTokenBalance (SwapInfo.Tick withdrawInfo) receiverPkScript;
    b ← load_balance tokenBalance;
    b ← lift (credit data amt (b <| Bal.UpdateHeight := Data.Height data |>));
    store_balance tokenBalance b ;;
    if is_burn receiverPkScript then
      burned ← lift (Add (TickInfo.Burned (TokenInfo.Deploy tokenInfo)) amt);
      update_deploy uniqueLowerTicker (λ t, t <| TickInfo.Burned := burned |>)
    else mret tt
  end.

Definition ProcessInscribeWithdraw (data : InscriptionBRC20Data) : Idx unit :=
  body ← lift (Unmarshal_Approve (Data.ContentBody data));
  let modul := ApproveBody.Module_ body in
  if negb (bool_decide (modul = ToLower modul)) then throw "module id invalid" else
  g ← get;
  if bool_decide (G.ModulesInfoMap g !! modul = None) then throw "module invalid" else
  if Data.Height data <? Conf.ENABLE_SWAP_WITHDRAW_HEIGHT conf then throw "module withdraw disable" else
  if negb (len (ApproveBody.Tick body) =? 4) && negb (len (ApproveBody.Tick body) =? 5)
  then throw "tick invalid" else
  request ← lift (request_amount (ApproveBody.Tick body) (ApproveBody.Amount body) "withdraw" g);
  let tick := TokenInfo.Ticker request.1 in
  let balanceWithdraw := request.2 in
  let withdrawInfo := SwapInfo.mk modul tick balanceWithdraw data in
  amount ← lift (Decimal_String (SwapInfo.Amount withdrawInfo));
  on_module modul (mod_history (NewBRC20ModuleHistory false
    BRC20_HISTORY_MODULE_TYPE_N_INSCRIBE_WITHDRAW data data (WithdrawData tick amount) true)) ;;
  on_module modul (
    l ← Module_GetUserTokenBalance tick (Data.PkScript data);
    mod_update l (λ b,
      ready ← Add (MBal.ReadyToWithdrawAmount b) balanceWithdraw;
      Ret (b <| MBal.ReadyToWithdrawAmount := ready |>
             <| MBal.ReadyToWithdrawMap ::= <[Data.CreateIdxKey data := data]> |>
             <| MBal.UpdateHeight := Data.Height data |>)) ;;
    mod_history_valid true) ;;
  g ← get;
  match G.InscriptionsWithdrawMap g with
  | None => gopanic nil_map
  | Some withdraws =>
    modify (λ g, g <| G.InscriptionsWithdrawMap :=
      Some (<[Data.CreateIdxKey data := withdrawInfo]> withdraws) |>)
  end.
End modules.
