(* ===== verification/Commit.v ===== *)
(** * indexer/module_commit_*.go: the functions of a commit

    A function runs on the module; the indexer [g] is only read (tickers, height).
    Parameters out of range panic, errors of ignored parses give nil amounts, and a
    function that fails keeps the writes it has made: the caller runs a commit on a
    copy first. *)
From S2P Require Import Prelude GoStd Decimal Script Utils Json Model History Swap Indexer CondApprove Ledger Modules.

Abbreviation ModM := (GoM BRC20ModuleSwapInfo).

(** ** Names and parameters *)

(** The key of a pool: the length of the first ticker, as a byte, and both tickers. *)
Definition GetLowerInnerPairNameByToken `{GoUnicode} (token0 token1 : string) : string :=
  let token0 := ToLower token0 in
  let token1 := ToLower token1 in
  let name a b := b2s [byte_of_Z (len a mod 256)] +:+ a +:+ b in
  if string_ltb token1 token0 then name token1 token0 else name token0 token1.

(** [f.Params[i]] *)
Definition param (f : SwapFunctionData) (i : nat) : outcome string :=
  match SwapFunction.Params f !! i with
  | Some s => Ret s
  | None => Panic "index out of range"
  end.

(** [d, _ := decimal.NewDecimalFromString(s, p)] *)
Definition parse_or_nil (s : string) (p : Z) : outcome (option Decimal) :=
  ignore_err (NewDecimalFromString s p).

Definition milli (v : Z) : option Decimal := Some (NewDecimal v 3).

Section functions.
Context `{GoUnicode, Config}.

(** [amt, _ := g.CheckTickVerify(tick, amtStr)] *)
Definition tick_amount (tick amtStr : string) (g : BRC20ModuleIndexer) : outcome (option Decimal) :=
  fst <$> CheckTickVerify tick amtStr g.

(** Before the withdraw height a pair is one parameter. *)
Definition paired (g : BRC20ModuleIndexer) : bool :=
  G.BestHeight g <? Conf.ENABLE_SWAP_WITHDRAW_HEIGHT conf.
Definition offset (g : BRC20ModuleIndexer) : nat := if paired g then 0 else 1.
Definition function_tokens (msg : string) (g : BRC20ModuleIndexer) (f : SwapFunctionData)
    : outcome (string * string) :=
  token0 ← param f 0;
  token1 ← param f 1;
  if paired g then or_error (DecodeTokensFromSwapPair token0) msg else Ret (token0, token1).

(** ** Pools and LP balances *)
Definition load_pool (poolPair msg : string) : ModM BRC20ModulePoolTotalBalance :=
  m ← get;
  match Mod.SwapPoolTotalBalanceDataMap m !! poolPair with Some pool => mret pool | None => throw msg end.
Definition store_pool (poolPair : string) (pool : BRC20ModulePoolTotalBalance) : ModM unit :=
  modify (λ m, m <| Mod.SwapPoolTotalBalanceDataMap ::= <[poolPair := pool]> |>).

(** [usersLpBalanceInPool[pkScript]] and [lpsBalance[poolPair]] *)
Definition lp_in_pool (poolPair pkScript : string) (m : BRC20ModuleSwapInfo) : option Decimal :=
  mjoin (Mod.LPTokenUsersBalanceMap m !! poolPair ≫= lookup pkScript).
Definition lp_of_user (poolPair pkScript : string) (m : BRC20ModuleSwapInfo) : option Decimal :=
  mjoin (Mod.UsersLPTokenBalanceMap m !! pkScript ≫= lookup poolPair).
(** The LP balance of a user, written to both maps. *)
Definition set_lp (poolPair pkScript : string) (inPool ofUser : option Decimal) : ModM unit :=
  modify (λ m, m
    <| Mod.LPTokenUsersBalanceMap ::= λ t,
         <[poolPair := <[pkScript := inPool]> (default ∅ (t !! poolPair))]> t |>
    <| Mod.LPTokenUsersBalanceUpdatedMap ::= union {[poolPair +:+ pkScript]} |>
    <| Mod.UsersLPTokenBalanceMap ::= λ t,
         <[pkScript := <[poolPair := ofUser]> (default ∅ (t !! pkScript))]> t |>).
Definition add_lp (poolPair pkScript : string) (amt : option Decimal) : ModM unit :=
  m ← get;
  lp ← lift (Add (lp_in_pool poolPair pkScript m) amt);
  set_lp poolPair pkScript lp lp.

(** [sqrt(reserve0 * reserve1)] *)
Definition root_k (i0 i1 : bool) (pool : BRC20ModulePoolTotalBalance) : outcome (option Decimal) :=
  k ← Mul (tick_balance i0 pool) (tick_balance i1 pool); Sqrt k.

(** LP issued to the fee address for the growth of [rootK]. *)
Definition lp_fee (i0 i1 : bool) (pool : BRC20ModulePoolTotalBalance) : outcome (option Decimal) :=
  rootK ← root_k i0 i1 pool;
  growth ← Sub rootK (Pool.LastRootK pool);
  num ← Mul (Pool.LpBalance pool) growth;
  den ← Mul rootK (Some (NewDecimal 5 0));
  den ← Add den (Pool.LastRootK pool);
  Div num den.
Definition issue_lp_fee (poolPair : string) (i0 i1 : bool) (feeRate : option Decimal)
    (pool : BRC20ModulePoolTotalBalance) : ModM BRC20ModulePoolTotalBalance :=
  if 0 <? Sign feeRate then
    lpFee ← lift (lp_fee i0 i1 pool);
    if 0 <? Sign lpFee then
      lp ← lift (Add (Pool.LpBalance pool) lpFee);
      let pool := pool <| Pool.LpBalance := lp |> in
      store_pool poolPair pool ;;
      m ← get;
      add_lp poolPair (Mod.LpFeePkScript m) lpFee ;;
      mret pool
    else mret pool
  else mret pool.

(** The reserve [token0] stands for. *)
Definition token_idx (token0 : string) (pool : BRC20ModulePoolTotalBalance) : bool :=
  negb (bool_decide (token0 = (Pool.Tick pool).1)).

(** [bal.SwapAccountBalance] minus or plus an amount, and its height. *)
Definition debit_swap (l : loc) (amt : option Decimal) : ModM unit :=
  mod_update l (λ b, swap ← Sub (MBal.SwapAccountBalance b) amt;
    Ret (b <| MBal.SwapAccountBalance := swap |>)).
Definition credit_swap (l : loc) (amt : option Decimal) : ModM unit :=
  mod_update l (λ b, swap ← Add (MBal.SwapAccountBalance b) amt;
    Ret (b <| MBal.SwapAccountBalance := swap |>)).
Definition set_height (h : Z) (l : loc) : ModM unit :=
  mod_store l (λ b, b <| MBal.UpdateHeight := h |>).
(** [bal.SwapAccountBalance.Cmp(amt) < 0] is an error. *)
Definition check_swap (l : loc) (amt : option Decimal) (msg : string) : ModM unit :=
  b ← mod_load l;
  c ← lift (Cmp (MBal.SwapAccountBalance b) amt);
  if c <? 0 then throw msg else mret tt.

(** ** Gas, pools, approvals and sends *)
Definition ProcessCommitFunctionGasFee (g : BRC20ModuleIndexer) (userPkScript : string)
    (gasAmt : option Decimal) : ModM unit :=
  m ← get;
  tokenBalance ← Module_GetUserTokenBalance (Mod.GasTick m) userPkScript;
  check_swap tokenBalance gasAmt "gas fee: token balance insufficient" ;;
  gasToBalance ← Module_GetUserTokenBalance (Mod.GasTick m) (Mod.GasToPkScript m);
  debit_swap tokenBalance gasAmt ;;
  credit_swap gasToBalance gasAmt ;;
  set_height (G.BestHeight g) tokenBalance ;;
  set_height (G.BestHeight g) gasToBalance.

Definition ProcessCommitFunctionDeployPool (g : BRC20ModuleIndexer) (f : SwapFunctionData) : ModM unit :=
  token0 ← lift (param f 0);
  token1 ← lift (param f 1);
  let poolPair := GetLowerInnerPairNameByToken token0 token1 in
  m ← get;
  if bool_decide (is_Some (Mod.SwapPoolTotalBalanceDataMap m !! poolPair)) then throw "deploy: twice" else
  modify (λ m, m <| Mod.LPTokenUsersBalanceMap ::= <[poolPair := ∅]> |>) ;;
  token0Amt ← lift (tick_amount token0 "0" g);
  token1Amt ← lift (tick_amount token1 "0" g);
  store_pool poolPair (Pool.mk 0 (token0, token1) (token0Amt, token1Amt) None None []).

Definition ProcessCommitFunctionDecreaseApproval (g : BRC20ModuleIndexer) (f : SwapFunctionData)
    : ModM unit :=
  token ← lift (param f 0);
  tokenAmtStr ← lift (param f 1);
  tokenAmt ← lift (tick_amount token tokenAmtStr g);
  tokenBalance ← Module_GetUserTokenBalance token (SwapFunction.PkScript f);
  check_swap tokenBalance tokenAmt "decreaseApproval: token balance insufficient" ;;
  mod_update tokenBalance (λ b,
    swap ← Sub (MBal.SwapAccountBalance b) tokenAmt;
    available ← Add (MBal.AvailableBalance b) tokenAmt;
    Ret (b <| MBal.SwapAccountBalance := swap |> <| MBal.AvailableBalance := available |>
           <| MBal.UpdateHeight := G.BestHeight g |>)).

(** [pkScript, _ := utils.GetPkScriptByAddress(addr)] *)
Definition script_of `{BtcAddr} (addr : string) : outcome string :=
  pk ← ignore_err (GetPkScriptByAddress addr); Ret (b2s (default [] pk)).

Definition ProcessCommitFunctionSend `{BtcAddr} (g : BRC20ModuleIndexer) (f : SwapFunctionData)
    : ModM unit :=
  addressTo ← lift (param f 0);
  pkScriptTo ← lift (script_of addressTo);
  token ← lift (param f 1);
  tokenAmtStr ← lift (param f 2);
  tokenAmt ← lift (tick_amount token tokenAmtStr g);
  tokenBalanceFrom ← Module_GetUserTokenBalance token (SwapFunction.PkScript f);
  check_swap tokenBalanceFrom tokenAmt "send: token balance insufficient" ;;
  tokenBalanceTo ← Module_GetUserTokenBalance token pkScriptTo;
  debit_swap tokenBalanceFrom tokenAmt ;;
  credit_swap tokenBalanceTo tokenAmt ;;
  set_height (G.BestHeight g) tokenBalanceFrom ;;
  set_height (G.BestHeight g) tokenBalanceTo.

(** A user's two LP records must agree, and cover the amount. *)
Definition check_lp_match (what poolPair pkScript : string)
    : ModM (option Decimal * option Decimal) :=
  m ← get;
  let userbalance := lp_in_pool poolPair pkScript m in
  let lpBalance := lp_of_user poolPair pkScript m in
  c ← lift (Cmp userbalance lpBalance);
  if negb (c =? 0) then throw (what +:+ ": user's tokenLp balance miss match")
  else mret (userbalance, lpBalance).
Definition check_lp_enough (what : string) (balances : option Decimal * option Decimal)
    (tokenLpAmt : option Decimal) : ModM unit :=
  c ← lift (Cmp balances.1 tokenLpAmt);
  if c <? 0 then throw (what +:+ ": user's tokenLp balance insufficient") else
  c ← lift (Cmp balances.2 tokenLpAmt);
  if c <? 0 then throw (what +:+ ": user's tokenLp balance insufficient") else mret tt.
Definition debit_lp (poolPair pkScript : string) (balances : option Decimal * option Decimal)
    (amt : option Decimal) : ModM unit :=
  inPool ← lift (Sub balances.1 amt);
  ofUser ← lift (Sub balances.2 amt);
  set_lp poolPair pkScript inPool ofUser.

Definition ProcessCommitFunctionSendLp `{BtcAddr} (f : SwapFunctionData) : ModM unit :=
  addressTo ← lift (param f 0);
  pkScriptTo ← lift (script_of addressTo);
  token0 ← lift (param f 1);
  token1 ← lift (param f 2);
  let poolPair := GetLowerInnerPairNameByToken token0 token1 in
  load_pool poolPair "sendlp: pool invalid" ;;
  m ← get;
  if bool_decide (Mod.LPTokenUsersBalanceMap m !! poolPair = None)
  then throw "sendlp: lps balance map missing pair" else
  if bool_decide (Mod.UsersLPTokenBalanceMap m !! SwapFunction.PkScript f = None)
  then throw "sendlp: users balance map missing user" else
  balances ← check_lp_match "sendlp" poolPair (SwapFunction.PkScript f);
  tokenAmtStr ← lift (param f 3);
  tokenLpAmt ← lift (fst <$> CheckAmountVerify tokenAmtStr 18);
  check_lp_enough "sendlp" balances tokenLpAmt ;;
  debit_lp poolPair (SwapFunction.PkScript f) balances tokenLpAmt ;;
  add_lp poolPair pkScriptTo tokenLpAmt.

(** ** Adding liquidity *)

(** What a deposit comes to: the two amounts taken, and the LP made for the pool
    and for the user. *)
Record deposit := mkDeposit {
    dep_amt0 : option Decimal;
    dep_amt1 : option Decimal;
    dep_pool : option Decimal;
    dep_user : option Decimal;
  }.

Definition min_lp : option Decimal := Some (NewDecimal 1000 18).

(** The first deposit locks 1000 units of LP. *)
Definition first_deposit (token0Amt token1Amt : option Decimal) : outcome deposit :=
  k ← Mul token0Amt token1Amt;
  lp ← Sqrt k;
  c ← Cmp lp min_lp;
  if c <? 0 then Error "addLiq: lp less than 1000" else
  user ← Sub lp min_lp;
  Ret (mkDeposit token0Amt token1Amt lp user).

(** Later deposits keep the ratio of the reserves. *)
Definition next_deposit (i0 i1 : bool) (pool : BRC20ModulePoolTotalBalance)
    (token0Amt token1Amt : option Decimal) : outcome deposit :=
  let r0 := tick_balance i0 pool in
  let r1 := tick_balance i1 pool in
  x ← Mul r1 token0Amt;
  token1AdjustAmt ← Div x r0;
  c ← Cmp token1Amt token1AdjustAmt;
  amts ← (if 0 <=? c then Ret (token0Amt, token1AdjustAmt)
          else x ← Mul r0 token1Amt; a ← Div x r1; Ret (a, token1Amt));
  x ← Mul (Pool.LpBalance pool) amts.1;
  lp0 ← Div x r0;
  x ← Mul (Pool.LpBalance pool) amts.2;
  lp1 ← Div x r1;
  c ← Cmp lp0 lp1;
  let lp := if 0 <? c then lp1 else lp0 in
  Ret (mkDeposit amts.1 amts.2 lp lp).

(** [lpForUser >= tokenLpAmt * (1000 - slippage) / 1000] *)
Definition check_add_slippage (lpForUser tokenLpAmt slippageAmt : option Decimal) : outcome unit :=
  s ← Sub (milli 1000) slippageAmt;
  x ← Mul tokenLpAmt s;
  expect ← Div x (milli 1000);
  c ← Cmp lpForUser expect;
  if c <? 0 then Error "addLiq: over slippage" else Ret tt.

(** [pool.TickBalance] of both tokens, then the LP supply and [LastRootK]. *)
Definition pool_deposit (bestHeight : Z) (i0 i1 : bool) (d : deposit)
    (pool : BRC20ModulePoolTotalBalance) : outcome BRC20ModulePoolTotalBalance :=
  b0 ← Add (tick_balance i0 pool) (dep_amt0 d);
  let pool := set_tick_balance i0 b0 pool in
  b1 ← Add (tick_balance i1 pool) (dep_amt1 d);
  let pool := set_tick_balance i1 b1 pool in
  lp ← Add (Pool.LpBalance pool) (dep_pool d);
  rootK ← root_k i0 i1 pool;
  Ret (pool <| Pool.LpBalance := lp |> <| Pool.UpdateHeight := bestHeight |>
            <| Pool.LastRootK := rootK |>).

Definition update_pool (poolPair : string)
    (f : BRC20ModulePoolTotalBalance → outcome BRC20ModulePoolTotalBalance) : ModM unit :=
  pool ← load_pool poolPair nil_deref;
  pool ← lift (f pool);
  store_pool poolPair pool.

(** From the deposit on: balances, LP and pool. *)
Definition add_liq_apply (g : BRC20ModuleIndexer) (f : SwapFunctionData)
    (poolPair token0 token1 : string) (i0 i1 first : bool) (d : deposit) : ModM unit :=
  token0Balance ← Module_GetUserTokenBalance token0 (SwapFunction.PkScript f);
  token1Balance ← Module_GetUserTokenBalance token1 (SwapFunction.PkScript f);
  check_swap token0Balance (dep_amt0 d) "addLiq: token0 balance insufficient" ;;
  check_swap token1Balance (dep_amt1 d) "addLiq: token1 balance insufficient" ;;
  debit_swap token0Balance (dep_amt0 d) ;;
  debit_swap token1Balance (dep_amt1 d) ;;
  set_height (G.BestHeight g) token0Balance ;;
  set_height (G.BestHeight g) token1Balance ;;
  add_lp poolPair (SwapFunction.PkScript f) (dep_user d) ;;
  when first (add_lp poolPair ZERO_ADDRESS_PKSCRIPT min_lp) ;;
  update_pool poolPair (pool_deposit (G.BestHeight g) i0 i1 d).

Definition ProcessCommitFunctionAddLiquidity (g : BRC20ModuleIndexer) (f : SwapFunctionData)
    : ModM unit :=
  tokens ← lift (function_tokens "func: addLiq poolPair invalid" g f);
  let '(token0, token1) := (tokens : string * string) in
  let poolPair := GetLowerInnerPairNameByToken token0 token1 in
  pool ← load_pool poolPair "addLiq: pool invalid";
  m ← get;
  if bool_decide (Mod.LPTokenUsersBalanceMap m !! poolPair = None) then throw "addLiq: users invalid" else
  token0AmtStr ← lift (param f (1 + offset g));
  token1AmtStr ← lift (param f (2 + offset g));
  tokenLpAmtStr ← lift (param f (3 + offset g));
  token0Amt ← lift (tick_amount token0 token0AmtStr g);
  token1Amt ← lift (tick_amount token1 token1AmtStr g);
  tokenLpAmt ← lift (parse_or_nil tokenLpAmtStr 18);
  slippageAmtStr ← lift (param f (4 + offset g));
  slippageAmt ← lift (parse_or_nil slippageAmtStr 3);
  let i0 := token_idx token0 pool in
  let i1 := negb i0 in
  let first := (Sign (tick_balance false pool) =? 0) && (Sign (tick_balance true pool) =? 0) in
  d ← (if first then lift (first_deposit token0Amt token1Amt) else
       fee ← lift (CheckAmountVerify (Mod.FeeRateSwap m) 3);
       if negb fee.2 then throw "addLiq: feerate swap invalid" else
       pool ← issue_lp_fee poolPair i0 i1 fee.1 pool;
       lift (next_deposit i0 i1 pool token0Amt token1Amt));
  lift (check_add_slippage (dep_user d) tokenLpAmt slippageAmt) ;;
  add_liq_apply g f poolPair token0 token1 i0 i1 first d.

(** ** Removing liquidity *)

(** The share of a reserve, and [amt >= want - want * slippage]. *)
Definition remove_share (i : bool) (pool : BRC20ModulePoolTotalBalance)
    (tokenLpAmt want slippageAmt : option Decimal) : outcome (option Decimal) :=
  x ← Mul (tick_balance i pool) tokenLpAmt;
  amt ← Div x (Pool.LpBalance pool);
  x ← Mul want slippageAmt;
  least ← Sub want x;
  c ← Cmp amt least;
  if c <? 0 then Error "removeLiq: over slippage" else Ret amt.

Definition check_pool (have amt : option Decimal) (msg : string) : outcome unit :=
  c ← Cmp have amt; if c <? 0 then Error msg else Ret tt.

Definition pool_withdraw (bestHeight : Z) (i0 i1 : bool) (amt0 amt1 tokenLpAmt : option Decimal)
    (pool : BRC20ModulePoolTotalBalance) : outcome BRC20ModulePoolTotalBalance :=
  lp ← Sub (Pool.LpBalance pool) tokenLpAmt;
  let pool := pool <| Pool.UpdateHeight := bestHeight |> <| Pool.LpBalance := lp |> in
  b0 ← Sub (tick_balance i0 pool) amt0;
  let pool := set_tick_balance i0 b0 pool in
  b1 ← Sub (tick_balance i1 pool) amt1;
  let pool := set_tick_balance i1 b1 pool in
  rootK ← root_k i0 i1 pool;
  Ret (pool <| Pool.LastRootK := rootK |>).

(** From the two amounts on: the pool's and the user's LP, balances, the pool. *)
Definition remove_liq_apply (g : BRC20ModuleIndexer) (f : SwapFunctionData)
    (poolPair token0 token1 : string) (i0 i1 : bool) (tokenLpAmt amt0 amt1 : option Decimal)
    (pool : BRC20ModulePoolTotalBalance) : ModM unit :=
  lift (check_pool (Pool.LpBalance pool) tokenLpAmt "removeLiq: tokenLp balance insufficient") ;;
  lift (check_pool (tick_balance i0 pool) amt0 "removeLiq: pool balance insufficient") ;;
  lift (check_pool (tick_balance i1 pool) amt1 "removeLiq: pool balance insufficient") ;;
  balances ← check_lp_match "removeLiq" poolPair (SwapFunction.PkScript f);
  check_lp_enough "removeLiq" balances tokenLpAmt ;;
  debit_lp poolPair (SwapFunction.PkScript f) balances tokenLpAmt ;;
  token0Balance ← Module_GetUserTokenBalance token0 (SwapFunction.PkScript f);
  token1Balance ← Module_GetUserTokenBalance token1 (SwapFunction.PkScript f);
  credit_swap token0Balance amt0 ;;
  credit_swap token1Balance amt1 ;;
  set_height (G.BestHeight g) token0Balance ;;
  set_height (G.BestHeight g) token1Balance ;;
  update_pool poolPair (pool_withdraw (G.BestHeight g) i0 i1 amt0 amt1 tokenLpAmt).

Definition ProcessCommitFunctionRemoveLiquidity (g : BRC20ModuleIndexer) (f : SwapFunctionData)
    : ModM unit :=
  tokens ← lift (function_tokens "func: removeLiq poolPair invalid" g f);
  let '(token0, token1) := (tokens : string * string) in
  let poolPair := GetLowerInnerPairNameByToken token0 token1 in
  pool ← load_pool poolPair "removeLiq: pool invalid";
  m ← get;
  if bool_decide (Mod.LPTokenUsersBalanceMap m !! poolPair = None)
  then throw "removeLiq: lps balance map missing pair" else
  if bool_decide (Mod.UsersLPTokenBalanceMap m !! SwapFunction.PkScript f = None)
  then throw "removeLiq: users balance map missing user" else
  tokenLpAmtStr ← lift (param f (1 + offset g));
  token0AmtStr ← lift (param f (2 + offset g));
  token1AmtStr ← lift (param f (3 + offset g));
  token0Amt ← lift (tick_amount token0 token0AmtStr g);
  token1Amt ← lift (tick_amount token1 token1AmtStr g);
  tokenLpAmt ← lift (parse_or_nil tokenLpAmtStr 18);
  slippageAmtStr ← lift (param f (4 + offset g));
  slippageAmt ← lift (parse_or_nil slippageAmtStr 3);
  let i0 := token_idx token0 pool in
  let i1 := negb i0 in
  fee ← lift (CheckAmountVerify (Mod.FeeRateSwap m) 3);
  pool ← issue_lp_fee poolPair i0 i1 fee.1 pool;
  amt0 ← lift (remove_share i0 pool tokenLpAmt token0Amt slippageAmt);
  amt1 ← lift (remove_share i1 pool tokenLpAmt token1Amt slippageAmt);
  remove_liq_apply g f poolPair token0 token1 i0 i1 tokenLpAmt amt0 amt1 pool.

(** ** Swapping *)

(** [d.Precition] *)
Definition precision_of (d : option Decimal) : outcome Z :=
  match d with Some d => Ret (Precition d) | None => Panic nil_deref end.

(** Which token goes in and which comes out, with the amounts as given. *)
Record swap_request := mkSwap {
    exact_in : option bool;
    token_in : string;
    amt_in_str : string;
    token_out : string;
    amt_out_str : string;
  }.
Definition swap_direction (token0 token1 : string) (off : nat) (f : SwapFunctionData)
    : outcome swap_request :=
  let other t := if bool_decide (t = token0) then token1 else token0 in
  derection ← param f (3 + off);
  if bool_decide (derection = "exactIn") then
    tokenIn ← param f (1 + off);
    tokenInAmtStr ← param f (2 + off);
    tokenOutAmtStr ← param f (4 + off);
    Ret (mkSwap (Some true) tokenIn tokenInAmtStr (other tokenIn) tokenOutAmtStr)
  else if bool_decide (derection = "exactOut") then
    tokenOut ← param f (1 + off);
    tokenOutAmtStr ← param f (2 + off);
    tokenInAmtStr ← param f (4 + off);
    Ret (mkSwap (Some false) (other tokenOut) tokenInAmtStr tokenOut tokenOutAmtStr)
  else Ret (mkSwap None "" "" "" "").

(** The amount out for an amount in, with or without fee. *)
Definition get_amount_out (reserveIn reserveOut tokenInAmt feeRate : option Decimal)
    : outcome (option Decimal) :=
  if 0 <? Sign feeRate then
    rate ← Sub (milli 1000) feeRate;
    amountInWithFee ← Mul tokenInAmt rate;
    num ← Mul reserveOut amountInWithFee;
    den ← Mul reserveIn (milli 1000);
    den ← Add den amountInWithFee;
    Div num den
  else
    num ← Mul reserveOut tokenInAmt;
    den ← Add reserveIn tokenInAmt;
    Div num den.

(** The amount in for an amount out, rounded up by one unit. *)
Definition get_amount_in (reserveIn reserveOut tokenInAmt tokenOutAmt feeRate : option Decimal)
    : outcome (option Decimal) :=
  quotient ←
    (if 0 <? Sign feeRate then
       x ← Mul tokenOutAmt (milli 1000);
       num ← Mul reserveIn x;
       left_ ← Sub reserveOut tokenOutAmt;
       rate ← Sub (milli 1000) feeRate;
       den ← Mul left_ rate;
       Div num den
     else
       num ← Mul reserveIn tokenOutAmt;
       den ← Sub reserveOut tokenOutAmt;
       Div num den);
  p ← precision_of tokenInAmt;
  Add quotient (Some (NewDecimal 1 p)).

(** [(amountIn, amountOut)] after the slippage check. *)
Definition swap_amounts (exactIn : option bool)
    (reserveIn reserveOut tokenInAmt tokenOutAmt slippageAmt feeRate : option Decimal)
    : outcome (option Decimal * option Decimal) :=
  match exactIn with
  | Some true =>
    amountOut ← get_amount_out reserveIn reserveOut tokenInAmt feeRate;
    x ← Mul tokenOutAmt (milli 1000);
    s ← Add (milli 1000) slippageAmt;
    amountOutMin ← Div x s;
    c ← Cmp amountOut amountOutMin;
    if c <? 0 then Error "swap: slippage error" else Ret (tokenInAmt, amountOut)
  | Some false =>
    amountIn ← get_amount_in reserveIn reserveOut tokenInAmt tokenOutAmt feeRate;
    s ← Add (milli 1000) slippageAmt;
    amountInMax ← Mul tokenInAmt s;
    c ← Cmp amountInMax amountIn;
    if c <? 0 then Error "swap: slippage error" else Ret (amountIn, tokenOutAmt)
  | None => Ret (None, None)
  end.

Definition pool_give (i : bool) (amt : option Decimal) (pool : BRC20ModulePoolTotalBalance)
    : outcome BRC20ModulePoolTotalBalance :=
  b ← Sub (tick_balance i pool) amt; Ret (set_tick_balance i b pool).
Definition pool_take (i : bool) (amt : option Decimal) (pool : BRC20ModulePoolTotalBalance)
    : outcome BRC20ModulePoolTotalBalance :=
  b ← Add (tick_balance i pool) amt; Ret (set_tick_balance i b pool).

(** From the amounts on: the balances are touched first, then checked and moved. *)
Definition swap_apply (g : BRC20ModuleIndexer) (f : SwapFunctionData) (poolPair tokenIn tokenOut : string)
    (inIdx : bool) (tokenInAmt amountIn amountOut : option Decimal) : ModM unit :=
  tokenInBalance ← Module_GetUserTokenBalance tokenIn (SwapFunction.PkScript f);
  tokenOutBalance ← Module_GetUserTokenBalance tokenOut (SwapFunction.PkScript f);
  set_height (G.BestHeight g) tokenInBalance ;;
  set_height (G.BestHeight g) tokenOutBalance ;;
  check_swap tokenInBalance tokenInAmt "swap: user tokenIn balance insufficient" ;;
  update_pool poolPair (pool_give (negb inIdx) amountOut) ;;
  debit_swap tokenInBalance amountIn ;;
  update_pool poolPair (pool_take inIdx amountIn) ;;
  credit_swap tokenOutBalance amountOut ;;
  update_pool poolPair (λ pool, Ret (pool <| Pool.UpdateHeight := G.BestHeight g |>)).

Definition ProcessCommitFunctionSwap (g : BRC20ModuleIndexer) (f : SwapFunctionData) : ModM unit :=
  tokens ← lift (function_tokens "func: swap poolPair invalid" g f);
  let '(token0, token1) := (tokens : string * string) in
  let poolPair := GetLowerInnerPairNameByToken token0 token1 in
  pool ← load_pool poolPair "swap: pool invalid";
  let of_pool t := bool_decide (t = (Pool.Tick pool).1) || bool_decide (t = (Pool.Tick pool).2) in
  if negb (of_pool token0) then throw "func: swap token invalid" else
  if negb (of_pool token1) then throw "func: swap token invalid" else
  req ← lift (swap_direction token0 token1 (offset g) f);
  tokenInAmt ← lift (tick_amount (token_in req) (amt_in_str req) g);
  tokenOutAmt ← lift (tick_amount (token_out req) (amt_out_str req) g);
  let inIdx := token_idx (token_in req) pool in
  let outIdx := negb inIdx in
  slippageAmtStr ← lift (param f (5 + offset g));
  slippageAmt ← lift (parse_or_nil slippageAmtStr 3);
  m ← get;
  fee ← lift (CheckAmountVerify (Mod.FeeRateSwap m) 3);
  amounts ← lift (swap_amounts (exact_in req) (tick_balance inIdx pool) (tick_balance outIdx pool)
    tokenInAmt tokenOutAmt slippageAmt fee.1);
  let '(amountIn, amountOut) := (amounts : option Decimal * option Decimal) in
  lift (check_pool (tick_balance outIdx pool) amountOut "swap: pool tokenOut balance insufficient") ;;
  swap_apply g f poolPair (token_in req) (token_out req) inIdx tokenInAmt amountIn amountOut.
End functions.

(** ** Verifying and executing a commit *)
Section verify.
Context `{GoUnicode, Config, BtcAddr}.

(** Results say ["0"] for the zero address. *)
Definition result_script (address msg : string) : outcome string :=
  if bool_decide (address = "0") then Ret ZERO_ADDRESS_PKSCRIPT
  else pk ← or_error (GetPkScriptByAddress address) msg; Ret (b2s pk).

Definition check_ok (r : option Decimal * bool) (msg : string) : outcome (option Decimal) :=
  if r.2 then Ret r.1 else Error msg.
Definition check_equal (a b : option Decimal) (msg : string) : outcome unit :=
  c ← Cmp a b; if negb (c =? 0) then Error msg else Ret tt.

Definition check_user_result (g : BRC20ModuleIndexer) (idx : nat)
    (user : SwapFunctionResultCheckStateForUser) : ModM unit :=
  let users := "result users[" +:+ int_string (Z.of_nat idx) +:+ "] " in
  userPkScript ← lift (result_script (UserResult.Address user) (users +:+ "addr invalid"));
  if len (UserResult.Tick user) =? 4 then
    r ← lift (CheckTickVerify (UserResult.Tick user) (UserResult.Balance user) g);
    tokenAmt ← lift (check_ok r (users +:+ "balance invalid"));
    tokenBalance ← Module_GetUserTokenBalance (UserResult.Tick user) userPkScript;
    b ← mod_load tokenBalance;
    lift (check_equal (MBal.SwapAccountBalance b) tokenAmt (users +:+ "amount not match"))
  else
    tokens ← lift (or_error (DecodeTokensFromSwapPair (UserResult.Tick user)) (users +:+ "tick invalid"));
    let '(token0, token1) := (tokens : string * string) in
    r ← lift (CheckTickVerify token0 "" g);
    lift (check_ok r (users +:+ "tick/0 invalid")) ;;
    r ← lift (CheckTickVerify token1 "" g);
    lift (check_ok r (users +:+ "tick/1 invalid")) ;;
    r ← lift (CheckAmountVerify (UserResult.Balance user) 18);
    lpAmt ← lift (check_ok r (users +:+ "Lp Amount invalid"));
    let poolPair := GetLowerInnerPairNameByToken token0 token1 in
    m ← get;
    if bool_decide (Mod.LPTokenUsersBalanceMap m !! poolPair = None)
    then throw (users +:+ "Pair invalid") else
    lift (check_equal (lp_in_pool poolPair userPkScript m) lpAmt (users +:+ "lp balance not match")).

Definition check_pool_result (g : BRC20ModuleIndexer) (idx : nat)
    (poolResult : SwapFunctionResultCheckStateForPool) : ModM unit :=
  let pools := "result pools[" +:+ int_string (Z.of_nat idx) +:+ "] " in
  tokens ← lift (or_error (DecodeTokensFromSwapPair (PoolResult.Pair poolResult)) (pools +:+ "Pair invalid"));
  let '(token0, token1) := (tokens : string * string) in
  r ← lift (CheckTickVerify token0 (PoolResult.ReserveAmount0 poolResult) g);
  token0Amt ← lift (check_ok r (pools +:+ "Amount0 invalid"));
  r ← lift (CheckTickVerify token1 (PoolResult.ReserveAmount1 poolResult) g);
  token1Amt ← lift (check_ok r (pools +:+ "Amount1 invalid"));
  r ← lift (CheckAmountVerify (PoolResult.LPAmount poolResult) 18);
  lpAmt ← lift (check_ok r (pools +:+ "Lp Amount invalid"));
  pool ← load_pool (GetLowerInnerPairNameByToken token0 token1) (pools +:+ "missing pair");
  let i0 := token_idx token0 pool in
  lift (check_equal token0Amt (tick_balance i0 pool) (pools +:+ "balance not match")) ;;
  lift (check_equal token1Amt (tick_balance (negb i0) pool) (pools +:+ "balance not match")) ;;
  lift (check_equal lpAmt (Pool.LpBalance pool) (pools +:+ "lpbalance not match")).

Definition BRC20ResultsPreVerify (g : BRC20ModuleIndexer) (result : SwapFunctionResultCheckState)
    : ModM unit :=
  for_each (λ p : nat * SwapFunctionResultCheckStateForUser, check_user_result g p.1 p.2)
    (imap pair (CheckState.Users result)) ;;
  for_each (λ p : nat * SwapFunctionResultCheckStateForPool, check_pool_result g p.1 p.2)
    (imap pair (CheckState.Pools result)).

(** The function a commit names; an unknown name does nothing. *)
Definition commit_function (g : BRC20ModuleIndexer) (f : SwapFunctionData) : ModM unit :=
  let named name := bool_decide (SwapFunction.Function_ f = name) in
  if named BRC20_SWAP_FUNCTION_DEPLOY_POOL then ProcessCommitFunctionDeployPool g f
  else if named BRC20_SWAP_FUNCTION_ADD_LIQ then ProcessCommitFunctionAddLiquidity g f
  else if named BRC20_SWAP_FUNCTION_REMOVE_LIQ then ProcessCommitFunctionRemoveLiquidity g f
  else if named BRC20_SWAP_FUNCTION_SWAP then ProcessCommitFunctionSwap g f
  else if named BRC20_SWAP_FUNCTION_DECREASE_APPROVAL then ProcessCommitFunctionDecreaseApproval g f
  else if named BRC20_SWAP_FUNCTION_SEND then ProcessCommitFunctionSend g f
  else if named BRC20_SWAP_FUNCTION_SENDLP then ProcessCommitFunctionSendLp f
  else mret tt.

(** [(index, critical, err)] of a Go call; a nil [err] is [None]. *)
Definition verify_result : Type := Z * bool * option string.

(** [if err := m(); err != nil { return r, err }] *)
Definition or_return (m : ModM unit) (idx : nat) (critical : bool) (k : ModM verify_result)
    : ModM verify_result :=
  r ← catch m;
  match r with inl _ => k | inr err => mret (Z.of_nat idx, critical, Some err) end.

(** The gas of a function: by its size before the withdraw height, flat after it. *)
Definition gas_amount (g : BRC20ModuleIndexer) (gasPriceAmt : option Decimal) (size : Z)
    : outcome (option Decimal) :=
  let size := if paired g then size else 1 in
  Mul gasPriceAmt (Some (NewDecimal size 3)).

Fixpoint commit_functions (g : BRC20ModuleIndexer) (commitId : string) (gasPriceAmt : option Decimal)
    (results external : list SwapFunctionResultCheckState) (instant : bool)
    (idx : nat) (data : list (option SwapFunctionData)) (sizes : list Z) : ModM verify_result :=
  match data, sizes with
  | None :: _, _ :: _ => gopanic nil_deref
  | Some f :: data, size :: sizes =>
    r ← catch (pk ← lift (GetPkScriptByAddress (SwapFunction.Address f)); mret (b2s pk));
    match r with
    | inr _ => mret (Z.of_nat idx, true, Some "commit, addr invalid")
    | inl pkScript =>
      let f := f <| SwapFunction.PkScript := pkScript |> in
      or_return (when (0 <? Sign gasPriceAmt)
        (gasAmt ← lift (gas_amount g gasPriceAmt size);
         ProcessCommitFunctionGasFee g (SwapFunction.PkScript f) gasAmt)) idx true
      (or_return (commit_function g f) idx true
      (or_return (if instant then
          match results !! idx with
          | Some result => BRC20ResultsPreVerify g result
          | None => gopanic "index out of range"
          end
        else mret tt) idx false
      (or_return (for_each (λ result,
          if bool_decide (CheckState.CommitId result = commitId) &&
             (CheckState.FunctionIdx result =? Z.of_nat idx)
          then BRC20ResultsPreVerify g result else mret tt) external) idx false
      (commit_functions g commitId gasPriceAmt results external instant (S idx) data sizes))))
    end
  | _, _ => mret (0, false, None)
  end.

(** [external] is [GResultsExternal], a list a test run may load. *)
Definition ProcessCommitVerify (external : list SwapFunctionResultCheckState) (commitId : string)
    (body : InscriptionBRC20ModuleSwapCommitContent) (eachFuntionSize : list Z)
    (results : list SwapFunctionResultCheckState) : Idx verify_result :=
  let fail msg := mret (-1, true, Some msg) in
  let data := CommitBody.CommitData body in
  let parent := CommitBody.Parent body in
  g ← get;
  match G.ModulesInfoMap g !! CommitBody.Module_ body with
  | None => fail "commit, module not exist"
  | Some moduleInfo =>
    if bool_decide (parent = "") && negb (bool_decide (Mod.CommitIdMap moduleInfo = ∅))
    then fail "commit, missing parent"
    else if negb (bool_decide (parent = "")) && bool_decide (parent ∈ Mod.CommitIdChainMap moduleInfo)
    then fail "commit, parent already sattled"
    else if negb (bool_decide (parent = "")) && negb (bool_decide (parent ∈ Mod.CommitIdMap moduleInfo))
    then fail "commit, parent invalid"
    else
      gasPriceAmt ← lift (tick_amount (Mod.GasTick moduleInfo) (CommitBody.GasPrice body) g);
      if negb (length data =? length eachFuntionSize)%nat
      then fail "commit, function size not match data"
      else
        on_module (CommitBody.Module_ body)
          (commit_functions g commitId gasPriceAmt results external
             (length results =? length data)%nat 0 data eachFuntionSize)
  end.
End verify.
