(* ===== verification/PreVerify.v ===== *)
(** * indexer/module_commit_verify.go, module_commit_utils.go: checks of an inscribed commit

    A commit is accepted when each of its functions is signed by its user, over the
    commit and the functions of the same user before it, and has well-formed
    parameters.  The errors of a function come with its index. *)
From S2P Require Import Prelude GoStd GoCrypto Decimal Script Utils Json Model History Swap Bip322 Indexer CondApprove Ledger Modules Commit.

(** [strings.Join(l, " ")] *)
Fixpoint join_spaces (l : list string) : string :=
  match l with
  | [] => ""
  | [s] => s
  | s :: l => s +:+ " " +:+ join_spaces l
  end.
(** ["name: text\n"] *)
Definition newline : string := b2s [byte_of_Z 10].
Definition line (name text : string) : string := name +:+ ": " +:+ text +:+ newline.

(** ** Signatures *)
Definition GetFunctionDataContent (contentPrefix : string) (data : SwapFunctionData) : string :=
  contentPrefix +:+ line "addr" (SwapFunction.Address data)
    +:+ line "func" (SwapFunction.Function_ data)
    +:+ line "params" (join_spaces (SwapFunction.Params data))
    +:+ line "ts" (int_string (SwapFunction.Timestamp data)).

(** The witness in a decoded signature: one item, or a signature and a public key. *)
Definition signature_witness (signature : bytes) : option (list bytes) :=
  let lenSignature := length signature in
  if (lenSignature =? 66)%nat then Some [drop 2 signature]
  else if (100 <? lenSignature)%nat && (lenSignature <=? 108)%nat then
    Some [slice signature 2 (lenSignature - 34); slice signature (lenSignature - 33) lenSignature]
  else None.

(** [(id, ok)] *)
Definition CheckFunctionSigVerify `{Btcd} (contentPrefix : string) (data : SwapFunctionData)
    (previous : list string) : outcome (string * bool) :=
  let contentPrefix := match previous with
    | [] => contentPrefix
    | _ => contentPrefix +:+ line "prevs" (join_spaces previous)
    end in
  let content := GetFunctionDataContent contentPrefix data in
  let id := HashString (Sha256.sum (s2b content)) in
  let message := GetFunctionDataContent (line "id" id) data in
  match base64_DecodeString (SwapFunction.Signature data) with
  | None => Ret (id, false)
  | Some signature =>
    match signature_witness signature with
    | None => Ret (id, false)
    | Some wit =>
      ok ← VerifySignature wit (s2b (SwapFunction.PkScript data)) message;
      Ret (id, ok)
    end
  end.

(** ** The parameters of a function *)
Section params.
Context `{GoUnicode, Config, BtcAddr}.

(** [if _, ok := check; !ok { return errors.New(msg) }] *)
Definition require_ok (r : outcome (option Decimal * bool)) (msg : string) : outcome unit :=
  ok ← snd <$> r; if (ok : bool) then Ret tt else Error msg.
Definition require_tick (tick amt msg : string) (g : BRC20ModuleIndexer) : outcome unit :=
  require_ok (CheckTickVerify tick amt g) msg.
Definition require_amount (amt : string) (n : Z) (msg : string) : outcome unit :=
  require_ok (CheckAmountVerify amt n) msg.
Definition require_params (n : nat) (f : SwapFunctionData) (msg : string) : outcome unit :=
  if negb (length (SwapFunction.Params f) =? n)%nat then Error msg else Ret tt.
Definition require_address (addr msg : string) : outcome unit :=
  or_error (GetPkScriptByAddress addr) msg ≫= λ _, Ret tt.

Definition preverify_deploy (g : BRC20ModuleIndexer) (f : SwapFunctionData) : outcome unit :=
  require_params 2 f "func: deploy params invalid" ≫= λ _,
  token0 ← param f 0;
  token1 ← param f 1;
  if bool_decide (token0 = token1) then Error "func: deploy same tokens" else
  if bool_decide (G.InscriptionsTickerInfoMap g !! ToLower token0 = None)
  then Error "func: deploy tick0 invalid" else
  if bool_decide (G.InscriptionsTickerInfoMap g !! ToLower token1 = None)
  then Error "func: deploy tick1 invalid" else Ret tt.

Definition preverify_add_liq (g : BRC20ModuleIndexer) (f : SwapFunctionData) : outcome unit :=
  require_params (5 + offset g) f "func: addLiq params invalid" ≫= λ _,
  tokens ← function_tokens "func: addLiq poolPair invalid" g f;
  token0AmtStr ← param f (1 + offset g);
  token1AmtStr ← param f (2 + offset g);
  tokenLpAmtStr ← param f (3 + offset g);
  slippage ← param f (4 + offset g);
  require_tick tokens.1 token0AmtStr "func: addLiq amt0 invalid" g ≫= λ _,
  require_tick tokens.2 token1AmtStr "func: addLiq amt1 invalid" g ≫= λ _,
  require_amount tokenLpAmtStr 18 "func: addLiq amtLp invalid" ≫= λ _,
  require_amount slippage 3 "func: addLiq slippage invalid".

Definition preverify_remove_liq (g : BRC20ModuleIndexer) (f : SwapFunctionData) : outcome unit :=
  require_params (5 + offset g) f "func: removeLiq params invalid" ≫= λ _,
  tokens ← function_tokens "func: removeLiq poolPair invalid" g f;
  tokenLpAmtStr ← param f (1 + offset g);
  token0AmtStr ← param f (2 + offset g);
  token1AmtStr ← param f (3 + offset g);
  slippage ← param f (4 + offset g);
  require_amount tokenLpAmtStr 18
    ("func: removeLiq amtLp invalid, " +:+ tokens.1 +:+ "/" +:+ tokens.2) ≫= λ _,
  require_tick tokens.1 token0AmtStr "func: removeLiq amt0 invalid" g ≫= λ _,
  require_tick tokens.2 token1AmtStr "func: removeLiq amt1 invalid" g ≫= λ _,
  require_amount slippage 3 "func: removeLiq slippage invalid".

Definition preverify_swap (g : BRC20ModuleIndexer) (f : SwapFunctionData) : outcome unit :=
  require_params (6 + offset g) f "func: swap params invalid" ≫= λ _,
  tokens ← function_tokens "func: swap poolPair invalid" g f;
  token ← param f (1 + offset g);
  if negb (bool_decide (token = tokens.1)) && negb (bool_decide (token = tokens.2))
  then Error "func: swap token invalid" else
  derection ← param f (3 + offset g);
  if negb (bool_decide (derection = "exactIn")) && negb (bool_decide (derection = "exactOut"))
  then Error "func: swap derection invalid" else
  req ← swap_direction tokens.1 tokens.2 (offset g) f;
  require_tick (token_in req) (amt_in_str req) "func: swap token amount invalid" g ≫= λ _,
  require_tick (token_out req) (amt_out_str req) "func: swap amt1 invalid" g ≫= λ _,
  slippage ← param f (5 + offset g);
  require_amount slippage 3 "func: swap slippage invalid".

Definition preverify_decrease_approval (g : BRC20ModuleIndexer) (f : SwapFunctionData) : outcome unit :=
  require_params 2 f "func: decrease approval params invalid" ≫= λ _,
  token ← param f 0;
  tokenAmtStr ← param f 1;
  require_tick token tokenAmtStr "func: decrease approval amt invalid" g.

Definition preverify_send (g : BRC20ModuleIndexer) (f : SwapFunctionData) : outcome unit :=
  require_params 3 f "func: send params invalid" ≫= λ _,
  addressTo ← param f 0;
  require_address addressTo "send addr invalid" ≫= λ _,
  token ← param f 1;
  tokenAmtStr ← param f 2;
  require_tick token tokenAmtStr "func: send amt invalid" g.

(** The name of the pool, a length and two tickers, is taken for a pair of tickers. *)
Definition preverify_sendlp (f : SwapFunctionData) : outcome unit :=
  require_params 4 f "func: send params invalid" ≫= λ _,
  addressTo ← param f 0;
  require_address addressTo "send addr invalid" ≫= λ _,
  token0 ← param f 1;
  token1 ← param f 2;
  tokenAmtStr ← param f 3;
  or_error (DecodeTokensFromSwapPair (GetLowerInnerPairNameByToken token0 token1))
    "func: send lp invalid" ≫= λ _,
  require_amount tokenAmtStr 18 ("func: send amtLp invalid, " +:+ tokenAmtStr).

Definition preverify_function (g : BRC20ModuleIndexer) (f : SwapFunctionData) : outcome unit :=
  let named name := bool_decide (SwapFunction.Function_ f = name) in
  if named BRC20_SWAP_FUNCTION_DEPLOY_POOL then preverify_deploy g f
  else if named BRC20_SWAP_FUNCTION_ADD_LIQ then preverify_add_liq g f
  else if named BRC20_SWAP_FUNCTION_REMOVE_LIQ then preverify_remove_liq g f
  else if named BRC20_SWAP_FUNCTION_SWAP then preverify_swap g f
  else if named BRC20_SWAP_FUNCTION_DECREASE_APPROVAL then preverify_decrease_approval g f
  else if named BRC20_SWAP_FUNCTION_SEND then preverify_send g f
  else if named BRC20_SWAP_FUNCTION_SENDLP then preverify_sendlp f
  else Error "func invalid".
End params.

(** ** ProcessInscribeCommitPreVerify *)
Section preverify.
Context `{GoUnicode, Config, BtcAddr, Btcd}.

(** [(index, err)]; a nil [err] is [None]. *)
Definition preverify_result : Type := Z * option string.

(** [functionsByAddressMap] holds the ids of a user's functions so far. *)
Fixpoint preverify_functions (g : BRC20ModuleIndexer) (content : string)
    (functionsByAddressMap : gmap string (list string)) (idx : nat)
    (data : list (option SwapFunctionData)) : outcome preverify_result :=
  let fail msg := Ret (Z.of_nat idx, Some msg) in
  match data with
  | [] => Ret (0, None)
  | None :: _ => Panic nil_deref
  | Some f :: data =>
    match GetPkScriptByAddress (SwapFunction.Address f) with
    | Panic p => Panic p
    | Error _ => fail "addr invalid"
    | Ret pkScript =>
      let f := f <| SwapFunction.PkScript := b2s pkScript |> in
      let previous := default [] (functionsByAddressMap !! SwapFunction.Address f) in
      signed ← CheckFunctionSigVerify content f previous;
      if negb signed.2 then
        fail ("function[" +:+ int_string (Z.of_nat idx) +:+ "]" +:+ signed.1 +:+ " sig invalid")
      else
        match preverify_function g f with
        | Panic p => Panic p
        | Error err => fail err
        | Ret _ => preverify_functions g content
            (<[SwapFunction.Address f := previous ++ [signed.1]]> functionsByAddressMap) (S idx) data
        end
    end
  end.

(** What all functions of a commit sign: its module, parent and gas price. *)
Definition commit_content (moduleInfo : BRC20ModuleSwapInfo)
    (body : InscriptionBRC20ModuleSwapCommitContent) : string :=
  let opt name text := if bool_decide (text = "") then "" else line name text in
  line "module" (Mod.ID moduleInfo) +:+ opt "parent" (CommitBody.Parent body)
    +:+ opt "gas_price" (CommitBody.GasPrice body).

Definition ProcessInscribeCommitPreVerify (g : BRC20ModuleIndexer)
    (body : InscriptionBRC20ModuleSwapCommitContent) : outcome preverify_result :=
  let modul := CommitBody.Module_ body in
  if negb (bool_decide (modul = ToLower modul)) then Ret (-1, Some "module id invalid") else
  match G.ModulesInfoMap g !! modul with
  | None => Ret (-1, Some "module invalid")
  | Some moduleInfo =>
    gas ← CheckTickVerify (Mod.GasTick moduleInfo) (CommitBody.GasPrice body) g;
    if negb gas.2 then Ret (-1, Some "gas price invalid") else
    preverify_functions g (commit_content moduleInfo body) ∅ 0 (CommitBody.CommitData body)
  end.
End preverify.
