(* ===== verification/SignedText.v ===== *)
(** * The text a user signs

    The text of a function joins its parameters with spaces and its fields with line
    breaks, and escapes neither. *)
From S2P Require Import Prelude GoStd GoCrypto Decimal Script Utils Json Model History Swap Bip322 Indexer CondApprove Ledger Modules Commit PreVerify.

Definition nl : ascii := byte_of_Z 10.
Definition space : ascii := byte_of_Z 32.

(** ** Texts up to a separator *)
Lemma app_sep_inj (c : ascii) (x y k l : bytes) :
  c ∉ x → c ∉ y → x ++ c :: k = y ++ c :: l → x = y ∧ k = l.
Proof.
  revert y. induction x as [|a x IH]; intros [|b y] Hx Hy E; simplify_eq/=.
  - done.
  - exfalso. apply Hy. by left.
  - exfalso. apply Hx. by left.
  - destruct (IH y) as [-> ->]; [by intros ?; apply Hx; right|by intros ?; apply Hy; right|done..].
Qed.

Lemma line_bytes name text : s2b (line name text) = s2b name ++ [byte_of_Z 58; space] ++ s2b text ++ [nl].
Proof. unfold line, newline. by rewrite !s2b_app, s2b_b2s. Qed.
(** Equal texts have equal first lines, when they have the same name. *)
Lemma line_inj name t t' r r' :
  nl ∉ s2b t → nl ∉ s2b t' → line name t +:+ r = line name t' +:+ r' → t = t' ∧ r = r'.
Proof.
  intros Ht Ht' E%(f_equal s2b). rewrite !s2b_app, !line_bytes, <-!app_assoc in E.
  apply app_inv_head, app_inv_head in E. simpl in E. apply app_sep_inj in E as [E1 E2]; [|done..].
  split; by apply s2b_inj.
Qed.

(** Parameters without spaces come apart again. *)
Lemma split_join_spaces l :
  l ≠ [] → Forall (λ s, space ∉ s2b s) l → split_bytes space (s2b (join_spaces l)) = map s2b l.
Proof.
  intros Hne Hl. induction Hl as [|s l Hs Hl IH]; [done|]. destruct l as [|t l].
  - simpl. by rewrite split_bytes_none.
  - change (join_spaces (s :: t :: l)) with (s +:+ " " +:+ join_spaces (t :: l)).
    rewrite !s2b_app. change (s2b " ") with [space]. change ([space] ++ ?x) with (space :: x).
    rewrite split_bytes_app by done. simpl. f_equal. by apply IH.
Qed.
Lemma join_spaces_inj l k :
  l ≠ [] → k ≠ [] → Forall (λ s, space ∉ s2b s) l → Forall (λ s, space ∉ s2b s) k →
  join_spaces l = join_spaces k → l = k.
Proof.
  intros Hl Hk Fl Fk E. assert (map s2b l = map s2b k) as Em by by rewrite <-!split_join_spaces, E.
  revert Em. clear. revert k. induction l as [|s l IH]; intros [|t k]; simpl; try done.
  intros [= E%s2b_inj Em]. f_equal; auto.
Qed.
Lemma join_spaces_no_nl l : Forall (λ s, nl ∉ s2b s) l → nl ∉ s2b (join_spaces l).
Proof.
  induction 1 as [|s l Hs Hl IH]; [by apply not_elem_of_nil|]. destruct l as [|t l]; [done|].
  change (join_spaces (s :: t :: l)) with (s +:+ " " +:+ join_spaces (t :: l)).
  rewrite !s2b_app, !not_elem_of_app. split_and!; [done| |done]. by intros [?|[]%not_elem_of_nil]%elem_of_cons.
Qed.

(** ** The function in a text *)

(** Fields of one line, parameters of one word. *)
Definition one_line (f : SwapFunctionData) : Prop :=
  (nl ∉ s2b (SwapFunction.Address f)) ∧ (nl ∉ s2b (SwapFunction.Function_ f)) ∧ SwapFunction.Params f ≠ [] ∧
  Forall (λ s, (space ∉ s2b s) ∧ (nl ∉ s2b s)) (SwapFunction.Params f) ∧ 0 ≤ SwapFunction.Timestamp f.

Lemma int_string_no_nl z : 0 ≤ z → nl ∉ s2b (int_string z).
Proof.
  intros Hz Hin. rewrite int_string_nonneg, s2b_b2s in Hin by done.
  pose proof (uint_digits_all z Hz) as Hd. unfold all_digits in Hd. rewrite Forall_forall in Hd.
  by apply Hd in Hin.
Qed.

(** C27: A signature is for one function: functions whose fields hold no line break, with
    parameters that are words without spaces, have the same signed text only when they
    have the same address, name, parameters and timestamp. *)
Theorem GetFunctionDataContent_inj prefix f f' :
  one_line f → one_line f' → GetFunctionDataContent prefix f = GetFunctionDataContent prefix f' →
  SwapFunction.Address f = SwapFunction.Address f' ∧ SwapFunction.Function_ f = SwapFunction.Function_ f' ∧
  SwapFunction.Params f = SwapFunction.Params f' ∧ SwapFunction.Timestamp f = SwapFunction.Timestamp f'.
Proof.
  intros (Ha & Hf & Hne & Hp & Ht) (Ha' & Hf' & Hne' & Hp' & Ht') E. unfold GetFunctionDataContent in E.
  apply (f_equal s2b) in E. rewrite !(s2b_app prefix) in E. apply app_inv_head, s2b_inj in E.
  apply Forall_and in Hp as [Hs Hn], Hp' as [Hs' Hn'].
  apply line_inj in E as [Ea E]; [|done..]. apply line_inj in E as [Ef E]; [|done..].
  apply line_inj in E as [Ep E]; [|by apply join_spaces_no_nl..].
  apply join_spaces_inj in Ep; [|done..].
  assert (SwapFunction.Timestamp f = SwapFunction.Timestamp f') as Et.
  { apply int_string_inj; [done..|].
    apply (line_inj "ts" _ _ "" ""); [by apply int_string_no_nl..|by rewrite E]. }
  done.
Qed.
Lemma GetFunctionDataContent_inj_witness :
  let send amt := SwapFunction.mk "" "send" ["bob"; "ordi"; amt] 7 "alice" "" "" in
  GetFunctionDataContent "id: 1" (send "1") ≠ GetFunctionDataContent "id: 1" (send "2").
Proof.
  intros send E. destruct (GetFunctionDataContent_inj "id: 1" (send "1") (send "2")) as (_ & _ & E' & _).
  - by apply (bool_decide_unpack _); vm_compute.
  - by apply (bool_decide_unpack _); vm_compute.
  - exact E.
  - by vm_compute in E'.
Defined.

(** With a space in a parameter two functions have one text. *)
Example two_functions_one_text :
  let send ps := SwapFunction.mk "" "send" ps 7 "alice" "" "" in
  GetFunctionDataContent "id: 1" (send ["bob"; "or di"; "1"]) =
  GetFunctionDataContent "id: 1" (send ["bob or"; "di"; "1"]).
Proof. by vm_compute. Qed.
