(* ===== verification/CherryPick.v ===== *)
(** * model/swap.go, indexer/init.go: the copy a commit is tried on

    [CherryPick] copies the module of a commit, and the tickers and balances the commit
    names, into an indexer of its own.  A copied object gets the location [obj_loc] of
    its holder and ticker; the pointer to an object that is not there, nil in Go, is
    the location without an object. *)
From S2P Require Import Prelude GoStd Decimal Script Utils Json Model History Swap Indexer CondApprove Ledger Modules Commit.

(** ** Copies of objects *)
Definition MBal_CherryPick (b : BRC20ModuleTokenBalance) : BRC20ModuleTokenBalance :=
  b <| MBal.UpdateHeight := 0 |>
    <| MBal.SwapAccountBalanceSafe ::= NewDecimalCopy |>
    <| MBal.ModuleAccountBalanceSafe ::= NewDecimalCopy |>
    <| MBal.SwapAccountBalance ::= NewDecimalCopy |>
    <| MBal.AvailableBalanceSafe ::= NewDecimalCopy |>
    <| MBal.AvailableBalance ::= NewDecimalCopy |>
    <| MBal.ApproveableBalance ::= NewDecimalCopy |>
    <| MBal.CondApproveableBalance ::= NewDecimalCopy |>
    <| MBal.ReadyToWithdrawAmount ::= NewDecimalCopy |>
    <| MBal.ValidConditionalApproveMap := ∅ |>
    <| MBal.ValidApproveMap := ∅ |>
    <| MBal.ReadyToWithdrawMap := ∅ |>
    <| MBal.History := [] |>.

Definition Pool_CherryPick (p : BRC20ModulePoolTotalBalance) : BRC20ModulePoolTotalBalance :=
  p <| Pool.UpdateHeight := 0 |>
    <| Pool.LpBalance ::= NewDecimalCopy |>
    <| Pool.LastRootK ::= NewDecimalCopy |>
    <| Pool.History := [] |>.

(** ** Copies of two-level maps of objects *)
Definition by_pair {A} (m : gmap string (gmap string A)) : gmap (string * string) A :=
  map_uncurry (M1 := gmap string) (M2 := gmap string) (M12 := gmap (string * string)) m.
Definition by_first {A} (m : gmap (string * string) A) : gmap string (gmap string A) :=
  map_curry (M1 := gmap string) (M2 := gmap string) (M12 := gmap (string * string)) m.
Definition swap_keys {A} (m : gmap (string * string) A) : gmap (string * string) A :=
  kmap (M2 := gmap (string * string)) prod_swap m.
Definition obj_loc (address tick : string) : loc := encode (address, tick).
Definition copy_tokens (address : string) (tokens : gmap string loc) : gmap string loc :=
  map_imap (λ tick _, Some (obj_loc address tick)) tokens.
(** [users[address][tick]] *)
Definition copy_users (users : gmap string (gmap string loc)) : gmap string (gmap string loc) :=
  map_imap (λ address tokens, Some (copy_tokens address tokens)) users.
(** [tokens[tick][address] = copy.users[address][tick]] *)
Definition copy_index (tokens : gmap string (gmap string loc)) : gmap string (gmap string loc) :=
  map_imap (λ tick users, Some (map_imap (λ address _, Some (obj_loc address tick)) users)) tokens.
(** The objects; copying a nil pointer panics. *)
Definition copy_objects {A} (copy : A → A) (users : gmap string (gmap string loc)) (heap : gmap loc A)
    : outcome (gmap loc A) :=
  let objects := by_pair users in
  if bool_decide (map_Forall (λ _ l, is_Some (heap !! l)) objects)
  then Ret (kmap (M2 := gmap loc) encode (omap (λ l, copy <$> heap !! l) objects))
  else Panic nil_deref.

(** ** A module *)

(** [pair/user] of the [user/pair] LP balances. *)
Definition lp_entry (usersLp : gmap string (gmap string (option Decimal))) (address pair : string)
    : option Decimal :=
  mjoin (usersLp !! address ≫= lookup pair).
Definition copy_lp (usersLp lpUsers : gmap string (gmap string (option Decimal)))
    : gmap string (gmap string (option Decimal)) :=
  map_imap (λ (pair : string) users, Some (map_imap
    (λ (address : string) _, Some (lp_entry usersLp address pair)) users)) lpUsers.

(** The filters are not used: every user, ticker and pool is copied. *)
Definition Mod_CherryPick (m : BRC20ModuleSwapInfo) : outcome BRC20ModuleSwapInfo :=
  balances ← copy_objects MBal_CherryPick (Mod.UsersTokenBalanceDataMap m) (Mod.Balances m);
  let usersLp := fmap (M := gmap string) NewDecimalCopy <$> Mod.UsersLPTokenBalanceMap m in
  Ret {| Mod.UpdateHeight := 0;
         Mod.ID := Mod.ID m; Mod.Name := Mod.Name m;
         Mod.DeployerPkScript := Mod.DeployerPkScript m;
         Mod.SequencerPkScript := Mod.SequencerPkScript m;
         Mod.GasToPkScript := Mod.GasToPkScript m; Mod.LpFeePkScript := Mod.LpFeePkScript m;
         Mod.FeeRateSwap := Mod.FeeRateSwap m; Mod.GasTick := Mod.GasTick m;
         Mod.History := [];
         Mod.CommitInvalidMap := ∅;
         Mod.CommitIdMap := Mod.CommitIdMap m; Mod.CommitIdChainMap := Mod.CommitIdChainMap m;
         Mod.UsersTokenBalanceDataMap := copy_users (Mod.UsersTokenBalanceDataMap m);
         Mod.TokenUsersBalanceDataMap := copy_index (Mod.TokenUsersBalanceDataMap m);
         Mod.Balances := balances;
         Mod.LPTokenUsersBalanceMap := copy_lp usersLp (Mod.LPTokenUsersBalanceMap m);
         Mod.LPTokenUsersBalanceUpdatedMap := ∅;
         Mod.UsersLPTokenBalanceMap := usersLp;
         Mod.SwapPoolTotalBalanceDataMap := Pool_CherryPick <$> Mod.SwapPoolTotalBalanceDataMap m;
         Mod.ConditionalApproveStateBalanceDataMap := ∅;
         Mod.ThisTxId := ""; Mod.TransferStatesForConditionalApprove := [];
         Mod.ApproveStatesForConditionalApprove := [] |}.

(** ** The indexer *)
Module Pick.
Record PickFilter := mk {
    pickUsersPkScript : gset string;
    pickTokensTick : gset string;
    pickPoolsPair : gset string;
  }.
#[global] Instance eta : EtaRecord PickFilter := λ r,
    mk (pickUsersPkScript r) (pickTokensTick r) (pickPoolsPair r).
End Pick.
Abbreviation PickFilter := Pick.PickFilter.

Definition TokenInfo_CherryPick (t : BRC20TokenInfo) : BRC20TokenInfo :=
  TokenInfo.mk 0 (TokenInfo.Ticker t) (TickInfo_DeepCopy (TokenInfo.Deploy t)) [] [] [] [] [].

Definition picked {A} (keys : gset string) (m : gmap string A) : gmap string A :=
  base.filter (λ p : string * A, p.1 ∈ keys) m.

Definition cherryPickBRC20Data (base : BRC20ModuleIndexer) (users ticks : gset string)
    (copyDup : BRC20ModuleIndexer) : outcome BRC20ModuleIndexer :=
  let userTokens := picked ticks <$> picked users (G.UserTokensBalanceData base) in
  balances ← copy_objects BRC20TokenBalance_DeepCopy userTokens (G.Balances base);
  Ret (copyDup
    <| G.InscriptionsTickerInfoMap :=
         TokenInfo_CherryPick <$> picked ticks (G.InscriptionsTickerInfoMap base) |>
    <| G.UserTokensBalanceData := copy_users userTokens |>
    <| G.TokenUsersBalanceData := by_first (swap_keys (by_pair (copy_users userTokens))) |>
    <| G.Balances := balances |>).

Definition cherryPickModuleData (base : BRC20ModuleIndexer) (modul : string)
    (copyDup : BRC20ModuleIndexer) : outcome BRC20ModuleIndexer :=
  modules ← match G.ModulesInfoMap base !! modul with
            | Some info => m ← Mod_CherryPick info; Ret {[modul := m]}
            | None => Ret ∅
            end;
  Ret (copyDup <| G.ModulesInfoMap := modules |>
               <| G.InscriptionsValidCommitMapById := G.InscriptionsValidCommitMapById base |>).

(** The lower-case gas ticker is added to the filter. *)
Definition CherryPick `{GoUnicode} (base : BRC20ModuleIndexer) (modul : string) (pick : PickFilter)
    : outcome BRC20ModuleIndexer :=
  let ticks := match G.ModulesInfoMap base !! modul with
    | Some moduleInfo => {[ToLower (Mod.GasTick moduleInfo)]} ∪ Pick.pickTokensTick pick
    | None => Pick.pickTokensTick pick
    end in
  copyDup ← cherryPickBRC20Data base (Pick.pickUsersPkScript pick) ticks Init;
  cherryPickModuleData base modul copyDup.
