(* ===== verification/CommitFlow.v ===== *)
(** * indexer/module_commit.go, module_commit_inscribe.go: the life of a commit

    A commit is inscribed, later moved to its module.  When moved it runs on a copy
    first ([CherryPick]) and on the state only when the copy accepts it.  The service
    checks a commit, and the commits it follows, on a copy of its own. *)
From S2P Require Import Prelude GoStd Decimal Script Utils Json Model History Swap Bip322 CommitJson Indexer CondApprove Ledger Modules Commit PreVerify CherryPick.

Section flow.
Context `{GoUnicode, Config, BtcAddr, Btcd}.

(** ** InitCherryPickFilter: the users, tickers and pools a commit names *)
Definition pick_user (pkScript : string) : GoM PickFilter unit :=
  modify (λ p, p <| Pick.pickUsersPkScript ::= union {[pkScript]} |>).
Definition pick_tick (tick : string) : GoM PickFilter unit :=
  modify (λ p, p <| Pick.pickTokensTick ::= union {[tick]} |>).
Definition pick_address (addr msg : string) : GoM PickFilter unit :=
  pk ← lift (or_error (GetPkScriptByAddress addr) msg); pick_user (b2s pk).
(** A pair of tokens: their pool and both tickers. *)
Definition pick_pair (token0 token1 : string) : GoM PickFilter unit :=
  modify (λ p, p <| Pick.pickPoolsPair ::= union {[GetLowerInnerPairNameByToken token0 token1]} |>) ;;
  pick_tick (ToLower token0) ;;
  pick_tick (ToLower token1).

Definition pick_liquidity (g : BRC20ModuleIndexer) (f : SwapFunctionData) (n : nat) (params pair : string)
    : GoM PickFilter unit :=
  lift (require_params (n + offset g) f params) ;;
  tokens ← lift (function_tokens pair g f);
  pick_pair tokens.1 tokens.2.

Definition pick_function (g : BRC20ModuleIndexer) (f : SwapFunctionData) : GoM PickFilter unit :=
  let named name := bool_decide (SwapFunction.Function_ f = name) in
  if named BRC20_SWAP_FUNCTION_DEPLOY_POOL then
    lift (require_params 2 f "func: deploy params invalid") ;;
    token0 ← lift (param f 0);
    token1 ← lift (param f 1);
    pick_pair token0 token1
  else if named BRC20_SWAP_FUNCTION_ADD_LIQ then
    pick_liquidity g f 5 "func: addLiq params invalid" "func: addLiq poolPair invalid"
  else if named BRC20_SWAP_FUNCTION_REMOVE_LIQ then
    pick_liquidity g f 5 "func: removeLiq params invalid" "func: removeLiq poolPair invalid"
  else if named BRC20_SWAP_FUNCTION_SWAP then
    pick_liquidity g f 6 "func: swap params invalid" "func: swap poolPair invalid"
  else if named BRC20_SWAP_FUNCTION_DECREASE_APPROVAL then
    lift (require_params 2 f "func: decrease approval params invalid") ;;
    token0 ← lift (param f 0);
    pick_tick (ToLower token0)
  else if named BRC20_SWAP_FUNCTION_SEND then
    lift (require_params 3 f "func: send params invalid") ;;
    addressTo ← lift (param f 0);
    pick_address addressTo "send addr invalid" ;;
    token0 ← lift (param f 1);
    pick_tick (ToLower token0)
  else if named BRC20_SWAP_FUNCTION_SENDLP then
    lift (require_params 4 f "func: send params invalid") ;;
    addressTo ← lift (param f 0);
    pick_address addressTo "send addr invalid" ;;
    token0 ← lift (param f 1);
    token1 ← lift (param f 2);
    pick_pair token0 token1
  else throw "func invalid".

(** The maps are filled up to the first error; its index is left out, for no caller
    looks at it. *)
Definition InitCherryPickFilter (g : BRC20ModuleIndexer)
    (body : InscriptionBRC20ModuleSwapCommitContent) : GoM PickFilter unit :=
  match G.ModulesInfoMap g !! CommitBody.Module_ body with
  | None => throw "module invalid"
  | Some moduleInfo =>
    pick_user (Mod.GasToPkScript moduleInfo) ;;
    pick_user (Mod.LpFeePkScript moduleInfo) ;;
    pick_user (Mod.SequencerPkScript moduleInfo) ;;
    pick_user (Mod.DeployerPkScript moduleInfo) ;;
    pick_tick (Mod.GasTick moduleInfo) ;;
    for_each (λ f : option SwapFunctionData,
      match f with
      | None => gopanic nil_deref
      | Some f => pick_address (SwapFunction.Address f) "addr invalid" ;; pick_function g f
      end) (CommitBody.CommitData body)
  end.
Definition no_pick : PickFilter := Pick.mk ∅ ∅ ∅.

(** [g.InitCherryPickFilter(...)] with its results dropped. *)
Definition cherry_pick_filter (g : BRC20ModuleIndexer)
    (body : InscriptionBRC20ModuleSwapCommitContent) : outcome PickFilter :=
  match InitCherryPickFilter g body no_pick with
  | (Panic p, _) => Panic p
  | (_, pick) => Ret pick
  end.

(** ** Inscribing a commit *)

(** [moduleInfo.CommitInvalidMap[id] = struct{}{}] and its undoing. *)
Definition set_commit_invalid (modul inscriptionId : string) : Idx unit :=
  on_module modul (modify (λ m, m <| Mod.CommitInvalidMap ::= union {[inscriptionId]} |>)).
Definition unset_commit_invalid (modul inscriptionId : string) : Idx unit :=
  on_module modul (modify (λ m, m <| Mod.CommitInvalidMap ::= λ s, s ∖ {[inscriptionId]} |>)).

Definition ProcessInscribeCommit (data : InscriptionBRC20Data) : Idx unit :=
  let inscriptionId := GetInscriptionId data in
  body ← lift (or_error (Unmarshal_Commit (Data.ContentBody data)) "json invalid");
  body ← deref body;
  let modul := CommitBody.Module_ body in
  if negb (bool_decide (modul = ToLower modul)) then throw "module id invalid" else
  g ← get;
  match G.ModulesInfoMap g !! modul with
  | None => throw "module invalid"
  | Some moduleInfo =>
    set_commit_invalid modul inscriptionId ;;
    if negb (bool_decide (Mod.SequencerPkScript moduleInfo = Data.PkScript data))
    then throw "module sequencer invalid" else
    g ← get;
    checked ← lift (ProcessInscribeCommitPreVerify g body);
    match checked.2 with
    | Some err => throw err
    | None =>
      modify (λ g, g
        <| G.InscriptionsValidCommitMap ::= <[Data.CreateIdxKey data := data]> |>
        <| G.InscriptionsValidCommitMapById ::= <[inscriptionId := data]> |>) ;;
      unset_commit_invalid modul inscriptionId
    end
  end.

(** ** Moving a commit *)
Definition GetCommitInfoByKey (createIdxKey : string) (g : BRC20ModuleIndexer)
    : option InscriptionBRC20Data * bool :=
  match G.InscriptionsValidCommitMap g !! createIdxKey with
  | Some commitData => (Some commitData, false)
  | None => (G.InscriptionsInvalidCommitMap g !! createIdxKey, true)
  end.

(** [GetEachItemLengthOfCommitJsonData] and the comparison with the functions. *)
Definition function_sizes (content : bytes) (body : InscriptionBRC20ModuleSwapCommitContent)
    : outcome (list Z) :=
  sizes ← or_error (GetEachItemLengthOfCommitJsonData content) "commit, get function size failed";
  if negb (length (CommitBody.CommitData body) =? length sizes)%nat
  then Error "commit, get function size failed" else Ret sizes.

(** [moduleInfo.CommitIdMap[id] = struct{}{}] and [CommitIdChainMap[parent]]. *)
Definition settle_commit (modul inscriptionId parent : string) : Idx unit :=
  on_module modul (modify (λ m, m
    <| Mod.CommitIdMap ::= union {[inscriptionId]} |>
    <| Mod.CommitIdChainMap ::= union {[parent]} |>)).

Definition ProcessCommit (external : list SwapFunctionResultCheckState)
    (dataFrom dataTo : InscriptionBRC20Data) (isInvalid : bool) : Idx unit :=
  let inscriptionId := GetInscriptionId dataFrom in
  modify (λ g, g <| G.InscriptionsValidCommitMapById ::= delete inscriptionId |>) ;;
  body ← lift (or_error (Unmarshal_Commit (Data.ContentBody dataFrom)) "json");
  match GetModuleFromScript (s2b (Data.PkScript dataTo)) with
  | None => throw "commit, not send to module"
  | Some moduleId =>
    body ← deref body;
    let modul := CommitBody.Module_ body in
    if negb (bool_decide (moduleId = modul)) then throw "commit, not send to module" else
    g ← get;
    match G.ModulesInfoMap g !! modul with
    | None => throw "commit, module not exist"
    | Some moduleInfo =>
      set_commit_invalid modul inscriptionId ;;
      if negb (bool_decide (Mod.SequencerPkScript moduleInfo = Data.PkScript dataFrom))
      then throw "module sequencer invalid" else
      eachFuntionSize ← lift (function_sizes (Data.ContentBody dataFrom) body);
      g ← get;
      pick ← lift (cherry_pick_filter g body);
      swapState ← lift (CherryPick g modul pick);
      tried ← lift (run_outcome (ProcessCommitVerify external inscriptionId body eachFuntionSize []) swapState);
      match (tried : verify_result).2 with
      | Some err => throw err
      | None =>
        result ← ProcessCommitVerify external inscriptionId body eachFuntionSize [];
        match (result : verify_result).2 with
        | Some err => throw err
        | None =>
          settle_commit modul inscriptionId (CommitBody.Parent body) ;;
          unset_commit_invalid modul inscriptionId ;;
          on_module modul (mod_history (NewBRC20ModuleHistory true BRC20_HISTORY_SWAP_TYPE_N_COMMIT
            dataFrom dataTo NoData true))
        end
      end
    end
  end.

(** ** Checking a commit before it is moved *)
Definition GetCommitParentFromData (data : InscriptionBRC20Data) : outcome string :=
  body ← or_error (Unmarshal_Commit (Data.ContentBody data)) "json";
  match body with Some body => Ret (CommitBody.Parent body) | None => Panic nil_deref end.

(** [(index, err)]; a nil [err] is [None]. *)
Definition ProcessCommitCheck (external : list SwapFunctionResultCheckState)
    (data : InscriptionBRC20Data) : Idx preverify_result :=
  let fail msg := mret (-1, Some msg) in
  body ← catch (lift (Unmarshal_Commit (Data.ContentBody data)));
  match body with
  | inr _ => fail "json"
  | inl body =>
    body ← deref body;
    let modul := CommitBody.Module_ body in
    g ← get;
    if bool_decide (G.ModulesInfoMap g !! modul = None) then fail "commit, module not exist" else
    sizes ← catch (lift (function_sizes (Data.ContentBody data) body));
    match sizes with
    | inr err => fail err
    | inl eachFuntionSize =>
      let inscriptionId := GetInscriptionId data in
      result ← ProcessCommitVerify external inscriptionId body eachFuntionSize [];
      match (result : verify_result).2 with
      | Some err => mret ((result : verify_result).1.1, Some err)
      | None =>
        settle_commit modul inscriptionId (CommitBody.Parent body) ;;
        modify (λ g, g <| G.InscriptionsValidCommitMapById ::= delete inscriptionId |>) ;;
        mret (0, None)
      end
    end
  end.

(** The bodies of the commits a list of commits builds on, under the ids their
    successors name. *)
Definition commit_stub (inscriptionId : string) (content : bytes) : InscriptionBRC20Data :=
  {| Data.IsTransfer := false; Data.TxId := ""; Data.Idx := 0; Data.Vout := 0; Data.Offset := 0;
     Data.Satoshi := 0; Data.PkScript := ""; Data.Fee := 0; Data.InscriptionNumber := 0;
     Data.Parent := []; Data.ContentBody := content; Data.CreateIdxKey := ""; Data.Height := 0;
     Data.TxIdx := 0; Data.BlockTime := 0; Data.Sequence := 0; Data.InscriptionId := inscriptionId |}.
Definition BRC20ModulePrepareSwapCommitContent (commitsStr : list bytes)
    (commitsObj : list (option InscriptionBRC20ModuleSwapCommitContent)) : Idx unit :=
  for_each (λ p : nat * bytes,
    match commitsObj !! S p.1 with
    | None => gopanic "index out of range"
    | Some None => gopanic nil_deref
    | Some (Some nextCommitObj) =>
      let parent := CommitBody.Parent nextCommitObj in
      modify (λ g, g <| G.InscriptionsValidCommitMapById ::= λ m,
        if bool_decide (is_Some (m !! parent)) then m else <[parent := commit_stub parent p.2]> m |>)
    end) (imap pair (take (length commitsStr - 1) commitsStr)).

(** The parents of a commit that are not settled, the oldest first: [None] while the
    walk has not ended within [fuel] steps. *)
Fixpoint unsettled_parents (fuel : nat) (settled : gset string)
    (byId : gmap string InscriptionBRC20Data) (parentId : string) (found : list string)
    : option (outcome (list string + Z * bool * string)) :=
  if bool_decide (parentId = "") || bool_decide (parentId ∈ settled) then Some (Ret (inl found)) else
  match fuel with
  | O => None
  | S fuel =>
    match byId !! parentId with
    | None => Some (Ret (inr (-1, false, "commit, parent body missing")))
    | Some parentCommitData =>
      match GetCommitParentFromData parentCommitData with
      | Panic p => Some (Panic p)
      | Error _ => Some (Ret (inr (-1, true, "commit, parent json invalid")))
      | Ret next => unsettled_parents fuel settled byId next (parentId :: found)
      end
    end
  end.

(** Settling the parents one by one. *)
Fixpoint settle_parents (external : list SwapFunctionResultCheckState) (ids : list string)
    (k : Idx verify_result) : Idx verify_result :=
  match ids with
  | [] => k
  | parentId :: ids =>
    g ← get;
    match G.InscriptionsValidCommitMapById g !! parentId with
    | None => mret (-1, false, Some "commit, parent body not ready")
    | Some parentCommitData =>
      checked ← ProcessCommitCheck external parentCommitData;
      match (checked : preverify_result).2 with
      | Some err => mret ((checked : preverify_result).1, true, Some err)
      | None => settle_parents external ids k
      end
    end
  end.

Definition BRC20ModuleVerifySwapCommitContent (fuel : nat)
    (external : list SwapFunctionResultCheckState) (commitStr : bytes)
    (commitObj : InscriptionBRC20ModuleSwapCommitContent)
    (results : list SwapFunctionResultCheckState) : Idx verify_result :=
  if negb (length (CommitBody.CommitData commitObj) =? length results)%nat
  then mret (-1, false, Some "commit verify, function results different size") else
  g ← get;
  checked ← lift (ProcessInscribeCommitPreVerify g commitObj);
  match checked with
  | (idx, Some err) => mret (idx, true, Some err)
  | (_, None) =>
    match G.ModulesInfoMap g !! CommitBody.Module_ commitObj with
    | None => mret (-1, true, Some "commit, module not exist")
    | Some moduleInfo =>
      match unsettled_parents fuel (Mod.CommitIdMap moduleInfo)
              (G.InscriptionsValidCommitMapById g) (CommitBody.Parent commitObj) [] with
      | None => gopanic "model: out of fuel"
      | Some walked =>
        walked ← lift walked;
        match walked with
        | inr (idx, critical, err) => mret (idx, critical, Some err)
        | inl commitIdsToCheck =>
          settle_parents external commitIdsToCheck (
            sizes ← catch (lift (GetEachItemLengthOfCommitJsonData commitStr));
            match sizes with
            | inr _ => mret (-1, true, Some "commit, get function size failed")
            | inl eachFuntionSize =>
              ProcessCommitVerify external "" commitObj eachFuntionSize results
            end)
        end
      end
    end
  end.
End flow.
