(* ===== verification/Parents.v ===== *)
(** * The walk to the settled commits

    [BRC20ModuleVerifySwapCommitContent] follows a commit to its parent until it finds
    a settled one.  The walk takes at most one step more than there are commits, unless
    it comes back to a commit, and then it never ends. *)
From S2P Require Import Prelude GoStd Decimal Script Utils Json Model History Swap Bip322 CommitJson Indexer CondApprove Ledger Modules Commit PreVerify CherryPick CommitFlow.

Section walk.
Context (settled : gset string) (byId : gmap string InscriptionBRC20Data).
Implicit Types (p q : string).

Definition at_end p : bool := bool_decide (p = "") || bool_decide (p ∈ settled).
(** The commit [p] leads to, when the walk goes on. *)
Definition parent_of p : option string :=
  if at_end p then None else
  d ← byId !! p;
  match GetCommitParentFromData d with Ret next => Some next | _ => None end.
Definition walk (k : nat) p : option string := Nat.iter k (λ o, o ≫= parent_of) (Some p).

Lemma walk_step k p : walk (S k) p = parent_of p ≫= walk k.
Proof.
  unfold walk. induction k as [|k IH]; [simpl; by destruct (parent_of p)|].
  change (walk (S (S k)) p = parent_of p ≫= walk (S k)). unfold walk in *.
  change (Nat.iter (S k) (λ o, o ≫= parent_of) (Some p) ≫= parent_of = parent_of p ≫= walk (S k)).
  rewrite IH. by destruct (parent_of p).
Qed.
Lemma walk_app i k p : walk (i + k) p = walk i p ≫= walk k.
Proof.
  revert p. induction i as [|i IH]; intros p; [done|].
  change (walk (S (i + k)) p = walk (S i) p ≫= walk k). rewrite !walk_step.
  destruct (parent_of p) as [q|]; [apply IH|done].
Qed.
Lemma walk_prefix k i p q : walk k p = Some q → (i ≤ k)%nat → ∃ r, walk i p = Some r.
Proof.
  intros Hk Hi. replace k with (i + (k - i))%nat in Hk by lia. rewrite walk_app in Hk.
  destruct (walk i p) as [r|]; [by exists r|done].
Qed.
Lemma parent_of_in p q : parent_of p = Some q → at_end p = false ∧ p ∈ dom byId.
Proof.
  unfold parent_of. destruct (at_end p); [done|]. destruct (byId !! p) eqn:E; [|done].
  intros _. split; [done|]. by eapply elem_of_dom_2.
Qed.

(** ** The walk of the code *)
Lemma unsettled_parents_none fuel p found :
  unsettled_parents fuel settled byId p found = None ↔ ∃ q, walk fuel p = Some q ∧ at_end q = false.
Proof.
  revert p found. induction fuel as [|fuel IH]; intros p found; cbn [unsettled_parents]; fold (at_end p).
  - destruct (at_end p) eqn:E; split; [done| |by exists p|done]. intros (q & [= <-] & Hq). congruence.
  - rewrite walk_step. unfold parent_of. destruct (at_end p) eqn:E; [split; [done|by intros (? & ? & _)]|].
    destruct (byId !! p) as [d|]; simpl; [|split; [done|by intros (? & ? & _)]].
    destruct (GetCommitParentFromData d) as [next| |]; simpl; [apply IH|split; [done|by intros (? & ? & _)]..].
Qed.

(** ** Coming back *)
Lemma walk_back i j p q : (i < j)%nat → walk i p = Some q → walk j p = Some q → ∀ k, ∃ r, walk k p = Some r.
Proof.
  intros Hij Hi Hj k. induction k as [k IH] using lt_wf_ind.
  destruct (decide (k ≤ j)%nat) as [Hk|Hk]; [by eapply walk_prefix|].
  destruct (IH (i + (k - j))%nat) as [r Hr]; [lia|]. exists r.
  replace k with (j + (k - j))%nat by lia. rewrite walk_app in *. by rewrite Hj, Hi in *.
Qed.
Lemma walk_forever fuel p found :
  (∀ k, ∃ r, walk k p = Some r) → unsettled_parents fuel settled byId p found = None.
Proof.
  intros Hw. apply unsettled_parents_none. destruct (Hw fuel) as [q Hq]. exists q. split; [done|].
  destruct (Hw (S fuel)) as [r Hr]. replace (S fuel) with (fuel + 1)%nat in Hr by lia.
  rewrite walk_app, Hq in Hr. by apply parent_of_in in Hr as [? _].
Qed.

(** The walk from [p] never comes back to a commit it has passed. *)
Definition acyclic p : Prop := ∀ i k q, walk i p = Some q → walk (S k) q ≠ Some q.
Lemma acyclic_ne p i j x : acyclic p → (i < j)%nat → walk i p = Some x → walk j p ≠ Some x.
Proof.
  intros Ha Hij Hi Hj. apply (Ha i (j - S i)%nat x Hi). replace j with (i + S (j - S i))%nat in Hj by lia.
  by rewrite walk_app, Hi in Hj.
Qed.
Lemma ends_acyclic fuel p found r : unsettled_parents fuel settled byId p found = Some r → acyclic p.
Proof.
  intros Hr i k q Hi Hk. rewrite (walk_forever fuel p found) in Hr; [done|].
  apply (walk_back i (i + S k) p q); [lia|done|]. by rewrite walk_app, Hi.
Qed.

(** The commits a walk passes are in the map, each once. *)
Lemma walk_bound p k q : acyclic p → walk k p = Some q → (k ≤ size byId)%nat.
Proof.
  intros Ha Hk. set (passed := (λ i, default "" (walk i p)) <$> seq 0 k).
  assert (∀ i, (i < k)%nat → ∃ x, walk i p = Some x ∧ x ∈ dom byId) as Hin.
  { intros i Hi. destruct (walk_prefix k i p q Hk ltac:(lia)) as [x Hx]. exists x. split; [done|].
    destruct (walk_prefix k (S i) p q Hk ltac:(lia)) as [y Hy].
    replace (S i) with (i + 1)%nat in Hy by lia. rewrite walk_app, Hx in Hy. by apply parent_of_in in Hy as [_ ?]. }
  assert (∀ i x, passed !! i = Some x → (i < k)%nat ∧ walk i p = Some x) as Hpassed.
  { intros i x. unfold passed. rewrite list_lookup_fmap. intros (j & [-> Hj]%lookup_seq & ->)%fmap_Some.
    split; [done|]. destruct (Hin _ Hj) as (x & Hx & _). simpl. by rewrite Hx. }
  assert (NoDup passed) as Hnd.
  { apply NoDup_alt. intros i j x [Hi Hxi]%Hpassed [Hj Hxj]%Hpassed.
    destruct (Nat.lt_trichotomy i j) as [Hij|[?|Hij]]; [|done|].
    - by destruct (acyclic_ne p i j x).
    - by destruct (acyclic_ne p j i x). }
  replace k with (length passed) by (unfold passed; by rewrite length_fmap, length_seq).
  rewrite <-(size_dom byId), <-(size_list_to_set (C := gset string) passed) by done.
  apply subseteq_size. intros x [i [Hi Hx]%Hpassed]%elem_of_list_to_set%list_elem_of_lookup_1.
  destruct (Hin i Hi) as (x' & Hx' & ?). by simplify_eq.
Qed.
End walk.

(** C25: The walk to the settled commits ends exactly when it does not come back to a
    commit it has passed, and then within one step more than there are commits. *)
Theorem unsettled_parents_ends_iff settled byId parentId found :
  (∃ r, unsettled_parents (S (size byId)) settled byId parentId found = Some r) ↔ acyclic settled byId parentId.
Proof.
  split; [intros [r Hr]; by eapply ends_acyclic|]. intros Ha.
  destruct (unsettled_parents (S (size byId)) settled byId parentId found) as [r|] eqn:E; [by exists r|].
  apply unsettled_parents_none in E as (q & Hq & _). pose proof (walk_bound _ _ _ _ _ Ha Hq). lia.
Qed.

(** A commit that is its own ancestor is never checked: when the walk comes back to
    a commit it has passed, it goes on for ever, whatever the fuel. *)
Theorem unsettled_parents_cycle settled byId parentId found fuel i q :
  walk settled byId i parentId = Some q → (∃ k, walk settled byId (S k) q = Some q) →
  unsettled_parents fuel settled byId parentId found = None.
Proof.
  intros Hi [k Hk]. apply walk_forever, (walk_back _ _ i (i + S k) _ q); [lia|done|]. by rewrite walk_app, Hi.
Qed.

Definition sample_stub (id parent : string) : InscriptionBRC20Data :=
  commit_stub id (quoted ("{'parent':'" +:+ parent +:+ "'}")).
Definition sample_chain : gmap string InscriptionBRC20Data :=
  {["b" := sample_stub "b" "a"; "c" := sample_stub "c" "b"; "x" := sample_stub "x" "y"; "y" := sample_stub "y" "x"]}.
Example sample_chain_ends :
  unsettled_parents (S (size sample_chain)) {["a"]} sample_chain "c" [] = Some (Ret (inl ["b"; "c"])).
Proof. by vm_compute. Qed.
Lemma unsettled_parents_cycle_witness : unsettled_parents 1000 {["a"]} sample_chain "x" [] = None.
Proof.
  apply (unsettled_parents_cycle _ _ _ _ _ 0 "x"); [by vm_compute|]. exists 1%nat. by vm_compute.
Defined.
