(* ===== verification/MainLoop.v ===== *)
(** * indexer/indexer.go: the main loop

    Every inscription and every move of one goes through here, in the order of the
    chain.  Errors of the handlers are logged and the loop goes on; a panic ends it.
    At the end the holders of nothing are taken out of the index by ticker. *)
From S2P Require Import Prelude GoStd Decimal Script Utils Json Model History Swap Bip322 Indexer CondApprove Ledger Modules Commit PreVerify CherryPick CommitFlow.

(** ** isJson *)

(** White space of [unicode.IsSpace], in UTF-8. *)
Definition space_runes : list bytes :=
  map (map byte_of_Z)
    ([[9]; [10]; [11]; [12]; [13]; [32]; [194; 133]; [194; 160]; [225; 154; 128]] ++
     map (λ z, [226; 128; z]) (seqZ 128 11) ++
     [[226; 128; 168]; [226; 128; 169]; [226; 128; 175]; [226; 129; 159]; [227; 128; 128]]).
Fixpoint trim_runes (fuel : nat) (runes : list bytes) (l : bytes) : bytes :=
  match fuel with
  | O => l
  | S fuel =>
    match list_find (λ r, has_prefix r l = true) runes with
    | Some (_, r) => trim_runes fuel runes (drop (length r) l)
    | None => l
    end
  end.
(** [bytes.TrimSpace] *)
Definition TrimSpace (l : bytes) : bytes :=
  let l := trim_runes (length l) space_runes l in
  rev (trim_runes (length l) (map (@rev ascii) space_runes) (rev l)).

Definition isJson (contentBody : bytes) : bool :=
  if blen contentBody <? 40 then false else
  let content := TrimSpace contentBody in
  has_prefix [byte_of_Z 123] content && has_prefix [byte_of_Z 125] (rev content).

(** ** Dispatch *)
Section loop.
Context `{GoUnicode, MapOrder, Config, BtcAddr, Btcd}.
(** [GResultsExternal] *)
Variable external : list SwapFunctionResultCheckState.

Definition set_durty : Idx unit := modify (λ g, g <| G.Durty := true |>).
(** [if err := m(); err != nil { log }], and what follows when there is none. *)
Definition logged (m : Idx unit) (ok : Idx unit) : Idx unit :=
  r ← catch m;
  match r with inl _ => ok | inr _ => mret tt end.

(** A move of an inscription that is not a conditional approve. *)
Definition first_move (data : InscriptionBRC20Data) : Idx unit :=
  let key := Data.CreateIdxKey data in
  g ← get;
  if bool_decide (is_Some (G.InscriptionsTransferRemoveMap g !! key)) then mret tt else
  match GetTransferInfoByKey key g with
  | (Some transferInfo, isInvalid) =>
    modify (λ g, g <| G.InscriptionsTransferRemoveMap ::= <[key := Data.Height data]> |>) ;;
    set_durty ;;
    logged (ProcessTransfer data transferInfo isInvalid) (mret tt)
  | (None, _) =>
  match GetApproveInfoByKey key g with
  | (Some approveInfo, isInvalid) =>
    modify (λ g, g <| G.InscriptionsApproveRemoveMap ::= <[key := Data.Height data]> |>) ;;
    set_durty ;;
    logged (ProcessApprove data approveInfo isInvalid) (mret tt)
  | (None, _) =>
  match GetWithdrawInfoByKey key g with
  | Some withdrawInfo =>
    match G.InscriptionsWithdrawRemoveMap g with
    | None => gopanic nil_map
    | Some removed =>
      modify (λ g, g <| G.InscriptionsWithdrawRemoveMap := Some (<[key := Data.Height data]> removed) |>) ;;
      set_durty ;;
      logged (ProcessWithdraw data withdrawInfo)
        (g ← get;
         match G.InscriptionsValidWithdrawMap g with
         | None => gopanic nil_map
         | Some valid =>
           modify (λ g, g <| G.InscriptionsValidWithdrawMap :=
             Some (<[GetInscriptionId (SwapInfo.Data withdrawInfo) := Data.Height data]> valid) |>)
         end)
    end
  | None =>
  match GetCommitInfoByKey key g with
  | (Some commitFrom, isInvalid) =>
    modify (λ g, g <| G.InscriptionsCommitRemoveMap ::= <[key := Data.Height data]> |>) ;;
    set_durty ;;
    logged (ProcessCommit external commitFrom data isInvalid) (mret tt)
  | (None, _) => mret tt
  end end end end.

Definition process_move (data : InscriptionBRC20Data) : Idx unit :=
  let others := if negb (Data.Sequence data =? 1) then mret tt else first_move data in
  if Data.Height data <? Conf.ENABLE_SWAP_WITHDRAW_HEIGHT conf then
    g ← get;
    match GetConditionalApproveInfoByKey (Data.CreateIdxKey data) g with
    | (Some condApproveInfo, isInvalid) =>
      logged (ProcessConditionalApprove data condApproveInfo isInvalid) set_durty
    | (None, _) => others
    end
  else others.

(** The handler of an inscription; [now] is the time it is handled at. *)
Definition inscription_handler (now : Z) (body : InscriptionBRC20ProtocalContent)
    : option (InscriptionBRC20Data → Idx unit) :=
  let asks p op := bool_decide (ProtoBody.Proto body = p) && bool_decide (ProtoBody.Operation body = op) in
  if asks BRC20_P BRC20_OP_DEPLOY then Some ProcessDeploy
  else if asks BRC20_P BRC20_OP_MINT then Some (ProcessMint now)
  else if asks BRC20_P BRC20_OP_TRANSFER then Some ProcessInscribeTransfer
  else if asks BRC20_P_MODULE BRC20_OP_MODULE_DEPLOY then Some ProcessCreateModule
  else if asks BRC20_P_MODULE BRC20_OP_MODULE_WITHDRAW then Some ProcessInscribeWithdraw
  else if asks BRC20_P_SWAP BRC20_OP_SWAP_APPROVE then Some ProcessInscribeApprove
  else if asks BRC20_P_SWAP BRC20_OP_SWAP_CONDITIONAL_APPROVE then Some ProcessInscribeConditionalApprove
  else if asks BRC20_P_SWAP BRC20_OP_SWAP_COMMIT then Some ProcessInscribeCommit
  else None.

Definition process_inscription (now : Z) (data : InscriptionBRC20Data) : Idx unit :=
  if Data.Satoshi data =? 0 then mret tt else
  if negb (isJson (Data.ContentBody data)) then mret tt else
  match Unmarshal_Protocal (Data.ContentBody data) with
  | Panic p => gopanic p
  | Error _ => mret tt
  | Ret body =>
    match inscription_handler now body with
    | Some process => logged (process data) set_durty
    | None => mret tt
    end
  end.

Definition process_data (now : Z) (data : InscriptionBRC20Data) : Idx unit :=
  modify (λ g, g <| G.BestHeight := Data.Height data |>) ;;
  if Data.IsTransfer data then process_move data else process_inscription now data.

(** ** The clean-up of the index by ticker *)
Definition holds_nothing (b : BRC20TokenBalance) : bool :=
  (Sign (Bal.AvailableBalance b) =? 0) && (Sign (Bal.TransferableBalance b) =? 0).
Definition clean_up : Idx unit :=
  g ← get;
  let object l := G.Balances g !! l in
  if bool_decide (map_Forall (λ _, map_Forall (λ _ l, is_Some (object l))) (G.TokenUsersBalanceData g))
  then modify (λ g, g <| G.TokenUsersBalanceData ::= fmap (M := gmap string)
    (base.filter (λ p : string * loc, negb (from_option holds_nothing true (object p.2)) = true)) |>)
  else gopanic nil_deref.

(** ** The loop, over what comes out of the channel, each with its time *)
Definition ProcessUpdateLatestBRC20Loop (brc20Datas : list (Z * InscriptionBRC20Data)) : Idx unit :=
  modify (λ g, g <| G.Durty := false |>) ;;
  for_each (λ p : Z * InscriptionBRC20Data, process_data p.1 p.2) brc20Datas ;;
  clean_up.
End loop.
