(* ===== verification/Tables.v ===== *)
(** * brc20_init.sql and the statements of loader/: the tables the state is kept in

    A table is the list of its rows.  What PostgreSQL and its driver do with a value on
    its way into a column and out again is a parameter with the documented behaviour as
    laws; columns of type bytea and boolean hold what they are given.  The order of the
    rows of a query is the database's own. *)
From S2P Require Import Prelude GoStd Decimal Script Utils Json Model History Swap Indexer.

(** ** The database *)

(** The text of a [numeric(40,18)] column that holds [w] units of [10^-18]. *)
Definition numeric_text (w : Z) : string :=
  b2s (uint_digits (w / 10 ^ 18) ++ "."%char :: pad_digits 18 (w mod 10 ^ 18)).

(** Each column type with the value read back, [None] when the value is refused. *)
Class Postgres := {
  text_column : string → option string;
  numeric_column : string → option string;
  int4_column : Z → option Z;
  int8_column : Z → option Z;
  int4_of_text : string → option Z;
  row_order {A} : list A → list A;
  text_column_id s t : text_column s = Some t → t = s;
  numeric_column_digits i f s :
    well_formed_amount 18 i f → numeric_column (b2s (amount_text false i f)) = Some s →
    s = numeric_text (amount_value 18 false i f);
  int4_column_id n m : int4_column n = Some m → m = n;
  int8_column_id n m : int8_column n = Some m → m = n;
  int4_of_text_digits s n : all_digits (s2b s) → int4_of_text s = Some n → n = digits_value (s2b s);
  row_order_perm {A} (l : list A) : row_order l ≡ₚ l;
}.

(** ** Amounts on their way through a numeric column *)
Lemma trim_right_cut cut l : trim_right cut (l ++ [cut]) = trim_right cut l.
Proof. unfold trim_right. rewrite rev_app_distr. simpl. by rewrite bool_decide_eq_true_2. Qed.
Lemma trim_right_stop cut l c : c ≠ cut → trim_right cut (l ++ [c]) = l ++ [c].
Proof.
  intros Hc. unfold trim_right. rewrite rev_app_distr. simpl. rewrite bool_decide_eq_false_2 by done.
  change (rev (rev [c] ++ rev l) = l ++ [c]). by rewrite <-rev_app_distr, rev_involutive.
Qed.
Lemma trim_right_replicate cut l n : trim_right cut (l ++ replicate n cut) = trim_right cut l.
Proof.
  revert l. induction n as [|n IH]; intros l; simpl; [by rewrite app_nil_r|].
  rewrite cons_middle, app_assoc, IH. apply trim_right_cut.
Qed.
Lemma list_end {A} (l : list A) : l = [] ∨ ∃ k c, l = k ++ [c].
Proof. destruct l as [|c l] using rev_ind; [by left|right; eauto]. Qed.

(** The digits after the point end in no zero; padding puts the zeros back. *)
Lemma pad_frac_digits p w :
  0 < p → 0 ≤ w →
  ∃ n, pad_digits p (w mod 10 ^ p) = frac_digits p w ++ replicate n zero_byte ∧
    ∀ c k, frac_digits p w = k ++ [c] → c ≠ zero_byte.
Proof.
  intros Hp Hw. unfold frac_digits. destruct (Z.eqb_spec (w mod 10 ^ p) 0) as [E|E].
  - exists (Z.to_nat p). split; [|by intros c [|??]]. rewrite E. unfold pad_digits.
    change (uint_digits 0) with [zero_byte]. simpl length. simpl app.
    replace (Z.to_nat p) with (S (Z.to_nat p - 1)) at 2 by lia. by rewrite replicate_S_end.
  - destruct (trim_right_spec zero_byte (pad_digits p (w mod 10 ^ p))) as (n & En & Hn).
    exists n. by split.
Qed.

(** The number of an all-digit text that does not end in zero is no multiple of ten. *)
Lemma digits_value_last l c : all_digits (l ++ [c]) → c ≠ zero_byte → digits_value (l ++ [c]) mod 10 ≠ 0.
Proof.
  intros [Hl Hc]%all_digits_app Hz. apply Forall_cons in Hc as [Hc _].
  unfold digits_value. rewrite parse_digits_go_app, (parse_digits_value l Hl). simpl.
  unfold is_digit in Hc. apply bool_decide_eq_true in Hc as [d Hd]. rewrite Hd. cbn [default].
  unfold digit_val in Hd. destruct ((48 <=? Z_of_byte c) && (Z_of_byte c <=? 57)) eqn:Eb; [|done].
  apply andb_true_iff in Eb as [E1%Z.leb_le E2%Z.leb_le]. injection Hd as <-.
  replace (10 * digits_value l + (Z_of_byte c - 48)) with (Z_of_byte c - 48 + digits_value l * 10) by lia.
  unfold id. rewrite Z.mod_add by done. rewrite Z.mod_small by lia.
  intros E. apply Hz. apply Z_of_byte_inj. change (Z_of_byte zero_byte) with 48. lia.
Qed.
(** An amount at precision [p] has no more than [p] digits after the point. *)
Lemma frac_digits_scaled p v :
  0 ≤ p ≤ 18 → 0 ≤ v →
  well_formed_amount p (uint_digits (v * 10 ^ (18 - p) / 10 ^ 18)) (frac_digits 18 (v * 10 ^ (18 - p))) ∧
  amount_value p false (uint_digits (v * 10 ^ (18 - p) / 10 ^ 18)) (frac_digits 18 (v * 10 ^ (18 - p))) = v.
Proof.
  intros Hp Hv. set (w := v * 10 ^ (18 - p)).
  pose proof (Z.pow_pos_nonneg 10 p ltac:(lia) ltac:(lia)) as H1.
  pose proof (Z.pow_pos_nonneg 10 (18 - p) ltac:(lia) ltac:(lia)) as H2.
  assert (10 ^ 18 = 10 ^ p * 10 ^ (18 - p)) as E18 by (rewrite <-Z.pow_add_r by lia; f_equal; lia).
  assert (w / 10 ^ 18 = v / 10 ^ p) as Eq by (unfold w; rewrite E18; by apply Z.div_mul_cancel_r; lia).
  assert (w mod 10 ^ 18 = v mod 10 ^ p * 10 ^ (18 - p)) as Em.
  { unfold w. rewrite E18. rewrite (Z.mul_comm v), (Z.mul_comm (10 ^ p)). rewrite Z.mul_mod_distr_l by lia. lia. }
  assert (0 ≤ w) as Hw by (unfold w; nia).
  destruct (printed_well_formed 18 w ltac:(lia) Hw) as [(Hne & Hi & Hf & Hlen) Hval].
  destruct (frac_digits_spec 18 w ltac:(lia) Hw) as (_ & _ & _ & Hfr). rewrite Em in Hfr.
  set (f := frac_digits 18 w) in *.
  assert (blen f ≤ p) as Hfp.
  { destruct (pad_frac_digits 18 w ltac:(lia) Hw) as (_ & _ & Hlast). fold f in Hlast.
    destruct (list_end f) as [->|(k & c & Ef)]; [unfold blen; simpl; lia|].
    apply Z.le_ngt. intros Hgt. apply (digits_value_last k c); [by rewrite <-Ef|by eapply Hlast|].
    rewrite <-Ef. assert (digits_value f = v mod 10 ^ p * 10 ^ (blen f - p)) as ->.
    { apply (Z.mul_reg_r _ _ (10 ^ (18 - blen f))); [pose proof (Z.pow_pos_nonneg 10 (18 - blen f)); lia|].
      rewrite Hfr, <-Z.mul_assoc, <-Z.pow_add_r by lia. do 2 f_equal. lia. }
    replace (blen f - p) with (Z.succ (blen f - p - 1)) by lia. rewrite Z.pow_succ_r by lia.
    rewrite (Z.mul_comm 10), Z.mul_assoc. apply Z.mod_mul. lia. }
  split; [done|]. unfold amount_value. cbn [andb]. rewrite Hval, Eq.
  assert (digits_value f * 10 ^ (p - blen f) = v mod 10 ^ p) as ->.
  { apply (Z.mul_reg_r _ _ (10 ^ (18 - p))); [lia|]. rewrite <-Hfr, <-Z.mul_assoc, <-Z.pow_add_r by lia.
    do 2 f_equal. lia. }
  pose proof (Z.div_mod v (10 ^ p)). lia.
Qed.

(** What comes back from the column is read as the amount that went in. *)
Lemma MustNewDecimalFromString_numeric p v :
  0 ≤ p ≤ 18 → 0 ≤ v →
  MustNewDecimalFromString (numeric_text (v * 10 ^ (18 - p))) p = Ret (mkDecimal p v).
Proof.
  intros Hp Hv. destruct (frac_digits_scaled p v Hp Hv) as [Hwf Hval].
  set (w := v * 10 ^ (18 - p)) in *.
  assert (0 ≤ w) as Hw by (unfold w; pose proof (Z.pow_pos_nonneg 10 (18 - p)); nia).
  destruct (pad_frac_digits 18 w ltac:(lia) Hw) as (n & Epad & Hlast).
  set (u := uint_digits (w / 10 ^ 18)) in *. set (f := frac_digits 18 w) in *.
  pose proof Hwf as (Hne & Hu & Hf & _).
  assert (all_digits (pad_digits 18 (w mod 10 ^ 18))) as Hpad.
  { rewrite Epad. apply all_digits_app. split; [done|apply all_digits_zeros]. }
  assert (0 ≤ w mod 10 ^ 18 < 10 ^ 18) as Hm by (apply Z.mod_pos_bound; lia).
  destruct (pad_digits_spec 18 (w mod 10 ^ 18) Hm ltac:(lia)) as [Hl _].
  unfold MustNewDecimalFromString, numeric_text. fold u. rewrite s2b_b2s.
  assert (u ++ "."%char :: pad_digits 18 (w mod 10 ^ 18) = amount_text false u (pad_digits 18 (w mod 10 ^ 18))) as ->.
  { unfold amount_text. simpl. by destruct (pad_digits _ _). }
  rewrite amount_text_parts by done.
  assert ((length ((sign_text false ++ u) :: match pad_digits 18 (w mod 10 ^ 18) with [] => [] | _ :: _ => [pad_digits 18 (w mod 10 ^ 18)] end) =? 2)%nat = true) as ->.
  { destruct (pad_digits 18 (w mod 10 ^ 18)); [done|reflexivity]. }
  assert (trim_right "."%char (trim_right zero_byte (amount_text false u (pad_digits 18 (w mod 10 ^ 18)))) = amount_text false u f) as ->.
  { assert (amount_text false u (pad_digits 18 (w mod 10 ^ 18)) = (u ++ "."%char :: f) ++ replicate n zero_byte) as ->.
    { rewrite <-app_assoc. simpl. rewrite <-Epad. unfold amount_text. simpl. by destruct (pad_digits _ _). }
    rewrite trim_right_replicate. destruct (list_end f) as [Ef|(k & c & Ef)].
    - rewrite Ef. rewrite trim_right_stop by done. rewrite trim_right_cut.
      unfold amount_text. simpl. rewrite app_nil_r. destruct (list_end u) as [->|(k & c & Eu)]; [done|].
      rewrite Eu in *. apply all_digits_app in Hu as [_ Hc]. apply Forall_cons in Hc as [Hc _].
      apply trim_right_stop. by apply is_digit_not_sep.
    - assert (amount_text false u f = (u ++ "."%char :: k) ++ [c]) as ->.
      { unfold amount_text. rewrite Ef. simpl. rewrite <-app_assoc. simpl. by destruct k. }
      rewrite Ef. change (u ++ "."%char :: k ++ [c]) with (u ++ ("."%char :: k) ++ [c]).
      rewrite app_assoc. rewrite trim_right_stop by (by eapply Hlast).
      apply trim_right_stop. rewrite Ef in Hf. apply all_digits_app in Hf as [_ Hc].
      apply Forall_cons in Hc as [Hc _]. by apply is_digit_not_sep. }
  rewrite NewDecimalFromString_complete by done. by rewrite Hval.
Qed.

(** An amount at precision [p], in units of [10^-18]. *)
Definition scaled (p v : Z) : Z := v * 10 ^ (18 - p).
Lemma amount_value_scaled p i f :
  0 ≤ p ≤ 18 → blen f ≤ p → amount_value 18 false i f = scaled p (amount_value p false i f).
Proof.
  intros Hp Hf. unfold amount_value, scaled. cbn [andb]. assert (0 ≤ blen f) by (unfold blen; lia).
  rewrite Z.mul_add_distr_r, <-!Z.mul_assoc, <-!Z.pow_add_r by lia. do 2 f_equal; f_equal; lia.
Qed.
Lemma numeric_column_amount `{Postgres} p i f s :
  0 ≤ p ≤ 18 → well_formed_amount p i f → numeric_column (b2s (amount_text false i f)) = Some s →
  s = numeric_text (scaled p (amount_value p false i f)).
Proof.
  intros Hp (Hne & Hi & Hf & Hlen) Hs. rewrite <-amount_value_scaled by done.
  apply numeric_column_digits; [|done]. repeat split; try done. lia.
Qed.

Lemma printed_value p v :
  0 ≤ p ≤ 18 → 0 ≤ v → amount_value p false (uint_digits (v / 10 ^ p)) (frac_digits p v) = v.
Proof.
  intros Hp Hv. destruct (printed_well_formed p v Hp Hv) as [_ Hq].
  destruct (frac_digits_spec p v ltac:(lia) ltac:(lia)) as (_ & _ & _ & Hr).
  unfold amount_value. cbn [andb]. rewrite Hq, Hr. pose proof (Z.pow_pos_nonneg 10 p).
  pose proof (Z.div_mod v (10 ^ p)). lia.
Qed.

(** What the column of an amount holds. *)
Definition amount_column (p : Z) (d : option Decimal) : string := numeric_text (scaled p (dval d)).
Lemma numeric_column_decimal `{Postgres} p d s t :
  0 ≤ p ≤ 18 → dec_ok p d → 0 ≤ dval d → Decimal_String d = Ret s → numeric_column s = Some t →
  t = amount_column p d.
Proof.
  intros Hp Hd Hv Hs. unfold amount_column. destruct d as [[q v]|].
  - simpl in Hd, Hv. subst q. rewrite Decimal_String_text in Hs by done. injection Hs as <-.
    cbn in Hv. rewrite (proj2 (Z.ltb_ge v 0)), Z.abs_eq by done.
    destruct (printed_well_formed p v Hp Hv) as [Hwf _]. intros Ht%(numeric_column_amount p); [|done..].
    by rewrite printed_value in Ht.
  - simpl in Hs. injection Hs as <-. intros Ht%(numeric_column_amount p ["0"%char] []); [done..|].
    repeat split; [done|by repeat constructor|by constructor|unfold blen; simpl; lia].
Qed.
Lemma MustNewDecimalFromString_column p d :
  0 ≤ p ≤ 18 → 0 ≤ dval d → MustNewDecimalFromString (amount_column p d) p = Ret (mkDecimal p (dval d)).
Proof. apply MustNewDecimalFromString_numeric. Qed.

(** A refused value fails the statement, and the code panics. *)
Definition column {A} (o : option A) : outcome A :=
  match o with Some a => Ret a | None => Panic "PG Statements Exec Wrong: " end.

(** ** Rows *)

(** brc20_ticker_info *)
Module TickerRow.
Record ticker_info := mk {
    block_height : Z;
    tick : string;
    max_supply : string;
    decimals : Z;
    limit_per_mint : string;
    minted : string;
    pkscript_deployer : string;
    self_mint : bool;
  }.
End TickerRow.

(** brc20_user_balance *)
Module BalanceRow.
Record user_balance := mk {
    block_height : Z;
    tick : string;
    pkscript : string;
    available_balance : string;
    transferable_balance : string;
  }.
End BalanceRow.

(** brc20_transfer_state and its likes; [moved] is true in every row. *)
Module StateRow.
Record state := mk {
    block_height : Z;
    create_key : string;
  }.
End StateRow.

(** brc20_valid_transfer; the tables of approves, conditional approves and withdraws
    have a module as well. *)
Module TransferRow.
Record valid_transfer := mk {
    block_height : Z;
    create_key : string;
    tick : string;
    pkscript : string;
    amount : string;
    inscription_number : Z;
    inscription_id : string;
    txid : string;
    vout : Z;
    output_value : Z;
    output_offset : Z;
  }.
End TransferRow.
Module RequestRow.
Record valid_request := mk {
    module_id : string;
    request : TransferRow.valid_transfer;
  }.
End RequestRow.

(** brc20_swap_info *)
Module ModuleRow.
Record swap_info := mk {
    block_height : Z;
    module_id : string;
    name : string;
    pkscript_deployer : string;
    pkscript_sequencer : string;
    pkscript_gas_to : string;
    pkscript_lp_fee : string;
    gas_tick : string;
    fee_rate_swap : string;
  }.
End ModuleRow.

(** brc20_swap_history; the content is always the text "{}". *)
Module HistoryRow.
Record swap_history := mk {
    block_height : Z;
    module_id : string;
    history_type : Z;
    valid : bool;
    txid : string;
    idx : Z;
    vout : Z;
    output_value : Z;
    output_offset : Z;
    pkscript_from : string;
    pkscript_to : string;
    fee : Z;
    txidx : Z;
    block_time : Z;
    inscription_number : Z;
    inscription_id : string;
    inscription_content : bytes;
  }.
End HistoryRow.

(** brc20_swap_commit_chain *)
Module ChainRow.
Record commit_chain := mk {
    block_height : Z;
    module_id : string;
    commit_id : string;
    valid : bool;
    connected : bool;
  }.
End ChainRow.

(** brc20_swap_user_balance *)
Module UserRow.
Record swap_user_balance := mk {
    block_height : Z;
    module_id : string;
    tick : string;
    pkscript : string;
    swap_balance : string;
    available_balance : string;
    approveable_balance : string;
    cond_approveable_balance : string;
    ready_to_withdraw_amount : string;
  }.
End UserRow.

(** brc20_swap_pool_balance *)
Module PoolRow.
Record swap_pool_balance := mk {
    block_height : Z;
    module_id : string;
    pool : string;
    tick0 : string;
    tick0_balance : string;
    tick1 : string;
    tick1_balance : string;
    lp_balance : string;
  }.
End PoolRow.

(** brc20_swap_user_lp_balance *)
Module LpRow.
Record swap_user_lp_balance := mk {
    block_height : Z;
    module_id : string;
    pool : string;
    pkscript : string;
    lp_balance : string;
  }.
End LpRow.

(** brc20_swap_valid_commit *)
Module CommitRow.
Record valid_commit := mk {
    block_height : Z;
    module_id : string;
    create_key : string;
    pkscript : string;
    inscription_number : Z;
    inscription_id : string;
    txid : string;
    vout : Z;
    output_value : Z;
    output_offset : Z;
    inscription_content : bytes;
  }.
End CommitRow.

(** ** The two databases *)
Module DB.
Record SwapDB := mk {
    brc20_ticker_info : list TickerRow.ticker_info;
    brc20_user_balance : list BalanceRow.user_balance;
    brc20_transfer_state : list StateRow.state;
    brc20_valid_transfer : list TransferRow.valid_transfer;
    brc20_swap_info : list ModuleRow.swap_info;
    brc20_swap_history : list HistoryRow.swap_history;
    brc20_swap_commit_chain : list ChainRow.commit_chain;
    brc20_swap_user_balance : list UserRow.swap_user_balance;
    brc20_swap_pool_balance : list PoolRow.swap_pool_balance;
    brc20_swap_user_lp_balance : list LpRow.swap_user_lp_balance;
    brc20_swap_approve_state : list StateRow.state;
    brc20_swap_valid_approve : list RequestRow.valid_request;
    brc20_swap_cond_approve_state : list StateRow.state;
    brc20_swap_valid_cond_approve : list RequestRow.valid_request;
    brc20_swap_commit_state : list StateRow.state;
    brc20_swap_valid_commit : list CommitRow.valid_commit;
    brc20_swap_withdraw_state : list StateRow.state;
    brc20_swap_valid_withdraw : list RequestRow.valid_request;
    (** of the other database: height and inscription id *)
    brc20_module_withdrawals : list (Z * string);
  }.
#[global] Instance eta : EtaRecord SwapDB := λ r,
    mk (brc20_ticker_info r) (brc20_user_balance r) (brc20_transfer_state r)
      (brc20_valid_transfer r) (brc20_swap_info r) (brc20_swap_history r)
      (brc20_swap_commit_chain r) (brc20_swap_user_balance r) (brc20_swap_pool_balance r)
      (brc20_swap_user_lp_balance r) (brc20_swap_approve_state r) (brc20_swap_valid_approve r)
      (brc20_swap_cond_approve_state r) (brc20_swap_valid_cond_approve r)
      (brc20_swap_commit_state r) (brc20_swap_valid_commit r) (brc20_swap_withdraw_state r)
      (brc20_swap_valid_withdraw r) (brc20_module_withdrawals r).
End DB.
Abbreviation SwapDB := DB.SwapDB.

(** What brc20_init.sql makes. *)
Definition empty_db : SwapDB :=
  DB.mk [] [] [] [] [] [] [] [] [] [] [] [] [] [] [] [] [] [] [].

(** ** Queries *)

(** The rows with the greatest height among those of their key:
    [INNER JOIN (SELECT MAX(block_height) ... GROUP BY key)]. *)
Definition latest {A K} `{EqDecision K} (height : A → Z) (key : A → K) (rows : list A) : list A :=
  List.filter (λ r, forallb (λ r', negb (bool_decide (key r' = key r)) || (height r' <=? height r)) rows) rows.
(** [LEFT JOIN states ON create_key WHERE moved IS NULL] *)
Definition not_moved {A} (states : list StateRow.state) (key : A → string) (rows : list A) : list A :=
  List.filter (λ r, negb (existsb (λ s, bool_decide (StateRow.create_key s = key r)) states)) rows.

Section queries.
Context {A K : Type} `{!EqDecision K}.
Implicit Types (height : A → Z) (key : A → K) (rows : list A).

Lemma elem_of_latest height key rows r :
  r ∈ latest height key rows ↔
    r ∈ rows ∧ ∀ r', r' ∈ rows → key r' = key r → height r' ≤ height r.
Proof.
  unfold latest. rewrite !list_elem_of_In, filter_In, forallb_forall. split; intros [Hr Hm]; (split; [done|]); intros r' Hr'.
  - intros Hk. specialize (Hm r' (proj1 (list_elem_of_In _ _) Hr')). rewrite bool_decide_eq_true_2 in Hm by done.
    by apply Z.leb_le.
  - rewrite <-list_elem_of_In in Hr'. case_bool_decide; [|done]. by apply Z.leb_le, Hm.
Qed.
(** Without two rows of a key at one height, keys are unique. *)
Lemma latest_unique height key rows :
  NoDup ((λ r, (key r, height r)) <$> rows) → NoDup (key <$> latest height key rows).
Proof.
  intros Hn. assert (∀ r r', r ∈ latest height key rows → r' ∈ latest height key rows →
    key r = key r' → height r = height r') as Heq.
  { intros r r' [Hr Hm]%elem_of_latest [Hr' Hm']%elem_of_latest E.
    apply Z.le_antisymm; [by apply Hm'|by apply Hm]. }
  assert (NoDup ((λ r, (key r, height r)) <$> latest height key rows)) as Hl.
  { revert Hn. unfold latest. generalize (λ r, forallb (λ r' : A, negb (bool_decide (key r' = key r)) || (height r' <=? height r)) rows) as f.
    intros f. clear Heq. induction rows as [|r l IH]; simpl; [done|]. intros [Hr Hl]%NoDup_cons.
    destruct (f r); [|by apply IH]. apply NoDup_cons. split; [|by apply IH].
    intros (r' & E & Hr')%list_elem_of_fmap. apply Hr. apply list_elem_of_fmap. exists r'. split; [done|].
    apply list_elem_of_In in Hr'. apply filter_In in Hr' as [Hr' _]. by apply list_elem_of_In. }
  revert Hl. generalize dependent (latest height key rows). intros l Heq. induction l as [|r l IH]; [constructor|].
  simpl. rewrite !NoDup_cons. intros [Hr Hl]. split.
  - intros (r' & E & Hr')%list_elem_of_fmap. apply Hr, list_elem_of_fmap. exists r'. split; [|done].
    rewrite E. f_equal. apply Heq; [by left|by right|done].
  - apply IH; [|done]. intros r1 r2 H1 H2. apply Heq; by right.
Qed.
End queries.
Lemma elem_of_not_moved {A} states (key : A → string) rows r :
  r ∈ not_moved states key rows ↔ r ∈ rows ∧ ∀ s, s ∈ states → StateRow.create_key s ≠ key r.
Proof.
  unfold not_moved. rewrite !list_elem_of_In, filter_In, negb_true_iff, <-not_true_iff_false, existsb_exists.
  split; intros [Hr Hm]; (split; [done|]).
  - intros s Hs E. apply Hm. exists s. rewrite bool_decide_eq_true_2 by done. by rewrite <-list_elem_of_In.
  - intros (s & Hs & E%bool_decide_eq_true). apply (Hm s); [by apply list_elem_of_In|done].
Qed.

(** ** Tables that grow height by height *)
Section newest.
Context {A K : Type} `{Countable K} (height : A → Z) (key : A → K).
Implicit Types rows : list A.

(** Every key has one row of a height at most. *)
Definition keyed rows : Prop := NoDup ((λ r, (key r, height r)) <$> rows).
(** The row of each key that a query finds. *)
Definition newest rows : gmap K A := list_to_map ((λ r, (key r, r)) <$> latest height key rows).
(** [h] is a new height. *)
Definition below (h : Z) rows : Prop := Forall (λ r, height r < h) rows.

Lemma keyed_fst rows : keyed rows → NoDup ((λ r, (key r, r)) <$> latest height key rows).*1.
Proof.
  intros Hk. rewrite <-list_fmap_compose. by apply latest_unique.
Qed.
Lemma newest_Some rows k r :
  keyed rows → newest rows !! k = Some r ↔ r ∈ latest height key rows ∧ key r = k.
Proof.
  intros Hk. unfold newest. rewrite <-elem_of_list_to_map by by apply keyed_fst.
  rewrite list_elem_of_fmap. naive_solver.
Qed.
Lemma newest_in rows k r : keyed rows → newest rows !! k = Some r → r ∈ rows ∧ key r = k.
Proof. intros Hk [[Hr _]%elem_of_latest E]%newest_Some; done. Qed.

Lemma keyed_app rows new h :
  keyed rows → below h rows → Forall (λ r, height r = h) new → NoDup (key <$> new) →
  keyed (rows ++ new).
Proof.
  intros Hk Hb Hn Hnd. unfold keyed. rewrite fmap_app. apply NoDup_app. split_and!; [done| |].
  - intros kh (r & -> & Hr)%list_elem_of_fmap (r' & E & Hr')%list_elem_of_fmap.
    unfold below in Hb. rewrite Forall_forall in Hb, Hn. specialize (Hb r Hr). specialize (Hn r' Hr').
    injection E as _ E. lia.
  - apply (NoDup_fmap_1 fst). by rewrite <-list_fmap_compose.
Qed.
Lemma newest_app rows new h k r :
  keyed rows → below h rows → Forall (λ r, height r = h) new → NoDup (key <$> new) →
  newest (rows ++ new) !! k = Some r ↔
    (r ∈ new ∧ key r = k) ∨ ((∀ r', r' ∈ new → key r' ≠ k) ∧ newest rows !! k = Some r).
Proof.
  intros Hk Hb Hn Hnd. rewrite !newest_Some by (by eapply keyed_app || done).
  rewrite !elem_of_latest. setoid_rewrite elem_of_app. rewrite Forall_forall in Hn. unfold below in Hb.
  rewrite Forall_forall in Hb. split.
  - intros [[[Hr|Hr] Hm] <-]; [|by left]. right. split; [|naive_solver].
    intros r' Hr' E. specialize (Hm r' (or_intror Hr') E). specialize (Hb r Hr). specialize (Hn r' Hr'). lia.
  - intros [[Hr <-]|(Hno & [Hr Hm] & <-)]; (split; [|done]); (split; [by tauto|]); intros r' [Hr'|Hr'] E.
    + specialize (Hb r' Hr'). specialize (Hn r Hr). lia.
    + specialize (Hn r Hr) as H1. specialize (Hn r' Hr'). lia.
    + by apply Hm.
    + by destruct (Hno r' Hr').
Qed.
End newest.
