(* ===== verification/Save.v ===== *)
(** * loader/save_to_db.go, indexer/store.go: what is written after a height

    Each function gives the rows it inserts.  Go visits a map in an order of its own,
    but a table does not tell in which order its rows came. *)
From S2P Require Import Prelude GoStd Decimal Script Utils Json Model History Swap Indexer CondApprove Tables.

Section save.
Context `{Postgres}.
Variable height : Z.

(** [for _, v := range m { if h(v) != height { continue }; insert }] *)
Definition insert_at {V R} (h : V → Z) (row : string → V → outcome R) (m : gmap string V)
    : outcome (list R) :=
  mapM (λ p : string * V, row p.1 p.2) (List.filter (λ p : string * V, h p.2 =? height) (map_to_list m)).

(** ** Tokens *)
Definition ticker_row (info : BRC20TokenInfo) : outcome TickerRow.ticker_info :=
  let deploy := TokenInfo.Deploy info in
  data ← deref_ptr (TickInfo.Data deploy);
  minted ← Decimal_String (TickInfo.TotalMinted deploy);
  h ← column (int4_column height);
  tick ← column (text_column (TokenInfo.Ticker info));
  max ← column (numeric_column (InfoResp.BRC20Max data));
  decimals ← column (int4_of_text (InfoResp.BRC20Decimal data));
  limit ← column (numeric_column (InfoResp.BRC20Limit data));
  minted ← column (numeric_column minted);
  Ret (TickerRow.mk h tick max decimals limit minted (TickInfo.PkScript deploy) (TickInfo.SelfMint deploy)).
Definition SaveDataToDBTickerInfoMap (inscriptionsTickerInfoMap : gmap string BRC20TokenInfo)
    : outcome (list TickerRow.ticker_info) :=
  insert_at TokenInfo.UpdateHeight (λ _, ticker_row) inscriptionsTickerInfoMap.

Definition balance_row (balanceData : BRC20TokenBalance) : outcome BalanceRow.user_balance :=
  available ← Decimal_String (Bal.AvailableBalance balanceData);
  transferable ← Decimal_String (Bal.TransferableBalance balanceData);
  h ← column (int4_column height);
  tick ← column (text_column (Bal.Ticker balanceData));
  available ← column (numeric_column available);
  transferable ← column (numeric_column transferable);
  Ret (BalanceRow.mk h tick (Bal.PkScript balanceData) available transferable).
(** [userTokensBalanceData] with the objects it points to. *)
Definition SaveDataToDBTickerBalanceMap (objects : gmap loc BRC20TokenBalance)
    (userTokensBalanceData : gmap string (gmap string loc)) : outcome (list BalanceRow.user_balance) :=
  rows ← mapM (λ p : string * gmap string loc,
    mapM (λ q : string * loc,
      balanceData ← deref_ptr (objects !! q.2);
      if Bal.UpdateHeight balanceData =? height then r ← balance_row balanceData; Ret [r] else Ret [])
      (map_to_list p.2)) (map_to_list userTokensBalanceData);
  Ret (concat (concat rows)).

(** The state tables; [moved] is true. *)
Definition SaveDataToDBTransferStateMap (removeMap : gmap string Z) : outcome (list StateRow.state) :=
  insert_at id (λ createKey _, h ← column (int4_column height); Ret (StateRow.mk h createKey)) removeMap.

Definition transfer_row (create_key tick pkscript inscription_id txid : string) (amount : option Decimal)
    (number vout satoshi offset : Z) : outcome TransferRow.valid_transfer :=
  amount ← Decimal_String amount;
  h ← column (int4_column height);
  tick ← column (text_column tick);
  amount ← column (numeric_column amount);
  number ← column (int8_column number);
  id ← column (text_column inscription_id);
  vout ← column (int4_column vout);
  satoshi ← column (int8_column satoshi);
  offset ← column (int8_column offset);
  Ret (TransferRow.mk h create_key tick pkscript amount number id txid vout satoshi offset).

(** [Meta.GetInscriptionId()] goes through the pointer. *)
Definition SaveDataToDBValidTransferMap (inscriptionsValidTransferMap : gmap string InscriptionBRC20TickInfo)
    : outcome (list TransferRow.valid_transfer) :=
  insert_at TickInfo.Height (λ create_key transferInfo,
    meta ← deref_ptr (TickInfo.Meta transferInfo);
    transfer_row create_key (TickInfo.Tick transferInfo) (TickInfo.PkScript transferInfo)
      (GetInscriptionId meta) (TickInfo.TxId transferInfo) (TickInfo.Amount transferInfo)
      (TickInfo.InscriptionNumber transferInfo) (TickInfo.Vout transferInfo)
      (TickInfo.Satoshi transferInfo) (TickInfo.Offset transferInfo)) inscriptionsValidTransferMap.

(** ** Modules *)
Definition SaveDataToDBModuleInfoMap (modulesInfoMap : gmap string BRC20ModuleSwapInfo)
    : outcome (list ModuleRow.swap_info) :=
  insert_at Mod.UpdateHeight (λ moduleId info,
    h ← column (int4_column height);
    moduleId ← column (text_column moduleId);
    name ← column (text_column (Mod.Name info));
    gasTick ← column (text_column (Mod.GasTick info));
    feeRate ← column (text_column (Mod.FeeRateSwap info));
    Ret (ModuleRow.mk h moduleId name (Mod.DeployerPkScript info) (Mod.SequencerPkScript info)
      (Mod.GasToPkScript info) (Mod.LpFeePkScript info) gasTick feeRate)) modulesInfoMap.

(** Rows that every module gives. *)
Definition of_modules {R} (rows : string → BRC20ModuleSwapInfo → outcome (list R))
    (modulesInfoMap : gmap string BRC20ModuleSwapInfo) : outcome (list R) :=
  ls ← mapM (λ p : string * BRC20ModuleSwapInfo, rows p.1 p.2) (map_to_list modulesInfoMap);
  Ret (concat ls).

Definition SaveDataToDBModuleHistoryMap : gmap string BRC20ModuleSwapInfo → outcome (list HistoryRow.swap_history) :=
  of_modules (λ moduleId info,
    mapM (λ h : BRC20ModuleHistory,
      let b := ModHist.Base h in
      let i := ModHist.Inscription h in
      height ← column (int4_column height);
      moduleId ← column (text_column moduleId);
      idx ← column (int4_column (HBase.Idx b));
      vout ← column (int4_column (HBase.Vout b));
      satoshi ← column (int8_column (HBase.Satoshi b));
      offset ← column (int8_column (HBase.Offset b));
      fee ← column (int8_column (HBase.Fee b));
      txIdx ← column (int4_column (HBase.TxIdx b));
      blockTime ← column (int4_column (HBase.BlockTime b));
      number ← column (int8_column (SwapInfoResp.InscriptionNumber i));
      id ← column (text_column (SwapInfoResp.InscriptionId i));
      Ret (HistoryRow.mk height moduleId (HBase.Type_ b) (HBase.Valid b) (HBase.TxId b) idx vout satoshi
        offset (HBase.PkScriptFrom b) (HBase.PkScriptTo b) fee txIdx blockTime number id (s2b "{}")))
    (List.filter (λ h, (HBase.Height (ModHist.Base h) =? height) && HBase.Valid (ModHist.Base h))
      (Mod.History info))).

(** [commitState[commitId]]: valid and connected; the maps are visited in this order. *)
Definition commit_state (info : BRC20ModuleSwapInfo) : gmap string (bool * bool) :=
  let invalid := gset_to_gmap (false, false) (Mod.CommitInvalidMap info) in
  let pending := set_fold (λ commitId m, <[commitId := (true, from_option snd false (m !! commitId))]> m)
    invalid (Mod.CommitIdMap info) in
  set_fold (λ commitId m, <[commitId := (from_option fst true (m !! commitId), true)]> m)
    pending (Mod.CommitIdChainMap info).
Definition SaveDataToDBModuleCommitChainMap : gmap string BRC20ModuleSwapInfo → outcome (list ChainRow.commit_chain) :=
  of_modules (λ moduleId info,
    mapM (λ p : string * (bool * bool),
      height ← column (int4_column height);
      moduleId ← column (text_column moduleId);
      commitId ← column (text_column p.1);
      Ret (ChainRow.mk height moduleId commitId p.2.1 p.2.2)) (map_to_list (commit_state info))).

Definition user_row (moduleId : string) (balanceData : BRC20ModuleTokenBalance) : outcome UserRow.swap_user_balance :=
  let numeric d := s ← Decimal_String d; column (numeric_column s) in
  height ← column (int4_column height);
  moduleId ← column (text_column moduleId);
  tick ← column (text_column (MBal.Tick balanceData));
  swap ← numeric (MBal.SwapAccountBalance balanceData);
  available ← numeric (MBal.AvailableBalance balanceData);
  approveable ← numeric (MBal.ApproveableBalance balanceData);
  condApproveable ← numeric (MBal.CondApproveableBalance balanceData);
  ready ← numeric (MBal.ReadyToWithdrawAmount balanceData);
  Ret (UserRow.mk height moduleId tick (MBal.PkScript balanceData) swap available approveable condApproveable ready).
Definition SaveDataToDBModuleUserBalanceMap : gmap string BRC20ModuleSwapInfo → outcome (list UserRow.swap_user_balance) :=
  of_modules (λ moduleId info,
    rows ← mapM (λ p : string * gmap string loc,
      mapM (λ q : string * loc,
        balanceData ← deref_ptr (Mod.Balances info !! q.2);
        if MBal.UpdateHeight balanceData =? height then r ← user_row moduleId balanceData; Ret [r] else Ret [])
        (map_to_list p.2)) (map_to_list (Mod.UsersTokenBalanceDataMap info));
    Ret (concat (concat rows))).

(** A reserve goes in as a value, NULL when it is nil, which the column refuses. *)
Definition reserve_column (d : option Decimal) : outcome string :=
  v ← Value d; match v with Some s => column (numeric_column s) | None => column None end.
Definition SaveDataToDBModulePoolLpBalanceMap : gmap string BRC20ModuleSwapInfo → outcome (list PoolRow.swap_pool_balance) :=
  of_modules (λ moduleId info,
    insert_at Pool.UpdateHeight (λ pool swap,
      height ← column (int4_column height);
      moduleId ← column (text_column moduleId);
      pool ← column (text_column pool);
      tick0 ← column (text_column (Pool.Tick swap).1);
      balance0 ← reserve_column (Pool.TickBalance swap).1;
      tick1 ← column (text_column (Pool.Tick swap).2);
      balance1 ← reserve_column (Pool.TickBalance swap).2;
      lp ← Decimal_String (Pool.LpBalance swap);
      lp ← column (numeric_column lp);
      Ret (PoolRow.mk height moduleId pool tick0 balance0 tick1 balance1 lp)) (Mod.SwapPoolTotalBalanceDataMap info)).

(** Not filtered by height: all LP balances that ever changed are written again. *)
Definition SaveDataToDBModuleUserLpBalanceMap : gmap string BRC20ModuleSwapInfo → outcome (list LpRow.swap_user_lp_balance) :=
  of_modules (λ moduleId info,
    rows ← mapM (λ p : string * gmap string (option Decimal),
      mapM (λ q : string * option Decimal,
        height ← column (int4_column height);
        moduleId ← column (text_column moduleId);
        pool ← column (text_column q.1);
        lp ← Decimal_String q.2;
        lp ← column (numeric_column lp);
        Ret (LpRow.mk height moduleId pool p.1 lp))
        (List.filter (λ q : string * option Decimal,
          bool_decide (q.1 +:+ p.1 ∈ Mod.LPTokenUsersBalanceUpdatedMap info)) (map_to_list p.2)))
      (map_to_list (Mod.UsersLPTokenBalanceMap info));
    Ret (concat rows)).

(** ** Inscriptions of the swap protocol *)
Definition request_row (createKey modul tick : string) (amount : option Decimal) (data : InscriptionBRC20Data)
    : outcome RequestRow.valid_request :=
  modul ← column (text_column modul);
  row ← transfer_row createKey tick (Data.PkScript data) (GetInscriptionId data) (Data.TxId data) amount
    (Data.InscriptionNumber data) (Data.Vout data) (Data.Satoshi data) (Data.Offset data);
  Ret (RequestRow.mk modul row).
Definition SaveDataToDBSwapApproveMap (approves : gmap string InscriptionBRC20SwapInfo)
    : outcome (list RequestRow.valid_request) :=
  insert_at (λ i, Data.Height (SwapInfo.Data i)) (λ createKey approveInfo,
    request_row createKey (SwapInfo.Module_ approveInfo) (SwapInfo.Tick approveInfo)
      (SwapInfo.Amount approveInfo) (SwapInfo.Data approveInfo)) approves.

(** The moves of approves, commits and withdraws are written like those of transfers, and
    withdraws like approves, to tables of their own. *)
Definition SaveDataToDBSwapApproveStateMap := SaveDataToDBTransferStateMap.
Definition SaveDataToDBSwapCommitStateMap := SaveDataToDBTransferStateMap.
Definition SaveDataToDBSwapWithdrawStateMap := SaveDataToDBTransferStateMap.
Definition SaveDataToDBSwapWithdrawMap := SaveDataToDBSwapApproveMap.

(** The table has columns without default that the statement leaves out: any row is
    refused. *)
Definition SaveDataToDBSwapCondApproveStateMap (removeMap : gmap string Z) : outcome (list StateRow.state) :=
  insert_at id (λ _ _, column None) removeMap.
Definition SaveDataToDBSwapCondApproveMap (objects : gmap loc InscriptionBRC20SwapConditionalApproveInfo)
    (condApproves : gmap string loc) : outcome (list RequestRow.valid_request) :=
  rows ← mapM (λ p : string * loc,
    condApproveInfo ← deref_ptr (objects !! p.2);
    if CondInfo.UpdateHeight condApproveInfo =? height then
      r ← request_row p.1 (CondInfo.Module_ condApproveInfo) (CondInfo.Tick condApproveInfo)
        (CondInfo.Amount condApproveInfo) (CondInfo.Data condApproveInfo); Ret [r]
    else Ret []) (map_to_list condApproves);
  Ret (concat rows).

(** The module is the text "commitInfo.Module". *)
Definition SaveDataToDBSwapCommitMap (commits : gmap string InscriptionBRC20Data)
    : outcome (list CommitRow.valid_commit) :=
  insert_at Data.Height (λ createKey commitInfo,
    h ← column (int4_column height);
    modul ← column (text_column "commitInfo.Module");
    number ← column (int8_column (Data.InscriptionNumber commitInfo));
    id ← column (text_column (GetInscriptionId commitInfo));
    vout ← column (int4_column (Data.Vout commitInfo));
    satoshi ← column (int8_column (Data.Satoshi commitInfo));
    offset ← column (int8_column (Data.Offset commitInfo));
    Ret (CommitRow.mk h modul createKey (Data.PkScript commitInfo) number id (Data.TxId commitInfo)
      vout satoshi offset (Data.ContentBody commitInfo))) commits.

Definition SaveDataToBRC20DBSwapWithdrawMap (withdraws : gmap string Z) : outcome (list (Z * string)) :=
  insert_at id (λ inscriptionId _,
    h ← column (int4_column height); id ← column (text_column inscriptionId); Ret (h, id)) withdraws.

(** ** The whole state

    A panic rolls both transactions back; a nil map has no entries. *)
Definition SaveDataToDB (g : BRC20ModuleIndexer) (db : SwapDB) : outcome SwapDB :=
  tickers ← SaveDataToDBTickerInfoMap (G.InscriptionsTickerInfoMap g);
  balances ← SaveDataToDBTickerBalanceMap (G.Balances g) (G.UserTokensBalanceData g);
  moved ← SaveDataToDBTransferStateMap (G.InscriptionsTransferRemoveMap g);
  transfers ← SaveDataToDBValidTransferMap (G.InscriptionsValidTransferMap g);
  modules ← SaveDataToDBModuleInfoMap (G.ModulesInfoMap g);
  history ← SaveDataToDBModuleHistoryMap (G.ModulesInfoMap g);
  chain ← SaveDataToDBModuleCommitChainMap (G.ModulesInfoMap g);
  users ← SaveDataToDBModuleUserBalanceMap (G.ModulesInfoMap g);
  pools ← SaveDataToDBModulePoolLpBalanceMap (G.ModulesInfoMap g);
  lps ← SaveDataToDBModuleUserLpBalanceMap (G.ModulesInfoMap g);
  approvesMoved ← SaveDataToDBSwapApproveStateMap (G.InscriptionsApproveRemoveMap g);
  approves ← SaveDataToDBSwapApproveMap (G.InscriptionsValidApproveMap g);
  condApprovesMoved ← SaveDataToDBSwapCondApproveStateMap (G.InscriptionsCondApproveRemoveMap g);
  condApproves ← SaveDataToDBSwapCondApproveMap (G.CondApproves g) (G.InscriptionsValidConditionalApproveMap g);
  commitsMoved ← SaveDataToDBSwapCommitStateMap (G.InscriptionsCommitRemoveMap g);
  commits ← SaveDataToDBSwapCommitMap (G.InscriptionsValidCommitMap g);
  withdrawsMoved ← SaveDataToDBSwapWithdrawStateMap (default ∅ (G.InscriptionsWithdrawRemoveMap g));
  withdraws ← SaveDataToDBSwapWithdrawMap (default ∅ (G.InscriptionsWithdrawMap g));
  validWithdraws ← SaveDataToBRC20DBSwapWithdrawMap (default ∅ (G.InscriptionsValidWithdrawMap g));
  Ret (db
    <| DB.brc20_ticker_info ::= λ l, l ++ tickers |>
    <| DB.brc20_user_balance ::= λ l, l ++ balances |>
    <| DB.brc20_transfer_state ::= λ l, l ++ moved |>
    <| DB.brc20_valid_transfer ::= λ l, l ++ transfers |>
    <| DB.brc20_swap_info ::= λ l, l ++ modules |>
    <| DB.brc20_swap_history ::= λ l, l ++ history |>
    <| DB.brc20_swap_commit_chain ::= λ l, l ++ chain |>
    <| DB.brc20_swap_user_balance ::= λ l, l ++ users |>
    <| DB.brc20_swap_pool_balance ::= λ l, l ++ pools |>
    <| DB.brc20_swap_user_lp_balance ::= λ l, l ++ lps |>
    <| DB.brc20_swap_approve_state ::= λ l, l ++ approvesMoved |>
    <| DB.brc20_swap_valid_approve ::= λ l, l ++ approves |>
    <| DB.brc20_swap_cond_approve_state ::= λ l, l ++ condApprovesMoved |>
    <| DB.brc20_swap_valid_cond_approve ::= λ l, l ++ condApproves |>
    <| DB.brc20_swap_commit_state ::= λ l, l ++ commitsMoved |>
    <| DB.brc20_swap_valid_commit ::= λ l, l ++ commits |>
    <| DB.brc20_swap_withdraw_state ::= λ l, l ++ withdrawsMoved |>
    <| DB.brc20_swap_valid_withdraw ::= λ l, l ++ withdraws |>
    <| DB.brc20_module_withdrawals ::= λ l, l ++ validWithdraws |>).
End save.
