(* ===== verification/Load.v ===== *)
(** * loader/load_from_db.go, indexer/store.go: the state rebuilt from the database

    An error of a query ends the program, like a panic.  Heaps get an object for every
    row; where two rows have one key the last one read counts. *)
From S2P Require Import Prelude GoStd Decimal Script Utils Json Model History Swap Indexer CondApprove Ledger Modules Tables.

(** [for rows.Next()], collecting into a map or a list. *)
Fixpoint fold_rows {S R M} (f : M → R → GoM S M) (m : M) (rows : list R) : GoM S M :=
  match rows with
  | [] => mret m
  | r :: rows => m ← f m r; fold_rows f m rows
  end.
(** [log.Fatal] *)
Definition fatal {S A} (what : string) (m : GoM S A) : GoM S A := λ s,
  match m s with
  | (Error e, s) => (Panic (what +:+ " failed: " +:+ e), s)
  | r => r
  end.

Section load.
Context `{GoUnicode, Postgres}.
Variable db : SwapDB.

(** Zero when there are no rows. *)
Definition GetBrc20LatestHeightFromDB : Z :=
  foldr (λ r h, Z.max (BalanceRow.block_height r) h) 0 (DB.brc20_user_balance db).

(** ** Tokens *)

(** The fields the query does not give are zero. *)
Definition loaded_deploy (row : TickerRow.ticker_info) (max limit minted : option Decimal) : InscriptionBRC20TickInfo :=
  NewInscriptionBRC20TickInfo "" "" (Data.mk false "" 0 0 0 0 "" 0 0 [] [] "" 0 0 0 0 "")
    <| TickInfo.SelfMint := TickerRow.self_mint row |>
    <| TickInfo.Max := max |>
    <| TickInfo.Decimals := u8 (TickerRow.decimals row) |>
    <| TickInfo.Limit := limit |>
    <| TickInfo.TotalMinted := minted |>
    <| TickInfo.Data := Some (InfoResp.mk "deploy" (TickerRow.tick row) (TickerRow.max_supply row)
         (TickerRow.limit_per_mint row) "" (int_string (TickerRow.decimals row)) (TickerRow.minted row)
         (if TickerRow.self_mint row then "true" else "")) |>.
Definition load_ticker (tickerInfoMap : gmap string BRC20TokenInfo) (row : TickerRow.ticker_info)
    : Idx (gmap string BRC20TokenInfo) :=
  if negb ((0 <=? TickerRow.decimals row) && (TickerRow.decimals row <? 256)) then throw "value out of range" else
  nminted ← lift (MustNewDecimalFromString (TickerRow.minted row) (TickerRow.decimals row));
  nmax ← lift (MustNewDecimalFromString (TickerRow.max_supply row) (TickerRow.decimals row));
  nlimit ← lift (MustNewDecimalFromString (TickerRow.limit_per_mint row) (TickerRow.decimals row));
  mret (<[ToLower (TickerRow.tick row) :=
    TokenInfo.mk 0 (TickerRow.tick row) (loaded_deploy row (Some nmax) (Some nlimit) (Some nminted))
      [] [] [] [] []]> tickerInfoMap).
Definition LoadFromDbTickerInfoMap : Idx (gmap string BRC20TokenInfo) :=
  fold_rows load_ticker ∅
    (row_order (latest TickerRow.block_height TickerRow.tick (DB.brc20_ticker_info db))).

(** Decimals of a ticker, by its lower-case name. *)
Definition token_decimals (tokenInfos : gmap string BRC20TokenInfo) (tick : string) : Idx Z :=
  match tokenInfos !! ToLower tick with
  | None => throw ("token info not found for ticker: " +:+ ToLower tick)
  | Some info => mret (TickInfo.Decimals (TokenInfo.Deploy info))
  end.
Definition load_balance_row (tokenInfos : gmap string BRC20TokenInfo)
    (userTokensBalanceMap : gmap string (gmap string loc)) (row : BalanceRow.user_balance)
    : Idx (gmap string (gmap string loc)) :=
  let tick := BalanceRow.tick row in
  let pkscript := BalanceRow.pkscript row in
  decimals ← token_decimals tokenInfos tick;
  ab ← lift (MustNewDecimalFromString (BalanceRow.available_balance row) decimals);
  tb ← lift (MustNewDecimalFromString (BalanceRow.transferable_balance row) decimals);
  balance ← alloc_balance (new_balance tick pkscript
    <| Bal.AvailableBalance := Some ab |> <| Bal.TransferableBalance := Some tb |>);
  mret (<[pkscript := <[ToLower tick := balance]> (default ∅ (userTokensBalanceMap !! pkscript))]>
    userTokensBalanceMap).
(** With no scripts and no tickers asked for: all of them. *)
Definition LoadFromDbUserTokensBalanceData (tokenInfos : gmap string BRC20TokenInfo)
    : Idx (gmap string (gmap string loc)) :=
  fold_rows (load_balance_row tokenInfos) ∅
    (row_order (latest BalanceRow.block_height (λ r, (BalanceRow.tick r, BalanceRow.pkscript r))
      (DB.brc20_user_balance db))).

(** Every ticker has an inner map; a ticker that is not known is a nil map, and writing
    to it panics. *)
Definition load_holder (pkscript : string) (tokenUsersMap : gmap string (gmap string loc))
    (p : string * loc) : Idx (gmap string (gmap string loc)) :=
  balance ← load_balance p.2;
  if (Sign (Bal.AvailableBalance balance) =? 0) && (Sign (Bal.TransferableBalance balance) =? 0)
  then mret tokenUsersMap
  else
    match tokenUsersMap !! p.1 with
    | None => gopanic nil_map
    | Some users => mret (<[p.1 := <[pkscript := p.2]> users]> tokenUsersMap)
    end.
Definition UserTokensBalanceMap2TokenUsersBalanceMap (tokenInfos : gmap string BRC20TokenInfo)
    (userTokensMap : gmap string (gmap string loc)) : Idx (gmap string (gmap string loc)) :=
  fold_rows (λ tokenUsersMap (p : string * gmap string loc),
      fold_rows (load_holder p.1) tokenUsersMap (map_to_list p.2))
    ((λ _ : BRC20TokenInfo, ∅ : gmap string loc) <$> tokenInfos) (map_to_list userTokensMap).

(** A transfer inscription: without data, number of its output 0. *)
Definition loaded_transfer (row : TransferRow.valid_transfer) (amount : Decimal) : InscriptionBRC20TickInfo :=
  let data := Data.mk false (TransferRow.txid row) 0 (TransferRow.vout row) (TransferRow.output_offset row)
    (TransferRow.output_value row) (TransferRow.pkscript row) 0 (TransferRow.inscription_number row) [] []
    (TransferRow.create_key row) (TransferRow.block_height row) 0 0 0 (TransferRow.inscription_id row) in
  NewInscriptionBRC20TickInfo (TransferRow.tick row) "" data
    <| TickInfo.Data := None |> <| TickInfo.Decimals := 0 |>
    <| TickInfo.Amount := Some amount |> <| TickInfo.Meta := Some data |>.
Definition load_transfer (tokenInfos : gmap string BRC20TokenInfo)
    (res : gmap string InscriptionBRC20TickInfo) (row : TransferRow.valid_transfer)
    : Idx (gmap string InscriptionBRC20TickInfo) :=
  decimals ← token_decimals tokenInfos (TransferRow.tick row);
  amount ← lift (MustNewDecimalFromString (TransferRow.amount row) decimals);
  mret (<[TransferRow.create_key row := loaded_transfer row amount]> res).
Definition LoadFromDBValidTransferMap (tokenInfos : gmap string BRC20TokenInfo)
    : Idx (gmap string InscriptionBRC20TickInfo) :=
  fold_rows (load_transfer tokenInfos) ∅
    (row_order (not_moved (DB.brc20_transfer_state db) TransferRow.create_key
      (latest TransferRow.block_height TransferRow.create_key (DB.brc20_valid_transfer db)))).

(** ** Modules *)
Definition loaded_module (row : ModuleRow.swap_info) : BRC20ModuleSwapInfo :=
  {| Mod.UpdateHeight := 0; Mod.ID := ModuleRow.module_id row; Mod.Name := ModuleRow.name row;
     Mod.DeployerPkScript := ModuleRow.pkscript_deployer row;
     Mod.SequencerPkScript := ModuleRow.pkscript_sequencer row;
     Mod.GasToPkScript := ModuleRow.pkscript_gas_to row;
     Mod.LpFeePkScript := ModuleRow.pkscript_lp_fee row;
     Mod.FeeRateSwap := ModuleRow.fee_rate_swap row; Mod.GasTick := ModuleRow.gas_tick row;
     Mod.History := []; Mod.CommitInvalidMap := ∅; Mod.CommitIdMap := ∅; Mod.CommitIdChainMap := ∅;
     Mod.UsersTokenBalanceDataMap := ∅; Mod.TokenUsersBalanceDataMap := ∅; Mod.Balances := ∅;
     Mod.LPTokenUsersBalanceMap := ∅; Mod.LPTokenUsersBalanceUpdatedMap := ∅;
     Mod.UsersLPTokenBalanceMap := ∅; Mod.SwapPoolTotalBalanceDataMap := ∅;
     Mod.ConditionalApproveStateBalanceDataMap := ∅; Mod.ThisTxId := "";
     Mod.TransferStatesForConditionalApprove := []; Mod.ApproveStatesForConditionalApprove := [] |}.
Definition LoadFromDBModuleInfoMap : gmap string BRC20ModuleSwapInfo :=
  foldl (λ m row, <[ModuleRow.module_id row := loaded_module row]> m) ∅ (row_order (DB.brc20_swap_info db)).

Definition loaded_module_history (row : HistoryRow.swap_history) : BRC20ModuleHistory :=
  ModHist.mk (HBase.mk (HistoryRow.history_type row) (HistoryRow.valid row) (HistoryRow.txid row)
      (HistoryRow.idx row) (HistoryRow.vout row) (HistoryRow.output_offset row)
      (HistoryRow.pkscript_from row) (HistoryRow.pkscript_to row) (HistoryRow.output_value row)
      (HistoryRow.fee row) 0 (HistoryRow.txidx row) (HistoryRow.block_time row))
    (SwapInfoResp.mk (HistoryRow.inscription_content row) (HistoryRow.inscription_number row)
      (HistoryRow.inscription_id row) 0) NoData.
(** The map the query makes has one entry at most, the history of the module. *)
Definition LoadFromDBModuleHistoryMap (moduleId : string) : list BRC20ModuleHistory :=
  map loaded_module_history (row_order
    (List.filter (λ r, bool_decide (HistoryRow.module_id r = moduleId)) (DB.brc20_swap_history db))).

Definition LoadModuleCommitChain (moduleId : string) : list ChainRow.commit_chain :=
  row_order (List.filter (λ r, bool_decide (ChainRow.module_id r = moduleId)) (DB.brc20_swap_commit_chain db)).

(** A numeric column scanned into a new decimal. *)
Definition scan_decimal {S} (s : string) : GoM S (option Decimal) :=
  d ← lift (Scan (mkDecimal 0 0) (Some s)); mret (Some d).

(** The heights are those of the module, but the rows joined with them are of any. *)
Definition module_user_rows (moduleId : string) : list UserRow.swap_user_balance :=
  let key r := (UserRow.tick r, UserRow.pkscript r) in
  let newest := latest UserRow.block_height key
    (List.filter (λ r, bool_decide (UserRow.module_id r = moduleId)) (DB.brc20_swap_user_balance db)) in
  flat_map (λ r, map (λ _, r) (List.filter (λ t, bool_decide (key t = key r) &&
      (UserRow.block_height t =? UserRow.block_height r)) newest)) (DB.brc20_swap_user_balance db).
Definition load_module_user (result : gmap string (gmap string loc)) (row : UserRow.swap_user_balance)
    : GoM BRC20ModuleSwapInfo (gmap string (gmap string loc)) :=
  let tick := UserRow.tick row in
  let pkscript := UserRow.pkscript row in
  swap ← scan_decimal (UserRow.swap_balance row);
  available ← scan_decimal (UserRow.available_balance row);
  approveable ← scan_decimal (UserRow.approveable_balance row);
  condApproveable ← scan_decimal (UserRow.cond_approveable_balance row);
  ready ← scan_decimal (UserRow.ready_to_withdraw_amount row);
  balance ← mod_alloc (new_module_balance tick pkscript
    <| MBal.SwapAccountBalance := swap |> <| MBal.AvailableBalance := available |>
    <| MBal.ApproveableBalance := approveable |> <| MBal.CondApproveableBalance := condApproveable |>
    <| MBal.ReadyToWithdrawAmount := ready |>);
  mret (<[pkscript := <[ToLower tick := balance]> (default ∅ (result !! pkscript))]> result).
Definition LoadFromDBModuleUserBalanceMap (moduleId : string)
    : GoM BRC20ModuleSwapInfo (gmap string (gmap string loc)) :=
  fold_rows load_module_user ∅ (row_order (module_user_rows moduleId)).

Definition module_pool_rows (moduleId : string) : list PoolRow.swap_pool_balance :=
  latest PoolRow.block_height (λ r, (PoolRow.module_id r, PoolRow.tick0 r, PoolRow.tick1 r))
    (List.filter (λ r, bool_decide (PoolRow.module_id r = moduleId)) (DB.brc20_swap_pool_balance db)).
Definition load_pool_row (result : gmap string BRC20ModulePoolTotalBalance) (row : PoolRow.swap_pool_balance)
    : GoM BRC20ModuleSwapInfo (gmap string BRC20ModulePoolTotalBalance) :=
  balance0 ← scan_decimal (PoolRow.tick0_balance row);
  balance1 ← scan_decimal (PoolRow.tick1_balance row);
  lp ← scan_decimal (PoolRow.lp_balance row);
  mret (<[PoolRow.pool row := Pool.mk 0 (PoolRow.tick0 row, PoolRow.tick1 row) (balance0, balance1) lp None []]>
    result).
Definition LoadFromDBModulePoolLpBalanceMap (moduleId : string)
    : GoM BRC20ModuleSwapInfo (gmap string BRC20ModulePoolTotalBalance) :=
  fold_rows load_pool_row ∅ (row_order (module_pool_rows moduleId)).

Definition module_lp_rows (moduleId : string) : list LpRow.swap_user_lp_balance :=
  latest LpRow.block_height (λ r, (LpRow.module_id r, LpRow.pool r, LpRow.pkscript r))
    (List.filter (λ r, bool_decide (LpRow.module_id r = moduleId)) (DB.brc20_swap_user_lp_balance db)).
Definition load_lp_row (result : gmap string (gmap string (option Decimal))) (row : LpRow.swap_user_lp_balance)
    : GoM BRC20ModuleSwapInfo (gmap string (gmap string (option Decimal))) :=
  lpBalance ← scan_decimal (LpRow.lp_balance row);
  mret (<[LpRow.pkscript row := <[LpRow.pool row := lpBalance]> (default ∅ (result !! LpRow.pkscript row))]> result).
Definition LoadFromDBModuleUserLpBalanceMap (moduleId : string)
    : GoM BRC20ModuleSwapInfo (gmap string (gmap string (option Decimal))) :=
  fold_rows load_lp_row ∅ (row_order (module_lp_rows moduleId)).

(** ** Inscriptions of the swap protocol *)

(** Without height and key. *)
Definition loaded_data (row : TransferRow.valid_transfer) : InscriptionBRC20Data :=
  Data.mk false (TransferRow.txid row) 0 (TransferRow.vout row) (TransferRow.output_offset row)
    (TransferRow.output_value row) (TransferRow.pkscript row) 0 (TransferRow.inscription_number row)
    [] [] "" 0 0 0 0 (TransferRow.inscription_id row).
Definition request_key (row : RequestRow.valid_request) : string := TransferRow.create_key (RequestRow.request row).
Definition pending_requests (states : list StateRow.state) (rows : list RequestRow.valid_request)
    : list RequestRow.valid_request :=
  row_order (not_moved states request_key
    (latest (λ r, TransferRow.block_height (RequestRow.request r)) request_key rows)).

Definition LoadFromDBSwapApproveMap : Idx (gmap string InscriptionBRC20SwapInfo) :=
  fold_rows (λ result row,
      let r := RequestRow.request row in
      amount ← scan_decimal (TransferRow.amount r);
      mret (<[request_key row := SwapInfo.mk (RequestRow.module_id row) (TransferRow.tick r) amount (loaded_data r)]> result))
    ∅ (pending_requests (DB.brc20_swap_approve_state db) (DB.brc20_swap_valid_approve db)).

(** Without balance, owner and delegator, and not moved. *)
Definition LoadFromDBSwapCondApproveMap : Idx (gmap string loc) :=
  fold_rows (λ result row,
      let r := RequestRow.request row in
      amount ← scan_decimal (TransferRow.amount r);
      info ← alloc_cond_approve (CondInfo.mk 0 (RequestRow.module_id row) (TransferRow.tick r) amount None
        false "" "" (loaded_data r));
      mret (<[request_key row := info]> result))
    ∅ (pending_requests (DB.brc20_swap_cond_approve_state db) (DB.brc20_swap_valid_cond_approve db)).

Definition LoadFromDBSwapCommitMap : gmap string InscriptionBRC20Data :=
  foldl (λ result row,
      <[CommitRow.create_key row := Data.mk false (CommitRow.txid row) 0 (CommitRow.vout row)
        (CommitRow.output_offset row) (CommitRow.output_value row) (CommitRow.pkscript row) 0
        (CommitRow.inscription_number row) [] (CommitRow.inscription_content row) "" 0 0 0 0
        (CommitRow.inscription_id row)]> result)
    ∅ (row_order (not_moved (DB.brc20_swap_commit_state db) CommitRow.create_key
        (latest CommitRow.block_height CommitRow.create_key (DB.brc20_swap_valid_commit db)))).

(** The fields are scanned through [info.Data], which is nil. *)
Definition LoadFromDBSwapWithdrawMap : Idx (gmap string InscriptionBRC20SwapInfo) :=
  fold_rows (λ _ _, gopanic nil_deref) ∅
    (pending_requests (DB.brc20_swap_withdraw_state db) (DB.brc20_swap_valid_withdraw db)).

(** ** The whole state *)

(** The maps by the other key, of the entries of a map of maps. *)
Definition transpose {A} (m : gmap string (gmap string A)) (start : gmap string (gmap string A))
    : gmap string (gmap string A) :=
  foldl (λ t (p : string * gmap string A),
      foldl (λ t (q : string * A), <[q.1 := <[p.1 := q.2]> (default ∅ (t !! q.1))]> t) t (map_to_list p.2))
    start (map_to_list m).

Definition load_chain_row (cc : ChainRow.commit_chain) (info : BRC20ModuleSwapInfo) : BRC20ModuleSwapInfo :=
  let id := ChainRow.commit_id cc in
  if ChainRow.valid cc && ChainRow.connected cc then info <| Mod.CommitIdChainMap ::= λ s, {[id]} ∪ s |>
  else if ChainRow.valid cc then info <| Mod.CommitIdMap ::= λ s, {[id]} ∪ s |>
  else info <| Mod.CommitInvalidMap ::= λ s, {[id]} ∪ s |>.

Definition loadFromDBSwapModuleInfo (mid : string) : GoM BRC20ModuleSwapInfo unit :=
  (let history := LoadFromDBModuleHistoryMap mid in
   when (negb (bool_decide (history = []))) (modify (λ info, info <| Mod.History := history |>))) ;;
  modify (λ info, foldl (λ info cc, load_chain_row cc info) info (LoadModuleCommitChain mid)) ;;
  atbm ← fatal "LoadFromDBModuleUserBalanceMap" (LoadFromDBModuleUserBalanceMap mid);
  modify (λ info, info <| Mod.UsersTokenBalanceDataMap := atbm |>
    <| Mod.TokenUsersBalanceDataMap := transpose atbm ∅ |>) ;;
  pools ← fatal "LoadFromDBModulePoolLpBalanceMap" (LoadFromDBModulePoolLpBalanceMap mid);
  modify (λ info, info <| Mod.SwapPoolTotalBalanceDataMap := pools |>) ;;
  userLpBalanceMap ← fatal "LoadFromDBModuleUserLpBalanceMap" (LoadFromDBModuleUserLpBalanceMap mid);
  modify (λ info, info <| Mod.UsersLPTokenBalanceMap := userLpBalanceMap |>
    <| Mod.LPTokenUsersBalanceMap ::= transpose userLpBalanceMap |>).

(** [g.UserTokensBalanceData[v.PkScript][ticker].ValidTransferMap[k] = v] *)
Definition link_transfer (k : string) (v : InscriptionBRC20TickInfo) : Idx unit :=
  g ← get;
  balance ← deref (G.UserTokensBalanceData g !! TickInfo.PkScript v ≫= lookup (ToLower (TickInfo.Tick v)));
  update_balance balance (λ b, b <| Bal.ValidTransferMap ::= <[k := v]> |>).

(** Tickers, balances and transfer inscriptions. *)
Definition load_ledger : Idx unit :=
  infos ← fatal "LoadFromDBTickerInfoMap" LoadFromDbTickerInfoMap;
  modify (λ g, g <| G.InscriptionsTickerInfoMap := infos |>) ;;
  users ← fatal "LoadFromDBUserTokensBalanceData" (LoadFromDbUserTokensBalanceData infos);
  modify (λ g, g <| G.UserTokensBalanceData := users |>) ;;
  tokens ← UserTokensBalanceMap2TokenUsersBalanceMap infos users;
  modify (λ g, g <| G.TokenUsersBalanceData := tokens |>) ;;
  transfers ← fatal "LoadFromDBvalidTransferMap" (LoadFromDBValidTransferMap infos);
  modify (λ g, g <| G.InscriptionsValidTransferMap := transfers |>) ;;
  for_each (λ p : string * InscriptionBRC20TickInfo, link_transfer p.1 p.2) (map_to_list transfers).

(** Modules and the inscriptions of the swap protocol. *)
Definition load_modules : Idx unit :=
  modify (λ g, g <| G.ModulesInfoMap := LoadFromDBModuleInfoMap |>) ;;
  approves ← fatal "LoadFromDBSwapApproveMap" LoadFromDBSwapApproveMap;
  modify (λ g, g <| G.InscriptionsValidApproveMap := approves |>) ;;
  condApproves ← fatal "LoadFromDBSwapCondApproveMap" LoadFromDBSwapCondApproveMap;
  modify (λ g, g <| G.InscriptionsValidConditionalApproveMap := condApproves |>) ;;
  modify (λ g, g <| G.InscriptionsValidCommitMap := LoadFromDBSwapCommitMap |>) ;;
  withdraws ← LoadFromDBSwapWithdrawMap;
  modify (λ g, g <| G.InscriptionsWithdrawMap := Some withdraws |>) ;;
  for_each (λ mid, on_module mid (loadFromDBSwapModuleInfo mid)) (map_to_list LoadFromDBModuleInfoMap).*1.

(** The height it is given is not used. *)
Definition LoadDataFromDB : Idx unit := load_ledger ;; load_modules.
End load.
