(* ===== verification/Driver.v ===== *)
(** * service/brc20_swap.go, indexer/store.go: the chain, height by height

    Inscriptions and moves arrive in the order of the chain and are handled in batches
    of one height.  After a batch that changed something the events of the height are
    written down, the state is saved and the records of the height are dropped.  When
    the service starts it goes on from what the database holds. *)
From S2P Require Import Prelude GoStd Decimal Script Utils Json Model History Swap Bip322 Indexer CondApprove Ledger Modules Commit PreVerify CherryPick CommitFlow MainLoop Tables Save Load.

(** ** The records of a height *)
Definition PurgeHistoricalData (g : BRC20ModuleIndexer) : BRC20ModuleIndexer :=
  g <| G.AllHistory := [] |>
    <| G.InscriptionsTransferRemoveMap := ∅ |>
    <| G.InscriptionsApproveRemoveMap := ∅ |>
    <| G.InscriptionsCondApproveRemoveMap := ∅ |>
    <| G.InscriptionsCommitRemoveMap := ∅ |>.

Section events.
Context `{GoUnicode}.

Fixpoint join_semicolons (l : list string) : string :=
  match l with
  | [] => ""
  | [s] => s
  | s :: l => s +:+ ";" +:+ join_semicolons l
  end.
(** A bool printed with [%b], which is no verb for it. *)
Definition bad_verb (b : bool) : string :=
  if b then "%!b(bool=true)" else "%!b(bool=false)".

(** The line of a valid record. *)
Definition event_line (g : BRC20ModuleIndexer) (h : BRC20History) : outcome string :=
  let pkScriptFrom := b2s (hex_encode (s2b (HBase.PkScriptFrom (Hist.Base h)))) in
  let pkScriptTo := b2s (hex_encode (s2b (HBase.PkScriptTo (Hist.Base h)))) in
  let inscription_id := TickInfoResp.InscriptionId (Hist.Inscription h) in
  data ← match TickInfoResp.Data (Hist.Inscription h) with Some d => Ret d | None => Panic nil_deref end;
  let ticker := ToLower (InfoResp.BRC20Tick data) in
  let with_info (line : BRC20TokenInfo → outcome string) :=
    match G.InscriptionsTickerInfoMap g !! ticker with Some info => line info | None => Panic nil_deref end in
  let of_type t := HBase.Type_ (Hist.Base h) =? t in
  if of_type BRC20_HISTORY_TYPE_N_INSCRIBE_DEPLOY then
    with_info (λ info,
      max ← Decimal_String (TickInfo.Max (TokenInfo.Deploy info));
      limit ← Decimal_String (TickInfo.Limit (TokenInfo.Deploy info));
      Ret (join_semicolons ["deploy-inscribe"; inscription_id; pkScriptTo; ticker; TokenInfo.Ticker info;
        max; int_string (TickInfo.Decimals (TokenInfo.Deploy info)); limit;
        bad_verb (TickInfo.SelfMint (TokenInfo.Deploy info))]))
  else if of_type BRC20_HISTORY_TYPE_N_INSCRIBE_MINT then
    with_info (λ info, Ret (join_semicolons
      ["mint-inscribe"; inscription_id; pkScriptTo; ticker; TokenInfo.Ticker info; Hist.Amount h]))
  else if of_type BRC20_HISTORY_TYPE_N_INSCRIBE_TRANSFER then
    with_info (λ info, Ret (join_semicolons
      ["transfer-inscribe"; inscription_id; pkScriptTo; ticker; TokenInfo.Ticker info; Hist.Amount h]))
  else if of_type BRC20_HISTORY_TYPE_N_TRANSFER then
    with_info (λ info, Ret (join_semicolons
      ["transfer-transfer"; inscription_id; pkScriptFrom; pkScriptTo; ticker; TokenInfo.Ticker info; Hist.Amount h]))
  else if of_type BRC20_HISTORY_MODULE_TYPE_N_WITHDRAW then
    with_info (λ info, Ret (join_semicolons
      ["withdraw-transfer"; inscription_id; pkScriptFrom; pkScriptTo; ticker; TokenInfo.Ticker info; Hist.Amount h]))
  else Ret "".

(** The lines are made and dropped: only a panic is seen. *)
Fixpoint event_lines (g : BRC20ModuleIndexer) (history : list Z) : outcome (list string) :=
  match history with
  | [] => Ret []
  | hIdx :: history =>
    buf ← match G.HistoryData g !! Z.to_nat hIdx with Some buf => Ret buf | None => Panic "index out of range" end;
    h ← Unmarshal buf;
    if negb (HBase.Valid (Hist.Base h)) then event_lines g history else
    line ← event_line g h;
    lines ← event_lines g history;
    Ret (line :: lines)
  end.
Definition UpdateBRC20BlockEventsHash (g : BRC20ModuleIndexer) : outcome (list string) :=
  event_lines g (G.AllHistory g).
End events.

(** ** The service *)

(** The databases and the indexer. *)
Module Svc.
Record Service := mk {
    Tables : SwapDB;
    Index : BRC20ModuleIndexer;
  }.
#[global] Instance eta : EtaRecord Service := λ r, mk (Tables r) (Index r).
End Svc.
Abbreviation Service := Svc.Service.

Section driver.
Context `{GoUnicode, MapOrder, Config, BtcAddr, Btcd, Postgres}.
(** [GResultsExternal] *)
Variable external : list SwapFunctionResultCheckState.

Definition on_index {A} : Idx A → GoM Service A :=
  zoom Svc.Index (λ g s, s <| Svc.Index := g |>).

(** The empty inscription that ends the input. *)
Definition finish : InscriptionBRC20Data :=
  {| Data.IsTransfer := false; Data.TxId := ""; Data.Idx := 0; Data.Vout := 0; Data.Offset := 0;
     Data.Satoshi := 0; Data.PkScript := ""; Data.Fee := 0; Data.InscriptionNumber := 0;
     Data.Parent := []; Data.ContentBody := []; Data.CreateIdxKey := ""; Data.Height := 0;
     Data.TxIdx := 0; Data.BlockTime := 0; Data.Sequence := 0; Data.InscriptionId := "" |}.

(** [if g.Durty { ... }] *)
Definition end_height (lastHeight : Z) : GoM Service unit :=
  s ← get;
  when (G.Durty (Svc.Index s))
    (_ ← lift (UpdateBRC20BlockEventsHash (Svc.Index s));
     db ← lift (SaveDataToDB lastHeight (Svc.Index s) (Svc.Tables s));
     modify (λ s, s <| Svc.Tables := db |> <| Svc.Index ::= PurgeHistoricalData |>)).

(** [for data := range brc20DatasParse]; each input comes with its time. *)
Fixpoint by_height (lastHeight : Z) (brc20DatasPerHeight brc20DatasParse : list (Z * InscriptionBRC20Data))
    : GoM Service unit :=
  match brc20DatasParse with
  | [] => mret tt
  | i :: brc20DatasParse =>
    if bool_decide (brc20DatasPerHeight ≠ []) && negb (lastHeight =? Data.Height i.2) then
      on_index (ProcessUpdateLatestBRC20Loop external brc20DatasPerHeight) ;;
      end_height lastHeight ;;
      by_height (Data.Height i.2) [i] brc20DatasParse
    else by_height (Data.Height i.2) (brc20DatasPerHeight ++ [i]) brc20DatasParse
  end.

(** The height the input is read from: after the last height in the database, when that
    is above the height asked for. *)
Definition resume_height (startHeight : Z) (db : SwapDB) : Z :=
  let dbHeight := GetBrc20LatestHeightFromDB db in
  if startHeight <? dbHeight then dbHeight + 1 else startHeight.

(** A start of the service: [brc20DatasLoad] gives the input from a height on, [now] is
    the time the end of the input is read at.  The index at the end is published. *)
Definition ProcessUpdateLatestBRC20SwapInit (startHeight now : Z)
    (brc20DatasLoad : Z → list (Z * InscriptionBRC20Data)) : GoM Service unit :=
  s ← get;
  let startHeight := resume_height startHeight (Svc.Tables s) in
  modify (λ s, s <| Svc.Index := Init |>) ;;
  on_index (LoadDataFromDB (Svc.Tables s)) ;;
  by_height (u32 startHeight) [] (brc20DatasLoad startHeight ++ [(now, finish)]) ;;
  on_index clean_up.
End driver.
