(* ===== verification/Service.v ===== *)
(** * controller/brc20_module.go, service/brc20/brc20_swap_api.go: the check of commits

    A sequencer sends the texts of its last commits and the results it expects of the
    last one.  The service copies what the results name out of the published index,
    lists the earlier commits in the copy and verifies the last one there. *)
From S2P Require Import Prelude GoStd Decimal Script Utils Json Model History Swap Bip322 CommitJson Indexer CondApprove Ledger Modules Commit PreVerify CherryPick CommitFlow.

(** ** model/brc20_swap.go *)
Module VerifyResp.
Record BRC20ModuleVerifySwapCommitResp := mk {
    Valid : bool;
    Critical : bool;
    FunctionIndex : Z;
    FunctionId : string;
    Message : string;
  }.
End VerifyResp.
Abbreviation BRC20ModuleVerifySwapCommitResp := VerifyResp.BRC20ModuleVerifySwapCommitResp.

(** The request, once decoded; the decoded commits are made by the handler.  A nil
    result is [None]. *)
Module VerifyReq.
Record BRC20ModuleVerifySwapCommitReq := mk {
    CommitsStr : list string;
    LastResults : list (option SwapFunctionResultCheckState);
  }.
End VerifyReq.
Abbreviation BRC20ModuleVerifySwapCommitReq := VerifyReq.BRC20ModuleVerifySwapCommitReq.

Section service.
Context `{GoUnicode, Config, BtcAddr, Btcd}.

(** ** What the results name *)
Definition pick_user_result (user : SwapFunctionResultCheckStateForUser) : GoM PickFilter unit :=
  pick_address (UserResult.Address user) "result, addr invalid" ;;
  when (len (UserResult.Tick user) =? 4) (pick_tick (ToLower (UserResult.Tick user))).
Definition pick_pool_result (pool : SwapFunctionResultCheckStateForPool) : GoM PickFilter unit :=
  tokens ← lift (or_error (DecodeTokensFromSwapPair (PoolResult.Pair pool)) "result, pool pair invalid");
  pick_pair tokens.1 tokens.2.
Definition pick_result (r : option SwapFunctionResultCheckState) : GoM PickFilter unit :=
  match r with
  | None => gopanic nil_deref
  | Some r =>
    for_each pick_user_result (CheckState.Users r) ;;
    for_each pick_pool_result (CheckState.Pools r)
  end.
Definition pick_results (results : list (option SwapFunctionResultCheckState)) : outcome PickFilter :=
  match for_each pick_result results no_pick with
  | (Ret _, pick) => Ret pick
  | (Error e, _) => Error e
  | (Panic p, _) => Panic p
  end.

(** ** The service *)

(** [commitObj.Data[idx].ID], when there is such a function. *)
Definition function_id (commitObj : InscriptionBRC20ModuleSwapCommitContent) (idx : Z) : outcome string :=
  if (0 <=? idx) && (idx <? Z.of_nat (length (CommitBody.CommitData commitObj)))
  then match CommitBody.CommitData commitObj !! Z.to_nat idx with
       | Some (Some f) => Ret (SwapFunction.ID f)
       | _ => Panic nil_deref
       end
  else Ret "".
Definition verify_response (commitObj : InscriptionBRC20ModuleSwapCommitContent) (result : verify_result)
    : outcome BRC20ModuleVerifySwapCommitResp :=
  match result with
  | (idx, critical, Some err) =>
    id ← function_id commitObj idx;
    Ret (VerifyResp.mk false critical idx id err)
  | (_, critical, None) => Ret (VerifyResp.mk true critical 0 "" "ok")
  end.

(** [GSwap] is [None] while the index is not ready. *)
Definition BRC20ModuleVerifySwapCommitService (fuel : nat) (external : list SwapFunctionResultCheckState)
    (GSwap : option BRC20ModuleIndexer) (modul : string) (commitsStr : list string)
    (commitsObj : list (option InscriptionBRC20ModuleSwapCommitContent))
    (results : list (option SwapFunctionResultCheckState)) : outcome BRC20ModuleVerifySwapCommitResp :=
  match GSwap with
  | None => Error "swap not ready"
  | Some gswap =>
    pick ← pick_results results;
    swapState ← CherryPick gswap modul pick;
    let total := length commitsStr in
    match commitsStr !! (total - 1)%nat, commitsObj !! (total - 1)%nat with
    | Some commitStr, Some (Some commitObj) =>
      result ← run_outcome (
        when (2 <=? Z.of_nat total)
          (BRC20ModulePrepareSwapCommitContent (s2b <$> commitsStr) commitsObj) ;;
        BRC20ModuleVerifySwapCommitContent fuel external (s2b commitStr) commitObj (omap id results)) swapState;
      verify_response commitObj result
    | None, _ | _, None => Panic "index out of range"
    | _, _ => Panic nil_deref
    end
  end.

(** ** The handler

    The module is that of the last commit. *)
Fixpoint decode_commits (commitsStr : list string) (modul : string)
    : outcome (string * list (option InscriptionBRC20ModuleSwapCommitContent)) :=
  match commitsStr with
  | [] => Ret (modul, [])
  | commitStr :: commitsStr =>
    commit ← or_error (Unmarshal_Commit (s2b commitStr)) "commit json error";
    match commit with
    | None => Panic nil_deref
    | Some commit =>
      rest ← decode_commits commitsStr (CommitBody.Module_ commit);
      Ret (rest.1, Some commit :: rest.2)
    end
  end.
Definition BRC20ModuleVerifySwapCommitHandler (fuel : nat) (external : list SwapFunctionResultCheckState)
    (GSwap : option BRC20ModuleIndexer) (req : BRC20ModuleVerifySwapCommitReq)
    : outcome BRC20ModuleVerifySwapCommitResp :=
  commits ← decode_commits (VerifyReq.CommitsStr req) "";
  or_error (BRC20ModuleVerifySwapCommitService fuel external GSwap commits.1 (VerifyReq.CommitsStr req) commits.2
    (VerifyReq.LastResults req)) "verify swap commit results failed".
End service.
