(* ===== verification/Query.v ===== *)
(** * service/brc20/brc20_api.go, brc20_swap_api.go: the queries

    The queries read the published index; none changes it.  Lists are answered a page at
    a time: [start] and [size] are ints the controllers have checked not to be negative.
    A map is listed in an order of Go's choice and then sorted. *)
From S2P Require Import Prelude GoStd Decimal Script Utils Json Model History Swap Indexer CondApprove Ledger.

(** ** Addresses

    The addresses [txscript.ExtractPkScriptAddrs] finds in a script, encoded, and whether
    the class of the script is non-standard; [None] is an error. *)
Class BtcScripts := {
  ExtractPkScriptAddrs : bytes → option (bool * list string);
}.
Definition GetAddressFromScript `{BtcScripts} (script : bytes) : outcome string :=
  match ExtractPkScriptAddrs script with
  | None => Error "failed to get address"
  | Some (_, []) => Error "noaddress"
  | Some (true, _) => Error "non-standard"
  | Some (false, address :: _) => Ret address
  end.
(** The address, or else the script in hex. *)
Definition address_text `{BtcScripts} (pkScript : string) : string :=
  match GetAddressFromScript (s2b pkScript) with
  | Ret address => address
  | _ => b2s (hex_encode (s2b pkScript))
  end.
Definition GetReversedStringHex (data : string) : string := b2s (hex_encode (rev (s2b data))).

(** ** Sorting

    [sort.Slice] and [sort.SliceStable]; a comparison may panic.  Elements that compare
    equal keep their order, which Go promises for the second only. *)
Section sorting.
Context {A : Type} (less : A → A → outcome bool).
Fixpoint sort_insert (x : A) (l : list A) : outcome (list A) :=
  match l with
  | [] => Ret [x]
  | y :: l' =>
    before ← less y x;
    if (before : bool) then rest ← sort_insert x l'; Ret (y :: rest) else Ret (x :: y :: l')
  end.
Fixpoint sort_Slice (l : list A) : outcome (list A) :=
  match l with
  | [] => Ret []
  | x :: l => sorted ← sort_Slice l; sort_insert x sorted
  end.
End sorting.

(** [l[start:]], up to [size] of it. *)
Definition page {A} (start size : Z) (l : list A) : outcome (list A) :=
  if (start <? 0) || (Z.of_nat (length l) <? start) then Panic "slice bounds out of range"
  else Ret (take (Z.to_nat size) (drop (Z.to_nat start) l)).

(** ** Answers *)
Module HoldersInfo.
Record BRC20TickerHoldersInfo := mk {
    Address : string;
    OverallBalance : string;
    TransferableBalance : string;
    AvailableBalance : string;
    AvailableBalanceSafe : string;
    AvailableBalanceUnSafe : string;
  }.
End HoldersInfo.

Module StatusInfo.
Record BRC20TickerStatusInfo := mk {
    Ticker : string;
    SelfMint : bool;
    HoldersCount : Z;
    HistoryCount : Z;
    InscriptionNumber : Z;
    InscriptionId : string;
    Max : string;
    Limit : string;
    Minted : string;
    TotalMinted : string;
    ConfirmedMinted : string;
    ConfirmedMinted1h : string;
    ConfirmedMinted24h : string;
    MintTimes : Z;
    Decimal : Z;
    CreatorAddress : string;
    TxIdHex : string;
    DeployHeight : Z;
    DeployBlockTime : Z;
    CompleteHeight : Z;
    CompleteBlockTime : Z;
    InscriptionNumberStart : Z;
    InscriptionNumberEnd : Z;
  }.
End StatusInfo.

Module HistoryInfo.
Record BRC20TickerHistoryInfo := mk {
    Ticker : string;
    Type_ : string;
    Valid : bool;
    TxIdHex : string;
    Idx : Z;
    Vout : Z;
    Offset : Z;
    InscriptionNumber : Z;
    InscriptionId : string;
    AddressFrom : string;
    AddressTo : string;
    Satoshi : Z;
    Fee : Z;
    Amount : string;
    OverallBalance : string;
    TransferableBalance : string;
    AvailableBalance : string;
    Height : Z;
    TxIdx : Z;
    BlockHashHex : string;
    BlockTime : Z;
  }.
End HistoryInfo.

Module SummaryInfo.
Record BRC20TokenSummaryInfo := mk {
    Ticker : string;
    OverallBalance : string;
    TransferableBalance : string;
    AvailableBalance : string;
    AvailableBalanceSafe : string;
    AvailableBalanceUnSafe : string;
    Decimal : Z;
  }.
End SummaryInfo.

Module AddressStatus.
Record BRC20TickerStatusInfoOfAddressResp := mk {
    Ticker : string;
    OverallBalance : string;
    TransferableBalance : string;
    AvailableBalance : string;
    AvailableBalanceSafe : string;
    AvailableBalanceUnSafe : string;
    TransferableCount : Z;
    TransferableInscriptions : list InscriptionBRC20TickInfoResp;
    HistoryCount : Z;
    HistoryInscriptions : list InscriptionBRC20TickInfoResp;
  }.
End AddressStatus.

Module ModuleHistoryInfo.
Record BRC20ModuleHistoryInfo := mk {
    Type_ : string;
    Valid : bool;
    TxIdHex : string;
    Idx : Z;
    Vout : Z;
    Offset : Z;
    InscriptionNumber : Z;
    InscriptionId : string;
    ContentType : string;
    ContentBody : bytes;
    AddressFrom : string;
    AddressTo : string;
    Satoshi : Z;
    Data : ModuleHistoryData;
    Height : Z;
    TxIdx : Z;
    BlockHashHex : string;
    BlockTime : Z;
  }.
End ModuleHistoryInfo.

Module ModuleAddressStatus.
Record BRC20ModuleTickerStatusInfoOfAddressResp := mk {
    Ticker : string;
    ModuleAccountBalance : string;
    SwapAccountBalance : string;
    AvailableBalance : string;
    ApproveableBalance : string;
    CondApproveableBalance : string;
    ReadyToWithdrawAmount : string;
    HistoryCount : Z;
  }.
End ModuleAddressStatus.

(** constant/constant.go *)
Definition BRC20_HISTORY_TYPE_INSCRIBE_MINT : string := "inscribe-mint".
Definition BRC20_HISTORY_TYPE_INSCRIBE_TRANSFER : string := "inscribe-transfer".
Definition BRC20_HISTORY_TYPE_TRANSFER : string := "transfer".
Definition BRC20_HISTORY_TYPE_SEND : string := "send".
Definition BRC20_HISTORY_TYPE_RECEIVE : string := "receive".
Definition BRC20_HISTORY_TYPE_NAMES : list string :=
  ["inscribe-deploy"; BRC20_HISTORY_TYPE_INSCRIBE_MINT; BRC20_HISTORY_TYPE_INSCRIBE_TRANSFER;
   BRC20_HISTORY_TYPE_TRANSFER; BRC20_HISTORY_TYPE_SEND; BRC20_HISTORY_TYPE_RECEIVE;
   "inscribe-module"; "inscribe-withdraw"; "withdraw"; "withdraw-from"; "withdraw-to";
   "inscribe-approve"; "approve"; "inscribe-conditional-approve"; "conditional-approve";
   "approve-from"; "approve-to"; "inscribe-commit"; "commit"].

Section query.
Context `{GoUnicode, MapOrder, BtcScripts}.
(** The published index, [None] until it is ready, and [GlobalBlocksHash]. *)
Variable GSwap : option BRC20ModuleIndexer.
Variable GlobalBlocksHash : list string.

Definition ready {A} (k : BRC20ModuleIndexer → outcome A) : outcome A :=
  match GSwap with None => Error "brc20 not ready" | Some g => k g end.
(** [total], and the page when [start] is inside. *)
Definition from {A} (start : Z) (total : nat) (k : outcome (list A)) : outcome (Z * list A) :=
  if Z.of_nat total <=? start then Ret (Z.of_nat total, [])
  else r ← k; Ret (Z.of_nat total, r).

Definition balance_object (g : BRC20ModuleIndexer) (l : loc) : outcome BRC20TokenBalance :=
  match G.Balances g !! l with Some b => Ret b | None => Panic nil_deref end.
(** The objects of a map, in Go's order. *)
Definition listed (g : BRC20ModuleIndexer) (m : gmap string loc) : outcome (list BRC20TokenBalance) :=
  mapM (λ k, match m !! k with Some l => balance_object g l | None => Panic nil_deref end)
    (map_order (elements (dom m))).
Definition values {A} (m : gmap string A) : list A :=
  omap (λ k, m !! k) (map_order (elements (dom m))).

(** ** Holders *)
Definition by_script (a b : BRC20TokenBalance) : outcome bool :=
  Ret (string_ltb (Bal.PkScript b) (Bal.PkScript a)).
Definition by_overall (a b : BRC20TokenBalance) : outcome bool :=
  x ← OverallBalance a; y ← OverallBalance b; c ← Cmp x y; Ret (0 <? c).
Definition holder_info (balance : BRC20TokenBalance) : outcome HoldersInfo.BRC20TickerHoldersInfo :=
  let address := address_text (Bal.PkScript balance) in
  overall ← OverallBalance balance;
  overall ← Decimal_String overall;
  transferable ← Decimal_String (Bal.TransferableBalance balance);
  available ← Decimal_String (Bal.AvailableBalance balance);
  safe ← Decimal_String (Bal.AvailableBalanceSafe balance);
  unsafe ← Sub (Bal.AvailableBalance balance) (Bal.AvailableBalanceSafe balance);
  unsafe ← Decimal_String unsafe;
  Ret (HoldersInfo.mk address overall transferable available safe unsafe).

Definition GetBRC20TickerHolders (ticker : string) (start size_ : Z)
    : outcome (Z * list HoldersInfo.BRC20TickerHoldersInfo) :=
  ready (λ g,
    match G.TokenUsersBalanceData g !! ticker with
    | None => Ret (0, [])
    | Some tokenUsers =>
      from start (size tokenUsers) (
        holdersBalance ← listed g tokenUsers;
        holdersBalance ← sort_Slice by_script holdersBalance;
        holdersBalance ← sort_Slice by_overall holdersBalance;
        holdersBalance ← page start size_ holdersBalance;
        mapM holder_info holdersBalance)
    end).

(** ** Tickers *)

(** The place of an inscription in the chain. *)
Definition chain_place (i : InscriptionBRC20TickInfo) : Z :=
  u64 (u64 (TickInfo.Height i * 4294967296) + TickInfo.TxIdx i).
Definition by_deploy (a b : BRC20TokenInfo) : outcome bool :=
  Ret (chain_place (TokenInfo.Deploy a) <? chain_place (TokenInfo.Deploy b)).
(** Every ticker, when the size is not positive. *)
Definition GetBRC20List (start size_ : Z) : outcome (Z * list string) :=
  ready (λ g,
    let statusInfo := values (G.InscriptionsTickerInfoMap g) in
    from start (length statusInfo) (
      statusInfo ← sort_Slice by_deploy statusInfo;
      statusInfo ← page start (if 0 <? size_ then size_ else Z.of_nat (length statusInfo)) statusInfo;
      mapM (λ info, deployed ← deref_ptr (TickInfo.Data (TokenInfo.Deploy info)); Ret (InfoResp.BRC20Tick deployed))
        statusInfo)).

Definition GetBRC20TickerInfo (ticker : string) : outcome StatusInfo.BRC20TickerStatusInfo :=
  ready (λ g,
    match G.InscriptionsTickerInfoMap g !! ticker with
    | None => Error "ticker invalid"
    | Some tokenInfo =>
      let deploy := TokenInfo.Deploy tokenInfo in
      deployed ← deref_ptr (TickInfo.Data deploy);
      let tick := InfoResp.BRC20Tick deployed in
      let holders := default ∅ (G.TokenUsersBalanceData g !! ToLower tick) in
      let creatorAddress := address_text (TickInfo.PkScript deploy) in
      max ← Decimal_String (TickInfo.Max deploy);
      limit ← Decimal_String (TickInfo.Limit deploy);
      total ← Decimal_String (TickInfo.TotalMinted deploy);
      confirmed ← Decimal_String (TickInfo.ConfirmedMinted deploy);
      confirmed1h ← Decimal_String (TickInfo.ConfirmedMinted1h deploy);
      confirmed24h ← Decimal_String (TickInfo.ConfirmedMinted24h deploy);
      Ret {| StatusInfo.Ticker := tick;
             StatusInfo.SelfMint := TickInfo.SelfMint deploy;
             StatusInfo.HoldersCount := Z.of_nat (size holders);
             StatusInfo.HistoryCount := Z.of_nat (length (TokenInfo.History tokenInfo));
             StatusInfo.InscriptionNumber := TickInfo.InscriptionNumber deploy;
             StatusInfo.InscriptionId := TickInfo_GetInscriptionId deploy;
             StatusInfo.Max := max; StatusInfo.Limit := limit;
             StatusInfo.Minted := total; StatusInfo.TotalMinted := total;
             StatusInfo.ConfirmedMinted := confirmed;
             StatusInfo.ConfirmedMinted1h := confirmed1h;
             StatusInfo.ConfirmedMinted24h := confirmed24h;
             StatusInfo.MintTimes := TickInfo.MintTimes deploy;
             StatusInfo.Decimal := TickInfo.Decimals deploy;
             StatusInfo.CreatorAddress := creatorAddress;
             StatusInfo.TxIdHex := GetReversedStringHex (TickInfo.TxId deploy);
             StatusInfo.DeployHeight := TickInfo.Height deploy;
             StatusInfo.DeployBlockTime := TickInfo.BlockTime deploy;
             StatusInfo.CompleteHeight := TickInfo.CompleteHeight deploy;
             StatusInfo.CompleteBlockTime := TickInfo.CompleteBlockTime deploy;
             StatusInfo.InscriptionNumberStart := TickInfo.InscriptionNumberStart deploy;
             StatusInfo.InscriptionNumberEnd := TickInfo.InscriptionNumberEnd deploy |}
    end).

(** ** History *)
Definition read_history (g : BRC20ModuleIndexer) (historyIdx : Z) : outcome BRC20History :=
  match G.HistoryData g !! Z.to_nat historyIdx with
  | Some buf => Unmarshal buf
  | None => Panic "index out of range"
  end.
Definition type_name (type_ : Z) : outcome string :=
  match BRC20_HISTORY_TYPE_NAMES !! Z.to_nat type_ with
  | Some name => Ret name
  | None => Panic "index out of range"
  end.
Definition block_hash (height : Z) : string :=
  from_option GetReversedStringHex "" (GlobalBlocksHash !! Z.to_nat height).

Definition history_info (ticker : string) (h : BRC20History)
    : outcome HistoryInfo.BRC20TickerHistoryInfo :=
  let base := Hist.Base h in
  let addressFrom := address_text (HBase.PkScriptFrom base) in
  let addressTo := address_text (HBase.PkScriptTo base) in
  name ← type_name (HBase.Type_ base);
  Ret {| HistoryInfo.Ticker := ticker; HistoryInfo.Type_ := name;
         HistoryInfo.Valid := HBase.Valid base;
         HistoryInfo.TxIdHex := GetReversedStringHex (HBase.TxId base);
         HistoryInfo.Idx := HBase.Idx base; HistoryInfo.Vout := HBase.Vout base;
         HistoryInfo.Offset := HBase.Offset base;
         HistoryInfo.InscriptionNumber := TickInfoResp.InscriptionNumber (Hist.Inscription h);
         HistoryInfo.InscriptionId := TickInfoResp.InscriptionId (Hist.Inscription h);
         HistoryInfo.AddressFrom := addressFrom; HistoryInfo.AddressTo := addressTo;
         HistoryInfo.Satoshi := HBase.Satoshi base; HistoryInfo.Fee := HBase.Fee base;
         HistoryInfo.Amount := Hist.Amount h;
         HistoryInfo.OverallBalance := Hist.OverallBalance h;
         HistoryInfo.TransferableBalance := Hist.TransferableBalance h;
         HistoryInfo.AvailableBalance := Hist.AvailableBalance h;
         HistoryInfo.Height := HBase.Height base; HistoryInfo.TxIdx := HBase.TxIdx base;
         HistoryInfo.BlockHashHex := block_hash (HBase.Height base);
         HistoryInfo.BlockTime := HBase.BlockTime base |}.
(** The ticker the record itself names. *)
Definition own_history_info (h : BRC20History) : outcome HistoryInfo.BRC20TickerHistoryInfo :=
  match TickInfoResp.Data (Hist.Inscription h) with
  | Some data => history_info (InfoResp.BRC20Tick data) h
  | None => Panic nil_deref
  end.

(** The records of a height, looked for from the end on. *)
Fixpoint of_height (firstHistory lastHistory : Z) (newestFirst : list Z) : list Z :=
  match newestFirst with
  | [] => []
  | history :: newestFirst =>
    if history <? firstHistory then []
    else if (0 <? lastHistory) && (lastHistory <=? history) then of_height firstHistory lastHistory newestFirst
    else history :: of_height firstHistory lastHistory newestFirst
  end.
Definition history_of_height (g : BRC20ModuleIndexer) (height : Z) (history : list Z) : list Z :=
  let first h := default 0 (G.FirstHistoryByHeight g !! u32 h) in
  rev (of_height (first height) (first (height + 1)) (rev history)).

Definition GetBRC20AllHistoryByHeight (height start size_ : Z)
    : outcome (Z * list HistoryInfo.BRC20TickerHistoryInfo) :=
  ready (λ g,
    let tokenInfoHistory := history_of_height g height (G.AllHistory g) in
    let total := length tokenInfoHistory in
    from start total (
      if start + size_ <? start then Panic "slice bounds out of range" else
      shown ← page start size_ tokenInfoHistory;
      infos ← mapM (λ historyIdx,
        history ← read_history g historyIdx;
        if negb (height =? HBase.Height (Hist.Base history)) then Ret None
        else info ← own_history_info history; Ret (Some info)) shown;
      Ret (omap id infos))).

(** Newest first. *)
Definition newest {A} (start size_ : Z) (history : list A) : outcome (list A) :=
  if (start <? 0) && (0 <? size_) then Panic "index out of range"
  else Ret (take (Z.to_nat size_) (drop (Z.to_nat start) (rev history))).

Definition GetBRC20AllHistoryByAddress (pkScript : string) (start size_ : Z)
    : outcome (Z * list HistoryInfo.BRC20TickerHistoryInfo) :=
  ready (λ g,
    let tokenInfoHistory := default [] (G.UserAllHistory g !! pkScript) in
    from start (length tokenInfoHistory) (
      shown ← newest start size_ tokenInfoHistory;
      mapM (λ historyIdx, history ← read_history g historyIdx; own_history_info history) shown)).

(** [for idx := total - start - 1; idx >= 0; idx--] *)
Fixpoint ticker_history (g : BRC20ModuleIndexer) (ticker : string) (height size_ count : Z)
    (newestFirst : list Z) : outcome (list HistoryInfo.BRC20TickerHistoryInfo) :=
  match newestFirst with
  | [] => Ret []
  | historyIdx :: newestFirst =>
    history ← read_history g historyIdx;
    if (0 <? height) && negb (height =? HBase.Height (Hist.Base history))
    then ticker_history g ticker height size_ count newestFirst
    else if size_ <=? count then Ret []
    else
      info ← history_info ticker history;
      infos ← ticker_history g ticker height size_ (count + 1) newestFirst;
      Ret (info :: infos)
  end.
Definition GetBRC20TickerHistory (historyType ticker : string) (height start size_ : Z)
    : outcome (Z * list HistoryInfo.BRC20TickerHistoryInfo) :=
  ready (λ g,
    match G.InscriptionsTickerInfoMap g !! ticker with
    | None => Ret (0, [])
    | Some tokenInfo =>
      let of_type t := bool_decide (historyType = t) in
      let tokenInfoHistory :=
        if of_type BRC20_HISTORY_TYPE_INSCRIBE_MINT then TokenInfo.HistoryMint tokenInfo
        else if of_type BRC20_HISTORY_TYPE_INSCRIBE_TRANSFER then TokenInfo.HistoryInscribeTransfer tokenInfo
        else if of_type BRC20_HISTORY_TYPE_TRANSFER then TokenInfo.HistoryTransfer tokenInfo
        else TokenInfo.History tokenInfo in
      let tokenInfoHistory :=
        if 0 <? height then history_of_height g height tokenInfoHistory else tokenInfoHistory in
      from start (length tokenInfoHistory) (
        if start <? 0 then Panic "index out of range" else
        deployed ← deref_ptr (TickInfo.Data (TokenInfo.Deploy tokenInfo));
        ticker_history g (InfoResp.BRC20Tick deployed) height size_ 0
          (drop (Z.to_nat start) (rev tokenInfoHistory)))
    end).

Definition user_tokens {A} (g : BRC20ModuleIndexer) (pkScript : string) (none : outcome A)
    (k : gmap string loc → outcome A) : outcome A :=
  match G.UserTokensBalanceData g !! pkScript with Some userTokens => k userTokens | None => none end.
Definition user_balance {A} (pkScript ticker : string) (none : outcome A)
    (k : BRC20ModuleIndexer → BRC20TokenBalance → outcome A) : outcome A :=
  ready (λ g, user_tokens g pkScript none (λ userTokens,
    match userTokens !! ticker with
    | Some l => tokenInfo ← balance_object g l; k g tokenInfo
    | None => none
    end)).

Definition GetBRC20TickerHistoryByAddress (pkScript historyType ticker : string) (start size_ : Z)
    : outcome (Z * list HistoryInfo.BRC20TickerHistoryInfo) :=
  user_balance pkScript ticker (Ret (0, [])) (λ g tokenInfo,
    let of_type t := bool_decide (historyType = t) in
    let tokenInfoHistory :=
      if of_type BRC20_HISTORY_TYPE_INSCRIBE_MINT then Bal.HistoryMint tokenInfo
      else if of_type BRC20_HISTORY_TYPE_INSCRIBE_TRANSFER then Bal.HistoryInscribeTransfer tokenInfo
      else if of_type BRC20_HISTORY_TYPE_SEND then Bal.HistorySend tokenInfo
      else if of_type BRC20_HISTORY_TYPE_RECEIVE then Bal.HistoryReceive tokenInfo
      else Bal.History tokenInfo in
    from start (length tokenInfoHistory) (
      shown ← newest start size_ tokenInfoHistory;
      mapM (λ historyIdx,
        history ← read_history g historyIdx; history_info (Bal.Ticker tokenInfo) history) shown)).

(** ** Balances of an address *)
Definition by_ticker (a b : BRC20TokenBalance) : outcome bool :=
  Ret (string_ltb (Bal.Ticker b) (Bal.Ticker a)).
Definition by_overall_align (a b : BRC20TokenBalance) : outcome bool :=
  x ← OverallBalance a; y ← OverallBalance b; Ret (0 <? CmpAlign x y).

Definition summary_info (g : BRC20ModuleIndexer) (balance : BRC20TokenBalance)
    : outcome (option SummaryInfo.BRC20TokenSummaryInfo) :=
  match G.InscriptionsTickerInfoMap g !! ToLower (Bal.Ticker balance) with
  | None => Ret None
  | Some tokenInfo =>
    overall ← OverallBalance balance;
    overall ← Decimal_String overall;
    transferable ← Decimal_String (Bal.TransferableBalance balance);
    available ← Decimal_String (Bal.AvailableBalance balance);
    safe ← Decimal_String (Bal.AvailableBalanceSafe balance);
    unsafe ← Sub (Bal.AvailableBalance balance) (Bal.AvailableBalanceSafe balance);
    unsafe ← Decimal_String unsafe;
    Ret (Some (SummaryInfo.mk (Bal.Ticker balance) overall transferable available safe unsafe
      (TickInfo.Decimals (TokenInfo.Deploy tokenInfo))))
  end.
Definition GetBRC20SummaryByAddress (pkScript : string) (start size_ : Z)
    : outcome (Z * list SummaryInfo.BRC20TokenSummaryInfo) :=
  ready (λ g, user_tokens g pkScript (Ret (0, [])) (λ userTokens,
    from start (size userTokens) (
      tokenBalance ← listed g userTokens;
      tokenBalance ← sort_Slice by_ticker tokenBalance;
      tokenBalance ← sort_Slice by_overall_align tokenBalance;
      shown ← page start size_ tokenBalance;
      infos ← mapM (summary_info g) shown;
      Ret (omap id infos)))).

(** The last record up to a height; the records are in the order of the chain. *)
Fixpoint last_history (g : BRC20ModuleIndexer) (height : Z) (lastHistory : option BRC20History)
    (history : list Z) : outcome (option BRC20History) :=
  match history with
  | [] => Ret lastHistory
  | historyIdx :: history =>
    h ← read_history g historyIdx;
    if height <? HBase.Height (Hist.Base h) then Ret lastHistory
    else last_history g height (Some h) history
  end.
Definition summary_at (g : BRC20ModuleIndexer) (height : Z) (balance : BRC20TokenBalance)
    : outcome (option SummaryInfo.BRC20TokenSummaryInfo) :=
  match G.InscriptionsTickerInfoMap g !! ToLower (Bal.Ticker balance) with
  | None => Ret None
  | Some tokenInfo =>
    lastHistory ← last_history g height None (Bal.History balance);
    let info overall transferable available :=
      SummaryInfo.mk (Bal.Ticker balance) overall transferable available "" ""
        (TickInfo.Decimals (TokenInfo.Deploy tokenInfo)) in
    Ret (Some (match lastHistory with
      | Some h => info (Hist.OverallBalance h) (Hist.TransferableBalance h) (Hist.AvailableBalance h)
      | None => info "0" "0" "0"
      end))
  end.
Definition GetBRC20SummaryByAddressAndHeight (pkScript : string) (height start size_ : Z)
    : outcome (Z * list SummaryInfo.BRC20TokenSummaryInfo) :=
  ready (λ g, user_tokens g pkScript (Ret (0, [])) (λ userTokens,
    from start (size userTokens) (
      tokenBalance ← listed g userTokens;
      tokenBalance ← sort_Slice by_ticker tokenBalance;
      shown ← page start size_ tokenBalance;
      infos ← mapM (summary_at g height) shown;
      Ret (omap id infos)))).

(** ** One ticker of an address *)
Definition latest_first (a b : InscriptionBRC20TickInfo) : outcome bool :=
  Ret (chain_place b <? chain_place a).
Definition inscription_info (id : string) (tr : InscriptionBRC20TickInfo) : InscriptionBRC20TickInfoResp :=
  TickInfoResp.mk (TickInfo.Height tr) (TickInfo.Data tr) (TickInfo.InscriptionNumber tr)
    id (TickInfo.Satoshi tr).

(** The last seven valid records that are no transfer inscriptions and no sends; the
    records are read until an eighth is found. *)
Fixpoint history_inscriptions (g : BRC20ModuleIndexer) (count : Z) (newestFirst : list Z)
    : outcome (list InscriptionBRC20TickInfoResp) :=
  match newestFirst with
  | [] => Ret []
  | historyIdx :: newestFirst =>
    history ← read_history g historyIdx;
    let of_type t := t =? HBase.Type_ (Hist.Base history) in
    if negb (HBase.Valid (Hist.Base history)) || of_type BRC20_HISTORY_TYPE_N_INSCRIBE_TRANSFER
         || of_type BRC20_HISTORY_TYPE_N_SEND
    then history_inscriptions g count newestFirst
    else if 7 <=? count then Ret []
    else rest ← history_inscriptions g (count + 1) newestFirst; Ret (Hist.Inscription history :: rest)
  end.

Definition GetBRC20TickerInfoByAddress (pkScript ticker : string)
    : outcome AddressStatus.BRC20TickerStatusInfoOfAddressResp :=
  user_balance pkScript ticker
    (Ret (AddressStatus.mk ticker "0" "0" "0" "0" "0" 0 [] 0 []))
    (λ g tokenInfo,
      validTransfer ← sort_Slice latest_first (values (Bal.ValidTransferMap tokenInfo));
      let validTransferResp := map (λ tr, inscription_info (TickInfo_GetInscriptionId tr) tr) (take 8 validTransfer) in
      historyInscriptions ← history_inscriptions g 0 (rev (Bal.History tokenInfo));
      overall ← OverallBalance tokenInfo;
      overall ← Decimal_String overall;
      transferable ← Decimal_String (Bal.TransferableBalance tokenInfo);
      available ← Decimal_String (Bal.AvailableBalance tokenInfo);
      safe ← Decimal_String (Bal.AvailableBalanceSafe tokenInfo);
      unsafe ← Sub (Bal.AvailableBalance tokenInfo) (Bal.AvailableBalanceSafe tokenInfo);
      unsafe ← Decimal_String unsafe;
      Ret (AddressStatus.mk (Bal.Ticker tokenInfo) overall transferable available safe unsafe
        (Z.of_nat (size (Bal.ValidTransferMap tokenInfo))) validTransferResp
        (Z.of_nat (length (Bal.History tokenInfo))) historyInscriptions)).

Definition GetBRC20TickerTransferableInscriptionsByAddress (pkScript ticker : string)
    (start size_ : Z) (isInvalid : bool) : outcome (Z * list InscriptionBRC20TickInfoResp) :=
  user_balance pkScript ticker (Ret (0, [])) (λ g tokenInfo,
    let transferInscriptions := if isInvalid then [] else values (Bal.ValidTransferMap tokenInfo) in
    transferInscriptions ← sort_Slice latest_first transferInscriptions;
    from start (length transferInscriptions) (
      shown ← page start size_ transferInscriptions;
      Ret (map (λ tr, inscription_info (GetReversedStringHex (TickInfo.TxId tr) +:+ "i" +:+ int_string (TickInfo.Idx tr)) tr) shown))).

(** ** Modules *)
Fixpoint module_of_height (startHeight endHeight : Z) (newestFirst : list BRC20ModuleHistory)
    : list BRC20ModuleHistory :=
  match newestFirst with
  | [] => []
  | history :: newestFirst =>
    let height := HBase.Height (ModHist.Base history) in
    if (0 <? endHeight) && (endHeight <=? height) then module_of_height startHeight endHeight newestFirst
    else if height <? startHeight then []
    else history :: module_of_height startHeight endHeight newestFirst
  end.
Definition module_history_info (h : BRC20ModuleHistory)
    : outcome ModuleHistoryInfo.BRC20ModuleHistoryInfo :=
  let base := ModHist.Base h in
  let addressFrom := address_text (HBase.PkScriptFrom base) in
  let addressTo := address_text (HBase.PkScriptTo base) in
  name ← type_name (HBase.Type_ base);
  Ret {| ModuleHistoryInfo.Type_ := name; ModuleHistoryInfo.Valid := HBase.Valid base;
         ModuleHistoryInfo.TxIdHex := GetReversedStringHex (HBase.TxId base);
         ModuleHistoryInfo.Idx := HBase.Idx base; ModuleHistoryInfo.Vout := HBase.Vout base;
         ModuleHistoryInfo.Offset := HBase.Offset base;
         ModuleHistoryInfo.InscriptionNumber := SwapInfoResp.InscriptionNumber (ModHist.Inscription h);
         ModuleHistoryInfo.InscriptionId := SwapInfoResp.InscriptionId (ModHist.Inscription h);
         ModuleHistoryInfo.ContentType := "";
         ModuleHistoryInfo.ContentBody := SwapInfoResp.ContentBody (ModHist.Inscription h);
         ModuleHistoryInfo.AddressFrom := addressFrom; ModuleHistoryInfo.AddressTo := addressTo;
         ModuleHistoryInfo.Satoshi := HBase.Satoshi base;
         ModuleHistoryInfo.Data := ModHist.Data h;
         ModuleHistoryInfo.Height := HBase.Height base; ModuleHistoryInfo.TxIdx := HBase.TxIdx base;
         ModuleHistoryInfo.BlockHashHex := block_hash (HBase.Height base);
         ModuleHistoryInfo.BlockTime := HBase.BlockTime base |}.
(** Oldest first; the type of the history asked for makes no difference. *)
Definition GetBRC20ModuleHistory (historyType modul : string) (startHeight endHeight start size_ : Z)
    : outcome (Z * list ModuleHistoryInfo.BRC20ModuleHistoryInfo) :=
  ready (λ g,
    match G.ModulesInfoMap g !! modul with
    | None => Ret (0, [])
    | Some moduleInfo =>
      let moduleInfoHistory := Mod.History moduleInfo in
      let moduleInfoHistory :=
        if 0 <? startHeight then rev (module_of_height startHeight endHeight (rev moduleInfoHistory))
        else moduleInfoHistory in
      from start (length moduleInfoHistory) (
        shown ← page start size_ moduleInfoHistory;
        mapM module_history_info shown)
    end).

Definition GetBRC20ModuleTickerInfoByAddress (pkScript modul ticker : string)
    : outcome ModuleAddressStatus.BRC20ModuleTickerStatusInfoOfAddressResp :=
  let none := Ret (ModuleAddressStatus.mk ticker "0" "0" "0" "0" "0" "0" 0) in
  ready (λ g,
    match G.ModulesInfoMap g !! modul with
    | None => none
    | Some moduleInfo =>
      match Mod.TokenUsersBalanceDataMap moduleInfo !! ticker ≫= lookup pkScript with
      | None => none
      | Some l =>
        tokenInfo ← match Mod.Balances moduleInfo !! l with Some b => Ret b | None => Panic nil_deref end;
        account ← ModuleBalance tokenInfo;
        account ← Decimal_String account;
        swap ← Decimal_String (MBal.SwapAccountBalance tokenInfo);
        available ← Decimal_String (MBal.AvailableBalance tokenInfo);
        cond ← Decimal_String (MBal.CondApproveableBalance tokenInfo);
        approveable ← Decimal_String (MBal.ApproveableBalance tokenInfo);
        ready_ ← Decimal_String (MBal.ReadyToWithdrawAmount tokenInfo);
        Ret (ModuleAddressStatus.mk (MBal.Tick tokenInfo) account swap available approveable cond ready_ 0)
      end
    end).
End query.
