(* ===== verification/PairNames.v ===== *)
(** * Names of pools

    [GetLowerInnerPairNameByToken] gives one key to the two orders of a pair of
    tickers, and different keys to different pairs. *)
From S2P Require Import Prelude GoStd Decimal Script Utils Json Model History Swap Indexer CondApprove Ledger Modules Commit Samples.

(** ** The order on strings *)
Lemma bytes_ltb_asym l k : bytes_ltb l k = true → bytes_ltb k l = false.
Proof.
  revert k. induction l as [|a l IH]; intros [|b k]; simpl; try done.
  destruct (Z.ltb_spec (Z_of_byte a) (Z_of_byte b)); [|destruct (Z.ltb_spec (Z_of_byte b) (Z_of_byte a))];
    intros Hl; [|done|].
  - destruct (Z.ltb_spec (Z_of_byte b) (Z_of_byte a)); [lia|done].
  - by apply IH.
Qed.
Lemma bytes_ltb_total l k : bytes_ltb l k = false → bytes_ltb k l = false → l = k.
Proof.
  revert k. induction l as [|a l IH]; intros [|b k]; simpl; try done.
  destruct (Z.ltb_spec (Z_of_byte a) (Z_of_byte b)); [done|].
  destruct (Z.ltb_spec (Z_of_byte b) (Z_of_byte a)); [done|].
  intros H1 H2. f_equal; [apply Z_of_byte_inj; lia|auto].
Qed.

Lemma string_app_inv_l (a b c d : string) :
  len a = len c → a +:+ b = c +:+ d → a = c ∧ b = d.
Proof.
  intros Hl E. assert (s2b a ++ s2b b = s2b c ++ s2b d) as E' by (by rewrite <-!s2b_app, E).
  apply app_inj_1 in E' as [Ha Hb]; [by split; apply s2b_inj|].
  rewrite <-(b2s_s2b a), <-(b2s_s2b c), !len_b2s in Hl. unfold blen in Hl. lia.
Qed.

Section names.
Context `{GoUnicode}.

(** Tickers whose length fits the length byte. *)
Definition short (t : string) : Prop := len (ToLower t) < 256.

(** The key of two tickers in order. *)
Definition pair_key (a b : string) : string := b2s [byte_of_Z (len a mod 256)] +:+ a +:+ b.

Lemma pair_key_inj a b c d :
  len a < 256 → len c < 256 → pair_key a b = pair_key c d → a = c ∧ b = d.
Proof.
  intros Ha Hc E. unfold pair_key in E. apply string_app_inv_l in E as [E1 E]; [|by rewrite !len_b2s].
  apply string_app_inv_l; [|done]. apply (f_equal s2b) in E1. rewrite !s2b_b2s in E1.
  injection E1 as E1. apply (f_equal Z_of_byte) in E1.
  rewrite !Z_of_byte_of_Z, !Z.mod_mod, !Z.mod_small in E1 by (pose proof (len_nonneg a);
    pose proof (len_nonneg c); lia). done.
Qed.

Lemma pair_name_cases a b :
  GetLowerInnerPairNameByToken a b = pair_key (ToLower a) (ToLower b) ∨
  GetLowerInnerPairNameByToken a b = pair_key (ToLower b) (ToLower a).
Proof. unfold GetLowerInnerPairNameByToken. destruct (string_ltb _ _); auto. Qed.

Lemma pair_name_sym a b : GetLowerInnerPairNameByToken a b = GetLowerInnerPairNameByToken b a.
Proof.
  unfold GetLowerInnerPairNameByToken. unfold string_ltb.
  destruct (bytes_ltb (s2b (ToLower b)) (s2b (ToLower a))) eqn:E1;
    destruct (bytes_ltb (s2b (ToLower a)) (s2b (ToLower b))) eqn:E2; [|done|done|].
  - apply bytes_ltb_asym in E1. congruence.
  - assert (ToLower b = ToLower a) as -> by by apply s2b_inj, bytes_ltb_total. done.
Qed.

Lemma pair_name_inj a b c d :
  short a → short b → short c → short d →
  GetLowerInnerPairNameByToken a b = GetLowerInnerPairNameByToken c d →
  (ToLower a = ToLower c ∧ ToLower b = ToLower d) ∨ (ToLower a = ToLower d ∧ ToLower b = ToLower c).
Proof.
  intros Ha Hb Hc Hd E.
  destruct (pair_name_cases a b) as [E1|E1], (pair_name_cases c d) as [E2|E2]; rewrite E1, E2 in E;
    apply pair_key_inj in E as [??]; auto.
Qed.

(** C38: Two pairs of tickers shorter than 256 bytes have the same pool name exactly when
    they are the same tickers in either order, upper and lower case counting as equal. *)
Theorem pair_name_iff a b c d :
  short a → short b → short c → short d →
  GetLowerInnerPairNameByToken a b = GetLowerInnerPairNameByToken c d ↔
  (ToLower a = ToLower c ∧ ToLower b = ToLower d) ∨ (ToLower a = ToLower d ∧ ToLower b = ToLower c).
Proof.
  intros Ha Hb Hc Hd. split; [by apply pair_name_inj|]. intros [[E1 E2]|[E1 E2]].
  - unfold GetLowerInnerPairNameByToken. by rewrite E1, E2.
  - rewrite pair_name_sym. unfold GetLowerInnerPairNameByToken. by rewrite E1, E2.
Qed.
End names.
Lemma pair_name_iff_witness :
  let H := sample_unicode in
  GetLowerInnerPairNameByToken "ORDI" "sats" = GetLowerInnerPairNameByToken "Sats" "ordi" ∧
  GetLowerInnerPairNameByToken "ordi" "sats" ≠ GetLowerInnerPairNameByToken "ordi" "rats".
Proof.
  intros H. split.
  - apply pair_name_iff; [by vm_compute..|right; by vm_compute].
  - intros [[_ E]|[E _]]%pair_name_iff; [by vm_compute in E..|by vm_compute| | |]; by vm_compute.
Defined.
