(* ===== verification/SwapProof.v ===== *)
(** * What a swap pays

    The constant-product pricing of ProcessCommitFunctionSwap on integers: a swap that
    the reserve can pay never lowers the product of the reserves, and what it takes in
    for an exact output is at most two units above the exact price. *)
From S2P Require Import Prelude GoStd Decimal Script Utils Json Model History Swap Indexer CondApprove Ledger Modules Commit.

(** Read off the value of every step of a computation that returned. *)
Ltac outcome_inv :=
  repeat match goal with
  | E : @mbind outcome _ _ _ _ _ = Ret _ |- _ => apply outcome_bind_inv in E as (? & ? & E)
  | E : (match ?m with Ret _ => _ | Error _ => Error _ | Panic _ => Panic _ end) = Ret _ |- _ =>
    apply (outcome_bind_inv m) in E as (? & ? & E)
  | E : Ret _ = Ret _ |- _ => injection E as E; subst
  | E : Error _ = Ret _ |- _ => discriminate E
  | E : Panic _ = Ret _ |- _ => discriminate E
  | E : Add _ _ = Ret _ |- _ => apply Add_inv in E
  | E : Sub _ _ = Ret _ |- _ => apply Sub_inv in E
  | E : Mul _ _ = Ret _ |- _ => apply Mul_inv in E
  | E : Cmp _ _ = Ret _ |- _ => apply Cmp_inv in E; subst
  end.

Lemma dval_milli v : dval (milli v) = v.
Proof. done. Qed.
Lemma dval_new v p : dval (Some (NewDecimal v p)) = v.
Proof. done. Qed.
Lemma pos_sign d : (0 <? Sign d) = (0 <? dval d).
Proof. rewrite Sign_dval. destruct (dval d); done. Qed.

(** ** Exact input *)
Lemma get_amount_out_ok rin rout tin fee out :
  0 ≤ dval rin → 0 ≤ dval rout → 0 ≤ dval tin → 0 ≤ dval fee ≤ 1000 →
  get_amount_out rin rout tin fee = Ret out →
  0 ≤ dval out ≤ dval rout ∧
  dval rin * dval rout ≤ (dval rin + dval tin) * (dval rout - dval out).
Proof.
  intros Hin Hout Hamt Hfee E. unfold get_amount_out in E. rewrite pos_sign in E.
  destruct (Z.ltb_spec 0 (dval fee)); outcome_inv; rewrite ?dval_milli in *.
  - apply Div_inv in E as [[-> _]|[Hd Hq]]; [simpl; nia|].
    repeat match goal with E : dval _ = _ |- _ => rewrite E in *; clear E end.
    set (w := dval tin * (1000 - dval fee)) in *. assert (0 ≤ w ≤ dval tin * 1000) by (unfold w; nia).
    assert (0 < dval rin * 1000 + w) by nia.
    assert (0 ≤ dval out) by nia. assert (dval out ≤ dval rout) by nia. nia.
  - apply Div_inv in E as [[-> _]|[Hd Hq]]; [simpl; nia|].
    repeat match goal with E : dval _ = _ |- _ => rewrite E in *; clear E end.
    assert (0 ≤ dval out) by nia. assert (dval out ≤ dval rout) by nia. nia.
Qed.

(** ** Exact output *)
Lemma precision_of_inv d p : precision_of d = Ret p → d ≠ None.
Proof. by destruct d. Qed.

(** The price of [out] units is the exact price rounded down plus one unit. *)
Lemma get_amount_in_ok rin rout tin tout fee ain :
  0 ≤ dval rin → 0 ≤ dval tout < dval rout → 0 ≤ dval fee < 1000 →
  get_amount_in rin rout tin tout fee = Ret ain →
  let den := (dval rout - dval tout) * (1000 - dval fee) in
  0 < dval ain ∧ (dval ain - 1) * den ≤ dval rin * dval tout * 1000 < dval ain * den.
Proof.
  intros Hin Hout Hfee E den. unfold get_amount_in in E. rewrite pos_sign in E.
  outcome_inv. rewrite dval_new in E. rename x into q.
  assert (0 < den) by (unfold den; nia).
  enough (dval q * den ≤ dval rin * dval tout * 1000 < (dval q + 1) * den ∧ 0 ≤ dval q)
    by (rewrite E; lia). clear E.
  destruct (Z.ltb_spec 0 (dval fee)).
  - apply outcome_bind_inv in H as (x & Ex & H). apply outcome_bind_inv in H as (num & En & H).
    apply outcome_bind_inv in H as (rest & Er & H). apply outcome_bind_inv in H as (rate & Ea & H).
    apply outcome_bind_inv in H as (d & Ed & H).
    apply Div_inv in H as [[-> [->| ->]]|[Hd Hq]].
    + outcome_inv. simpl in *. nia.
    + apply Mul_nil in Ed as [->| ->]; [|by apply Sub_nil in Ea as [? _]].
      apply Sub_nil in Er as [-> ->]. simpl in Hout. lia.
    + outcome_inv. rewrite ?dval_milli in *.
      repeat match goal with E : dval _ = _ |- _ => rewrite E in *; clear E end.
      fold den in Hd, Hq. assert (0 ≤ dval q) by nia. nia.
  - assert (dval fee = 0) as Hf by lia.
    apply outcome_bind_inv in H as (num & En & H). apply outcome_bind_inv in H as (d & Ed & H).
    apply Div_inv in H as [[-> [->| ->]]|[Hd Hq]].
    + outcome_inv. simpl in *. nia.
    + apply Sub_nil in Ed as [-> ->]. simpl in Hout. lia.
    + outcome_inv. unfold den. rewrite Hf, En, Ed in *. assert (0 ≤ dval q) by nia. nia.
Qed.

(** An exact output never lowers the product, even when it empties the reserve. *)
Lemma get_amount_in_product rin rout tin tout fee ain :
  0 ≤ dval rin → 0 ≤ dval tout ≤ dval rout → 0 ≤ dval fee < 1000 →
  get_amount_in rin rout tin tout fee = Ret ain →
  0 < dval ain ∧
  dval rin * dval rout ≤ (dval rin + dval ain) * (dval rout - dval tout).
Proof.
  intros Hin Hout Hfee E. destruct (decide (dval tout < dval rout)).
  { apply get_amount_in_ok in E; [nia|lia..]. }
  unfold get_amount_in in E. outcome_inv. rewrite dval_new in E. rename x into q. rewrite E.
  enough (dval q = 0 ∧ (dval rin = 0 ∨ dval rout = 0)) by nia.
  assert (∀ num d, Div num d = Ret q → dval d = 0 → q = None ∧ (num = None ∨ d = None)) as Hdiv.
  { intros num d Hq Hd. apply Div_inv in Hq as [?|[? _]]; [done|lia]. }
  rewrite pos_sign in H. destruct (Z.ltb_spec 0 (dval fee)).
  - apply outcome_bind_inv in H as (x & Ex & H). apply outcome_bind_inv in H as (num & En & H).
    apply outcome_bind_inv in H as (rest & Er & H). apply outcome_bind_inv in H as (rate & Ea & H).
    apply outcome_bind_inv in H as (d & Ed & H).
    destruct (Hdiv _ _ H) as [-> [->| ->]].
    { apply Mul_inv in Ed. apply Sub_inv in Er. rewrite Ed. assert (dval rest = 0) as -> by lia. lia. }
    + apply Mul_nil in En as [->| ->]; [by auto|]. apply Mul_nil in Ex as [->|]; [|done].
      simpl in *. lia.
    + apply Mul_nil in Ed as [->| ->]; [|by apply Sub_nil in Ea as [? _]].
      apply Sub_nil in Er as [-> ->]. auto.
  - apply outcome_bind_inv in H as (num & En & H). apply outcome_bind_inv in H as (d & Ed & H).
    destruct (Hdiv _ _ H) as [-> [->| ->]].
    { apply Sub_inv in Ed. lia. }
    + apply Mul_nil in En as [->| ->]; [by auto|]. simpl in *. lia.
    + apply Sub_nil in Ed as [-> ->]. auto.
Qed.

(** C22: For an exact output below the reserve the charged input is the exact
    constant-product price (fee included) rounded down, plus one unit: never below the
    exact price, and at most one unit above it. *)
Theorem get_amount_in_tight rin rout tin tout fee ain :
  0 ≤ dval rin → 0 ≤ dval tout < dval rout → 0 ≤ dval fee < 1000 →
  get_amount_in rin rout tin tout fee = Ret ain →
  let num := dval rin * dval tout * 1000 in
  let den := (dval rout - dval tout) * (1000 - dval fee) in
  dval ain = num / den + 1 ∧ num < dval ain * den ≤ num + den.
Proof.
  intros Hin Hout Hfee E num den.
  destruct (get_amount_in_ok _ _ _ _ _ _ Hin Hout Hfee E) as (_ & H1 & H2).
  fold num den in H1, H2. split; [|lia]. assert (0 < den) by (unfold den; nia).
  enough (num / den = dval ain - 1) by lia. symmetry. apply Z.div_unique with (num - (dval ain - 1) * den).
  - left. lia.
  - lia.
Qed.

Lemma get_amount_in_tight_witness :
  ∃ ain, get_amount_in (Some (mkDecimal 18 1000)) (Some (mkDecimal 18 500)) (Some (mkDecimal 18 0))
    (Some (mkDecimal 18 100)) (milli 3) = Ret ain ∧ dval ain = 251.
Proof.
  destruct (get_amount_in (Some (mkDecimal 18 1000)) (Some (mkDecimal 18 500)) (Some (mkDecimal 18 0))
    (Some (mkDecimal 18 100)) (milli 3)) as [ain|e|w] eqn:E; [|by vm_compute in E..].
  exists ain. split; [done|].
  refine (eq_trans (proj1 (get_amount_in_tight _ _ _ _ _ _ _ _ _ E)) _);
    [simpl; lia|simpl; lia|by vm_compute|by vm_compute].
Defined.

(** ** Both directions *)
Lemma swap_amounts_product dir rin rout tin tout slip fee ain aout :
  0 ≤ dval rin → 0 ≤ dval rout → 0 ≤ dval tin → 0 ≤ dval tout → 0 ≤ dval fee < 1000 →
  dval aout ≤ dval rout →
  swap_amounts dir rin rout tin tout slip fee = Ret (ain, aout) →
  0 ≤ dval ain ∧ 0 ≤ dval aout ∧
  dval rin * dval rout ≤ (dval rin + dval ain) * (dval rout - dval aout).
Proof.
  intros Hin Hout Htin Htout Hfee Hle E. unfold swap_amounts in E.
  destruct dir as [[]|]; [..|injection E as <- <-; simpl; nia].
  - outcome_inv. destruct (_ <? 0); [done|]. injection E as <- <-.
    apply (get_amount_out_ok _ _ _ fee) in H as [??]; [|lia..]. lia.
  - outcome_inv. destruct (_ <? 0); [done|]. injection E as <- <-.
    apply get_amount_in_product in H; [|lia..]. lia.
Qed.
