(* ===== verification/Relate.v ===== *)
(** * Two runs side by side

    [related p q s1 s2 Q]: run from [s1] and [s2], the two programs end in the same
    way, with the same error, and with results and states related by [Q] when they
    return. *)
From S2P Require Import Prelude.

(** The same ending, with related values. *)
Definition same_end {A B} (R : A → B → Prop) (o1 : outcome A) (o2 : outcome B) : Prop :=
  match o1, o2 with
  | Ret a, Ret b => R a b
  | Error e, Error e' => e = e'
  | Panic _, Panic _ => True
  | _, _ => False
  end.
Lemma same_end_refl {A} (R : A → A → Prop) o : (∀ a, o = Ret a → R a a) → same_end R o o.
Proof. destruct o; simpl; auto. Qed.
Lemma same_end_eq {A} (o1 o2 : outcome A) : o1 = o2 → same_end eq o1 o2.
Proof. intros ->. by apply same_end_refl. Qed.
Lemma same_end_bind {A B A' B'} (R : A → B → Prop) (R' : A' → B' → Prop) o1 o2 k1 k2 :
  same_end R o1 o2 → (∀ a b, R a b → same_end R' (k1 a) (k2 b)) → same_end R' (o1 ≫= k1) (o2 ≫= k2).
Proof. destruct o1, o2; simpl; try done. auto. Qed.

Definition related {S T A B} (p : GoM S A) (q : GoM T B) (s : S) (t : T)
    (Q : A → B → S → T → Prop) : Prop :=
  match p s, q t with
  | (Ret a, s'), (Ret b, t') => Q a b s' t'
  | (Error e, _), (Error e', _) => e = e'
  | (Panic _, _), (Panic _, _) => True
  | _, _ => False
  end.

Section related.
Context {S T : Type}.
Implicit Types (s : S) (t : T).

Lemma related_ret {A B} (a : A) (b : B) s t (Q : A → B → S → T → Prop) :
  Q a b s t → related (mret a) (mret b) s t Q.
Proof. done. Qed.
Lemma related_lift {A B} (o1 : outcome A) (o2 : outcome B) s t (Q : A → B → S → T → Prop) :
  same_end (λ a b, Q a b s t) o1 o2 → related (lift o1) (lift o2) s t Q.
Proof. unfold related, lift, same_end. by destruct o1, o2. Qed.
Lemma related_get s t (Q : S → T → S → T → Prop) : Q s t s t → related get get s t Q.
Proof. done. Qed.
Lemma related_modify f h s t (Q : unit → unit → S → T → Prop) :
  Q tt tt (f s) (h t) → related (modify f) (modify h) s t Q.
Proof. done. Qed.
Lemma related_throw {A B} e s t (Q : A → B → S → T → Prop) : related (throw e) (throw e) s t Q.
Proof. done. Qed.
Lemma related_gopanic {A B} w w' s t (Q : A → B → S → T → Prop) :
  related (gopanic w) (gopanic w') s t Q.
Proof. done. Qed.
Lemma related_bind {A B A' B'} (p : GoM S A) (q : GoM T B) (k : A → GoM S A') (h : B → GoM T B') s t Q :
  related p q s t (λ a b s' t', related (k a) (h b) s' t' Q) → related (p ≫= k) (q ≫= h) s t Q.
Proof.
  unfold related, mbind, GoM_bind. destruct (p s) as [[a|e|w] s'], (q t) as [[b|e'|w'] t']; done.
Qed.
Lemma related_mono {A B} (p : GoM S A) (q : GoM T B) s t (Q Q' : A → B → S → T → Prop) :
  related p q s t Q → (∀ a b s' t', Q a b s' t' → Q' a b s' t') → related p q s t Q'.
Proof.
  unfold related. destruct (p s) as [[a|e|w] s'], (q t) as [[b|e'|w'] t']; auto.
Qed.
Lemma related_catch {A B} (p : GoM S A) (q : GoM T B) s t (Q : A + string → B + string → S → T → Prop) :
  related p q s t (λ a b, Q (inl a) (inl b)) → (∀ e s' t', Q (inr e) (inr e) s' t') →
  related (catch p) (catch q) s t Q.
Proof.
  unfold related, catch. destruct (p s) as [[a|e|w] s'], (q t) as [[b|e'|w'] t']; try done.
  by intros -> HQ.
Qed.
Lemma related_run {A B} (p : GoM S A) (q : GoM T B) s t (R : A → B → Prop) :
  related p q s t (λ a b _ _, R a b) → same_end R (run_outcome p s) (run_outcome q t).
Proof.
  unfold related, same_end, run_outcome. by destruct (p s) as [[a|e|w] s'], (q t) as [[b|e'|w'] t'].
Qed.
End related.
