(* ===== verification/ModuleAcc.v ===== *)
(** * Accounts of a module

    What a module holds of every ticker (the balances of its users and the reserves
    of its pools) and of every pool's LP tokens, the invariant of its maps, and how
    each primitive of the handlers moves these totals. *)
From S2P Require Import Prelude GoStd Decimal Script Utils Json Model History Swap Indexer CondApprove Ledger Modules Commit PairNames SwapProof.

(** ** One spelling per ticker

    The handlers find the reserve of a token by comparing its text with the tickers
    of the pool, so they agree with the pools only for tickers written one way. *)
Class Spelling `{GoUnicode} := {
    spelled : string → Prop;
    spelled_inj a b : spelled a → spelled b → ToLower a = ToLower b → a = b;
    spelled_short a : spelled a → short a;
  }.

(** ** Totals *)
Section totals.
Context `{Spelling}.
Implicit Types m : BRC20ModuleSwapInfo.

(** Every part of a user's balance of a ticker. *)
Definition holding_of (b : BRC20ModuleTokenBalance) : Z :=
  dval (MBal.SwapAccountBalance b) + dval (MBal.AvailableBalance b) +
  dval (MBal.ApproveableBalance b) + dval (MBal.CondApproveableBalance b).
Definition holding_at (t : string) (m : BRC20ModuleSwapInfo) (tokens : gmap string loc) : Z :=
  match tokens !! t ≫= λ l, Mod.Balances m !! l with Some b => holding_of b | None => 0 end.
Definition user_total m t : Z := msum (λ _, holding_at t m) (Mod.UsersTokenBalanceDataMap m).

(** The reserves of a ticker; both may be the same ticker. *)
Definition pool_amount (t : string) (p : BRC20ModulePoolTotalBalance) : Z :=
  (if bool_decide (ToLower (Pool.Tick p).1 = t) then dval (tick_balance false p) else 0) +
  (if bool_decide (ToLower (Pool.Tick p).2 = t) then dval (tick_balance true p) else 0).
Definition pool_total m t : Z := msum (λ _, pool_amount t) (Mod.SwapPoolTotalBalanceDataMap m).

(** All a module holds of a ticker. *)
Definition module_total m t : Z := user_total m t + pool_total m t.

(** LP tokens of a pool: what its users have, and the recorded supply. *)
Definition lp_held m (poolPair : string) : Z :=
  msum (λ _ d, dval d) (default ∅ (Mod.LPTokenUsersBalanceMap m !! poolPair)).
Definition lp_supply m (poolPair : string) : Z :=
  match Mod.SwapPoolTotalBalanceDataMap m !! poolPair with
  | Some pool => dval (Pool.LpBalance pool)
  | None => 0
  end.

(** ** Invariant *)
Definition holder m (t a : string) (l : loc) : Prop :=
  Mod.UsersTokenBalanceDataMap m !! a ≫= lookup t = Some l.

Record mod_inv m : Prop := {
  mi_object t a l : holder m t a l →
    ∃ b, Mod.Balances m !! l = Some b ∧ MBal.PkScript b = a ∧ ToLower (MBal.Tick b) = t;
  mi_index t a l :
    Mod.TokenUsersBalanceDataMap m !! t ≫= lookup a = Some l ↔ holder m t a l;
  mi_pool pair p : Mod.SwapPoolTotalBalanceDataMap m !! pair = Some p →
    pair = GetLowerInnerPairNameByToken (Pool.Tick p).1 (Pool.Tick p).2 ∧
    spelled (Pool.Tick p).1 ∧ spelled (Pool.Tick p).2;
  mi_lp pair : is_Some (Mod.LPTokenUsersBalanceMap m !! pair) →
    is_Some (Mod.SwapPoolTotalBalanceDataMap m !! pair);
  mi_agree pair a : lp_in_pool pair a m = lp_of_user pair a m;
}.

(** Holders and the tickers of pools are never taken back. *)
Definition pool_tick m (pair : string) (tk : string * string) : Prop :=
  Pool.Tick <$> Mod.SwapPoolTotalBalanceDataMap m !! pair = Some tk.
Record grow m m' : Prop := {
  grow_holder t a l : holder m t a l → holder m' t a l;
  grow_tick pair tk : pool_tick m pair tk → pool_tick m' pair tk;
}.
Lemma grow_refl m : grow m m.
Proof. done. Qed.
Lemma grow_trans m1 m2 m3 : grow m1 m2 → grow m2 m3 → grow m1 m3.
Proof. intros [] []. split; auto. Qed.

(** [v] at [t]. *)
Definition point (t : string) (v : Z) (t' : string) : Z := if bool_decide (t = t') then v else 0.

(** The totals are those of [m0] plus [D] for tickers and [DL] for LP tokens not
    covered by the recorded supply. *)
Record acc m0 (D DL : string → Z) m : Prop := {
  acc_inv : mod_inv m;
  acc_tick t : module_total m t = module_total m0 t + D t;
  acc_lp pair : lp_held m pair - lp_supply m pair = lp_held m0 pair - lp_supply m0 pair + DL pair;
}.
Definition zero (_ : string) : Z := 0.

Lemma acc_refl m : mod_inv m → acc m zero zero m.
Proof. intros Hm. split; [done|unfold zero; lia..]. Qed.
Lemma acc_ext m0 D DL D' DL' m :
  acc m0 D DL m → (∀ t, D t = D' t) → (∀ t, DL t = DL' t) → acc m0 D' DL' m.
Proof. intros [] HD HL. split; [done|intros; rewrite <-?HD, <-?HL; auto..]. Qed.

(** ** Writing a balance object *)
Definition set_balance (l : loc) (b : BRC20ModuleTokenBalance) m : BRC20ModuleSwapInfo :=
  m <| Mod.Balances ::= <[l := b]> |>.

Lemma set_balance_grow l b m : grow m (set_balance l b m).
Proof. done. Qed.

Lemma set_balance_inv l b b' m :
  mod_inv m → Mod.Balances m !! l = Some b →
  MBal.PkScript b' = MBal.PkScript b → MBal.Tick b' = MBal.Tick b → mod_inv (set_balance l b' m).
Proof.
  intros Hm Hb Hpk Ht. split; [|by apply Hm..].
  intros t a l' (b0 & Hb0 & Ha & Htt)%(mi_object _ Hm).
  destruct (decide (l = l')) as [<-|].
  - exists b'. unfold set_balance. rsimpl. rewrite lookup_insert_eq. naive_solver congruence.
  - exists b0. unfold set_balance. rsimpl. by rewrite lookup_insert_ne.
Qed.

Lemma holding_at_set_other l b' m t tokens :
  tokens !! t ≠ Some l → holding_at t (set_balance l b' m) tokens = holding_at t m tokens.
Proof.
  intros Hne. unfold holding_at, set_balance. rsimpl. destruct (tokens !! t) as [l'|]; [|done].
  simpl. by rewrite lookup_insert_ne by congruence.
Qed.

Lemma user_total_set l b b' m t a t' :
  mod_inv m → holder m t a l → Mod.Balances m !! l = Some b →
  user_total (set_balance l b' m) t' =
    user_total m t' + point t (holding_of b' - holding_of b) t'.
Proof.
  intros Hm Hl Hb. destruct (mi_object _ Hm _ _ _ Hl) as (b0 & Hb0 & Ha & Ht).
  assert (b0 = b) as -> by congruence. clear Hb0.
  assert (∀ a' tokens, Mod.UsersTokenBalanceDataMap m !! a' = Some tokens →
    tokens !! t' = Some l → a' = a ∧ t' = t) as Hother.
  { intros a' tokens Hu Hl'. assert (holder m t' a' l) as Hh.
    { unfold holder. by rewrite Hu. }
    apply (mi_object _ Hm) in Hh as (b1 & Hb1 & <- & <-). by assert (b1 = b) as -> by congruence. }
  unfold user_total, point. change (Mod.UsersTokenBalanceDataMap (set_balance l b' m))
    with (Mod.UsersTokenBalanceDataMap m).
  case_bool_decide as Htt.
  - subst t'. unfold holder in Hl. apply bind_Some in Hl as (tokens & Hu & Hl).
    rewrite (msum_point (λ _, holding_at t m) _ _ a tokens Hu).
    + f_equal. unfold holding_at, set_balance. rsimpl. rewrite Hl. simpl.
      by rewrite lookup_insert_eq, Hb.
    + intros a' tokens' Hu' Hne. apply holding_at_set_other.
      intros Hl'. by destruct (Hother _ _ Hu' Hl').
  - rewrite Z.add_0_r. apply msum_ext. intros a' tokens' Hu'. apply holding_at_set_other.
    intros Hl'. destruct (Hother _ _ Hu' Hl'). congruence.
Qed.

(** A write through a pointer to the balance of [a] for [t] that adds [v]. *)
Lemma acc_set_balance m0 D DL m l b b' t a v :
  acc m0 D DL m → holder m t a l → Mod.Balances m !! l = Some b →
  MBal.PkScript b' = MBal.PkScript b → MBal.Tick b' = MBal.Tick b →
  holding_of b' = holding_of b + v →
  acc m0 (λ t', D t' + point t v t') DL (set_balance l b' m).
Proof.
  intros [Hm Ht Hlp] Hl Hb Hpk Htk Hv. split; [by eapply set_balance_inv| |done].
  intros t'. unfold module_total. rewrite (user_total_set l b b' m t a t') by done.
  change (pool_total (set_balance l b' m) t') with (pool_total m t').
  specialize (Ht t'). unfold module_total in Ht. rewrite Hv.
  replace (holding_of b + v - holding_of b) with v by lia. lia.
Qed.

(** ** The balance of a user *)
Lemma new_holder m t a l b :
  Mod.Balances m !! l = None → ¬ (∃ l', holder m t a l') → mod_inv m →
  MBal.PkScript b = a → ToLower (MBal.Tick b) = t → holding_of b = 0 →
  let tokens := default ∅ (Mod.UsersTokenBalanceDataMap m !! a) in
  ∀ m', Mod.Balances m' = <[l := b]> (Mod.Balances m) →
    Mod.UsersTokenBalanceDataMap m' = <[a := <[t := l]> tokens]> (Mod.UsersTokenBalanceDataMap m) →
    (∀ t', user_total m' t' = user_total m t') ∧
    (∀ t' a' l', holder m' t' a' l' → (t' = t ∧ a' = a ∧ l' = l) ∨ holder m t' a' l') ∧
    (∀ t' a' l', holder m t' a' l' → holder m' t' a' l') ∧ holder m' t a l.
Proof.
  intros Hl Hn Hm Ha Ht Hz tokens m' Hb' Hu'.
  assert (∀ t' a' l', holder m t' a' l' → l' ≠ l) as Hfresh.
  { intros t' a' l' (b0 & Hb0 & _)%(mi_object _ Hm) ->. congruence. }
  assert (∀ t', holding_at t' m' (<[t := l]> tokens) = holding_at t' m tokens) as Hat.
  { intros t'. unfold holding_at. destruct (decide (t = t')) as [<-|].
    - rewrite lookup_insert_eq. simpl. rewrite Hb', lookup_insert_eq, Hz.
      destruct (tokens !! t) as [l'|] eqn:E; [|done]. exfalso. apply Hn. exists l'.
      unfold holder. unfold tokens in E. by destruct (Mod.UsersTokenBalanceDataMap m !! a).
    - rewrite lookup_insert_ne by done. destruct (tokens !! t') as [l'|] eqn:E; [|done].
      simpl. rewrite Hb', lookup_insert_ne; [done|]. apply not_eq_sym, (Hfresh t' a).
      unfold holder. unfold tokens in E. by destruct (Mod.UsersTokenBalanceDataMap m !! a). }
  assert (∀ a' tokens', Mod.UsersTokenBalanceDataMap m !! a' = Some tokens' →
    ∀ t', holding_at t' m' tokens' = holding_at t' m tokens') as Hat'.
  { intros a' tokens' Hu t'. unfold holding_at. destruct (tokens' !! t') as [l'|] eqn:E; [|done].
    simpl. rewrite Hb', lookup_insert_ne; [done|]. apply not_eq_sym, (Hfresh t' a').
    unfold holder. by rewrite Hu. }
  split_and!.
  - intros t'. unfold user_total. rewrite Hu'. unfold tokens in *.
    destruct (Mod.UsersTokenBalanceDataMap m !! a) as [ts|] eqn:Eu.
    + rewrite (msum_insert _ _ a ts) by done. rewrite Hat. simpl.
      rewrite (msum_ext _ (λ _, holding_at t' m)); [rewrite (Hat' a ts) by done; lia|eauto].
    + rewrite msum_insert_new by done. rewrite Hat. simpl.
      rewrite (msum_ext _ (λ _, holding_at t' m)); [|eauto]. unfold holding_at at 1.
      rewrite lookup_empty. done.
  - intros t' a' l'. unfold holder at 1. rewrite Hu'. destruct (decide (a = a')) as [<-|].
    + rewrite lookup_insert_eq. simpl. destruct (decide (t = t')) as [<-|].
      * rewrite lookup_insert_eq. intros [= <-]. by left.
      * rewrite lookup_insert_ne by done. intros E. right. unfold holder, tokens in *.
        by destruct (Mod.UsersTokenBalanceDataMap m !! a).
    + rewrite lookup_insert_ne by done. by right.
  - intros t' a' l' Hh. unfold holder. rewrite Hu'. destruct (decide (a = a')) as [<-|].
    + rewrite lookup_insert_eq. simpl. rewrite lookup_insert_ne.
      * unfold holder, tokens in *. by destruct (Mod.UsersTokenBalanceDataMap m !! a).
      * intros <-. apply Hn. eauto.
    + by rewrite lookup_insert_ne.
  - unfold holder. by rewrite Hu', lookup_insert_eq; simpl; rewrite lookup_insert_eq.
Qed.
End totals.
