(* ===== verification/CopySim.v ===== *)
(** * The copy of a module behaves like the module

    [twin m m'] relates a module and a copy of it: the same pools, LP tokens and
    balances, up to heights, histories, request maps and the place of the objects.
    Every step of a commit function keeps two modules twins and ends in the same way
    on both. *)
From S2P Require Import Prelude GoStd Decimal Script Utils Json Model History Swap Indexer CondApprove Ledger Modules Commit CherryPick PairNames SwapProof ModuleAcc Relate.

Section twins.
Context `{GoUnicode}.
Implicit Types m n : BRC20ModuleSwapInfo.

(** What the functions of a commit read of a balance and of a pool. *)
Record same_balance (b c : BRC20ModuleTokenBalance) : Prop := {
  sb_swap : MBal.SwapAccountBalance b = MBal.SwapAccountBalance c;
  sb_available : MBal.AvailableBalance b = MBal.AvailableBalance c;
}.
Record same_pool (p q : BRC20ModulePoolTotalBalance) : Prop := {
  sp_tick : Pool.Tick p = Pool.Tick q;
  sp_balance : Pool.TickBalance p = Pool.TickBalance q;
  sp_lp : Pool.LpBalance p = Pool.LpBalance q;
  sp_root : Pool.LastRootK p = Pool.LastRootK q;
}.

(** Every pointer of the map leads to the balance of its holder and ticker. *)
Definition objects_ok m : Prop := ∀ t a l, holder m t a l →
  ∃ b, Mod.Balances m !! l = Some b ∧ MBal.PkScript b = a ∧ ToLower (MBal.Tick b) = t.
Definition balance_of m (t a : string) : option loc := Mod.UsersTokenBalanceDataMap m !! a ≫= lookup t.
Definition twin_balances m n (l k : loc) : Prop :=
  ∃ b c, Mod.Balances m !! l = Some b ∧ Mod.Balances n !! k = Some c ∧ same_balance b c.
(** The amounts a holder has in the swap and available; no object is as good as a
    new one. *)
Definition amounts m (t a : string) : option Decimal * option Decimal :=
  match balance_of m t a ≫= λ l, Mod.Balances m !! l with
  | Some b => (MBal.SwapAccountBalance b, MBal.AvailableBalance b)
  | None => (None, None)
  end.

Record twin m n : Prop := {
  tw_gas : Mod.GasTick m = Mod.GasTick n;
  tw_gas_to : Mod.GasToPkScript m = Mod.GasToPkScript n;
  tw_lp_fee : Mod.LpFeePkScript m = Mod.LpFeePkScript n;
  tw_rate : Mod.FeeRateSwap m = Mod.FeeRateSwap n;
  tw_left : objects_ok m;
  tw_right : objects_ok n;
  tw_balance t a : amounts m t a = amounts n t a;
  tw_lp_pool pair : is_Some (Mod.LPTokenUsersBalanceMap m !! pair) ↔ is_Some (Mod.LPTokenUsersBalanceMap n !! pair);
  tw_lp_user a : is_Some (Mod.UsersLPTokenBalanceMap m !! a) ↔ is_Some (Mod.UsersLPTokenBalanceMap n !! a);
  tw_in_pool pair a : lp_in_pool pair a m = lp_in_pool pair a n;
  tw_of_user pair a : lp_of_user pair a m = lp_of_user pair a n;
  tw_pool pair : option_Forall2 same_pool (Mod.SwapPoolTotalBalanceDataMap m !! pair)
    (Mod.SwapPoolTotalBalanceDataMap n !! pair);
}.

(** Pointers to the same balance. *)
Definition paired_locs m n (l k : loc) : Prop := ∃ t a, holder m t a l ∧ holder n t a k.
(** A step of both: still twins, with the pointers known so far. *)
Record twin_step m n m' n' : Prop := {
  ts_twin : twin m' n';
  ts_locs l k : paired_locs m n l k → paired_locs m' n' l k;
}.
Lemma twin_step_refl m n : twin m n → twin_step m n m n.
Proof. by split. Qed.
Lemma twin_step_trans m n m1 n1 m2 n2 :
  twin_step m n m1 n1 → twin_step m1 n1 m2 n2 → twin_step m n m2 n2.
Proof. intros [_ H1] [H2 H3]. split; auto. Qed.

(** ** Balances *)
Lemma paired_locs_twin m n l k : twin m n → paired_locs m n l k → twin_balances m n l k.
Proof.
  intros Hw (t & a & Hl & Hk). pose proof (tw_balance _ _ Hw t a) as E.
  destruct (tw_left _ _ Hw t a l Hl) as (b & Hb & _), (tw_right _ _ Hw t a k Hk) as (c & Hc & _).
  unfold amounts, balance_of in E. unfold holder in Hl, Hk. rewrite Hl, Hk in E. simpl in E. rewrite Hb, Hc in E.
  injection E as E1 E2. by exists b, c.
Qed.
Lemma holder_object m t a l t' a' : objects_ok m → holder m t a l → holder m t' a' l → t = t' ∧ a = a'.
Proof.
  intros Hm (b & Hb & <- & <-)%Hm (b' & Hb' & <- & <-)%Hm. by assert (b' = b) as -> by congruence.
Qed.

Definition keeps_owner (b b' : BRC20ModuleTokenBalance) : Prop :=
  MBal.PkScript b' = MBal.PkScript b ∧ MBal.Tick b' = MBal.Tick b.
Lemma objects_ok_set m l b b' :
  objects_ok m → Mod.Balances m !! l = Some b → keeps_owner b b' → objects_ok (set_balance l b' m).
Proof.
  intros Hm Hb [Ep Et] t a l' (b0 & Hb0 & Ea & Eb)%Hm. unfold set_balance. rsimpl.
  destruct (decide (l = l')) as [<-|].
  - exists b'. rewrite lookup_insert_eq. naive_solver congruence.
  - exists b0. by rewrite lookup_insert_ne.
Qed.

Lemma amounts_set m t a l b t' a' :
  objects_ok m → holder m t a l →
  amounts (set_balance l b m) t' a' =
    if bool_decide (t = t' ∧ a = a') then (MBal.SwapAccountBalance b, MBal.AvailableBalance b) else amounts m t' a'.
Proof.
  intros Hm Hl. unfold amounts.
  change (balance_of (set_balance l b m) t' a') with (balance_of m t' a'). unfold set_balance. rsimpl.
  case_bool_decide as E.
  - destruct E as [<- <-]. unfold balance_of. unfold holder in Hl. rewrite Hl. simpl. by rewrite lookup_insert_eq.
  - destruct (balance_of m t' a') as [l'|] eqn:El; [|done]. simpl. rewrite lookup_insert_ne; [done|].
    intros <-. apply E. exact (holder_object m t a l t' a' Hm Hl El).
Qed.
Lemma twin_set_balance m n l k b c b' c' :
  twin m n → paired_locs m n l k → Mod.Balances m !! l = Some b → Mod.Balances n !! k = Some c →
  keeps_owner b b' → keeps_owner c c' → same_balance b' c' →
  twin_step m n (set_balance l b' m) (set_balance k c' n).
Proof.
  intros Hw (t & a & Hl & Hk) Hb Hc Hob Hoc Hs. split; [|done].
  pose proof (objects_ok_set m l b b' (tw_left _ _ Hw) Hb Hob).
  pose proof (objects_ok_set n k c c' (tw_right _ _ Hw) Hc Hoc).
  split; [by apply Hw|by apply Hw|by apply Hw|by apply Hw|done|done| |by apply Hw..].
  intros t' a'. rewrite (amounts_set m t a) by (done || apply Hw). rewrite (amounts_set n t a) by (done || apply Hw).
  case_bool_decide; [|by apply Hw]. destruct Hs as [-> ->]. done.
Qed.

Lemma mod_load_twin m n l k :
  twin m n → paired_locs m n l k →
  related (mod_load l) (mod_load k) m n
    (λ b c m' n', m' = m ∧ n' = n ∧ Mod.Balances m !! l = Some b ∧ Mod.Balances n !! k = Some c ∧ same_balance b c).
Proof.
  intros Hw (b & c & Hb & Hc & Hs)%paired_locs_twin; [|done]. unfold mod_load.
  apply related_bind, related_get. rewrite Hb, Hc. by apply related_ret.
Qed.
Definition twin_update (f h : BRC20ModuleTokenBalance → outcome BRC20ModuleTokenBalance) : Prop :=
  (∀ b c, same_balance b c → same_end same_balance (f b) (h c)) ∧
  (∀ b b', f b = Ret b' → keeps_owner b b') ∧ (∀ b b', h b = Ret b' → keeps_owner b b').
Lemma mod_store_twin f h m n l k b c :
  twin m n → paired_locs m n l k → Mod.Balances m !! l = Some b → Mod.Balances n !! k = Some c →
  keeps_owner b (f b) → keeps_owner c (h c) → same_balance (f b) (h c) →
  related (mod_store l f) (mod_store k h) m n (λ _ _, twin_step m n).
Proof.
  intros Hw Hp Hb Hc Hf Hh Hs. unfold mod_store. apply related_bind.
  eapply related_mono; [by apply mod_load_twin|]. intros b0 c0 m' n' (-> & -> & Hb0 & Hc0 & _).
  assert (b0 = b) as -> by congruence. assert (c0 = c) as -> by congruence.
  apply related_modify. by eapply twin_set_balance.
Qed.
Lemma mod_update_twin f h m n l k :
  twin m n → paired_locs m n l k → twin_update f h →
  related (mod_update l f) (mod_update k h) m n (λ _ _, twin_step m n).
Proof.
  intros Hw Hp (Hfh & Hf & Hh). unfold mod_update. apply related_bind.
  eapply related_mono; [by apply mod_load_twin|]. intros b c m' n' (-> & -> & Hb & Hc & Hs).
  apply related_bind, related_lift. specialize (Hfh _ _ Hs).
  destruct (f b) as [b'| |] eqn:Ef, (h c) as [c'| |] eqn:Eh; try done. simpl.
  eapply mod_store_twin; try done; [by apply Hf|by apply Hh].
Qed.

(** The updates the functions of a commit make. *)
Lemma set_swap_twin (op : option Decimal → option Decimal → outcome (option Decimal)) amt :
  twin_update
    (λ b, swap ← op (MBal.SwapAccountBalance b) amt; Ret (b <| MBal.SwapAccountBalance := swap |>))
    (λ b, swap ← op (MBal.SwapAccountBalance b) amt; Ret (b <| MBal.SwapAccountBalance := swap |>)).
Proof.
  split_and!; [|by intros b b' E; outcome_inv..].
  intros b c [Es Ea]. rewrite Es. eapply same_end_bind; [by apply same_end_eq|]. by intros ? ? ->.
Qed.
Lemma decrease_twin amt h h' :
  let f height b :=
    swap ← Sub (MBal.SwapAccountBalance b) amt;
    available ← Add (MBal.AvailableBalance b) amt;
    Ret (b <| MBal.SwapAccountBalance := swap |> <| MBal.AvailableBalance := available |>
           <| MBal.UpdateHeight := height |>) in
  twin_update (f h) (f h').
Proof.
  intros f. split_and!; [|by unfold f; intros b b' E; outcome_inv..]. unfold f.
  intros b c [Es Ea]. rewrite Es, Ea.
  by do 2 (eapply same_end_bind; [by apply same_end_eq|]; intros ? ? ->).
Qed.
Lemma debit_swap_twin m n l k amt :
  twin m n → paired_locs m n l k → related (debit_swap l amt) (debit_swap k amt) m n (λ _ _, twin_step m n).
Proof. intros. apply mod_update_twin; [done..|]. apply (set_swap_twin Sub). Qed.
Lemma credit_swap_twin m n l k amt :
  twin m n → paired_locs m n l k → related (credit_swap l amt) (credit_swap k amt) m n (λ _ _, twin_step m n).
Proof. intros. apply mod_update_twin; [done..|]. apply (set_swap_twin Add). Qed.
Lemma set_height_twin m n l k h h' :
  twin m n → paired_locs m n l k → related (set_height h l) (set_height h' k) m n (λ _ _, twin_step m n).
Proof.
  intros Hw Hp. destruct (paired_locs_twin _ _ _ _ Hw Hp) as (b & c & Hb & Hc & Hs).
  eapply mod_store_twin; [done|done|exact Hb|exact Hc|done|done|]. by destruct Hs.
Qed.
Lemma check_swap_twin m n l k amt msg :
  twin m n → paired_locs m n l k →
  related (check_swap l amt msg) (check_swap k amt msg) m n (λ _ _, twin_step m n).
Proof.
  intros Hw Hp. unfold check_swap. apply related_bind. eapply related_mono; [by apply mod_load_twin|].
  intros b c m' n' (-> & -> & _ & _ & [-> _]).
  apply related_bind, related_lift, same_end_refl. intros z _.
  destruct (z <? 0); [apply related_throw|by apply related_ret, twin_step_refl].
Qed.

(** A module with a new balance object for a holder without one. *)
Definition with_balance (t a : string) (l : loc) m m' : Prop :=
  Mod.Balances m' = <[l := new_module_balance t a]> (Mod.Balances m) ∧
  ∀ t' a', balance_of m' t' a' =
    if bool_decide (ToLower t = t' ∧ a = a') then Some l else balance_of m t' a'.
Lemma with_balance_objects t a l m m' :
  objects_ok m → Mod.Balances m !! l = None → with_balance t a l m m' → objects_ok m'.
Proof.
  intros Hm Hl [Eb Eu] t' a' l' Hh. change (balance_of m' t' a' = Some l') in Hh. rewrite Eu in Hh. rewrite Eb.
  case_bool_decide as E.
  - destruct E as [<- <-]. simplify_eq. exists (new_module_balance t a). by rewrite lookup_insert_eq.
  - destruct (Hm _ _ _ Hh) as (b & Hb & ?). exists b. rewrite lookup_insert_ne; [done|congruence].
Qed.
Lemma alloc_with_balance t a l m u :
  balance_of m (ToLower t) a = None →
  let usersTokens := default ∅ (Mod.UsersTokenBalanceDataMap m !! a) in
  with_balance t a l m (m <| Mod.Balances ::= <[l := new_module_balance t a]> |>
    <| Mod.UsersTokenBalanceDataMap ::= <[a := <[ToLower t := l]> usersTokens]> |>
    <| Mod.TokenUsersBalanceDataMap ::= u |>).
Proof.
  intros Hn ut. split; [done|]. intros t' a'. unfold balance_of in *. rsimpl.
  destruct (decide (a = a')) as [<-|Hne].
  - rewrite lookup_insert_eq. simpl. destruct (decide (ToLower t = t')) as [<-|Hne].
    + by rewrite lookup_insert_eq, bool_decide_eq_true_2.
    + rewrite lookup_insert_ne, bool_decide_eq_false_2 by (done || by intros []). unfold ut.
      by destruct (Mod.UsersTokenBalanceDataMap m !! a).
  - by rewrite lookup_insert_ne, bool_decide_eq_false_2 by (done || by intros []).
Qed.

(** Nothing the functions read is changed; there may be new, empty balances. *)
Record quiet m m' : Prop := {
  qt_gas : Mod.GasTick m' = Mod.GasTick m;
  qt_gas_to : Mod.GasToPkScript m' = Mod.GasToPkScript m;
  qt_lp_fee : Mod.LpFeePkScript m' = Mod.LpFeePkScript m;
  qt_rate : Mod.FeeRateSwap m' = Mod.FeeRateSwap m;
  qt_objects : objects_ok m';
  qt_amounts t a : amounts m' t a = amounts m t a;
  qt_lp_users : Mod.LPTokenUsersBalanceMap m' = Mod.LPTokenUsersBalanceMap m;
  qt_users_lp : Mod.UsersLPTokenBalanceMap m' = Mod.UsersLPTokenBalanceMap m;
  qt_pools : Mod.SwapPoolTotalBalanceDataMap m' = Mod.SwapPoolTotalBalanceDataMap m;
  qt_holder t a l : holder m t a l → holder m' t a l;
}.
Lemma quiet_refl m : objects_ok m → quiet m m.
Proof. by split. Qed.
Lemma quiet_trans m1 m2 m3 : quiet m1 m2 → quiet m2 m3 → quiet m1 m3.
Proof. intros [] []. split; try congruence; [done|]. auto. Qed.
Lemma quiet_twin m n m' n' : twin m n → quiet m m' → quiet n n' → twin_step m n m' n'.
Proof.
  intros Hw Hm Hn. split; [|intros l k (t & a & Hl & Hk); exists t, a; split; [by apply Hm|by apply Hn]].
  destruct Hw, Hm, Hn. split; try congruence; unfold lp_in_pool, lp_of_user in *; intros;
    rewrite ?qt_lp_users0, ?qt_lp_users1, ?qt_users_lp0, ?qt_users_lp1, ?qt_pools0, ?qt_pools1; auto.
Qed.

Lemma GetUserTokenBalance_quiet m t a :
  objects_ok m →
  ∃ l m', Module_GetUserTokenBalance t a m = (Ret l, m') ∧ quiet m m' ∧ holder m' (ToLower t) a l.
Proof.
  intros Hm. unfold Module_GetUserTokenBalance, mbind, GoM_bind, get at 1.
  assert (default ∅ (Mod.UsersTokenBalanceDataMap m !! a) !! ToLower t = balance_of m (ToLower t) a) as E.
  { unfold balance_of. by destruct (Mod.UsersTokenBalanceDataMap m !! a). }
  rewrite E. destruct (balance_of m (ToLower t) a) as [l|] eqn:El.
  { exists l, m. split; [done|]. split; [by apply quiet_refl|done]. }
  set (l := fresh (dom (Mod.Balances m))). exists l. eexists. split; [reflexivity|].
  assert (Mod.Balances m !! l = None) as Hl by (apply not_elem_of_dom, is_fresh).
  match goal with |- quiet _ ?m' ∧ _ =>
    assert (with_balance t a l m m') as Hm' by (exact (alloc_with_balance t a l m _ El)); set (m2 := m') in * end.
  pose proof (with_balance_objects _ _ _ _ _ Hm Hl Hm'). destruct Hm' as [Hbm Hum].
  split; [split; try done|].
  - intros t' a'. unfold amounts. rewrite Hum, Hbm. case_bool_decide as E'.
    + destruct E' as [<- <-]. rewrite El. simpl. by rewrite lookup_insert_eq.
    + destruct (balance_of m t' a') as [l'|] eqn:El'; [|done]. simpl. rewrite lookup_insert_ne; [done|].
      intros <-. destruct (Hm t' a' l El') as (b & ? & _). congruence.
  - intros t' a' l' Hl'. change (balance_of m t' a' = Some l') in Hl'. change (balance_of m2 t' a' = Some l').
    rewrite Hum, bool_decide_eq_false_2; [done|]. intros [<- <-]. congruence.
  - change (balance_of m2 (ToLower t) a = Some l). by rewrite Hum, bool_decide_eq_true_2.
Qed.

Lemma GetUserTokenBalance_twin m n t a :
  twin m n →
  related (Module_GetUserTokenBalance t a) (Module_GetUserTokenBalance t a) m n
    (λ l k m' n', twin_step m n m' n' ∧ paired_locs m' n' l k).
Proof.
  intros Hw. destruct (GetUserTokenBalance_quiet m t a (tw_left _ _ Hw)) as (l & m' & Em & Hm & Hl).
  destruct (GetUserTokenBalance_quiet n t a (tw_right _ _ Hw)) as (k & n' & En & Hn & Hk).
  unfold related. rewrite Em, En. split; [by apply quiet_twin|]. by exists (ToLower t), a.
Qed.
(** ** LP tokens *)
Lemma set_lp_lookup {A} (i j : string) (x : A) (t : gmap string (gmap string A)) i' j' :
  <[i := <[j := x]> (default ∅ (t !! i))]> t !! i' ≫= lookup j' =
    if bool_decide (i = i' ∧ j = j') then Some x else t !! i' ≫= lookup j'.
Proof.
  destruct (decide (i = i')) as [<-|Hi].
  - rewrite lookup_insert_eq. simpl. destruct (decide (j = j')) as [<-|Hj].
    + by rewrite lookup_insert_eq, bool_decide_eq_true_2.
    + rewrite lookup_insert_ne, bool_decide_eq_false_2 by (done || by intros []). by destruct (t !! i).
  - by rewrite lookup_insert_ne, bool_decide_eq_false_2 by (done || by intros []).
Qed.
Lemma set_lp_twin m n pair a x y :
  twin m n → related (set_lp pair a x y) (set_lp pair a x y) m n (λ _ _, twin_step m n).
Proof.
  intros Hw. apply related_modify. split; [|done].
  assert (∀ (t t' : gmap string (gmap string (option Decimal))) i z w, is_Some (t !! z) ↔ is_Some (t' !! z) →
    is_Some (<[i := w (t !! i)]> t !! z) ↔ is_Some (<[i := w (t' !! i)]> t' !! z)) as Hdom.
  { intros t t' i z w Hz. rewrite !lookup_insert_is_Some. tauto. }
  split; [by apply Hw..| | | | |by apply Hw].
  - intros z. apply (Hdom _ _ _ _ (λ o, <[a:=x]> (default ∅ o))), Hw.
  - intros z. apply (Hdom _ _ _ _ (λ o, <[pair:=y]> (default ∅ o))), Hw.
  - intros z b. pose proof (tw_in_pool _ _ Hw z b) as E. unfold lp_in_pool in *. rsimpl.
    rewrite !set_lp_lookup. case_bool_decide; [done|exact E].
  - intros z b. pose proof (tw_of_user _ _ Hw z b) as E. unfold lp_of_user in *. rsimpl.
    rewrite !set_lp_lookup. case_bool_decide; [done|exact E].
Qed.
Lemma add_lp_twin m n pair a amt :
  twin m n → related (add_lp pair a amt) (add_lp pair a amt) m n (λ _ _, twin_step m n).
Proof.
  intros Hw. unfold add_lp. apply related_bind, related_get. rewrite (tw_in_pool _ _ Hw).
  apply related_bind, related_lift, same_end_refl. intros lp _. by apply set_lp_twin.
Qed.
Lemma check_lp_match_twin m n what pair a :
  twin m n → related (check_lp_match what pair a) (check_lp_match what pair a) m n
    (λ x y m' n', x = y ∧ m' = m ∧ n' = n).
Proof.
  intros Hw. unfold check_lp_match. apply related_bind, related_get.
  rewrite (tw_in_pool _ _ Hw), (tw_of_user _ _ Hw).
  apply related_bind, related_lift, same_end_refl. intros z _.
  destruct (negb (z =? 0)); [apply related_throw|by apply related_ret].
Qed.
Lemma check_lp_enough_twin m n what b amt :
  related (check_lp_enough what b amt) (check_lp_enough what b amt) m n (λ _ _ m' n', m' = m ∧ n' = n).
Proof.
  unfold check_lp_enough. apply related_bind, related_lift, same_end_refl. intros z _.
  destruct (z <? 0); [apply related_throw|]. apply related_bind, related_lift, same_end_refl. intros z' _.
  destruct (z' <? 0); [apply related_throw|by apply related_ret].
Qed.
Lemma debit_lp_twin m n pair a b amt :
  twin m n → related (debit_lp pair a b amt) (debit_lp pair a b amt) m n (λ _ _, twin_step m n).
Proof.
  intros Hw. unfold debit_lp. do 2 (apply related_bind, related_lift, same_end_refl; intros ? _).
  by apply set_lp_twin.
Qed.

(** ** Pools *)
Ltac same_pool_fields := match goal with Hs : same_pool _ _ |- _ => destruct Hs; split; rsimpl; congruence end.
Lemma load_pool_twin m n pair msg :
  twin m n → related (load_pool pair msg) (load_pool pair msg) m n
    (λ p q m' n', same_pool p q ∧ m' = m ∧ n' = n).
Proof.
  intros Hw. unfold load_pool. apply related_bind, related_get.
  destruct (tw_pool _ _ Hw pair) as [p q Hpq|]; [by apply related_ret|apply related_throw].
Qed.
Lemma store_pool_twin m n pair p q :
  twin m n → same_pool p q → related (store_pool pair p) (store_pool pair q) m n (λ _ _, twin_step m n).
Proof.
  intros Hw Hpq. apply related_modify. split; [|done]. split; [by apply Hw..|].
  intros z. rsimpl. destruct (decide (pair = z)) as [<-|].
  - rewrite !lookup_insert_eq. by constructor.
  - rewrite !lookup_insert_ne by done. apply Hw.
Qed.
Lemma update_pool_twin m n pair f h :
  twin m n → (∀ p q, same_pool p q → same_end same_pool (f p) (h q)) →
  related (update_pool pair f) (update_pool pair h) m n (λ _ _, twin_step m n).
Proof.
  intros Hw Hfh. unfold update_pool. apply related_bind. eapply related_mono; [by apply load_pool_twin|].
  intros p q m' n' (Hpq & -> & ->). apply related_bind, related_lift. specialize (Hfh _ _ Hpq).
  destruct (f p), (h q); try done. by apply store_pool_twin.
Qed.
Lemma same_pool_reserve p q i : same_pool p q → tick_balance i p = tick_balance i q.
Proof. intros Hs. unfold tick_balance. by rewrite (sp_balance _ _ Hs). Qed.
Lemma same_pool_set p q i x : same_pool p q → same_pool (set_tick_balance i x p) (set_tick_balance i x q).
Proof. intros [? Eb ? ?]. split; try done. unfold set_tick_balance. rsimpl. by rewrite Eb. Qed.
Lemma same_pool_root p q i j : same_pool p q → root_k i j p = root_k i j q.
Proof. intros Hs. unfold root_k. by rewrite !(same_pool_reserve p q). Qed.
Lemma pool_deposit_twin h h' i j d p q :
  same_pool p q → same_end same_pool (pool_deposit h i j d p) (pool_deposit h' i j d q).
Proof.
  intros Hs. unfold pool_deposit. rewrite (same_pool_reserve _ _ i Hs).
  eapply same_end_bind; [by apply same_end_eq|]. intros b ? <-.
  apply (same_pool_set _ _ i b) in Hs. cbv zeta. rewrite (same_pool_reserve _ _ j Hs).
  eapply same_end_bind; [by apply same_end_eq|]. intros b' ? <-.
  apply (same_pool_set _ _ j b') in Hs. rewrite (sp_lp _ _ Hs), (same_pool_root _ _ i j Hs).
  do 2 (eapply same_end_bind; [by apply same_end_eq|]; intros ? ? <-). same_pool_fields.
Qed.
Lemma pool_withdraw_twin h h' i j x y z p q :
  same_pool p q → same_end same_pool (pool_withdraw h i j x y z p) (pool_withdraw h' i j x y z q).
Proof.
  intros Hs. unfold pool_withdraw. rewrite (sp_lp _ _ Hs).
  eapply same_end_bind; [by apply same_end_eq|]. intros lp ? <-. cbv zeta.
  assert (same_pool (p <| Pool.UpdateHeight := h |> <| Pool.LpBalance := lp |>)
    (q <| Pool.UpdateHeight := h' |> <| Pool.LpBalance := lp |>)) as Hs1 by same_pool_fields.
  rewrite (same_pool_reserve _ _ i Hs1). eapply same_end_bind; [by apply same_end_eq|]. intros b ? <-.
  apply (same_pool_set _ _ i b) in Hs1. rewrite (same_pool_reserve _ _ j Hs1).
  eapply same_end_bind; [by apply same_end_eq|]. intros b' ? <-.
  apply (same_pool_set _ _ j b') in Hs1. rewrite (same_pool_root _ _ i j Hs1).
  eapply same_end_bind; [by apply same_end_eq|]. intros ? ? <-. clear Hs; same_pool_fields.
Qed.
Lemma pool_give_twin i x p q : same_pool p q → same_end same_pool (pool_give i x p) (pool_give i x q).
Proof.
  intros Hs. unfold pool_give. rewrite (same_pool_reserve _ _ i Hs).
  eapply same_end_bind; [by apply same_end_eq|]. intros b ? <-. by apply same_pool_set.
Qed.
Lemma pool_take_twin i x p q : same_pool p q → same_end same_pool (pool_take i x p) (pool_take i x q).
Proof.
  intros Hs. unfold pool_take. rewrite (same_pool_reserve _ _ i Hs).
  eapply same_end_bind; [by apply same_end_eq|]. intros b ? <-. by apply same_pool_set.
Qed.
Lemma lp_fee_twin i j p q : same_pool p q → lp_fee i j p = lp_fee i j q.
Proof.
  intros Hs. unfold lp_fee. by rewrite (same_pool_root p q), (sp_lp _ _ Hs), (sp_root _ _ Hs).
Qed.
Lemma next_deposit_twin i j p q x y : same_pool p q → next_deposit i j p x y = next_deposit i j q x y.
Proof.
  intros Hs. unfold next_deposit. by rewrite (same_pool_reserve p q i), (same_pool_reserve p q j), (sp_lp _ _ Hs).
Qed.
Lemma remove_share_twin i p q x y z : same_pool p q → remove_share i p x y z = remove_share i q x y z.
Proof. intros Hs. unfold remove_share. by rewrite (same_pool_reserve p q i), (sp_lp _ _ Hs). Qed.
Lemma token_idx_twin t p q : same_pool p q → token_idx t p = token_idx t q.
Proof. intros Hs. unfold token_idx. by rewrite (sp_tick _ _ Hs). Qed.

Lemma issue_lp_fee_twin m n pair i j rate p q :
  twin m n → same_pool p q →
  related (issue_lp_fee pair i j rate p) (issue_lp_fee pair i j rate q) m n
    (λ p' q' m' n', same_pool p' q' ∧ twin_step m n m' n').
Proof.
  intros Hw Hs. unfold issue_lp_fee.
  destruct (0 <? Sign rate); [|by apply related_ret; split; [|apply twin_step_refl]].
  rewrite (lp_fee_twin _ _ p q Hs). apply related_bind, related_lift, same_end_refl. intros fee _.
  destruct (0 <? Sign fee); [|by apply related_ret; split; [|apply twin_step_refl]].
  rewrite (sp_lp _ _ Hs). apply related_bind, related_lift, same_end_refl. intros lp _. cbv zeta.
  assert (same_pool (p <| Pool.LpBalance := lp |>) (q <| Pool.LpBalance := lp |>)) as Hs' by same_pool_fields.
  apply related_bind. eapply related_mono; [by apply store_pool_twin|]. intros [] [] m1 n1 H1.
  apply related_bind, related_get. rewrite (tw_lp_fee _ _ (ts_twin _ _ _ _ H1)).
  apply related_bind. eapply related_mono; [by apply add_lp_twin, H1|]. intros [] [] m2 n2 H2.
  apply related_ret. split; [done|]. by eapply twin_step_trans.
Qed.
End twins.
