(* ===== verification/CopyFunctions.v ===== *)
(** * The functions of a commit on a module and on its copy

    Each function ends in the same way on twins, and leaves twins, when the two
    indexers agree on the format of the parameters and on the tickers it names. *)
From S2P Require Import Prelude GoStd Decimal Script Utils Json Model History Swap Indexer CondApprove Ledger Modules Commit CherryPick PairNames SwapProof ModuleAcc Relate CopySim.

(** One step of a function on both sides. *)
Ltac carry_twin :=
  match goal with
  | S : twin_step ?m ?n ?m' ?n', Hw : twin ?m ?n |- _ =>
    repeat match goal with P : paired_locs m n _ _ |- _ => apply (ts_locs _ _ _ _ S) in P end;
    apply ts_twin in S; clear Hw; rename S into Hw
  end.
Ltac twin_lift := apply related_bind, related_lift, same_end_refl; intros ? ?.
Ltac twin_unit L :=
  apply related_bind; eapply related_mono; [apply L; assumption|intros [] [] ? ? ?; carry_twin].
Ltac twin_balance :=
  apply related_bind; eapply related_mono; [apply GetUserTokenBalance_twin; assumption|];
  intros ? ? ? ? [? ?]; carry_twin.
Ltac twin_end L := eapply related_mono; [apply L; assumption|by intros [] [] ? ? ?; carry_twin].
Ltac twin_same L :=
  apply related_bind; eapply related_mono; [apply L; assumption|intros ? ? ? ? (? & -> & ->)].

Section functions.
Context `{GoUnicode, Config, BtcAddr}.
Implicit Types (m n : BRC20ModuleSwapInfo) (g h : BRC20ModuleIndexer).

(** The indexers agree on the format of parameters and on these tickers. *)
Record same_reads (ticks : gset string) g h : Prop := {
  sr_paired : paired g = paired h;
  sr_tick tick amt : ToLower tick ∈ ticks → CheckTickVerify tick amt g = CheckTickVerify tick amt h;
}.
Lemma same_reads_amount ticks g h tick amt :
  same_reads ticks g h → ToLower tick ∈ ticks → tick_amount tick amt g = tick_amount tick amt h.
Proof. intros Hr Ht. unfold tick_amount. by rewrite (sr_tick _ _ _ Hr). Qed.
Lemma same_reads_offset ticks g h : same_reads ticks g h → offset g = offset h.
Proof. intros Hr. unfold offset. by rewrite (sr_paired _ _ _ Hr). Qed.
Lemma same_reads_tokens ticks g h msg f :
  same_reads ticks g h → function_tokens msg g f = function_tokens msg h f.
Proof. intros Hr. unfold function_tokens. by rewrite (sr_paired _ _ _ Hr). Qed.

Lemma GasFee_twin m n g h a amt :
  twin m n → related (ProcessCommitFunctionGasFee g a amt) (ProcessCommitFunctionGasFee h a amt) m n
    (λ _ _ m' n', twin m' n').
Proof.
  intros Hw. unfold ProcessCommitFunctionGasFee. apply related_bind, related_get.
  rewrite (tw_gas _ _ Hw), (tw_gas_to _ _ Hw).
  twin_balance. twin_unit check_swap_twin. twin_balance.
  twin_unit debit_swap_twin. twin_unit credit_swap_twin. twin_unit set_height_twin. twin_end set_height_twin.
Qed.

Lemma DeployPool_twin ticks m n g h f :
  twin m n → same_reads ticks g h →
  (∀ i t, (i < 2)%nat → param f i = Ret t → ToLower t ∈ ticks) →
  related (ProcessCommitFunctionDeployPool g f) (ProcessCommitFunctionDeployPool h f) m n
    (λ _ _ m' n', twin m' n').
Proof.
  intros Hw Hr Ht. unfold ProcessCommitFunctionDeployPool.
  apply related_bind, related_lift, same_end_refl. intros token0 Ht0%Ht; [|lia].
  apply related_bind, related_lift, same_end_refl. intros token1 Ht1%Ht; [|lia]. cbv zeta.
  set (pair := GetLowerInnerPairNameByToken _ _). apply related_bind, related_get.
  assert (is_Some (Mod.SwapPoolTotalBalanceDataMap m !! pair) ↔ is_Some (Mod.SwapPoolTotalBalanceDataMap n !! pair)) as Hp.
  { destruct (tw_pool _ _ Hw pair); split; intros []; eauto; done. }
  rewrite (bool_decide_ext _ _ Hp). case_bool_decide; [apply related_throw|].
  apply related_bind, related_modify.
  assert (twin (m <| Mod.LPTokenUsersBalanceMap ::= <[pair := ∅]> |>)
    (n <| Mod.LPTokenUsersBalanceMap ::= <[pair := ∅]> |>)) as Hw'.
  { split; try by apply Hw.
    - intros z. rsimpl. rewrite !lookup_insert_is_Some. pose proof (tw_lp_pool _ _ Hw z). tauto.
    - intros z b. pose proof (tw_in_pool _ _ Hw z b) as E. unfold lp_in_pool in *. rsimpl.
      destruct (decide (pair = z)) as [<-|]; [by rewrite !lookup_insert_eq|by rewrite !lookup_insert_ne]. }
  rewrite !(same_reads_amount ticks g h) by done.
  do 2 twin_lift. eapply related_mono; [by apply store_pool_twin|]. by intros ? ? ? ? [].
Qed.

Lemma DecreaseApproval_twin ticks m n g h f :
  twin m n → same_reads ticks g h → (∀ t, param f 0 = Ret t → ToLower t ∈ ticks) →
  related (ProcessCommitFunctionDecreaseApproval g f) (ProcessCommitFunctionDecreaseApproval h f) m n
    (λ _ _ m' n', twin m' n').
Proof.
  intros Hw Hr Ht. unfold ProcessCommitFunctionDecreaseApproval. do 2 twin_lift.
  rewrite (same_reads_amount ticks g h) by auto. twin_lift. twin_balance. twin_unit check_swap_twin.
  eapply related_mono; [apply mod_update_twin; [done..|apply decrease_twin]|by intros ? ? ? ? []].
Qed.

Lemma Send_twin ticks m n g h f :
  twin m n → same_reads ticks g h → (∀ t, param f 1 = Ret t → ToLower t ∈ ticks) →
  related (ProcessCommitFunctionSend g f) (ProcessCommitFunctionSend h f) m n (λ _ _ m' n', twin m' n').
Proof.
  intros Hw Hr Ht. unfold ProcessCommitFunctionSend. do 4 twin_lift.
  rewrite (same_reads_amount ticks g h) by auto. twin_lift. twin_balance. twin_unit check_swap_twin.
  twin_balance. twin_unit debit_swap_twin. twin_unit credit_swap_twin. twin_unit set_height_twin.
  twin_end set_height_twin.
Qed.

(** The checks of the two LP maps. *)
Lemma twin_lp_pool_none m n pair :
  twin m n → bool_decide (Mod.LPTokenUsersBalanceMap m !! pair = None) =
    bool_decide (Mod.LPTokenUsersBalanceMap n !! pair = None).
Proof. intros Hw. apply bool_decide_ext. rewrite !eq_None_not_Some. by rewrite (tw_lp_pool _ _ Hw). Qed.
Lemma twin_lp_user_none m n a :
  twin m n → bool_decide (Mod.UsersLPTokenBalanceMap m !! a = None) =
    bool_decide (Mod.UsersLPTokenBalanceMap n !! a = None).
Proof. intros Hw. apply bool_decide_ext. rewrite !eq_None_not_Some. by rewrite (tw_lp_user _ _ Hw). Qed.

Lemma SendLp_twin m n f :
  twin m n → related (ProcessCommitFunctionSendLp f) (ProcessCommitFunctionSendLp f) m n
    (λ _ _ m' n', twin m' n').
Proof.
  intros Hw. unfold ProcessCommitFunctionSendLp. do 4 twin_lift. cbv zeta.
  twin_same load_pool_twin. apply related_bind, related_get.
  rewrite (twin_lp_pool_none _ _ _ Hw), (twin_lp_user_none _ _ _ Hw).
  case_bool_decide; [apply related_throw|]. case_bool_decide; [apply related_throw|].
  twin_same check_lp_match_twin; subst. do 2 twin_lift.
  apply related_bind. eapply related_mono; [apply check_lp_enough_twin|]. intros [] [] ? ? (-> & ->).
  twin_unit debit_lp_twin. twin_end add_lp_twin.
Qed.

(** ** The functions on pools *)
Lemma update_pool_ends m n pair f f' :
  twin m n → (∀ p q, same_pool p q → same_end same_pool (f p) (f' q)) →
  related (update_pool pair f) (update_pool pair f') m n (λ _ _ m' n', twin m' n').
Proof.
  intros Hw Hfh. eapply related_mono; [by apply update_pool_twin|by intros ? ? ? ? []].
Qed.
Definition pair_known (ticks : gset string) g f : Prop :=
  ∀ msg tokens, function_tokens msg g f = Ret tokens → ToLower tokens.1 ∈ ticks ∧ ToLower tokens.2 ∈ ticks.
Definition swap_known (ticks : gset string) g f : Prop :=
  ∀ msg tokens req, function_tokens msg g f = Ret tokens →
    swap_direction tokens.1 tokens.2 (offset g) f = Ret req →
    ToLower (token_in req) ∈ ticks ∧ ToLower (token_out req) ∈ ticks.

Lemma add_liq_apply_twin m n g h f pair t0 t1 i j first d :
  twin m n →
  related (add_liq_apply g f pair t0 t1 i j first d) (add_liq_apply h f pair t0 t1 i j first d) m n
    (λ _ _ m' n', twin m' n').
Proof.
  intros Hw. unfold add_liq_apply. twin_balance. twin_balance.
  do 2 twin_unit check_swap_twin. do 2 twin_unit debit_swap_twin. do 2 twin_unit set_height_twin.
  twin_unit add_lp_twin.
  assert (∀ m n, twin m n → related (when first (add_lp pair ZERO_ADDRESS_PKSCRIPT min_lp))
    (when first (add_lp pair ZERO_ADDRESS_PKSCRIPT min_lp)) m n (λ _ _, twin_step m n)) as Hfirst.
  { intros. destruct first; [by apply add_lp_twin|by apply related_ret, twin_step_refl]. }
  twin_unit Hfirst. apply update_pool_ends; [done|]. intros. by apply pool_deposit_twin.
Qed.

Lemma AddLiquidity_twin ticks m n g h f :
  twin m n → same_reads ticks g h → pair_known ticks g f →
  related (ProcessCommitFunctionAddLiquidity g f) (ProcessCommitFunctionAddLiquidity h f) m n
    (λ _ _ m' n', twin m' n').
Proof.
  intros Hw Hr Hk. unfold ProcessCommitFunctionAddLiquidity.
  rewrite <-(same_reads_tokens ticks g h _ f Hr), <-(same_reads_offset _ _ _ Hr).
  apply related_bind, related_lift, same_end_refl. intros [t0 t1] [Hk0 Hk1]%Hk. simpl in Hk0, Hk1.
  cbv beta iota zeta. apply related_bind. eapply related_mono; [by apply load_pool_twin|].
  intros p q ? ? (Hs & -> & ->). apply related_bind, related_get. rewrite (twin_lp_pool_none _ _ _ Hw).
  case_bool_decide; [apply related_throw|]. do 3 twin_lift.
  rewrite !(same_reads_amount ticks g h) by done. do 5 twin_lift.
  rewrite (token_idx_twin t0 p q Hs), (same_pool_reserve p q false Hs), (same_pool_reserve p q true Hs),
    (tw_rate _ _ Hw).
  set (i := token_idx t0 q). set (first := _ && _). apply related_bind.
  apply (related_mono _ _ _ _ (λ d d' m' n', d = d' ∧ twin m' n')).
  - destruct first; [by apply related_lift, same_end_refl|]. twin_lift.
    destruct (negb _); [apply related_throw|].
    apply related_bind. eapply related_mono; [by apply issue_lp_fee_twin|].
    intros p' q' m' n' [Hs' S]. carry_twin. apply related_lift. rewrite (next_deposit_twin _ _ p' q') by done.
    by apply same_end_refl.
  - intros d ? m' n' [<- Hw']. twin_lift. by apply add_liq_apply_twin.
Qed.

Lemma remove_liq_apply_twin m n g h f pair t0 t1 i j lp x y p q :
  twin m n → same_pool p q →
  related (remove_liq_apply g f pair t0 t1 i j lp x y p) (remove_liq_apply h f pair t0 t1 i j lp x y q) m n
    (λ _ _ m' n', twin m' n').
Proof.
  intros Hw Hs. unfold remove_liq_apply.
  rewrite (sp_lp _ _ Hs), (same_pool_reserve _ _ i Hs), (same_pool_reserve _ _ j Hs). do 3 twin_lift.
  twin_same check_lp_match_twin; subst.
  apply related_bind. eapply related_mono; [apply check_lp_enough_twin|]. intros [] [] ? ? (-> & ->).
  twin_unit debit_lp_twin. do 2 twin_balance. do 2 twin_unit credit_swap_twin. do 2 twin_unit set_height_twin.
  apply update_pool_ends; [done|].
  intros. by apply pool_withdraw_twin.
Qed.
Lemma RemoveLiquidity_twin ticks m n g h f :
  twin m n → same_reads ticks g h → pair_known ticks g f →
  related (ProcessCommitFunctionRemoveLiquidity g f) (ProcessCommitFunctionRemoveLiquidity h f) m n
    (λ _ _ m' n', twin m' n').
Proof.
  intros Hw Hr Hk. unfold ProcessCommitFunctionRemoveLiquidity.
  rewrite <-(same_reads_tokens ticks g h _ f Hr), <-(same_reads_offset _ _ _ Hr).
  apply related_bind, related_lift, same_end_refl. intros [t0 t1] [Hk0 Hk1]%Hk. simpl in Hk0, Hk1.
  cbv beta iota zeta. apply related_bind. eapply related_mono; [by apply load_pool_twin|].
  intros p q ? ? (Hs & -> & ->). apply related_bind, related_get.
  rewrite (twin_lp_pool_none _ _ _ Hw), (twin_lp_user_none _ _ _ Hw).
  case_bool_decide; [apply related_throw|]. case_bool_decide; [apply related_throw|]. do 3 twin_lift.
  rewrite !(same_reads_amount ticks g h) by done. do 5 twin_lift.
  rewrite (token_idx_twin t0 p q Hs), (tw_rate _ _ Hw). twin_lift.
  apply related_bind. eapply related_mono; [by apply issue_lp_fee_twin|].
  intros p' q' m' n' [Hs' S]. carry_twin.
  rewrite !(remove_share_twin _ p' q') by done. do 2 twin_lift. by apply remove_liq_apply_twin.
Qed.

Lemma swap_apply_twin m n g h f pair tin tout i x y z :
  twin m n →
  related (swap_apply g f pair tin tout i x y z) (swap_apply h f pair tin tout i x y z) m n
    (λ _ _ m' n', twin m' n').
Proof.
  intros Hw. unfold swap_apply. do 2 twin_balance. do 2 twin_unit set_height_twin. twin_unit check_swap_twin.
  assert (∀ m n, twin m n → related (update_pool pair (pool_give (negb i) z))
    (update_pool pair (pool_give (negb i) z)) m n (λ _ _, twin_step m n)) as Hgive.
  { intros. apply update_pool_twin; [done|]. intros. by apply pool_give_twin. }
  assert (∀ m n, twin m n → related (update_pool pair (pool_take i y))
    (update_pool pair (pool_take i y)) m n (λ _ _, twin_step m n)) as Htake.
  { intros. apply update_pool_twin; [done|]. intros. by apply pool_take_twin. }
  twin_unit Hgive. twin_unit debit_swap_twin. twin_unit Htake. twin_unit credit_swap_twin.
  apply update_pool_ends; [done|]. intros p q []. split; rsimpl; congruence.
Qed.
Lemma Swap_twin ticks m n g h f :
  twin m n → same_reads ticks g h → swap_known ticks g f →
  related (ProcessCommitFunctionSwap g f) (ProcessCommitFunctionSwap h f) m n (λ _ _ m' n', twin m' n').
Proof.
  intros Hw Hr Hk. unfold ProcessCommitFunctionSwap.
  rewrite <-(same_reads_tokens ticks g h _ f Hr), <-(same_reads_offset _ _ _ Hr).
  apply related_bind, related_lift, same_end_refl. intros [t0 t1] Ht.
  cbv beta iota zeta. apply related_bind. eapply related_mono; [by apply load_pool_twin|].
  intros p q ? ? (Hs & -> & ->). rewrite (sp_tick _ _ Hs).
  destruct (negb _); [apply related_throw|]. destruct (negb _); [apply related_throw|].
  apply related_bind, related_lift, same_end_refl. intros req Hreq. destruct (Hk _ _ _ Ht Hreq) as [Hk0 Hk1].
  rewrite !(same_reads_amount ticks g h) by done. do 4 twin_lift.
  apply related_bind, related_get. rewrite (tw_rate _ _ Hw). twin_lift.
  rewrite !(token_idx_twin _ p q Hs), !(same_pool_reserve p q _ Hs).
  apply related_bind, related_lift, same_end_refl. intros [x y] _. twin_lift. by apply swap_apply_twin.
Qed.
End functions.
