(* ===== verification/ModuleSteps.v ===== *)
(** * What each step of a commit function does to the accounts

    For every primitive of the handlers: from a module with accounts [acc m0 D DL] the
    primitive leaves the module with the accounts changed by the stated amounts, and
    keeps holders and pools ([grow]). *)
From S2P Require Import Prelude GoStd Decimal Script Utils Json Model History Swap Indexer CondApprove Ledger Modules Commit PairNames SwapProof ModuleAcc.

(** The pointers and pools known so far are still there. *)
Ltac carry :=
  repeat match goal with
  | G : grow ?m ?m', L : holder ?m _ _ _ |- _ => apply (grow_holder _ _ G) in L
  | G : grow ?m ?m', L : pool_tick ?m _ _ |- _ => apply (grow_tick _ _ G) in L
  end.
(** Equality of two sums of [point]s. *)
Ltac points :=
  intros; unfold zero, point; try change (dval None) with 0;
  repeat match goal with |- context [bool_decide ?P] => destruct (bool_decide P) end; try lia.

(** The holding of an updated balance. *)
Ltac holding :=
  unfold field_update; cbn -[dval holding_of]; split_and?; [done..|];
  unfold holding_of; cbn -[dval]; lia.

Section steps.
Context `{Spelling}.
Implicit Types m : BRC20ModuleSwapInfo.
Implicit Types D DL : string → Z.

(** [m'] has the accounts of [m0] with the differences, and keeps what [m] has. *)
Definition moved m0 D DL m m' : Prop := acc m0 D DL m' ∧ grow m m'.

(** ** Balances *)
Lemma GetUserTokenBalance_acc t a m0 D DL m E :
  acc m0 D DL m →
  holds (Module_GetUserTokenBalance t a) m
    (λ l m', moved m0 D DL m m' ∧ holder m' (ToLower t) a l) E.
Proof.
  intros Ha. unfold Module_GetUserTokenBalance. apply holds_bind, holds_get.
  destruct (default ∅ (Mod.UsersTokenBalanceDataMap m !! a) !! ToLower t) as [l|] eqn:El.
  { apply holds_ret. split; [split; [done|apply grow_refl]|]. unfold holder.
    by destruct (Mod.UsersTokenBalanceDataMap m !! a). }
  apply holds_bind. unfold mod_alloc. apply holds_bind, holds_get, holds_bind, holds_modify, holds_ret.
  set (l := fresh _). apply holds_bind, holds_modify, holds_ret.
  set (tokens := default ∅ (Mod.UsersTokenBalanceDataMap m !! a)) in *.
  match goal with |- moved _ _ _ _ ?m' ∧ _ => set (m2 := m') end.
  destruct Ha as [Hm Ht Hlp].
  assert (Mod.Balances m !! l = None) as Hl by (apply not_elem_of_dom; unfold l; apply is_fresh).
  assert (¬ ∃ l', holder m (ToLower t) a l') as Hn.
  { intros (l' & Hl'). unfold holder in Hl'. unfold tokens in El.
    destruct (Mod.UsersTokenBalanceDataMap m !! a); simpl in *; congruence. }
  destruct (new_holder m (ToLower t) a l (new_module_balance t a) Hl Hn Hm eq_refl eq_refl eq_refl
    m2 eq_refl eq_refl) as (Hut & Hinv & Hkeep & Hnew).
  split; [split; [|split; [apply Hkeep|done]]|done].
  split; [|intros t'; unfold module_total; rewrite Hut; apply Ht|apply Hlp].
  split; [| |by apply Hm..].
  - intros t' a' l' [(-> & -> & ->)|Hh]%Hinv.
    + eexists. split; [apply lookup_insert_eq|done].
    + destruct (mi_object _ Hm _ _ _ Hh) as (b & Hb & ?). exists b. split; [|done].
      unfold m2. rsimpl. rewrite lookup_insert_ne; [done|]. intros <-. congruence.
  - intros t' a' l'. transitivity ((t' = ToLower t ∧ a' = a ∧ l' = l) ∨ holder m t' a' l').
    2: { split; [intros [(-> & -> & ->)|Hh]; auto|apply Hinv]. }
    rewrite <-(mi_index _ Hm). unfold m2. rsimpl. destruct (decide (t' = ToLower t)) as [->|Hne].
    + rewrite lookup_insert_eq. simpl. destruct (decide (a' = a)) as [->|Hne].
      * rewrite lookup_insert_eq. split; [intros [= <-]; auto|].
        intros [(_ & _ & ->)|Hi]; [done|]. exfalso. apply Hn. exists l'. by apply (mi_index _ Hm).
      * rewrite lookup_insert_ne by done. destruct (Mod.TokenUsersBalanceDataMap m !! ToLower t);
          simpl; [|rewrite lookup_empty]; intuition congruence.
    + rewrite lookup_insert_ne by done. intuition congruence.
Qed.

(** A write through a balance pointer that adds [v]. *)
Definition adds (v : Z) (f : BRC20ModuleTokenBalance → outcome BRC20ModuleTokenBalance) : Prop :=
  (∀ b, no_error (f b)) ∧
  ∀ b b', f b = Ret b' → MBal.PkScript b' = MBal.PkScript b ∧ MBal.Tick b' = MBal.Tick b ∧
    holding_of b' = holding_of b + v.

Lemma mod_load_holds l m (Q : _ → _ → Prop) E :
  (∀ b, Mod.Balances m !! l = Some b → Q b m) → holds (mod_load l) m Q E.
Proof.
  intros HQ. unfold mod_load. apply holds_bind, holds_get.
  destruct (Mod.Balances m !! l) as [b|] eqn:Hb; [by apply holds_ret, HQ|apply holds_gopanic].
Qed.

Lemma mod_update_acc l f v t a m0 D DL m E :
  adds v f → acc m0 D DL m → holder m t a l →
  holds (mod_update l f) m (λ _, moved m0 (λ t', D t' + point t v t') DL m) E.
Proof.
  intros [He Hf] Ha Hl. unfold mod_update. apply holds_bind, mod_load_holds. intros b Hb.
  apply holds_bind, holds_lift; [|intros e E'; by destruct (He b e)].
  intros b' (Hpk & Htk & Hv)%Hf. unfold mod_store. apply holds_bind, mod_load_holds. intros b0 _.
  apply holds_modify. split; [|done]. by eapply acc_set_balance.
Qed.
Lemma mod_update_same_acc l f t a m0 D DL m E :
  adds 0 f → acc m0 D DL m → holder m t a l →
  holds (mod_update l f) m (λ _, moved m0 D DL m) E.
Proof.
  intros Hf Ha Hl. eapply holds_post; [by eapply mod_update_acc|]. intros [] m' [Ha' ?].
  split; [|done]. eapply acc_ext; [done|points|done].
Qed.
Lemma mod_store_acc l f t a m0 D DL m E :
  (∀ b, MBal.PkScript (f b) = MBal.PkScript b ∧ MBal.Tick (f b) = MBal.Tick b ∧
    holding_of (f b) = holding_of b) →
  acc m0 D DL m → holder m t a l → holds (mod_store l f) m (λ _, moved m0 D DL m) E.
Proof.
  intros Hf Ha Hl. unfold mod_store. apply holds_bind, mod_load_holds. intros b Hb. apply holds_modify.
  split; [|done]. destruct (Hf b) as (Hpk & Htk & Hv).
  eapply acc_ext; [eapply (acc_set_balance _ _ _ _ l b (f b) t a 0); try done; lia|points|done].
Qed.

(** A write of values computed from the object [b] read before. *)
Lemma mod_store_adds_acc l f b v t a m0 D DL m E :
  Mod.Balances m !! l = Some b →
  MBal.PkScript (f b) = MBal.PkScript b ∧ MBal.Tick (f b) = MBal.Tick b ∧
    holding_of (f b) = holding_of b + v →
  acc m0 D DL m → holder m t a l →
  holds (mod_store l f) m (λ _, moved m0 (λ t', D t' + point t v t') DL m) E.
Proof.
  intros Hb (Hpk & Htk & Hv) Ha Hl. unfold mod_store. apply holds_bind, mod_load_holds.
  intros b0 Hb0. assert (b0 = b) as -> by congruence. apply holds_modify. split; [|done].
  by eapply acc_set_balance.
Qed.

(** [adds] of the written updates. *)
Lemma debit_swap_adds amt :
  adds (- dval amt) (λ b, swap ← Sub (MBal.SwapAccountBalance b) amt;
    Ret (b <| MBal.SwapAccountBalance := swap |>)).
Proof.
  split; [eauto with noerr|]. intros b b' E. outcome_inv. holding.
Qed.
Lemma credit_swap_adds amt :
  adds (dval amt) (λ b, swap ← Add (MBal.SwapAccountBalance b) amt;
    Ret (b <| MBal.SwapAccountBalance := swap |>)).
Proof.
  split; [eauto with noerr|]. intros b b' E. outcome_inv. holding.
Qed.

Lemma debit_swap_acc l amt t a m0 D DL m E :
  acc m0 D DL m → holder m t a l →
  holds (debit_swap l amt) m (λ _, moved m0 (λ t', D t' + point t (- dval amt) t') DL m) E.
Proof. intros. eapply mod_update_acc; [apply debit_swap_adds|done..]. Qed.
Lemma credit_swap_acc l amt t a m0 D DL m E :
  acc m0 D DL m → holder m t a l →
  holds (credit_swap l amt) m (λ _, moved m0 (λ t', D t' + point t (dval amt) t') DL m) E.
Proof. intros. eapply mod_update_acc; [apply credit_swap_adds|done..]. Qed.
Lemma set_height_acc h l t a m0 D DL m E :
  acc m0 D DL m → holder m t a l → holds (set_height h l) m (λ _, moved m0 D DL m) E.
Proof. intros. eapply mod_store_acc; done. Qed.

Lemma check_swap_holds l amt msg m (E : _ → Prop) :
  E m → holds (check_swap l amt msg) m (λ _ m', m' = m) E.
Proof.
  intros HE. unfold check_swap. apply holds_bind, mod_load_holds. intros b _.
  apply holds_bind, holds_lift; [|intros e E'; by destruct (Cmp_no_error _ _ _ E')].
  intros c _. destruct (c <? 0); [by apply holds_throw|by apply holds_ret].
Qed.

(** ** Pools *)
Lemma load_pool_holds pair msg m (E : _ → Prop) :
  E m → holds (load_pool pair msg) m
    (λ pool m', m' = m ∧ Mod.SwapPoolTotalBalanceDataMap m !! pair = Some pool) E.
Proof.
  intros HE. unfold load_pool. apply holds_bind, holds_get.
  destruct (Mod.SwapPoolTotalBalanceDataMap m !! pair); [by apply holds_ret|by apply holds_throw].
Qed.

Lemma pool_tick_Some m pair pool :
  Mod.SwapPoolTotalBalanceDataMap m !! pair = Some pool → pool_tick m pair (Pool.Tick pool).
Proof. unfold pool_tick. by intros ->. Qed.

(** Replacing a pool by one of the same tickers. *)
Lemma store_pool_acc pair pool pool' m0 D DL m E :
  acc m0 D DL m → Mod.SwapPoolTotalBalanceDataMap m !! pair = Some pool →
  Pool.Tick pool' = Pool.Tick pool →
  holds (store_pool pair pool') m
    (λ _, moved m0 (λ t, D t + (pool_amount t pool' - pool_amount t pool))
      (λ q, DL q + point pair (dval (Pool.LpBalance pool) - dval (Pool.LpBalance pool')) q) m) E.
Proof.
  intros [Hm Ht Hlp] Hp Htk. apply holds_modify.
  match goal with |- moved _ _ _ _ ?m' => set (m2 := m') end.
  assert (Mod.SwapPoolTotalBalanceDataMap m2 =
    <[pair := pool']> (Mod.SwapPoolTotalBalanceDataMap m)) as Em2 by done.
  split; [split; [split; try apply Hm| |]|split; [done|]].
  - intros q p. rewrite Em2, lookup_insert_Some. intros [[<- <-]|[_ Hq]]; [|by apply Hm].
    rewrite Htk. by apply Hm.
  - intros q Hq. rewrite Em2. apply lookup_insert_is_Some'. right. by apply (mi_lp _ Hm).
  - intros t. specialize (Ht t). unfold module_total, pool_total in *. rewrite Em2.
    rewrite (msum_insert _ _ pair pool) by done. change (user_total m2 t) with (user_total m t). lia.
  - intros q. specialize (Hlp q). unfold lp_supply in *. rewrite Em2.
    change (lp_held m2 q) with (lp_held m q). unfold point. case_bool_decide as E'.
    + subst q. rewrite Hp in Hlp. rewrite lookup_insert_eq. lia.
    + rewrite lookup_insert_ne by done. lia.
  - intros q tk. unfold pool_tick. rewrite Em2. destruct (decide (pair = q)) as [<-|].
    + rewrite lookup_insert_eq, Hp. simpl. by rewrite Htk.
    + by rewrite lookup_insert_ne.
Qed.

(** A change of a pool of tickers [tk] that adds [V] to its reserves and [w] to its supply. *)
Definition pool_adds (tk : string * string) (V : string → Z) (w : Z)
    (f : BRC20ModulePoolTotalBalance → outcome BRC20ModulePoolTotalBalance) : Prop :=
  (∀ p, no_error (f p)) ∧
  ∀ p p', Pool.Tick p = tk → f p = Ret p' → Pool.Tick p' = tk ∧
    (∀ t, pool_amount t p' = pool_amount t p + V t) ∧
    dval (Pool.LpBalance p') = dval (Pool.LpBalance p) + w.

Lemma update_pool_acc pair f tk V w m0 D DL m E :
  pool_adds tk V w f → acc m0 D DL m → pool_tick m pair tk →
  holds (update_pool pair f) m
    (λ _, moved m0 (λ t, D t + V t) (λ q, DL q + point pair (- w) q) m) E.
Proof.
  intros [He Hf] Ha Htk. unfold pool_tick in Htk. apply fmap_Some in Htk as (pool & Hp & ->).
  unfold update_pool, load_pool. apply holds_bind, holds_bind, holds_get. rewrite Hp.
  apply holds_ret, holds_bind, holds_lift; [|intros e E'; by destruct (He pool e)].
  intros pool' (Htk & HV & Hw)%Hf; [|done].
  eapply holds_mono; [by eapply store_pool_acc|intros [] m' [Ha' ?]|done]. split; [|done].
  eapply acc_ext; [done|intros t; simpl; rewrite HV; lia|].
  intros q. simpl. do 2 f_equal. lia.
Qed.

(** The reserves after a write to one of them. *)
Definition tick_key (tk : string * string) (i : bool) : string := ToLower (if i then tk.2 else tk.1).
Lemma pool_amount_set i d p t :
  pool_amount t (set_tick_balance i d p) = pool_amount t p +
    point (tick_key (Pool.Tick p) i) (dval d - dval (tick_balance i p)) t.
Proof. destruct i; unfold pool_amount, tick_key, set_tick_balance, field_update; cbn -[dval]; points. Qed.

(** ** LP tokens *)
Lemma lp_held_point m m' pair a x q :
  Mod.LPTokenUsersBalanceMap m' =
    <[pair := <[a := x]> (default ∅ (Mod.LPTokenUsersBalanceMap m !! pair))]>
      (Mod.LPTokenUsersBalanceMap m) →
  lp_held m' q = lp_held m q + point pair (dval x - dval (lp_in_pool pair a m)) q.
Proof.
  intros E. unfold lp_held, point. rewrite E. case_bool_decide as Eq.
  - subst q. rewrite lookup_insert_eq. simpl. unfold lp_in_pool.
    destruct (Mod.LPTokenUsersBalanceMap m !! pair) as [users|]; simpl.
    + destruct (users !! a) as [d|] eqn:Ea.
      * rewrite (msum_insert _ _ a d) by done. simpl. lia.
      * rewrite msum_insert_new by done. simpl. lia.
    + rewrite msum_insert_new, msum_empty by apply lookup_empty. simpl. lia.
  - rewrite lookup_insert_ne by done. lia.
Qed.

Lemma set_lp_acc pair a x y m0 D DL m E :
  acc m0 D DL m → is_Some (Mod.SwapPoolTotalBalanceDataMap m !! pair) → x = y →
  holds (set_lp pair a x y) m
    (λ _, moved m0 D (λ q, DL q + point pair (dval x - dval (lp_in_pool pair a m)) q) m) E.
Proof.
  intros [Hm Ht Hlp] Hp Hxy. apply holds_modify.
  match goal with |- moved _ _ _ _ ?m' => set (m2 := m') end. split; [|done].
  split; [split; try apply Hm|apply Ht|].
  - intros q Hq. change (Mod.SwapPoolTotalBalanceDataMap m2) with (Mod.SwapPoolTotalBalanceDataMap m).
    change (Mod.LPTokenUsersBalanceMap m2) with
      (<[pair := <[a := x]> (default ∅ (Mod.LPTokenUsersBalanceMap m !! pair))]>
        (Mod.LPTokenUsersBalanceMap m)) in Hq.
    apply lookup_insert_is_Some' in Hq as [<-|Hq]; [done|by apply (mi_lp _ Hm)].
  - intros q b. pose proof (mi_agree _ Hm q b) as Hqb. unfold lp_in_pool, lp_of_user in *.
    unfold m2, field_update; cbn -[dval]. destruct (decide (pair = q)) as [<-|Hq], (decide (a = b)) as [<-|Hb].
    + by rewrite !lookup_insert_eq; cbn -[dval]; rewrite !lookup_insert_eq.
    + rewrite lookup_insert_eq, (lookup_insert_ne _ a b) by done. cbn -[dval].
      rewrite lookup_insert_ne by done. by destruct (Mod.LPTokenUsersBalanceMap m !! pair).
    + rewrite lookup_insert_ne, lookup_insert_eq by done. cbn -[dval].
      rewrite lookup_insert_ne by done. by destruct (Mod.UsersLPTokenBalanceMap m !! a).
    + by rewrite !lookup_insert_ne.
  - intros q. rewrite (lp_held_point m m2 pair a x) by done.
    change (lp_supply m2 q) with (lp_supply m q). specialize (Hlp q). lia.
Qed.

Lemma add_lp_acc pair tk a amt m0 D DL m E :
  acc m0 D DL m → pool_tick m pair tk →
  holds (add_lp pair a amt) m (λ _, moved m0 D (λ q, DL q + point pair (dval amt) q) m) E.
Proof.
  intros Ha Hp. unfold add_lp. apply holds_bind, holds_get, holds_bind, holds_lift;
    [|intros e E'; by destruct (Add_no_error _ _ _ E')].
  intros lp Elp%Add_inv. eapply holds_mono; [eapply set_lp_acc; [done| |done]|..|done].
  - unfold pool_tick in Hp. by apply fmap_Some in Hp as (pool & -> & _).
  - intros [] m' [Ha' ?]. split; [|done]. eapply acc_ext; [done..|]. intros q. simpl. do 2 f_equal. lia.
Qed.

Lemma check_lp_match_holds what pair a m (E : _ → Prop) :
  E m → holds (check_lp_match what pair a) m
    (λ b m', m' = m ∧ b = (lp_in_pool pair a m, lp_of_user pair a m)) E.
Proof.
  intros HE. unfold check_lp_match. apply holds_bind, holds_get, holds_bind, holds_lift;
    [|intros e E'; by destruct (Cmp_no_error _ _ _ E')].
  intros c _. destruct (negb _); [by apply holds_throw|by apply holds_ret].
Qed.
Lemma check_lp_enough_holds what b amt m (E : _ → Prop) :
  E m → holds (check_lp_enough what b amt) m (λ _ m', m' = m) E.
Proof.
  intros HE. unfold check_lp_enough. apply holds_bind, holds_lift;
    [|intros e E'; by destruct (Cmp_no_error _ _ _ E')].
  intros c _. destruct (c <? 0); [by apply holds_throw|].
  apply holds_bind, holds_lift; [|intros e E'; by destruct (Cmp_no_error _ _ _ E')].
  intros c' _. destruct (c' <? 0); [by apply holds_throw|by apply holds_ret].
Qed.

Lemma debit_lp_acc pair tk a amt m0 D DL m E :
  acc m0 D DL m → pool_tick m pair tk →
  holds (debit_lp pair a (lp_in_pool pair a m, lp_of_user pair a m) amt) m
    (λ _, moved m0 D (λ q, DL q + point pair (- dval amt) q) m) E.
Proof.
  intros Ha Hp. unfold debit_lp. cbn [fst snd].
  apply holds_bind, holds_lift; [|intros e E'; by destruct (Sub_no_error _ _ _ E')].
  intros x Ex. apply holds_bind, holds_lift; [|intros e E'; by destruct (Sub_no_error _ _ _ E')].
  intros y Ey. rewrite <-(mi_agree _ (acc_inv _ _ _ _ Ha)), Ex in Ey. injection Ey as <-.
  apply Sub_inv in Ex. eapply holds_mono; [eapply set_lp_acc; [done| |]|..|done].
  - unfold pool_tick in Hp. by apply fmap_Some in Hp as (pool & -> & _).
  - done.
  - intros [] m' [Ha' ?]. split; [|done]. eapply acc_ext; [done..|]. intros q. simpl. do 2 f_equal. lia.
Qed.

Lemma issue_lp_fee_acc pair i0 i1 rate pool m0 D DL m E :
  acc m0 D DL m → Mod.SwapPoolTotalBalanceDataMap m !! pair = Some pool →
  holds (issue_lp_fee pair i0 i1 rate pool) m (λ _, moved m0 D DL m) E.
Proof.
  intros Ha Hp. unfold issue_lp_fee.
  destruct (0 <? Sign rate); [|by apply holds_ret].
  apply holds_bind, holds_lift.
  2: { assert (no_error (lp_fee i0 i1 pool)) as Hn by (unfold lp_fee, root_k; eauto 20 with noerr).
       intros e E'. by destruct (Hn e). }
  intros lpFee _. destruct (0 <? Sign lpFee); [|by apply holds_ret].
  apply holds_bind, holds_lift; [|intros e E'; by destruct (Add_no_error _ _ _ E')].
  intros lp Elp%Add_inv. pose proof (pool_tick_Some _ _ _ Hp) as Htk. apply holds_bind.
  eapply holds_mono; [by eapply (store_pool_acc pair pool)|intros [] m1 [Ha1 Hg1]|done].
  apply holds_bind, holds_get, holds_bind. apply (grow_tick _ _ Hg1) in Htk.
  eapply holds_mono; [by eapply add_lp_acc|intros [] m2 [Ha2 Hg2]|done].
  apply holds_ret. split; [|by eapply grow_trans]. eapply acc_ext; [done|..].
  - intros t. unfold pool_amount, field_update. cbn -[dval]. lia.
  - intros q. unfold field_update. cbn -[dval]. rewrite Elp. points.
Qed.
End steps.
