(* ===== verification/ModuleProof.v ===== *)
(** * The functions of a commit conserve what a module holds

    Every function moves tickers between users and pools of the module: the total of
    every ticker stays the same, and so does the difference between the LP tokens of
    the users of a pool and the supply the pool records; on errors too, where part of
    the writes has been made. *)
From S2P Require Import Prelude GoStd Decimal Script Utils Json Model History Swap Indexer CondApprove Ledger Modules Commit PairNames SwapProof ModuleAcc ModuleSteps.

(** Carry what is known into the state after an operation. *)
Ltac madvance :=
  let Hg := fresh "Hg" in
  let Hp := fresh "Hp" in
  intros ? ? Hp; cbv beta in Hp;
  lazymatch type of Hp with
  | moved _ _ _ _ _ ∧ _ => unfold moved in Hp; destruct Hp as [[? Hg] ?]
  | moved _ _ _ _ _ => unfold moved in Hp; destruct Hp as [? Hg]
  end; carry;
  match goal with G : grow ?m0 ?m, G' : grow ?m ?m' |- _ =>
    pose proof (grow_trans _ _ _ G G'); clear G G'; try clear dependent m end.
(** Run the first operation of a handler by its lemma. *)
Ltac mstep L := apply holds_bind; eapply holds_post; [eapply L; eauto with noerr|madvance].
(** Run a write through a balance pointer that adds [v]. *)
Ltac solve_adds :=
  split; [intros ?; repeat case_match; eauto with noerr|intros ? ? ?; outcome_inv; holding].
Ltac mupd_holds v := eapply (mod_update_acc _ _ v); [solve_adds|eassumption|eassumption].
Ltac mupd_same := apply holds_bind; eapply holds_post;
  [eapply mod_update_same_acc; [solve_adds|eassumption|eassumption]|madvance].
Ltac mupd v := apply holds_bind; eapply holds_post; [mupd_holds v|madvance].
(** An operation that leaves the module alone. *)
Ltac mlift := apply holds_bind, holds_lift; [intros ? ?|intros ? _; by split].
Ltac mcheck L := apply holds_bind; eapply holds_post; [apply L; by split|intros ? ? ->].

(** The last operation: the differences cancel. *)
Ltac mclose :=
  split; [eapply acc_ext; [eassumption|intros; cbv beta;
    repeat match goal with E : tick_key _ _ = _ |- _ => rewrite !E; clear E end; points..]
  |by eapply grow_trans].
Ltac mdone L := eapply holds_post; [eapply L; eauto with noerr|intros ? ? [? ?]]; mclose.

Ltac mstart m Hm :=
  intros m Hm; pose proof (acc_refl m Hm) as Ha; pose proof (grow_refl m) as Hg0.

Section conserves.
Context `{Spelling}.
Implicit Types m : BRC20ModuleSwapInfo.

(** What a handler keeps, on success and on errors. *)
Definition conserves m m' : Prop := moved m zero zero m m'.
Lemma conserves_refl m : mod_inv m → conserves m m.
Proof. intros. split; [by apply acc_refl|apply grow_refl]. Qed.
Lemma conserves_trans m1 m2 m3 : conserves m1 m2 → conserves m2 m3 → conserves m1 m3.
Proof.
  intros [[_ Ht1 Hl1] Hg1] [[Hm Ht2 Hl2] Hg2]. split; [|by eapply grow_trans].
  split; [done|intros t; rewrite Ht2, Ht1; unfold zero; lia|].
  intros p. rewrite Hl2, Hl1. unfold zero. lia.
Qed.
#[global] Instance conserves_Keep : Keep mod_inv conserves.
Proof. split; [exact conserves_refl|exact conserves_trans|]. by intros m m' [[] _]. Qed.
End conserves.
Abbreviation conserving := (keeping mod_inv conserves).

Section handlers.
Context `{Spelling, Config, BtcAddr}.
Implicit Types m : BRC20ModuleSwapInfo.

Lemma conserving_balance t a : conserving (Module_GetUserTokenBalance t a).
Proof.
  intros m Hm. eapply holds_post; [apply GetUserTokenBalance_acc, acc_refl, Hm|].
  by intros l m' [? _].
Qed.
Lemma conserving_load l : conserving (mod_load l).
Proof. intros m Hm. apply mod_load_holds. intros b _. by apply conserves_refl. Qed.

Lemma GasFee_conserving g a amt : conserving (ProcessCommitFunctionGasFee g a amt).
Proof.
  mstart m Hm. unfold ProcessCommitFunctionGasFee. apply holds_bind, holds_get.
  mstep GetUserTokenBalance_acc. mcheck check_swap_holds. mstep GetUserTokenBalance_acc.
  mstep debit_swap_acc. mstep credit_swap_acc. mstep set_height_acc. mdone set_height_acc.
Qed.

Lemma Send_conserving g f : conserving (ProcessCommitFunctionSend g f).
Proof.
  mstart m Hm. unfold ProcessCommitFunctionSend. do 5 mlift.
  mstep GetUserTokenBalance_acc. mcheck check_swap_holds. mstep GetUserTokenBalance_acc.
  mstep debit_swap_acc. mstep credit_swap_acc. mstep set_height_acc. mdone set_height_acc.
Qed.

Lemma DecreaseApproval_conserving g f : conserving (ProcessCommitFunctionDecreaseApproval g f).
Proof.
  mstart m Hm. unfold ProcessCommitFunctionDecreaseApproval. do 3 mlift.
  mstep GetUserTokenBalance_acc. mcheck check_swap_holds.
  eapply holds_post; [mupd_holds 0|intros ? ? [? ?]]. mclose.
Qed.

Lemma SendLp_conserving f : conserving (ProcessCommitFunctionSendLp f).
Proof.
  mstart m Hm. unfold ProcessCommitFunctionSendLp. do 4 mlift.
  apply holds_bind. eapply holds_post; [apply load_pool_holds; by split|].
  intros pool ? [-> Hp]. apply pool_tick_Some in Hp. apply holds_bind, holds_get.
  destruct (bool_decide _); [by apply holds_throw; split|].
  destruct (bool_decide _); [by apply holds_throw; split|].
  apply holds_bind. eapply holds_post; [apply check_lp_match_holds; by split|].
  intros ? ? [-> ->]. do 2 mlift. mcheck check_lp_enough_holds. mstep debit_lp_acc. mdone add_lp_acc.
Qed.

(** ** Deploying a pool *)
Lemma NewDecimalFromString_zero p d : NewDecimalFromString "0" p = Ret d → Val d = 0.
Proof.
  unfold NewDecimalFromString. cbn -[precisionFactor Z.mul].
  intros E. destruct (precisionFactor p); [|done..]. by injection E as <-.
Qed.
Lemma tick_amount_zero t g d : tick_amount t "0" g = Ret d → dval d = 0.
Proof.
  unfold tick_amount, CheckTickVerify. destruct (_ !! _) as [y|]; [|by intros [= <-]].
  rewrite bool_decide_eq_false_2 by done.
  destruct (NewDecimalFromString _ _) as [d0| |] eqn:E; [|by intros [= <-]|done].
  apply NewDecimalFromString_zero in E. destruct (Sign (Some d0) <? 0); [by intros [= <-]|].
  destruct (Cmp (Some d0) (TickInfo.Max (TokenInfo.Deploy y))) as [c| |]; [|done..]. cbn.
  by destruct (0 <? c); intros [= <-].
Qed.
Lemma tick_amount_no_error t s g : no_error (tick_amount t s g).
Proof.
  unfold tick_amount, CheckTickVerify. intros e. destruct (_ !! _) as [y|]; [|done].
  destruct (bool_decide _); [done|]. destruct (NewDecimalFromString _ _) as [d| |]; [|done..].
  destruct (Sign (Some d) <? 0); [done|].
  pose proof (Cmp_no_error (Some d) (TickInfo.Max (TokenInfo.Deploy y))) as Hc.
  destruct (Cmp _ _) as [c|e'|]; [|by destruct (Hc e')|done]. cbn. by destruct (0 <? c).
Qed.

(** A new pool is empty, and nobody held LP tokens of it. *)
Lemma new_pool_acc token0 token1 a0 a1 m m' :
  let pair := GetLowerInnerPairNameByToken token0 token1 in
  mod_inv m → Mod.SwapPoolTotalBalanceDataMap m !! pair = None →
  spelled token0 → spelled token1 → dval a0 = 0 → dval a1 = 0 →
  m' = m <| Mod.LPTokenUsersBalanceMap ::= <[pair := ∅]> |>
         <| Mod.SwapPoolTotalBalanceDataMap ::=
              <[pair := Pool.mk 0 (token0, token1) (a0, a1) None None []]> |> →
  conserves m m'.
Proof.
  intros pair Hm Hp Hs0 Hs1 Hz0 Hz1 ->. match goal with |- conserves _ ?m' => set (m2 := m') end.
  assert (Mod.LPTokenUsersBalanceMap m !! pair = None) as Hlp.
  { apply eq_None_not_Some. intros Hs%(mi_lp _ Hm). rewrite Hp in Hs. by destruct Hs. }
  assert (∀ q a, lp_in_pool q a m2 = lp_in_pool q a m) as Hin.
  { intros q a. unfold lp_in_pool, m2. rsimpl. destruct (decide (pair = q)) as [<-|].
    - by rewrite lookup_insert_eq, Hlp.
    - by rewrite lookup_insert_ne. }
  split; [split; [split; try apply Hm|..]|split; [done|]].
  - intros q p. unfold m2. rsimpl. rewrite lookup_insert_Some. intros [[<- <-]|[_ Hq]]; [done|].
    by apply Hm.
  - intros q Hq. change (is_Some (<[pair := ∅]> (Mod.LPTokenUsersBalanceMap m) !! q)) in Hq.
    apply lookup_insert_is_Some' in Hq. unfold m2. rsimpl. apply lookup_insert_is_Some'.
    destruct Hq as [->|Hq]; [by left|right]. by apply (mi_lp _ Hm).
  - intros q a. rewrite Hin. apply (mi_agree _ Hm).
  - intros t. unfold module_total, pool_total, zero. change (user_total m2 t) with (user_total m t).
    unfold m2. rsimpl. rewrite msum_insert_new by done.
    unfold pool_amount at 1. cbn -[dval]. rewrite Hz0, Hz1. points.
  - intros q. unfold zero. enough (lp_held m2 q = lp_held m q ∧ lp_supply m2 q = lp_supply m q) by lia.
    unfold lp_held, lp_supply, m2. rsimpl. destruct (decide (pair = q)) as [<-|].
    + by rewrite !lookup_insert_eq, Hlp, Hp.
    + by rewrite !lookup_insert_ne.
  - intros q tk. unfold pool_tick, m2. rsimpl. destruct (decide (pair = q)) as [<-|].
    + by rewrite Hp.
    + by rewrite lookup_insert_ne.
Qed.

Lemma DeployPool_conserving g f :
  (∀ i t, param f i = Ret t → (i < 2)%nat → spelled t) →
  conserving (ProcessCommitFunctionDeployPool g f).
Proof.
  intros Hs m Hm. assert (conserves m m) as Hc by by split; [apply acc_refl|apply grow_refl].
  unfold ProcessCommitFunctionDeployPool.
  apply holds_bind, holds_lift; [|done]. intros token0 E0.
  apply holds_bind, holds_lift; [|done]. intros token1 E1. apply holds_bind, holds_get.
  case_bool_decide as Hp; [by apply holds_throw|]. apply eq_None_not_Some in Hp.
  apply holds_bind, holds_modify.
  apply holds_bind, holds_lift; [|intros e E; by destruct (tick_amount_no_error _ _ _ _ E)].
  intros a0 Ea0%tick_amount_zero.
  apply holds_bind, holds_lift; [|intros e E; by destruct (tick_amount_no_error _ _ _ _ E)].
  intros a1 Ea1%tick_amount_zero. apply holds_modify.
  eapply (new_pool_acc token0 token1 a0 a1); try done; [eapply Hs..]; eauto with lia.
Qed.
End handlers.
#[export] Hint Resolve conserving_balance conserving_load : keeping.
