(* ===== verification/ModulePools.v ===== *)
(** * Liquidity and swaps conserve what a module holds

    The handlers that move tickers between users and a pool.  They find the reserve of
    a token by its text, so they need the one spelling per ticker of [Spelling]. *)
From S2P Require Import Prelude GoStd Decimal Script Utils Json Model History Swap Indexer CondApprove Ledger Modules Commit PairNames SwapProof ModuleAcc ModuleSteps ModuleProof.

Section pools.
Context `{Spelling, Config, BtcAddr}.
Implicit Types m : BRC20ModuleSwapInfo.

(** ** The reserve of a token *)
Lemma token_idx_ok m pool token0 token1 :
  mod_inv m → spelled token0 → spelled token1 →
  Mod.SwapPoolTotalBalanceDataMap m !! GetLowerInnerPairNameByToken token0 token1 = Some pool →
  tick_key (Pool.Tick pool) (token_idx token0 pool) = ToLower token0 ∧
  tick_key (Pool.Tick pool) (negb (token_idx token0 pool)) = ToLower token1.
Proof.
  intros Hm Hs0 Hs1 Hp. destruct (mi_pool _ Hm _ _ Hp) as (E & Ht0 & Ht1).
  apply pair_name_inj in E; [|by apply spelled_short..].
  unfold token_idx, tick_key. destruct (bool_decide_reflect (token0 = (Pool.Tick pool).1)) as [Eq|Hne]; simpl.
  - destruct E as [[E0 E1]|[E0 E1]]; [done|]. rewrite Eq in E0. by rewrite E1, Eq.
  - destruct E as [[E0 E1]|[E0 E1]]; [|done]. by destruct Hne; apply spelled_inj.
Qed.

(** ** Changes of a pool *)
Lemma tick_balance_set_other i d p : tick_balance (negb i) (set_tick_balance i d p) = tick_balance (negb i) p.
Proof. by destruct i. Qed.

Lemma pool_deposit_adds h i d tk :
  pool_adds tk (λ t, point (tick_key tk i) (dval (dep_amt0 d)) t +
    point (tick_key tk (negb i)) (dval (dep_amt1 d)) t) (dval (dep_pool d))
    (pool_deposit h i (negb i) d).
Proof.
  split; [intros p; unfold pool_deposit, root_k; eauto 20 with noerr|].
  intros p p' Htk E. unfold pool_deposit in E.
  apply outcome_bind_inv in E as (b0 & E0%Add_inv & E).
  apply outcome_bind_inv in E as (b1 & E1 & E). rewrite tick_balance_set_other in E1.
  outcome_inv. split_and!; [done| |done]. intros t.
  match goal with |- pool_amount t ?p' = _ => change (pool_amount t p') with
    (pool_amount t (set_tick_balance (negb i) b1 (set_tick_balance i b0 p))) end.
  rewrite !pool_amount_set, tick_balance_set_other, E0, E1.
  change (Pool.Tick (set_tick_balance i b0 p)) with (Pool.Tick p). points.
Qed.

Lemma pool_withdraw_adds h i amt0 amt1 lp tk :
  pool_adds tk (λ t, point (tick_key tk i) (- dval amt0) t +
    point (tick_key tk (negb i)) (- dval amt1) t) (- dval lp)
    (pool_withdraw h i (negb i) amt0 amt1 lp).
Proof.
  split; [intros p; unfold pool_withdraw, root_k; eauto 20 with noerr|].
  intros p p' Htk E. unfold pool_withdraw in E.
  apply outcome_bind_inv in E as (l & El%Sub_inv & E).
  set (p1 := p <| Pool.UpdateHeight := h |> <| Pool.LpBalance := l |>) in E.
  apply outcome_bind_inv in E as (b0 & E0%Sub_inv & E).
  apply outcome_bind_inv in E as (b1 & E1 & E). rewrite tick_balance_set_other in E1.
  outcome_inv. split_and!; [done| |change (dval l = dval (Pool.LpBalance p) + - dval lp); lia]. intros t.
  match goal with |- pool_amount t ?p' = _ => change (pool_amount t p') with
    (pool_amount t (set_tick_balance (negb i) b1 (set_tick_balance i b0 p1))) end.
  rewrite !pool_amount_set, tick_balance_set_other, E0, E1.
  change (Pool.Tick (set_tick_balance i b0 p1)) with (Pool.Tick p).
  change (Pool.Tick p1) with (Pool.Tick p). change (pool_amount t p1) with (pool_amount t p). points.
Qed.

Lemma pool_give_adds i amt tk :
  pool_adds tk (point (tick_key tk i) (- dval amt)) 0 (pool_give i amt).
Proof.
  split; [intros p; unfold pool_give; eauto with noerr|]. intros p p' Htk E. unfold pool_give in E.
  outcome_inv. split_and!; [done| |unfold set_tick_balance, field_update; cbn -[dval]; lia].
  intros t. rewrite pool_amount_set. match goal with E : dval _ = _ |- _ => rewrite E end. points.
Qed.
Lemma pool_take_adds i amt tk :
  pool_adds tk (point (tick_key tk i) (dval amt)) 0 (pool_take i amt).
Proof.
  split; [intros p; unfold pool_take; eauto with noerr|]. intros p p' Htk E. unfold pool_take in E.
  outcome_inv. split_and!; [done| |unfold set_tick_balance, field_update; cbn -[dval]; lia].
  intros t. rewrite pool_amount_set. match goal with E : dval _ = _ |- _ => rewrite E end. points.
Qed.
Lemma pool_height_adds h tk :
  pool_adds tk zero 0 (λ pool, Ret (pool <| Pool.UpdateHeight := h |>)).
Proof.
  split; [done|]. intros p p' Htk E. outcome_inv. unfold zero.
  split_and!; [done|intros t; unfold pool_amount, field_update; cbn -[dval]; lia|
    unfold field_update; cbn -[dval]; lia].
Qed.

#[local] Hint Resolve pool_deposit_adds pool_withdraw_adds pool_give_adds pool_take_adds
  pool_height_adds : core.

(** ** Adding liquidity *)

(** The LP a deposit makes is the user's, except 1000 units of the first. *)
Lemma first_deposit_lp a0 a1 d :
  first_deposit a0 a1 = Ret d → dval (dep_pool d) = dval (dep_user d) + dval min_lp.
Proof.
  intros E. unfold first_deposit in E. apply outcome_bind_inv in E as (k & _ & E).
  apply outcome_bind_inv in E as (lp & _ & E). apply outcome_bind_inv in E as (c & _ & E).
  destruct (c <? 0); [done|]. outcome_inv. cbn -[dval]. lia.
Qed.
Lemma next_deposit_lp i0 i1 pool a0 a1 d :
  next_deposit i0 i1 pool a0 a1 = Ret d → dep_pool d = dep_user d.
Proof.
  intros E. unfold next_deposit in E. repeat (apply outcome_bind_inv in E as (? & _ & E)).
  by injection E as <-.
Qed.

Lemma add_liq_apply_conserving g f poolPair token0 token1 tk i (first : bool) d m m' :
  acc m zero zero m' → grow m m' → pool_tick m' poolPair tk →
  tick_key tk i = ToLower token0 → tick_key tk (negb i) = ToLower token1 →
  dval (dep_pool d) = dval (dep_user d) + (if first then dval min_lp else 0) →
  holds (add_liq_apply g f poolPair token0 token1 i (negb i) first d) m'
    (λ _, conserves m) (conserves m).
Proof.
  intros Ha Hg Htk E0 E1 Hd. unfold add_liq_apply.
  do 2 mstep GetUserTokenBalance_acc. do 2 mcheck check_swap_holds.
  do 2 mstep debit_swap_acc. do 2 mstep set_height_acc. mstep add_lp_acc.
  destruct first; simpl when; [mstep add_lp_acc; mdone update_pool_acc|].
  apply holds_bind, holds_ret. mdone update_pool_acc.
Qed.


(** The tickers a function names are written as everywhere else. *)
Definition tokens_spelled (g : BRC20ModuleIndexer) (f : SwapFunctionData) : Prop :=
  ∀ msg token0 token1, function_tokens msg g f = Ret (token0, token1) → spelled token0 ∧ spelled token1.

Lemma AddLiquidity_conserving g f :
  tokens_spelled g f → conserving (ProcessCommitFunctionAddLiquidity g f).
Proof.
  intros Hs. mstart m Hm. unfold ProcessCommitFunctionAddLiquidity.
  apply holds_bind, holds_lift; [|by split]. intros [token0 token1] [Hs0 Hs1]%Hs. cbv zeta.
  apply holds_bind. eapply holds_post; [apply load_pool_holds; by split|]. intros pool ? [-> Hp].
  destruct (token_idx_ok m pool token0 token1 Hm Hs0 Hs1 Hp) as [E0 E1].
  set (i := token_idx token0 pool) in *. clearbody i.
  apply holds_bind, holds_get. destruct (bool_decide _); [by apply holds_throw; split|].
  do 8 mlift. set (first := _ && _). clearbody first.
  apply holds_bind. destruct first.
  - apply holds_lift; [|by split]. intros d Hd%first_deposit_lp. mlift.
    apply pool_tick_Some in Hp. by eapply add_liq_apply_conserving.
  - apply holds_bind, holds_lift; [intros fee _|by split].
    destruct (negb fee.2); [by apply holds_throw; split|].
    pose proof (pool_tick_Some _ _ _ Hp). mstep issue_lp_fee_acc.
    apply holds_lift; [|by split]. intros d Hd%next_deposit_lp. mlift.
    eapply add_liq_apply_conserving; eauto. rewrite Hd. lia.
Qed.

(** ** Removing liquidity *)
Lemma remove_liq_apply_conserving g f poolPair token0 token1 tk i lp amt0 amt1 pool m m' :
  acc m zero zero m' → grow m m' → pool_tick m' poolPair tk →
  tick_key tk i = ToLower token0 → tick_key tk (negb i) = ToLower token1 →
  holds (remove_liq_apply g f poolPair token0 token1 i (negb i) lp amt0 amt1 pool) m'
    (λ _, conserves m) (conserves m).
Proof.
  intros Ha Hg Htk E0 E1. unfold remove_liq_apply. do 3 mlift.
  apply holds_bind. eapply holds_post; [apply check_lp_match_holds; by split|]. intros ? ? [-> ->].
  mcheck check_lp_enough_holds. mstep debit_lp_acc. do 2 mstep GetUserTokenBalance_acc.
  do 2 mstep credit_swap_acc. do 2 mstep set_height_acc. mdone update_pool_acc.
Qed.

Lemma RemoveLiquidity_conserving g f :
  tokens_spelled g f → conserving (ProcessCommitFunctionRemoveLiquidity g f).
Proof.
  intros Hs. mstart m Hm. unfold ProcessCommitFunctionRemoveLiquidity.
  apply holds_bind, holds_lift; [|by split]. intros [token0 token1] [Hs0 Hs1]%Hs. cbv zeta.
  apply holds_bind. eapply holds_post; [apply load_pool_holds; by split|]. intros pool ? [-> Hp].
  destruct (token_idx_ok m pool token0 token1 Hm Hs0 Hs1 Hp) as [E0 E1].
  set (i := token_idx token0 pool) in *. clearbody i.
  apply holds_bind, holds_get. do 2 (destruct (bool_decide _); [by apply holds_throw; split|]).
  do 9 mlift. pose proof (pool_tick_Some _ _ _ Hp). mstep issue_lp_fee_acc. do 2 mlift.
  by eapply remove_liq_apply_conserving.
Qed.

(** ** Swapping *)

(** The token a swap is about is one of its pair. *)
Definition swap_token_of_pair (g : BRC20ModuleIndexer) (f : SwapFunctionData) : Prop :=
  ∀ msg token0 token1 t, function_tokens msg g f = Ret (token0, token1) →
    param f (1 + offset g) = Ret t → t = token0 ∨ t = token1.

(** A direction that is neither exactIn nor exactOut moves nothing. *)
Lemma swap_direction_tokens token0 token1 off f req :
  (∀ t, param f (1 + off) = Ret t → t = token0 ∨ t = token1) →
  swap_direction token0 token1 off f = Ret req →
  exact_in req = None ∨ (token_in req = token0 ∧ token_out req = token1) ∨
    (token_in req = token1 ∧ token_out req = token0).
Proof.
  intros Ht E. unfold swap_direction in E. apply outcome_bind_inv in E as (d & _ & E).
  repeat case_bool_decide; [..|injection E as <-; by left]; right;
    apply outcome_bind_inv in E as (t & [-> | ->]%Ht & E);
    repeat (apply outcome_bind_inv in E as (? & _ & E)); injection E as <-; simpl;
    case_bool_decide; subst; first [by auto|congruence].
Qed.

Lemma swap_amounts_none rin rout tin tout slip fee amounts :
  swap_amounts None rin rout tin tout slip fee = Ret amounts → amounts = (None, None).
Proof. by intros [= <-]. Qed.

Lemma swap_apply_conserving g f poolPair tk tin tout i amt ain aout m m' :
  acc m zero zero m' → grow m m' → pool_tick m' poolPair tk →
  (ain = None ∧ aout = None ∨ tick_key tk i = ToLower tin ∧ tick_key tk (negb i) = ToLower tout) →
  holds (swap_apply g f poolPair tin tout i amt ain aout) m' (λ _, conserves m) (conserves m).
Proof.
  intros Ha Hg Htk Hk. unfold swap_apply. do 2 mstep GetUserTokenBalance_acc.
  do 2 mstep set_height_acc. mcheck check_swap_holds. mstep update_pool_acc. mstep debit_swap_acc.
  mstep update_pool_acc. mstep credit_swap_acc.
  destruct Hk as [[-> ->]|[E0 E1]]; mdone update_pool_acc.
Qed.

Lemma Swap_conserving g f :
  tokens_spelled g f → swap_token_of_pair g f → conserving (ProcessCommitFunctionSwap g f).
Proof.
  intros Hs Ht. mstart m Hm. unfold ProcessCommitFunctionSwap.
  apply holds_bind, holds_lift; [|by split]. intros [token0 token1] Et.
  destruct (Hs _ _ _ Et) as [Hs0 Hs1]. cbv zeta.
  apply holds_bind. eapply holds_post; [apply load_pool_holds; by split|]. intros pool ? [-> Hp].
  do 2 (destruct (negb _); [by apply holds_throw; split|]).
  apply holds_bind, holds_lift; [|by split].
  intros req [Hn|Hreq]%(swap_direction_tokens _ _ _ _ _ (λ t, Ht _ _ _ t Et)).
  - rewrite Hn. do 4 mlift. apply holds_bind, holds_get. mlift. apply holds_bind, holds_lift; [|by split].
    intros ? ->%swap_amounts_none. mlift. apply pool_tick_Some in Hp.
    eapply swap_apply_conserving; eauto.
  - assert (tick_key (Pool.Tick pool) (token_idx (token_in req) pool) = ToLower (token_in req) ∧
      tick_key (Pool.Tick pool) (negb (token_idx (token_in req) pool)) = ToLower (token_out req)) as Hk.
    { destruct Hreq as [[-> ->]|[-> ->]]; eapply token_idx_ok; eauto. by rewrite pair_name_sym. }
    clear Hreq. do 4 mlift. apply holds_bind, holds_get. mlift. apply holds_bind, holds_lift; [|by split].
    intros [ain aout] _. mlift. apply pool_tick_Some in Hp.
    eapply swap_apply_conserving; eauto.
Qed.

(** ** Running a commit *)
Lemma load_pool_conserving pair msg : conserving (load_pool pair msg).
Proof. unfold load_pool. keeping. Qed.
#[local] Hint Resolve load_pool_conserving : keeping.

Lemma check_user_result_conserving g idx user : conserving (check_user_result g idx user).
Proof. unfold check_user_result. keeping. Qed.
Lemma check_pool_result_conserving g idx r : conserving (check_pool_result g idx r).
Proof. unfold check_pool_result. keeping. Qed.
#[local] Hint Resolve check_user_result_conserving check_pool_result_conserving : keeping.
Lemma BRC20ResultsPreVerify_conserving g r : conserving (BRC20ResultsPreVerify g r).
Proof. unfold BRC20ResultsPreVerify. keeping. Qed.
#[local] Hint Resolve BRC20ResultsPreVerify_conserving GasFee_conserving : keeping.

(** What the conservation of a function relies on: one spelling of the tickers it
    names, and a swap about a token of its pair. *)
Definition function_ok (g : BRC20ModuleIndexer) (f : SwapFunctionData) : Prop :=
  (SwapFunction.Function_ f = BRC20_SWAP_FUNCTION_DEPLOY_POOL →
     ∀ i t, param f i = Ret t → (i < 2)%nat → spelled t) ∧
  (SwapFunction.Function_ f ∈ [BRC20_SWAP_FUNCTION_ADD_LIQ; BRC20_SWAP_FUNCTION_REMOVE_LIQ;
     BRC20_SWAP_FUNCTION_SWAP] → tokens_spelled g f) ∧
  (SwapFunction.Function_ f = BRC20_SWAP_FUNCTION_SWAP → swap_token_of_pair g f).

Lemma commit_function_conserving g f : function_ok g f → conserving (commit_function g f).
Proof.
  intros (Hd & Hs & Hsw). unfold commit_function.
  case_bool_decide; [by apply DeployPool_conserving, Hd|].
  case_bool_decide; [apply AddLiquidity_conserving, Hs; set_solver|].
  case_bool_decide; [apply RemoveLiquidity_conserving, Hs; set_solver|].
  case_bool_decide; [apply Swap_conserving; [apply Hs; set_solver|auto]|].
  case_bool_decide; [apply DecreaseApproval_conserving|].
  case_bool_decide; [apply Send_conserving|].
  case_bool_decide; [apply SendLp_conserving|auto with keeping].
Qed.

Lemma or_return_conserving f idx critical k :
  conserving f → conserving k → conserving (or_return f idx critical k).
Proof.
  intros Hf Hk. unfold or_return. keeping.
Qed.

Lemma function_ok_pkScript g f pk : function_ok g f → function_ok g (f <| SwapFunction.PkScript := pk |>).
Proof. done. Qed.

Lemma commit_functions_conserving g commitId gasPrice results external instant idx data sizes :
  Forall (λ f, ∀ f', f = Some f' → function_ok g f') data →
  conserving (commit_functions g commitId gasPrice results external instant idx data sizes).
Proof.
  intros Hd.
  revert idx sizes. induction Hd as [|f data Hf Hd IH]; intros idx sizes; simpl;
    [keeping|].
  destruct sizes as [|size sizes]; [destruct f; keeping|]. destruct f as [f|]; [|keeping].
  apply keeping_bind; [apply _|keeping|]. intros [pk|e]; [|keeping]. cbv zeta.
  apply or_return_conserving; [keeping|].
  apply or_return_conserving; [by apply commit_function_conserving, function_ok_pkScript, Hf|].
  apply or_return_conserving; [destruct instant; keeping|].
  apply or_return_conserving; [keeping|done].
Qed.
End pools.
