(* ===== verification/SwapEffect.v ===== *)
(** * What a swap does to its pool and to its user

    The whole handler of a swap, on success: the reserves of the one pool it names move
    by the amounts [swap_amounts] gives, and so do the swap balances of its user; what
    follows for the product of the reserves, and for the price of an exact output. *)
From S2P Require Import Prelude GoStd Decimal Script Utils Json Model History Swap Indexer CondApprove Ledger Modules Commit PairNames SwapProof ModuleAcc ModuleSteps ModuleProof ModulePools.

(** The amounts of a commit are not negative. *)
Lemma tick_amount_nonneg `{GoUnicode} t s g d : tick_amount t s g = Ret d → 0 ≤ dval d.
Proof.
  unfold tick_amount, CheckTickVerify. destruct (_ !! ToLower t); [|by intros [= <-]].
  case_match; [by intros [= <-]|]. destruct (NewDecimalFromString _ _) as [amt| |]; [|by intros [= <-]|done].
  destruct (Z.ltb_spec (Sign (Some amt)) 0) as [|Hs]; [by intros [= <-]|].
  destruct (Cmp _ _) as [c| |]; [|done..]. simpl. case_match; intros [= <-]; simpl; [done|].
  rewrite Sign_dval in Hs. simpl in Hs. lia.
Qed.
Lemma CheckAmountVerify_nonneg s p r : CheckAmountVerify s p = Ret r → 0 ≤ dval r.1.
Proof.
  unfold CheckAmountVerify. destruct (NewDecimalFromString s p) as [d| |]; [|by intros [= <-]|done].
  destruct (Z.ltb_spec (Sign (Some d)) 0) as [|Hs]; intros [= <-]; [done|].
  rewrite Sign_dval in Hs. simpl in *. lia.
Qed.

Section swap.
Context `{Spelling, Config, BtcAddr}.
Implicit Types m : BRC20ModuleSwapInfo.

(** The swap balance of [a] for the ticker. *)
Definition swap_of m (t a : string) : Z :=
  match Mod.UsersTokenBalanceDataMap m !! a ≫= lookup t with
  | Some l => from_option (λ b, dval (MBal.SwapAccountBalance b)) 0 (Mod.Balances m !! l)
  | None => 0
  end.
Lemma swap_of_holder m t a l b :
  holder m t a l → Mod.Balances m !! l = Some b → swap_of m t a = dval (MBal.SwapAccountBalance b).
Proof. unfold swap_of, holder. by intros -> ->. Qed.

(** A write through a pointer. *)
Lemma swap_of_set l b b' m t a t' a' :
  mod_inv m → holder m t a l → Mod.Balances m !! l = Some b →
  swap_of (set_balance l b' m) t' a' = swap_of m t' a' +
    (if bool_decide (a' = a) then point t (dval (MBal.SwapAccountBalance b') - dval (MBal.SwapAccountBalance b)) t' else 0).
Proof.
  intros Hm Hl Hb. unfold point. assert (∀ t' a', holder (set_balance l b' m) t' a' = holder m t' a') as Hh by done.
  destruct (mi_object _ Hm _ _ _ Hl) as (b0 & Hb0 & Ea & Et). assert (b0 = b) as -> by congruence.
  destruct (decide (t = t' ∧ a' = a)) as [[<- ->]|Hne].
  - rewrite !bool_decide_eq_true_2 by done. rewrite (swap_of_holder m t a l b) by done.
    rewrite (swap_of_holder (set_balance l b' m) t a l b'); [lia|done|]. unfold set_balance. rsimpl. apply lookup_insert_eq.
  - assert (swap_of (set_balance l b' m) t' a' = swap_of m t' a') as ->.
    { unfold swap_of. change (Mod.UsersTokenBalanceDataMap (set_balance l b' m)) with (Mod.UsersTokenBalanceDataMap m).
      destruct (Mod.UsersTokenBalanceDataMap m !! a' ≫= lookup t') as [l'|] eqn:El; [|done].
      unfold set_balance. rsimpl. rewrite lookup_insert_ne; [done|]. intros <-. apply Hne.
      destruct (mi_object _ Hm _ _ _ El) as (b1 & Hb1 & <- & <-). by assert (b1 = b) as -> by congruence. }
    case_bool_decide; [case_bool_decide; [by destruct Hne|]|]; lia.
Qed.

(** ** Steps

    [m0] with [D] added to the swap balances of [a], and the pools [P]. *)
Record swapped (a : string) m0 (D : string → Z) (P : gmap string BRC20ModulePoolTotalBalance) m : Prop := {
  sw_inv : mod_inv m;
  sw_of t b : swap_of m t b = swap_of m0 t b + (if bool_decide (b = a) then D t else 0);
  sw_pools : Mod.SwapPoolTotalBalanceDataMap m = P;
}.
Definition on_success {A} (f : ModM A) m (Q : A → BRC20ModuleSwapInfo → Prop) : Prop := holds f m Q (λ _, True).
Lemma swapped_refl a m : mod_inv m → swapped a m zero (Mod.SwapPoolTotalBalanceDataMap m) m.
Proof. intros Hm. split; [done| |done]. intros. unfold zero. case_match; lia. Qed.

(** A step that keeps the invariant, by its effect on swap balances and pools. *)
Lemma swapped_step {A} a m0 D P D' P' m (f : ModM A) (Q : A → BRC20ModuleSwapInfo → Prop) DL DM :
  swapped a m0 D P m →
  holds f m (λ x m', moved m DL DM m m' ∧ Q x m') (λ _, True) →
  on_success f m (λ _ m', (∀ t b, swap_of m' t b = swap_of m t b + (if bool_decide (b = a) then D' t else 0)) ∧
    Mod.SwapPoolTotalBalanceDataMap m' = P') →
  on_success f m (λ x m', swapped a m0 (λ t, D t + D' t) P' m' ∧ grow m m' ∧ Q x m').
Proof.
  intros [Hm Hs Hp] Hacc Hsw. eapply holds_mono; [exact (holds_and _ _ _ _ _ _ Hacc Hsw)| |done].
  intros x m' (((Ha & Hg) & HQ) & Hs' & Hp'). split; [|done]. split; [apply Ha| |done].
  intros t b. rewrite Hs', Hs. case_match; lia.
Qed.
Lemma swapped_zero a m0 D P m : swapped a m0 (λ t, D t + 0) P m → swapped a m0 D P m.
Proof. intros [Hm Hs Hp]. split; [done| |done]. intros t b. rewrite Hs. case_match; lia. Qed.

Lemma GetUserTokenBalance_swapped t u a m0 D P m :
  swapped a m0 D P m →
  on_success (Module_GetUserTokenBalance t u) m
    (λ l m', swapped a m0 D P m' ∧ grow m m' ∧ holder m' (ToLower t) u l).
Proof.
  intros Hs. pose proof Hs as [Hm _ Hp]. eapply holds_post; [eapply (swapped_step _ _ _ _ (λ _, 0) P)|].
  - exact Hs.
  - apply GetUserTokenBalance_acc with (D := zero) (DL := zero), acc_refl, Hm.
  - unfold Module_GetUserTokenBalance. apply holds_bind, holds_get.
    destruct (default ∅ (Mod.UsersTokenBalanceDataMap m !! u) !! ToLower t) as [l|] eqn:El.
    { apply holds_ret. split; [|done]. intros. case_match; lia. }
    apply holds_bind. unfold mod_alloc. apply holds_bind, holds_get, holds_bind, holds_modify, holds_ret.
    set (l := fresh _). apply holds_bind, holds_modify, holds_ret. split; [|done]. intros t' b.
    transitivity (swap_of m t' b); [|case_match; lia]. unfold swap_of. rsimpl.
    set (us := default ∅ _) in *.
    assert (Mod.Balances m !! l = None) as Hl by (apply not_elem_of_dom; unfold l; apply is_fresh).
    assert (∀ l', holder m t' b l' → Mod.Balances m !! l' ≠ None) as Hsome.
    { intros l' (b0 & -> & _)%(mi_object _ Hm). done. }
    unfold holder in Hsome. destruct (decide (u = b)) as [<-|Hne].
    + rewrite lookup_insert_eq. simpl.
      assert (Mod.UsersTokenBalanceDataMap m !! u ≫= lookup t' = us !! t') as Eus.
      { unfold us. by destruct (Mod.UsersTokenBalanceDataMap m !! u). }
      rewrite Eus in *. destruct (decide (ToLower t = t')) as [<-|Hne].
      * by rewrite lookup_insert_eq, lookup_insert_eq, El.
      * rewrite lookup_insert_ne by done. destruct (us !! t') as [l'|]; [|done].
        rewrite lookup_insert_ne; [done|]. intros <-. by apply (Hsome l).
    + rewrite lookup_insert_ne by done. destruct (_ ≫= lookup t') as [l'|]; [|done].
      rewrite lookup_insert_ne; [done|]. intros <-. by apply (Hsome l).
  - simpl. intros l m' (Hsw & Hg & Hh). split; [by apply swapped_zero|done].
Qed.

(** Writes through a pointer of [a]. *)
Lemma mod_update_swapped l f v t a m0 D P m :
  adds v f → (∀ b b', f b = Ret b' → dval (MBal.SwapAccountBalance b') = dval (MBal.SwapAccountBalance b) + v) →
  swapped a m0 D P m → holder m t a l →
  on_success (mod_update l f) m (λ _ m', swapped a m0 (λ t', D t' + point t v t') P m' ∧ grow m m').
Proof.
  intros Hadds Hv Hs Hl. pose proof Hs as [Hm _ Hp].
  eapply holds_post; [eapply (swapped_step _ _ _ _ (point t v) P _ _ (λ _ _, True)); [exact Hs| |]|].
  - eapply holds_post; [eapply (mod_update_acc l f v t a m zero zero m); [done|by apply acc_refl|done]|].
    by intros [] m' ?.
  - unfold mod_update. apply holds_bind, mod_load_holds. intros b Hb. apply holds_bind, holds_lift; [|done].
    intros b' E%Hv. unfold mod_store. apply holds_bind, mod_load_holds. intros b0 Hb0. apply holds_modify.
    split; [|done]. intros t' u. change (_ <| Mod.Balances ::= _ |>) with (set_balance l b' m).
    rewrite (swap_of_set l b b' m t a) by done. case_match; [|done]. do 2 f_equal. lia.
  - intros [] m' (? & ? & _). done.
Qed.
Lemma debit_swap_swapped l amt t a m0 D P m :
  swapped a m0 D P m → holder m t a l →
  on_success (debit_swap l amt) m (λ _ m', swapped a m0 (λ t', D t' + point t (- dval amt) t') P m' ∧ grow m m').
Proof. apply mod_update_swapped; [apply debit_swap_adds|]. intros b b' E. outcome_inv. simpl. lia. Qed.
Lemma credit_swap_swapped l amt t a m0 D P m :
  swapped a m0 D P m → holder m t a l →
  on_success (credit_swap l amt) m (λ _ m', swapped a m0 (λ t', D t' + point t (dval amt) t') P m' ∧ grow m m').
Proof. apply mod_update_swapped; [apply credit_swap_adds|]. intros b b' E. outcome_inv. simpl. lia. Qed.
Lemma set_height_swapped h l t a m0 D P m :
  swapped a m0 D P m → holder m t a l →
  on_success (set_height h l) m (λ _ m', swapped a m0 D P m' ∧ grow m m').
Proof.
  intros Hs Hl. pose proof Hs as [Hm _ Hp].
  eapply holds_post; [eapply (swapped_step _ _ _ _ (λ _, 0) P _ _ (λ _ _, True)); [exact Hs| |]|].
  - eapply holds_post; [eapply (set_height_acc h l t a m zero zero m); [by apply acc_refl|done]|].
    by intros [] m' ?.
  - unfold set_height, mod_store. apply holds_bind, mod_load_holds. intros b Hb. apply holds_modify.
    split; [|done]. intros t' u. change (_ <| Mod.Balances ::= _ |>) with (set_balance l (b <| MBal.UpdateHeight := h |>) m).
    rewrite (swap_of_set l b _ m t a) by done. case_match; [|done]. unfold point. rsimpl. case_match; lia.
  - intros [] m' (? & ? & _). split; [by apply swapped_zero|done].
Qed.
Lemma check_swap_enough l amt msg t a m0 D P m :
  swapped a m0 D P m → holder m t a l →
  on_success (check_swap l amt msg) m (λ _ m', m' = m ∧ dval amt ≤ swap_of m t a).
Proof.
  intros Hs Hl. unfold check_swap. apply holds_bind, mod_load_holds. intros b Hb.
  apply holds_bind, holds_lift; [|done]. intros c ->%Cmp_inv. destruct (Z.ltb_spec (cmp (dval (MBal.SwapAccountBalance b)) (dval amt)) 0) as [|Hc].
  - by apply holds_throw.
  - apply holds_ret. split; [done|]. rewrite (swap_of_holder m t a l b) by done.
    unfold cmp in Hc. destruct (Z.compare_spec (dval (MBal.SwapAccountBalance b)) (dval amt)); lia.
Qed.

(** A write to a pool. *)
Lemma update_pool_swapped pair f tk V a m0 D P m pool :
  pool_adds tk V 0 f → swapped a m0 D P m → P !! pair = Some pool → Pool.Tick pool = tk →
  on_success (update_pool pair f) m
    (λ _ m', (∃ pool', f pool = Ret pool' ∧ swapped a m0 D (<[pair := pool']> P) m') ∧ grow m m').
Proof.
  intros Hf Hs Hpool Htk. pose proof Hs as [Hm _ Hp].
  unfold update_pool, load_pool. apply holds_bind, holds_bind, holds_get. rewrite Hp, Hpool. apply holds_ret.
  apply holds_bind, holds_lift; [|done]. intros pool' E.
  eapply holds_post; [eapply (swapped_step _ _ _ _ (λ _, 0) (<[pair := pool']> P) _ _ (λ _ _, True)); [exact Hs| |]|].
  - eapply holds_post; [apply (store_pool_acc pair pool pool' m zero zero m);
      [by apply acc_refl|by rewrite Hp|]|by intros [] m' ?].
    destruct Hf as [_ Hf]. destruct (Hf pool pool' Htk E) as [E' _]. congruence.
  - apply holds_modify. split; [|by rewrite <-Hp]. intros t u.
    match goal with |- swap_of ?m' t u = _ => change (swap_of m' t u) with (swap_of m t u) end. case_match; lia.
  - intros [] m' (? & ? & _). split; [|done]. exists pool'. split; [done|by apply swapped_zero].
Qed.

(** ** The handler *)
Definition reserve (i : bool) (pool : BRC20ModulePoolTotalBalance) : Z := dval (tick_balance i pool).
(** [ain] of [tin] go from the user to reserve [i], [aout] of [tout] from the other one. *)
Record swap_effect (a pair tin tout : string) (i : bool) (ain aout : Z) pool m m' : Prop := {
  se_user t b : swap_of m' t b = swap_of m t b +
    (if bool_decide (b = a) then point (ToLower tin) (- ain) t + point (ToLower tout) aout t else 0);
  se_pool : ∃ pool', Mod.SwapPoolTotalBalanceDataMap m' = <[pair := pool']> (Mod.SwapPoolTotalBalanceDataMap m) ∧
    reserve i pool' = reserve i pool + ain ∧ reserve (negb i) pool' = reserve (negb i) pool - aout;
}.

Lemma pool_give_reserve i amt pool pool' :
  pool_give i amt pool = Ret pool' →
  reserve i pool' = reserve i pool - dval amt ∧ reserve (negb i) pool' = reserve (negb i) pool ∧
  Pool.Tick pool' = Pool.Tick pool.
Proof. unfold pool_give. intros E. outcome_inv. by destruct i. Qed.
Lemma pool_take_reserve i amt pool pool' :
  pool_take i amt pool = Ret pool' →
  reserve i pool' = reserve i pool + dval amt ∧ reserve (negb i) pool' = reserve (negb i) pool ∧
  Pool.Tick pool' = Pool.Tick pool.
Proof. unfold pool_take. intros E. outcome_inv. by destruct i. Qed.

Ltac advance L := apply holds_bind; eapply holds_post; [eapply L; eassumption|cbv beta].
Lemma swap_apply_effect g f pair tin tout i amt ain aout pool m :
  mod_inv m → Mod.SwapPoolTotalBalanceDataMap m !! pair = Some pool →
  on_success (swap_apply g f pair tin tout i amt ain aout) m (λ _ m',
    dval amt ≤ swap_of m (ToLower tin) (SwapFunction.PkScript f) ∧
    swap_effect (SwapFunction.PkScript f) pair tin tout i (dval ain) (dval aout) pool m m').
Proof.
  intros Hm Hp. unfold swap_apply. set (a := SwapFunction.PkScript f).
  pose proof (swapped_refl a m Hm) as Hs. set (P := Mod.SwapPoolTotalBalanceDataMap m) in *.
  advance (GetUserTokenBalance_swapped tin). intros lin m1 (Hs1 & _ & Hin).
  advance (GetUserTokenBalance_swapped tout). intros lout m2 (Hs2 & Hg2 & Hout). carry.
  advance (set_height_swapped). intros [] m3 (Hs3 & Hg3). carry.
  apply holds_bind; eapply holds_post; [eapply (set_height_swapped _ lout); eassumption|cbv beta]. intros [] m4 (Hs4 & Hg4). carry.
  advance check_swap_enough. intros [] m5 [-> Henough].
  assert (dval amt ≤ swap_of m (ToLower tin) a) as Hge.
  { rewrite (sw_of _ _ _ _ _ Hs4) in Henough. unfold zero in Henough. case_match; lia. }
  apply holds_bind. eapply holds_post; [eapply (update_pool_swapped pair _ (Pool.Tick pool)); [apply pool_give_adds|exact Hs4|exact Hp|done]|].
  intros [] m6 [(p1 & E1 & Hs6) Hg6]. carry. apply pool_give_reserve in E1 as (G1 & G2 & G3).
  apply holds_bind. eapply holds_post; [by eapply (debit_swap_swapped lin)|]. intros [] m7 [Hs7 Hg7]. carry.
  apply holds_bind. eapply holds_post; [eapply (update_pool_swapped pair _ (Pool.Tick pool)); [apply pool_take_adds|exact Hs7|apply lookup_insert_eq|done]|].
  intros [] m8 [(p2 & E2 & Hs8) Hg8]. carry. apply pool_take_reserve in E2 as (T1 & T2 & T3).
  apply holds_bind. eapply holds_post; [by eapply (credit_swap_swapped lout)|]. intros [] m9 [Hs9 Hg9].
  rewrite insert_insert_eq in Hs9.
  eapply holds_post; [eapply (update_pool_swapped pair _ (Pool.Tick pool)); [|exact Hs9|apply lookup_insert_eq|congruence]|].
  { instantiate (1 := zero). split; [done|]. intros p p' Htk [= <-]. split; [done|]. split; [|simpl; lia].
    intros t. unfold zero. rewrite Z.add_0_r. done. }
  intros [] m10 [(p3 & [= <-] & Hs10) _]. split; [done|]. split.
  - intros t b. rewrite (sw_of _ _ _ _ _ Hs10). unfold zero. by case_match.
  - exists (p2 <| Pool.UpdateHeight := G.BestHeight g |>).
    split; [rewrite (sw_pools _ _ _ _ _ Hs10); apply insert_insert_eq|].
    change (reserve i p2 = reserve i pool + dval ain ∧ reserve (negb i) p2 = reserve (negb i) pool - dval aout).
    rewrite negb_involutive in G2. lia.
Qed.

(** What a swap that succeeds has computed: of the tokens and the pool it names, its
    direction, its amounts, its slippage and the fee rate of the module. *)
Record swap_done g f m m' (token0 token1 : string) pool req (tin tout slip : option Decimal)
    (fee : option Decimal * bool) (ain aout : option Decimal) : Prop := {
  sd_tokens : function_tokens "func: swap poolPair invalid" g f = Ret (token0, token1);
  sd_pool : Mod.SwapPoolTotalBalanceDataMap m !! GetLowerInnerPairNameByToken token0 token1 = Some pool;
  sd_request : swap_direction token0 token1 (offset g) f = Ret req;
  sd_in : tick_amount (token_in req) (amt_in_str req) g = Ret tin;
  sd_out : tick_amount (token_out req) (amt_out_str req) g = Ret tout;
  sd_fee : CheckAmountVerify (Mod.FeeRateSwap m) 3 = Ret fee;
  sd_amounts : let i := token_idx (token_in req) pool in
    swap_amounts (exact_in req) (tick_balance i pool) (tick_balance (negb i) pool) tin tout slip fee.1 = Ret (ain, aout);
  sd_reserve : dval aout ≤ reserve (negb (token_idx (token_in req) pool)) pool;
  sd_balance : dval tin ≤ swap_of m (ToLower (token_in req)) (SwapFunction.PkScript f);
  sd_effect : swap_effect (SwapFunction.PkScript f) (GetLowerInnerPairNameByToken token0 token1)
    (token_in req) (token_out req) (token_idx (token_in req) pool) (dval ain) (dval aout) pool m m';
}.
Lemma Swap_done g f m :
  mod_inv m → on_success (ProcessCommitFunctionSwap g f) m
    (λ _ m', ∃ token0 token1 pool req tin tout slip fee ain aout,
       swap_done g f m m' token0 token1 pool req tin tout slip fee ain aout).
Proof.
  intros Hm. unfold ProcessCommitFunctionSwap.
  apply holds_bind, holds_lift; [|done]. intros [token0 token1] Et. cbv zeta.
  apply holds_bind. eapply holds_post; [by apply load_pool_holds|]. intros pool ? [-> Hp].
  do 2 (case_match; [by apply holds_throw|]).
  apply holds_bind, holds_lift; [|done]. intros req Er.
  apply holds_bind, holds_lift; [|done]. intros tin Ein. apply holds_bind, holds_lift; [|done]. intros tout Eout.
  apply holds_bind, holds_lift; [|done]. intros slipStr _. apply holds_bind, holds_lift; [|done]. intros slip _.
  apply holds_bind, holds_get, holds_bind, holds_lift; [|done]. intros fee Ef.
  apply holds_bind, holds_lift; [|done]. intros [ain aout] Ea. apply holds_bind, holds_lift; [|done]. intros [] Ec.
  assert (dval aout ≤ reserve (negb (token_idx (token_in req) pool)) pool) as Hle.
  { unfold check_pool in Ec. apply outcome_bind_inv in Ec as (c & ->%Cmp_inv & Ec).
    unfold cmp in Ec. unfold reserve. destruct (Z.compare_spec (dval (tick_balance (negb (token_idx (token_in req) pool)) pool)) (dval aout)); [lia|done|lia]. }
  eapply holds_post; [by eapply swap_apply_effect|]. intros [] m' [Hbal He].
  exists token0, token1, pool, req, tin, tout, slip, fee, ain, aout. by split.
Qed.

(** C21: A swap that succeeds leaves every pool sound: in a well-formed module whose
    reserves are not negative and whose fee rate is below 100%, it changes the one pool
    of the two tokens it names, takes no more than the reserve, leaves no reserve
    negative, and never lowers the product of the two reserves. *)
Theorem swap_keeps_product g f m m' :
  mod_inv m →
  (∀ pair pool i, Mod.SwapPoolTotalBalanceDataMap m !! pair = Some pool → 0 ≤ reserve i pool) →
  (∀ fee, CheckAmountVerify (Mod.FeeRateSwap m) 3 = Ret fee → dval fee.1 < 1000) →
  ProcessCommitFunctionSwap g f m = (Ret tt, m') →
  ∃ token0 token1 pool pool', let pair := GetLowerInnerPairNameByToken token0 token1 in
    function_tokens "func: swap poolPair invalid" g f = Ret (token0, token1) ∧
    Mod.SwapPoolTotalBalanceDataMap m !! pair = Some pool ∧
    Mod.SwapPoolTotalBalanceDataMap m' = <[pair := pool']> (Mod.SwapPoolTotalBalanceDataMap m) ∧
    (∀ i, 0 ≤ reserve i pool') ∧
    reserve false pool * reserve true pool ≤ reserve false pool' * reserve true pool'.
Proof.
  intros Hm Hres Hfee E.
  destruct (holds_run _ _ _ _ _ _ (Swap_done g f m Hm) E)
    as (token0 & token1 & pool & req & tin & tout & slip & fee & ain & aout & Hd).
  destruct (se_pool _ _ _ _ _ _ _ _ _ _ (sd_effect _ _ _ _ _ _ _ _ _ _ _ _ _ _ Hd)) as (pool' & Ep & Ei & Eo).
  pose proof (sd_pool _ _ _ _ _ _ _ _ _ _ _ _ _ _ Hd) as Hp.
  pose proof (λ i, Hres _ _ i Hp) as Hr. pose proof (sd_fee _ _ _ _ _ _ _ _ _ _ _ _ _ _ Hd) as Ef.
  destruct (swap_amounts_product (exact_in req) _ _ tin tout slip fee.1 ain aout
    (Hr (token_idx (token_in req) pool)) (Hr (negb (token_idx (token_in req) pool)))) as (Hin & Hout & Hk).
  - by eapply tick_amount_nonneg, (sd_in _ _ _ _ _ _ _ _ _ _ _ _ _ _ Hd).
  - by eapply tick_amount_nonneg, (sd_out _ _ _ _ _ _ _ _ _ _ _ _ _ _ Hd).
  - split; [by eapply CheckAmountVerify_nonneg|by apply Hfee].
  - apply Hd.
  - apply Hd.
  - pose proof (sd_reserve _ _ _ _ _ _ _ _ _ _ _ _ _ _ Hd) as Hle.
    exists token0, token1, pool, pool'. split; [apply Hd|]. split; [done|]. split; [done|].
    set (j := token_idx (token_in req) pool) in *.
    change (dval (tick_balance j pool)) with (reserve j pool) in *.
    change (dval (tick_balance (negb j) pool)) with (reserve (negb j) pool) in *.
    pose proof (Hr j). pose proof (Hr (negb j)).
    assert (0 ≤ reserve j pool') by lia. assert (0 ≤ reserve (negb j) pool') by lia.
    assert (reserve j pool * reserve (negb j) pool ≤ reserve j pool' * reserve (negb j) pool') by (rewrite Ei, Eo; lia).
    clearbody j. split; [intros i; destruct j, i|destruct j]; simpl in *; lia.
Qed.

End swap.
