(* ===== verification/ModuleOps.v ===== *)
(** * Approves, withdraws, deposits and conditional approves on the accounts of a module

    Approves and conditional approves move an amount between the balances of users and
    conserve every ticker; a deposit adds exactly its amount and a withdraw takes it. *)
From S2P Require Import Prelude GoStd Decimal Script Utils Json Model History Swap Indexer CondApprove Ledger Modules Commit PairNames SwapProof ModuleAcc ModuleSteps ModuleProof.

Section ops.
Context `{Spelling}.
Implicit Types m : BRC20ModuleSwapInfo.

(** ** Writes outside the accounts *)
Definition accounts m :=
  (Mod.Balances m, Mod.UsersTokenBalanceDataMap m, Mod.TokenUsersBalanceDataMap m,
   Mod.LPTokenUsersBalanceMap m, Mod.UsersLPTokenBalanceMap m, Mod.SwapPoolTotalBalanceDataMap m).

Lemma accounts_acc m m' m0 D DL :
  accounts m' = accounts m → acc m0 D DL m → moved m0 D DL m m'.
Proof.
  intros E [Hm Ht Hl]. unfold accounts in E. injection E as E1 E2 E3 E4 E5 E6.
  assert (∀ t a l, holder m' t a l ↔ holder m t a l) as Hh by (intros; unfold holder; by rewrite E2).
  assert (∀ t, module_total m' t = module_total m t) as Ht'.
  { intros t. unfold module_total, user_total, pool_total. rewrite E2, E6. f_equal.
    apply msum_ext. intros a tokens _. unfold holding_at. by rewrite E1. }
  assert (∀ p, lp_held m' p - lp_supply m' p = lp_held m p - lp_supply m p) as Hl'.
  { intros p. unfold lp_held, lp_supply. by rewrite E4, E6. }
  split; [split; [|intros t; by rewrite Ht'|intros p; by rewrite Hl']|split].
  - split.
    + intros t a l. rewrite Hh, E1. apply Hm.
    + intros t a l. rewrite Hh, E3. apply Hm.
    + rewrite E6. apply Hm.
    + rewrite E4, E6. apply Hm.
    + intros p a. unfold lp_in_pool, lp_of_user. rewrite E4, E5. apply (mi_agree _ Hm).
  - intros t a l. by rewrite Hh.
  - intros p tk. unfold pool_tick. by rewrite E6.
Qed.

Lemma modify_acc f m0 D DL m E :
  (∀ m, accounts (f m) = accounts m) → acc m0 D DL m →
  holds (modify f) m (λ _, moved m0 D DL m) E.
Proof. intros Hf Ha. apply holds_modify. by apply accounts_acc. Qed.
Lemma mod_history_acc h m0 D DL m E :
  acc m0 D DL m → holds (mod_history h) m (λ _, moved m0 D DL m) E.
Proof. by apply modify_acc. Qed.
Lemma mod_history_valid_acc v m0 D DL m E :
  acc m0 D DL m → holds (mod_history_valid v) m (λ _, moved m0 D DL m) E.
Proof. by apply modify_acc. Qed.
Lemma update_state_balance_acc t f m0 D DL m E :
  (∀ s, no_error (f s)) → acc m0 D DL m →
  holds (update_state_balance t f) m (λ _, moved m0 D DL m) E.
Proof.
  intros Hf Ha. unfold update_state_balance. apply holds_bind, holds_get, holds_bind.
  eapply holds_post; [by eapply modify_acc|]. intros [] m1 [Ha1 Hg1].
  apply holds_bind, holds_lift; [|intros e E'; by destruct (Hf _ _ E')]. intros s _.
  eapply holds_post; [by eapply modify_acc|]. intros [] m2 [Ha2 Hg2]. split; [done|by eapply grow_trans].
Qed.

Lemma mod_find_balance_holds t a e1 e2 m (E : _ → Prop) :
  E m → holds (mod_find_balance t a e1 e2) m (λ l m', m' = m ∧ holder m t a l) E.
Proof.
  intros HE. unfold mod_find_balance, holder. apply holds_bind, holds_get.
  destruct (_ !! a) as [tokens|]; [|by apply holds_throw]. simpl.
  destruct (tokens !! t); [by apply holds_ret|by apply holds_throw].
Qed.
#[local] Hint Extern 1 (∀ _, accounts _ = accounts _) => done : core.

(** ** Approve *)
Lemma approve_move_conserving h data info from a m m' :
  acc m zero zero m' → grow m m' → holder m' (ToLower (SwapInfo.Tick info)) a from →
  ∀ receiver, holds (approve_move h data info from receiver) m' (λ _, conserves m) (conserves m).
Proof.
  intros Ha Hg Hfrom receiver. unfold approve_move. mstep GetUserTokenBalance_acc.
  mupd (- dval (SwapInfo.Amount info)).
  eapply holds_post; [mupd_holds (dval (SwapInfo.Amount info))|intros ? ? [? ?]]. mclose.
Qed.

Lemma approve_module_conserving h data info isInvalid :
  conserving (approve_module h data info isInvalid).
Proof.
  mstart m Hm. unfold approve_module. cbv zeta. apply holds_bind.
  eapply holds_post; [apply mod_find_balance_holds; by split|]. intros from ? [-> Hl].
  apply holds_bind, mod_load_holds. intros b _.
  destruct (bool_decide (_ = None)); [by apply holds_throw; split|].
  mlift. mstep mod_history_acc. destruct isInvalid; [|by eapply approve_move_conserving].
  eapply holds_post; [by eapply mod_store_acc|intros ? ? [? ?]].
  split; [done|by eapply grow_trans].
Qed.

Lemma lock_approve_adds h data amt : adds 0 (lock_approve h data amt).
Proof. unfold lock_approve. solve_adds. Qed.

(** ** Withdraw *)
Lemma withdraw_module_acc data info m :
  mod_inv m →
  holds (withdraw_module data info) m
    (λ _, moved m (point (ToLower (SwapInfo.Tick info)) (- dval (SwapInfo.Amount info))) zero m)
    (conserves m).
Proof.
  intros Hm. pose proof (acc_refl m Hm) as Ha. pose proof (grow_refl m) as Hg0.
  unfold withdraw_module. cbv zeta. apply holds_bind.
  eapply holds_post; [apply mod_find_balance_holds; by split|]. intros from ? [-> Hl].
  apply holds_bind, mod_load_holds. intros b _.
  destruct (bool_decide (_ = None)); [by apply holds_throw; split|]. mupd_same.
  apply holds_bind, mod_load_holds. intros b1 _. do 2 mlift. mstep mod_history_acc.
  destruct (_ <? 0).
  - mstep mod_store_acc. apply holds_throw. by split.
  - eapply holds_post; [mupd_holds (- dval (SwapInfo.Amount info))|intros ? ? [? ?]]. mclose.
Qed.

(** An optional change of the confirmed part. *)
Lemma safe_holds {b : bool} (d amt d' : option Decimal) m E :
  holds (if b then lift (Add d amt) else mret d') m (λ _ m', m' = m) E.
Proof.
  destruct b; [|done]. apply holds_lift; [done|]. intros e E'. by destruct (Add_no_error _ _ _ E').
Qed.

(** ** Deposit *)
Lemma module_deposit_acc info sender data meta m E :
  mod_inv m →
  holds (module_deposit info sender data meta) m
    (λ _, moved m (point (ToLower (TickInfo.Tick info)) (dval (TickInfo.Amount info))) zero m) E.
Proof.
  intros Hm. pose proof (acc_refl m Hm) as Ha. pose proof (grow_refl m) as Hg0.
  unfold module_deposit. cbv zeta. mstep mod_history_acc. mstep GetUserTokenBalance_acc.
  apply holds_bind, mod_load_holds. intros b Hb. apply holds_bind.
  eapply holds_post; [apply safe_holds|intros safe ? ->]. apply holds_bind, holds_lift; [|intros e E'; by destruct (Add_no_error _ _ _ E')].
  intros swap Eswap%Add_inv. apply holds_bind.
  eapply holds_post; [eapply (mod_store_adds_acc _ _ _ (dval (TickInfo.Amount info))); eauto|madvance].
  { holding. }
  mdone update_state_balance_acc.
Qed.

(** ** Conditional approves *)
Lemma apply_event_conserving h event : conserving (apply_event h event).
Proof.
  mstart m Hm. unfold apply_event. cbv zeta. do 2 mlift. mstep mod_history_acc. apply holds_bind.
  eapply holds_post; [apply mod_find_balance_holds; by split|]. intros from ? [-> Hl].
  apply holds_bind, mod_load_holds. intros b _.
  destruct (bool_decide (_ = None)); [by apply holds_throw; split|].
  mstep GetUserTokenBalance_acc. apply holds_bind, mod_load_holds. intros b1 Hb1.
  apply holds_bind, holds_lift; [|intros e E'; by destruct (Sub_no_error _ _ _ E')].
  intros c Ec%Sub_inv. apply holds_bind.
  eapply holds_post; [eapply (mod_store_adds_acc _ _ _ (- dval (Event.Amount event))); eauto|madvance].
  { holding. }
  apply holds_bind, mod_load_holds. intros b2 Hb2. apply holds_bind.
  eapply holds_post; [apply safe_holds|intros safe ? ->].
  apply holds_bind, holds_lift; [|intros e E'; by destruct (Add_no_error _ _ _ E')].
  intros d Ed%Add_inv. apply holds_bind.
  eapply holds_post; [eapply (mod_store_adds_acc _ _ _ (dval (Event.Amount event))); eauto|madvance].
  { holding. }
  eapply holds_post; [eapply update_state_balance_acc; [|done]|intros ? ? [? ?]; mclose].
  intros s. case_bool_decide; eauto with noerr.
Qed.

(** The part of a conditional approve inscription on the module of its balance [b]. *)
Lemma lock_cond_approve_conserving h data amt l b t a m :
  mod_inv m → holder m t a l → Mod.Balances m !! l = Some b →
  holds (mod_history_valid true ;;
    safe ← lift (Sub (MBal.AvailableBalanceSafe b) amt);
    available ← lift (Sub (MBal.AvailableBalance b) amt);
    condApproveable ← lift (Add (MBal.CondApproveableBalance b) amt);
    mod_store l (λ b, b
      <| MBal.AvailableBalanceSafe := safe |>
      <| MBal.AvailableBalance := available |>
      <| MBal.CondApproveableBalance := condApproveable |>
      <| MBal.ValidConditionalApproveMap ::= <[Data.CreateIdxKey data := data]> |>
      <| MBal.UpdateHeight := h |>)) m (λ _, conserves m) (conserves m).
Proof.
  intros Hm Hl Hb. apply holds_bind, holds_modify.
  match goal with |- holds _ ?m1 _ _ => set (m1' := m1) end.
  destruct (accounts_acc m m1' m zero zero eq_refl (acc_refl m Hm)) as [Ha Hg].
  do 2 (apply holds_bind, holds_lift; [|intros e E'; by destruct (Sub_no_error _ _ _ E')]; intros ? ?%Sub_inv).
  apply holds_bind, holds_lift; [|intros e E'; by destruct (Add_no_error _ _ _ E')]. intros ? ?%Add_inv.
  eapply holds_post; [eapply (mod_store_adds_acc _ _ b 0 t a); [done| |done|done]|intros ? ? [? ?]; mclose].
  holding.
Qed.
End ops.
