(* ===== verification/ModuleBooks.v ===== *)
(** * The modules of the indexer

    The accounts of all modules under the handlers of the indexer: what each handler
    does to the totals of every module. *)
From S2P Require Import Prelude GoStd Decimal Script Utils Json Model History Swap Indexer CondApprove Ledger Modules Commit PairNames SwapProof ModuleAcc ModuleSteps ModuleProof ModulePools ModuleOps.

Section books.
Context `{Spelling}.
Implicit Types (g : BRC20ModuleIndexer) (m : BRC20ModuleSwapInfo).

(** ** Accounts of the indexer *)
Definition mods_ok g : Prop := ∀ id m, G.ModulesInfoMap g !! id = Some m → mod_inv m.

(** What module [id] holds of a ticker, and the LP tokens of a pool its users have
    beyond the recorded supply. *)
Definition mod_total g (id t : string) : Z :=
  match G.ModulesInfoMap g !! id with Some m => module_total m t | None => 0 end.
Definition lp_excess g (id pair : string) : Z :=
  match G.ModulesInfoMap g !! id with Some m => lp_held m pair - lp_supply m pair | None => 0 end.

(** [g'] has the accounts of [g], with [v] of [t] more in module [id]. *)
Record booked (id t : string) (v : Z) g g' : Prop := {
  bk_ok : mods_ok g';
  bk_total i u : mod_total g' i u = mod_total g i u + (if bool_decide (i = id ∧ u = t) then v else 0);
  bk_lp i pair : lp_excess g' i pair = lp_excess g i pair;
  bk_none i : G.ModulesInfoMap g !! i = None → G.ModulesInfoMap g' !! i = None;
  bk_grow i m : G.ModulesInfoMap g !! i = Some m →
    ∃ m', G.ModulesInfoMap g' !! i = Some m' ∧ grow m m';
}.
(** The same accounts. *)
Record books g g' : Prop := {
  bs_ok : mods_ok g';
  bs_total i u : mod_total g' i u = mod_total g i u;
  bs_lp i pair : lp_excess g' i pair = lp_excess g i pair;
  bs_none i : G.ModulesInfoMap g !! i = None → G.ModulesInfoMap g' !! i = None;
  bs_grow i m : G.ModulesInfoMap g !! i = Some m →
    ∃ m', G.ModulesInfoMap g' !! i = Some m' ∧ grow m m';
}.

Lemma books_refl g : mods_ok g → books g g.
Proof. intros Hg. split; try done. intros i m Hm. exists m. by split; [|apply grow_refl]. Qed.
Lemma books_same g g' : mods_ok g → G.ModulesInfoMap g' = G.ModulesInfoMap g → books g g'.
Proof.
  intros Hg E. split.
  - intros id m. rewrite E. apply Hg.
  - intros. unfold mod_total. by rewrite E.
  - intros. unfold lp_excess. by rewrite E.
  - intros i. by rewrite E.
  - intros i m Hm. exists m. rewrite E. by split; [|apply grow_refl].
Qed.
Lemma grow_compose (g1 g2 g3 : BRC20ModuleIndexer) :
  (∀ i m, G.ModulesInfoMap g1 !! i = Some m → ∃ m', G.ModulesInfoMap g2 !! i = Some m' ∧ grow m m') →
  (∀ i m, G.ModulesInfoMap g2 !! i = Some m → ∃ m', G.ModulesInfoMap g3 !! i = Some m' ∧ grow m m') →
  ∀ i m, G.ModulesInfoMap g1 !! i = Some m → ∃ m', G.ModulesInfoMap g3 !! i = Some m' ∧ grow m m'.
Proof.
  intros H12 H23 i m (m2 & Hm2 & G2)%H12. apply H23 in Hm2 as (m3 & Hm3 & G3).
  exists m3. split; [done|by eapply grow_trans].
Qed.
Lemma books_trans g1 g2 g3 : books g1 g2 → books g2 g3 → books g1 g3.
Proof.
  intros [_ Ht1 Hl1 Hn1 Hg1] [Ho Ht2 Hl2 Hn2 Hg2]. split; [done|..|by eapply grow_compose].
  - intros. by rewrite Ht2, Ht1.
  - intros. by rewrite Hl2, Hl1.
  - auto.
Qed.
Lemma booked_books id t v g1 g2 g3 : booked id t v g1 g2 → books g2 g3 → booked id t v g1 g3.
Proof.
  intros [_ Ht1 Hl1 Hn1 Hg1] [Ho Ht2 Hl2 Hn2 Hg2]. split; [done|..|by eapply grow_compose].
  - intros. by rewrite Ht2, Ht1.
  - intros. by rewrite Hl2, Hl1.
  - auto.
Qed.
Lemma books_booked id t v g1 g2 g3 : books g1 g2 → booked id t v g2 g3 → booked id t v g1 g3.
Proof.
  intros [_ Ht1 Hl1 Hn1 Hg1] [Ho Ht2 Hl2 Hn2 Hg2]. split; [done|..|by eapply grow_compose].
  - intros. by rewrite Ht2, Ht1.
  - intros. by rewrite Hl2, Hl1.
  - auto.
Qed.
#[global] Instance books_Keep : Keep mods_ok books.
Proof. split; [exact books_refl|exact books_trans|]. by intros g g' []. Qed.
End books.
Abbreviation bookkeeping := (keeping mods_ok books).

Section on_module.
Context `{Spelling}.
Implicit Types (g : BRC20ModuleIndexer) (m : BRC20ModuleSwapInfo).

Definition set_module (id : string) m g : BRC20ModuleIndexer := g <| G.ModulesInfoMap ::= <[id := m]> |>.

Lemma set_module_booked id t v m m' g :
  mods_ok g → G.ModulesInfoMap g !! id = Some m → moved m (point t v) zero m m' →
  booked id t v g (set_module id m' g).
Proof.
  intros Hok Hm [[Hi Ht Hl] Hg]. unfold set_module. split.
  - intros i m1. rsimpl. rewrite lookup_insert_Some. intros [[<- <-]|[_ Hi']]; [done|by eapply Hok].
  - intros i u. unfold mod_total. rsimpl. destruct (decide (id = i)) as [<-|Hne].
    + rewrite lookup_insert_eq, Hm, Ht. unfold point. f_equal.
      destruct (decide (t = u)) as [<-|]; [by rewrite !bool_decide_eq_true_2|].
      by rewrite !bool_decide_eq_false_2 by (try intros [? ?]; congruence).
    + rewrite lookup_insert_ne, bool_decide_eq_false_2 by (try intros [? ?]; congruence). lia.
  - intros i p. unfold lp_excess. rsimpl. destruct (decide (id = i)) as [<-|Hne].
    + rewrite lookup_insert_eq, Hm, Hl. unfold zero. lia.
    + by rewrite lookup_insert_ne.
  - intros i Hi1. rsimpl. rewrite lookup_insert_ne; [done|congruence].
  - intros i m1 Hm1. rsimpl. destruct (decide (id = i)) as [<-|Hne].
    + rewrite lookup_insert_eq. exists m'. by replace m1 with m by congruence.
    + rewrite lookup_insert_ne by done. exists m1. by split; [|apply grow_refl].
Qed.
Lemma booked_zero id t g g' : booked id t 0 g g' → books g g'.
Proof. intros [Ho Ht Hl Hn Hg]. split; [done| |done..]. intros. rewrite Ht. case_bool_decide; lia. Qed.
Lemma set_module_books id m m' g :
  mods_ok g → G.ModulesInfoMap g !! id = Some m → conserves m m' → books g (set_module id m' g).
Proof.
  intros Hok Hm [Ha Hg]. apply (booked_zero id ""). eapply set_module_booked; [done..|].
  split; [|done]. eapply acc_ext; [done| |done]. intros t. unfold zero, point. by case_bool_decide.
Qed.

Lemma on_module_holds {A} id (f : GoM BRC20ModuleSwapInfo A) g (Q : A → _ → Prop) (E : _ → Prop) :
  (∀ m, G.ModulesInfoMap g !! id = Some m →
     holds f m (λ a m', Q a (set_module id m' g)) (λ m', E (set_module id m' g))) →
  holds (on_module id f) g Q E.
Proof.
  intros Hf. unfold holds, on_module. destruct (_ !! id) as [m|]; [|done].
  specialize (Hf m eq_refl). unfold holds in Hf. by destruct (f m) as [[] m'].
Qed.

Lemma on_module_never_fails {A} id (p : GoM BRC20ModuleSwapInfo A) : never_fails p → never_fails (on_module id p).
Proof.
  intros Hp g. unfold on_module. destruct (_ !! _) as [m|]; [|done]. specialize (Hp m). by destruct (p m).
Qed.

Lemma on_module_bookkeeping {A} id (f : GoM BRC20ModuleSwapInfo A) :
  conserving f → bookkeeping (on_module id f).
Proof.
  intros Hf g Hok. apply on_module_holds. intros m Hm.
  eapply holds_mono; [by eapply Hf, Hok|intros a m' ?|intros m' ?]; by eapply set_module_books.
Qed.

Lemma modify_bookkeeping f :
  (∀ g, G.ModulesInfoMap (f g) = G.ModulesInfoMap g) → bookkeeping (modify f).
Proof. intros Hf. apply keeping_modify. intros g Hg. by apply books_same. Qed.
End on_module.
#[export] Hint Resolve on_module_bookkeeping : keeping.
#[export] Hint Extern 5 (bookkeeping (modify _)) =>
  apply modify_bookkeeping; intros; repeat case_match; reflexivity : keeping.

(** ** Operations of the indexer that keep the accounts *)
Section module_frames.
Context `{Spelling, MapOrder, Config, BtcAddr}.

Lemma modify_conserving f :
  (∀ m, accounts (f m) = accounts m) → conserving (modify f).
Proof. intros Hf. apply keeping_modify. intros m Hm. by apply accounts_acc; [|apply acc_refl]. Qed.
Lemma mod_history_conserving h : conserving (mod_history h).
Proof. by apply modify_conserving. Qed.
Lemma mod_history_valid_conserving v : conserving (mod_history_valid v).
Proof. by apply modify_conserving. Qed.
Lemma update_state_balance_conserving t f : (∀ s, no_error (f s)) → conserving (update_state_balance t f).
Proof.
  intros Hf m Hm. eapply holds_post; [by apply update_state_balance_acc; [|apply acc_refl]|].
  by intros [] m'.
Qed.
End module_frames.
#[export] Hint Resolve mod_history_conserving mod_history_valid_conserving approve_module_conserving
  apply_event_conserving : keeping.
#[export] Hint Extern 5 (conserving (modify _)) =>
  apply modify_conserving; intros; repeat case_match; reflexivity : keeping.

Section frames.
Context `{Spelling, MapOrder, Config, BtcAddr}.

Lemma load_balance_bookkeeping l : bookkeeping (load_balance l).
Proof. unfold load_balance. keeping. Qed.
Lemma store_balance_bookkeeping l b : bookkeeping (store_balance l b).
Proof. unfold store_balance. keeping. Qed.
#[local] Hint Resolve load_balance_bookkeeping store_balance_bookkeeping : keeping.
Lemma update_balance_bookkeeping l f : bookkeeping (update_balance l f).
Proof. unfold update_balance. keeping. Qed.
Lemma update_token_bookkeeping t f : bookkeeping (update_token t f).
Proof. unfold update_token. keeping. Qed.
#[local] Hint Resolve update_balance_bookkeeping update_token_bookkeeping : keeping.
Lemma update_deploy_bookkeeping t f : bookkeeping (update_deploy t f).
Proof. unfold update_deploy. keeping. Qed.
Lemma GetUserTokenBalance_bookkeeping t a : bookkeeping (GetUserTokenBalance t a).
Proof.
  unfold GetUserTokenBalance, find_or_new_balance, alloc_balance, set_token_user. keeping.
Qed.
Lemma new_history_bookkeeping ty v tr from bal to : bookkeeping (new_history ty v tr from bal to).
Proof. unfold new_history, UpdateHistoryHeightAndGetHistoryIndex. keeping. Qed.
Lemma add_user_history_bookkeeping pk n : bookkeeping (add_user_history pk n).
Proof. unfold add_user_history. keeping. Qed.
Lemma add_all_history_bookkeeping n : bookkeeping (add_all_history n).
Proof. unfold add_all_history. keeping. Qed.
#[local] Hint Resolve update_deploy_bookkeeping GetUserTokenBalance_bookkeeping new_history_bookkeeping
  add_user_history_bookkeeping add_all_history_bookkeeping : keeping.
Lemma move_history_bookkeeping s v from l pk data : bookkeeping (move_history s v from l pk data).
Proof. unfold move_history. keeping. Qed.
Lemma transfer_history_bookkeeping t i from data : bookkeeping (transfer_history t i from data).
Proof. unfold transfer_history. keeping. Qed.
Lemma deref_bookkeeping {A} (o : option A) : bookkeeping (deref o).
Proof. unfold deref. keeping. Qed.
#[local] Hint Resolve move_history_bookkeeping transfer_history_bookkeeping deref_bookkeeping : keeping.
Lemma transfer_apply_bookkeeping t info l s r data : bookkeeping (transfer_apply t info l s r data).
Proof. unfold transfer_apply, transfer_receive. keeping. Qed.

(** ** Conditional approves of the indexer *)
Lemma load_cond_approve_bookkeeping l : bookkeeping (load_cond_approve l).
Proof. unfold load_cond_approve. keeping. Qed.
#[local] Hint Resolve load_cond_approve_bookkeeping : keeping.
Lemma update_cond_approve_bookkeeping l f : bookkeeping (update_cond_approve l f).
Proof. unfold update_cond_approve. keeping. Qed.
Lemma load_transfer_state_bookkeeping l : bookkeeping (load_transfer_state l).
Proof. unfold load_transfer_state. keeping. Qed.
Lemma store_transfer_state_bookkeeping l t : bookkeeping (store_transfer_state l t).
Proof. unfold store_transfer_state. keeping. Qed.
#[local] Hint Resolve update_cond_approve_bookkeeping load_transfer_state_bookkeeping
  store_transfer_state_bookkeeping : keeping.
Lemma alloc_transfer_state_bookkeeping t : bookkeeping (alloc_transfer_state t).
Proof. unfold alloc_transfer_state. keeping. Qed.
Lemma NewConditionalApproveEvent_bookkeeping s r a b d i t x :
  bookkeeping (NewConditionalApproveEvent s r a b d i t x).
Proof. unfold NewConditionalApproveEvent. keeping. Qed.
#[local] Hint Resolve alloc_transfer_state_bookkeeping NewConditionalApproveEvent_bookkeeping : keeping.
Lemma match_approves_bookkeeping t b l : bookkeeping (match_approves t b l).
Proof. revert b. induction l as [|x l IH]; intros b; cbn [match_approves]; keeping. Qed.
Lemma match_transfers_bookkeeping o t d i b l : bookkeeping (match_transfers o t d i b l).
Proof. revert b. induction l as [|x l IH]; intros b; cbn [match_transfers]; keeping. Qed.
#[local] Hint Resolve match_approves_bookkeeping match_transfers_bookkeeping : keeping.
Lemma Module_GenerateApproveEventsByTransfer_bookkeeping id l :
  bookkeeping (Module_GenerateApproveEventsByTransfer id l).
Proof. unfold Module_GenerateApproveEventsByTransfer. keeping. Qed.
Lemma Module_GenerateApproveEventsByApprove_bookkeeping id o b d i :
  bookkeeping (Module_GenerateApproveEventsByApprove id o b d i).
Proof. unfold Module_GenerateApproveEventsByApprove. keeping. Qed.
Lemma enter_tx_bookkeeping id : bookkeeping (enter_tx id).
Proof. unfold enter_tx. keeping. Qed.
#[local] Hint Resolve Module_GenerateApproveEventsByTransfer_bookkeeping
  Module_GenerateApproveEventsByApprove_bookkeeping enter_tx_bookkeeping : keeping.
Lemma by_transfer_modules_bookkeeping t l : bookkeeping (by_transfer_modules t l).
Proof. induction l as [|x l IH]; cbn [by_transfer_modules]; keeping. Qed.
#[local] Hint Resolve by_transfer_modules_bookkeeping : keeping.
Lemma GenerateApproveEventsByTransfer_bookkeeping i t f to a :
  bookkeeping (GenerateApproveEventsByTransfer i t f to a).
Proof. unfold GenerateApproveEventsByTransfer. keeping. Qed.
Lemma GenerateApproveEventsByApprove_bookkeeping o b d i :
  bookkeeping (GenerateApproveEventsByApprove o b d i).
Proof. unfold GenerateApproveEventsByApprove. keeping. Qed.
Lemma process_event_bookkeeping e : bookkeeping (process_event e).
Proof. unfold process_event. keeping. Qed.
#[local] Hint Resolve GenerateApproveEventsByTransfer_bookkeeping
  GenerateApproveEventsByApprove_bookkeeping process_event_bookkeeping : keeping.
Lemma ProcessConditionalApproveEvents_bookkeeping l : bookkeeping (ProcessConditionalApproveEvents l).
Proof. unfold ProcessConditionalApproveEvents. keeping. Qed.
Lemma enter_global_tx_bookkeeping t : bookkeeping (enter_global_tx t).
Proof. unfold enter_global_tx. keeping. Qed.
#[local] Hint Resolve ProcessConditionalApproveEvents_bookkeeping enter_global_tx_bookkeeping : keeping.
Lemma ProcessConditionalApprove_bookkeeping data i inv : bookkeeping (ProcessConditionalApprove data i inv).
Proof. unfold ProcessConditionalApprove. keeping. Qed.
End frames.
