(* ===== verification/ModuleHandlers.v ===== *)
(** * Handlers of module inscriptions on the accounts of all modules

    Each handler keeps the totals of every module, except a deposit and a withdraw,
    which change one total by their amount. *)
From S2P Require Import Prelude GoStd Decimal Script Utils Json Model History Swap Indexer CondApprove Ledger EarlyErrors Modules Commit PairNames SwapProof ModuleAcc ModuleSteps ModuleProof ModulePools ModuleOps ModuleBooks.

Section handlers.
Context `{Spelling, MapOrder, Config, BtcAddr}.
Implicit Types (g : BRC20ModuleIndexer) (m : BRC20ModuleSwapInfo).

#[local] Hint Resolve load_balance_bookkeeping store_balance_bookkeeping update_balance_bookkeeping
  update_token_bookkeeping update_deploy_bookkeeping GetUserTokenBalance_bookkeeping
  transfer_apply_bookkeeping deref_bookkeeping enter_global_tx_bookkeeping transfer_history_bookkeeping
  move_history_bookkeeping GenerateApproveEventsByTransfer_bookkeeping add_user_history_bookkeeping
  add_all_history_bookkeeping new_history_bookkeeping ProcessConditionalApproveEvents_bookkeeping : keeping.

(** ** The plain ledger *)
Lemma ProcessDeploy_bookkeeping data : bookkeeping (ProcessDeploy data).
Proof. unfold ProcessDeploy, deploy_register. keeping. Qed.
Lemma ProcessMint_bookkeeping now data : bookkeeping (ProcessMint now data).
Proof. unfold ProcessMint, mint_apply, mint_valid, mint_history. keeping. Qed.
Lemma UpdateHistory_bookkeeping h : bookkeeping (UpdateHistoryHeightAndGetHistoryIndex h).
Proof. unfold UpdateHistoryHeightAndGetHistoryIndex. keeping. Qed.
#[local] Hint Resolve UpdateHistory_bookkeeping : keeping.
Lemma ProcessInscribeTransfer_bookkeeping data : bookkeeping (ProcessInscribeTransfer data).
Proof.
  unfold ProcessInscribeTransfer, inscribe_transfer_apply, inscribe_transfer_history. keeping.
Qed.

(** ** Approves *)
Lemma ProcessApprove_bookkeeping data info inv : bookkeeping (ProcessApprove data info inv).
Proof. unfold ProcessApprove. keeping. Qed.

(** A step whose result depends on the state before it. *)
Lemma books_step {A B} (f : Idx A) (k : A → Idx B) g g0 (Q : A → BRC20ModuleIndexer → Prop) :
  books g0 g →
  holds f g (λ a g', books g g' ∧ Q a g') (books g) →
  (∀ a g', books g0 g' → Q a g' → holds (k a) g' (λ _, books g0) (books g0)) →
  holds (f ≫= k) g (λ _, books g0) (books g0).
Proof.
  intros Hb Hf Hk. apply holds_bind.
  eapply holds_mono; [exact Hf|intros a g' [Hb' HQ]|intros g' Hb']; [apply Hk; [|done]|];
    by eapply books_trans.
Qed.
Lemma books_keeping_step {A B} (f : Idx A) (k : A → Idx B) g g0 :
  books g0 g → bookkeeping f →
  (∀ a g', books g0 g' → holds (k a) g' (λ _, books g0) (books g0)) →
  holds (f ≫= k) g (λ _, books g0) (books g0).
Proof.
  intros Hb Hf Hk. apply holds_bind.
  eapply holds_mono; [apply Hf; by destruct Hb|intros a g' Hb'|intros g' Hb'];
    [apply Hk|]; by eapply books_trans.
Qed.
Lemma books_end {A} (f : Idx A) g g0 :
  books g0 g → bookkeeping f → holds f g (λ _, books g0) (books g0).
Proof.
  intros Hb Hf. eapply holds_mono; [apply Hf; by destruct Hb|intros a g' Hb'|intros g' Hb'];
    by eapply books_trans.
Qed.

(** A balance of module [id], wherever the module is. *)
Definition held_by g (id t a : string) (l : loc) : Prop :=
  ∃ m, G.ModulesInfoMap g !! id = Some m ∧ holder m t a l.

Lemma on_module_balance id tick a g :
  mods_ok g →
  holds (on_module id (Module_GetUserTokenBalance tick a)) g
    (λ l g', books g g' ∧ held_by g' id (ToLower tick) a l) (books g).
Proof.
  intros Hok. apply on_module_holds. intros m Hm.
  eapply holds_post; [apply GetUserTokenBalance_acc, acc_refl; by eapply Hok|].
  intros l m' [Hc Hl]. split; [by eapply set_module_books|]. exists m'.
  split; [|done]. unfold set_module. rsimpl. by rewrite lookup_insert_eq.
Qed.
Lemma held_by_books g g' id t a l : books g g' → held_by g id t a l → held_by g' id t a l.
Proof.
  intros Hb (m & Hm & Hl). destruct (bs_grow _ _ Hb _ _ Hm) as (m' & Hm' & Hg).
  exists m'. split; [done|by apply (grow_holder _ _ Hg)].
Qed.

Lemma on_module_held {A} id t a l (f : GoM BRC20ModuleSwapInfo A) g :
  (∀ m, mod_inv m → holder m t a l → holds f m (λ _, conserves m) (conserves m)) →
  mods_ok g → held_by g id t a l → holds (on_module id f) g (λ _, books g) (books g).
Proof.
  intros Hf Hok (m & Hm & Hl). apply on_module_holds. intros m' Hm'. assert (m' = m) as -> by congruence.
  eapply holds_mono; [by apply Hf; [by eapply Hok|]|intros a' m' ?|intros m' ?]; by eapply set_module_books.
Qed.

(** Run an operation that does not concern the balance found. *)
Ltac kstep := apply keeping_bind; [apply _|solve [keeping]|intros ?].
Ltac bstep Hb := eapply (books_keeping_step _ _ _ _ Hb); [solve [keeping]|clear Hb; intros ? ? Hb].
Ltac bstart g Hb := let Hok := fresh in intros g Hok; pose proof (books_refl g Hok) as Hb.
Ltac bok := match goal with H : books _ _ |- _ => by destruct H end.

Lemma ProcessInscribeApprove_bookkeeping data : bookkeeping (ProcessInscribeApprove data).
Proof.
  unfold ProcessInscribeApprove. kstep. cbv zeta. case_match; [keeping|]. kstep.
  case_match; [keeping|]. case_match; [keeping|]. do 3 kstep. bstart g Hb.
  eapply (books_step _ _ _ _ _ Hb); [apply on_module_balance; bok|]. clear Hb. intros l g1 Hb Hl.
  eapply (books_step _ _ _ _ (λ _ g', held_by g' _ _ _ l) Hb).
  { apply holds_post with (λ _, books g1).
    - eapply holds_mono; [by eapply on_module_bookkeeping; [apply conserving_load|bok]|done|done].
    - intros b g2 Hb2. split; [done|]. exact (held_by_books _ _ _ _ _ _ Hb2 Hl). }
  clear Hl Hb. intros b g2 Hb Hl. apply holds_bind, holds_lift; [|done]. intros c _.
  destruct (c <? 0); [apply (books_end _ _ _ Hb); keeping|].
  eapply (books_step _ _ _ _ (λ _ _, True) Hb).
  - eapply holds_mono; [eapply on_module_held; [|bok|exact Hl]|by intros|done].
    intros m Hm Hh. pose proof (acc_refl m Hm). pose proof (grow_refl m).
    mstep mod_history_valid_acc. eapply holds_post; [eapply mod_update_same_acc; eauto|].
    + apply lock_approve_adds.
    + intros ? ? [? ?]. mclose.
  - intros [] g3 Hb3 _. apply (books_end _ _ _ Hb3). keeping.
Qed.

(** The module and the object the balance [b] was read from. *)
Definition reads g (id t a : string) (l : loc) (b : BRC20ModuleTokenBalance) : Prop :=
  ∃ m, G.ModulesInfoMap g !! id = Some m ∧ holder m t a l ∧ Mod.Balances m !! l = Some b.

Lemma on_module_load id t a l g :
  mods_ok g → held_by g id t a l →
  holds (on_module id (mod_load l)) g (λ b g', books g g' ∧ reads g' id t a l b) (books g).
Proof.
  intros Hok (m & Hm & Hl). apply on_module_holds. intros m' Hm'. assert (m' = m) as -> by congruence.
  apply mod_load_holds. intros b Hb. split.
  - eapply set_module_books; [done..|]. apply conserves_refl. by eapply Hok.
  - exists m. unfold set_module. rsimpl. by rewrite lookup_insert_eq.
Qed.

Lemma alloc_cond_approve_reads i id t a l b g :
  mods_ok g → reads g id t a l b →
  holds (alloc_cond_approve i) g (λ _ g', books g g' ∧ reads g' id t a l b) (books g).
Proof.
  intros Hok Hr. unfold alloc_cond_approve. apply holds_bind, holds_get, holds_bind, holds_modify, holds_ret.
  split; [by apply books_same|exact Hr].
Qed.

Lemma ProcessInscribeConditionalApprove_bookkeeping data :
  bookkeeping (ProcessInscribeConditionalApprove data).
Proof.
  unfold ProcessInscribeConditionalApprove. case_match; [keeping|]. kstep. cbv zeta.
  case_match; [keeping|]. kstep. case_match; [keeping|]. case_match; [keeping|].
  case_match; [|keeping]. do 2 kstep. case_match; [keeping|]. do 3 kstep. bstart g Hb.
  eapply (books_step _ _ _ _ _ Hb); [apply on_module_balance; bok|]. clear Hb. intros l g1 Hb Hl.
  eapply (books_step _ _ _ _ _ Hb); [eapply on_module_load; [bok|exact Hl]|]. clear Hb Hl.
  intros bal g2 Hb Hr. apply holds_bind, holds_lift; [|done]. intros c _.
  eapply (books_step _ _ _ _ _ Hb); [eapply alloc_cond_approve_reads; [bok|exact Hr]|]. clear Hb Hr.
  intros info g3 Hb (m & Hm & Hl & Hbal).
  destruct (c <? 0); [apply (books_end _ _ _ Hb); keeping|].
  eapply (books_step _ _ _ _ (λ _ _, True) Hb).
  - apply on_module_holds. intros m' Hm'. assert (m' = m) as -> by congruence.
    assert (mods_ok g3) as Hok3 by bok.
    eapply holds_mono; [eapply lock_cond_approve_conserving; [by eapply Hok3|exact Hl|exact Hbal]| |].
    + intros [] m' ?. split; [by eapply set_module_books|done].
    + intros m' ?. by eapply set_module_books.
  - intros [] g4 Hb4 _. apply (books_end _ _ _ Hb4). keeping. apply on_module_bookkeeping.
    apply update_state_balance_conserving. eauto with noerr.
Qed.

(** ** Withdraws *)
Lemma inscribe_withdraw_conserving tick pk amt f :
  (∀ b ready, f b ready = b <| MBal.ReadyToWithdrawAmount := ready |>
     <| MBal.ReadyToWithdrawMap := MBal.ReadyToWithdrawMap (f b ready) |>
     <| MBal.UpdateHeight := MBal.UpdateHeight (f b ready) |>) →
  conserving (l ← Module_GetUserTokenBalance tick pk;
    mod_update l (λ b, ready ← Add (MBal.ReadyToWithdrawAmount b) amt; Ret (f b ready)) ;;
    mod_history_valid true).
Proof.
  intros Hf m Hm. pose proof (acc_refl m Hm). pose proof (grow_refl m).
  mstep GetUserTokenBalance_acc. apply holds_bind. eapply holds_post.
  - eapply mod_update_same_acc; [|eassumption|eassumption].
    split; [eauto with noerr|]. intros b b' E. outcome_inv. rewrite Hf. holding.
  - madvance. mdone mod_history_valid_acc.
Qed.
Lemma ProcessInscribeWithdraw_bookkeeping data : bookkeeping (ProcessInscribeWithdraw data).
Proof.
  pose proof inscribe_withdraw_conserving as Hw.
  unfold ProcessInscribeWithdraw. keeping.
Qed.

(** The errors of a withdraw leave the accounts as they are; on success the module
    holds exactly the amount less. *)
Lemma ProcessWithdraw_booked data info g :
  mods_ok g →
  holds (ProcessWithdraw data info) g
    (λ _, booked (SwapInfo.Module_ info) (ToLower (SwapInfo.Tick info)) (- dval (SwapInfo.Amount info)) g)
    (books g).
Proof.
  intros Hok. pose proof credit_no_error. pose proof GetUserTokenBalance_never_fails.
  pose proof load_balance_never_fails. unfold ProcessWithdraw. cbv zeta. apply holds_bind, holds_get.
  case_match; [|apply holds_throw; by apply books_refl].
  case_match; [apply holds_throw; by apply books_refl|].
  apply holds_bind, on_module_holds. intros m Hm.
  eapply holds_mono; [apply withdraw_module_acc; by eapply Hok|intros [] m' Hc|intros m' Hc];
    [|by eapply set_module_books].
  assert (booked (SwapInfo.Module_ info) (ToLower (SwapInfo.Tick info)) (- dval (SwapInfo.Amount info))
    g (set_module (SwapInfo.Module_ info) m' g)) as Hb by by eapply set_module_booked.
  set (g1 := set_module (SwapInfo.Module_ info) m' g) in *.
  apply (holds_never_fails _ _ _ _ (books g1)).
  { repeat (apply never_fails_bind; [eauto with noerr|intros ?]); repeat case_match; eauto with noerr. }
  apply holds_post with (λ _, books g1); [|intros ? ? Hb'; by eapply booked_books].
  apply (books_end _ g1 g1); [apply books_refl; by destruct Hb|]. keeping.
Qed.

(** ** Deposits *)

(** The module a moved transfer inscription is a deposit to. *)
Definition deposit_module (data : InscriptionBRC20Data) (info : InscriptionBRC20TickInfo)
    (isInvalid : bool) g : option string :=
  let receiver := if Data.Satoshi data =? 0 then TickInfo.PkScript info else Data.PkScript data in
  tokenInfo ← G.InscriptionsTickerInfoMap g !! ToLower (TickInfo.Tick info);
  id ← GetModuleFromScript (s2b receiver);
  if isInvalid || TickInfo.SelfMint (TokenInfo.Deploy tokenInfo) ||
     bool_decide (G.ModulesInfoMap g !! id = None) then None else Some id.
(** The accounts of the modules after a move. *)
Definition deposited (o : option string) (info : InscriptionBRC20TickInfo) g g' : Prop :=
  match o with
  | Some id => booked id (ToLower (TickInfo.Tick info)) (dval (TickInfo.Amount info)) g g'
  | None => books g g'
  end.

Lemma transfer_modules_deposited t info s r data g g0 :
  books g0 g →
  holds (transfer_modules t info s r data) g
    (λ _ g', deposited (id ← GetModuleFromScript (s2b r);
       if bool_decide (G.ModulesInfoMap g0 !! id = None) then None else Some id) info g0 g')
    (books g0).
Proof.
  intros Hb. unfold transfer_modules. apply holds_bind.
  eapply holds_mono; [apply (books_end _ _ _ Hb); keeping|clear g Hb; intros [] g Hb|done].
  apply holds_bind.
  eapply holds_mono; [apply (books_end _ _ _ Hb); keeping|clear g Hb; intros [] g Hb|done].
  destruct (GetModuleFromScript (s2b r)) as [id|]; [|by apply holds_ret]. simpl.
  apply holds_bind, holds_get. destruct (G.ModulesInfoMap g !! id) as [m|] eqn:Em.
  - rewrite bool_decide_eq_false_2 by (intros En%(bs_none _ _ Hb); congruence). simpl.
    apply holds_bind.
    eapply holds_mono; [apply (books_end _ _ _ Hb); keeping|clear g Hb Em; intros meta g Hb|done].
    apply on_module_holds. intros m1 Hm1.
    eapply holds_post; [apply module_deposit_acc; by apply (bs_ok _ _ Hb id)|].
    intros [] m2 Hc. eapply (books_booked id _ _ _ g); [exact Hb|]. eapply set_module_booked; [exact (bs_ok _ _ Hb)|done..].
  - apply holds_ret. rewrite bool_decide_eq_true_2; [done|].
    destruct (G.ModulesInfoMap g0 !! id) as [m0|] eqn:E0; [|done].
    destruct (bs_grow _ _ Hb _ _ E0) as (m' & Hm' & _). congruence.
Qed.

Lemma ProcessTransfer_deposited data info isInvalid g :
  mods_ok g →
  holds (ProcessTransfer data info isInvalid) g
    (λ _ g', deposited (deposit_module data info isInvalid g) info g g') (books g).
Proof.
  intros Hok. unfold ProcessTransfer, deposit_module. cbv zeta. apply holds_bind, holds_get.
  destruct (G.InscriptionsTickerInfoMap g !! _) as [y|]; [|apply holds_throw; by apply books_refl]. simpl.
  pose proof (books_refl g Hok) as Hb.
  set (receiver := if Data.Satoshi data =? 0 then TickInfo.PkScript info else Data.PkScript data).
  apply holds_bind. set (data' := if Data.Satoshi data =? 0 then data <| Data.PkScript := _ |> else _).
  eapply holds_mono; [apply (books_end _ _ _ Hb); keeping|clear Hb; intros [] g1 Hb|done].
  case_match; [|by apply holds_throw]. case_match; [|by apply holds_throw].
  apply holds_bind.
  eapply holds_mono; [apply (books_end _ _ _ Hb); keeping|clear Hb; intros [] g2 Hb|done].
  destruct isInvalid; simpl.
  { eapply holds_mono; [apply (books_end _ _ _ Hb); keeping|clear Hb; intros [] g3 Hb|done].
    by destruct (GetModuleFromScript (s2b receiver)). }
  apply holds_bind.
  eapply holds_mono; [apply (books_end _ _ _ Hb); keeping|clear g2 Hb; intros from g2 Hb|done].
  case_match; [by apply holds_throw|]. apply holds_bind.
  eapply holds_mono; [apply (books_end _ _ _ Hb); keeping|clear g2 Hb; intros [] g2 Hb|done].
  destruct (TickInfo.SelfMint (TokenInfo.Deploy y)); simpl.
  - apply holds_ret. by destruct (GetModuleFromScript (s2b receiver)).
  - by apply transfer_modules_deposited.
Qed.
End handlers.
