(* ===== verification/PreVerifyProof.v ===== *)
(** * What an accepted commit promises

    The functions of a commit that passes the pre-verification are signed, have their
    parameters and name tokens of their pair; the text a user signs determines the
    function. *)
From S2P Require Import Prelude GoStd GoCrypto Decimal Script Utils Json Model History Swap Bip322 CommitJson Indexer CondApprove Ledger Modules Commit PreVerify CherryPick CommitFlow PairNames SwapProof ModuleAcc ModuleSteps ModuleProof ModulePools Samples.

(** ** The parameters *)
Section params.
Context `{GoUnicode, Config, BtcAddr}.

Lemma require_ok_inv r msg : require_ok r msg = Ret tt → ∃ a, r = Ret (a, true).
Proof. unfold require_ok. destruct r as [[a []]| |]; simpl; try done. by exists a. Qed.

Lemma function_tokens_msg g f msg msg' tokens :
  function_tokens msg g f = Ret tokens → function_tokens msg' g f = Ret tokens.
Proof.
  unfold function_tokens. destruct (param f 0) as [p0| |]; simpl; [|done..].
  destruct (param f 1) as [p1| |]; simpl; [|done..]. destruct (paired g); [|done].
  unfold or_error. by destruct (DecodeTokensFromSwapPair p0).
Qed.
(** An accepted swap is about a token of its pair. *)
Lemma preverify_swap_token g f : preverify_swap g f = Ret tt → swap_token_of_pair g f.
Proof.
  unfold preverify_swap. intros Ht msg token0 token1 t Htok Hp.
  apply outcome_bind_inv in Ht as ([] & _ & Ht).
  apply outcome_bind_inv in Ht as (tokens & Htok' & Ht).
  apply outcome_bind_inv in Ht as (t' & Hp' & Ht). assert (t' = t) as -> by congruence.
  assert (tokens = (token0, token1)) as ->.
  { apply (function_tokens_msg _ _ _ msg) in Htok'. congruence. }
  case_match eqn:E; [done|]. apply andb_false_iff in E.
  rewrite !negb_false_iff, !bool_decide_eq_true in E. exact E.
Qed.

Definition spelled_function `{!Spelling} (g : BRC20ModuleIndexer) (f : SwapFunctionData) : Prop :=
  (SwapFunction.Function_ f = BRC20_SWAP_FUNCTION_DEPLOY_POOL →
     ∀ i t, param f i = Ret t → (i < 2)%nat → spelled t) ∧
  (SwapFunction.Function_ f ∈ [BRC20_SWAP_FUNCTION_ADD_LIQ; BRC20_SWAP_FUNCTION_REMOVE_LIQ;
     BRC20_SWAP_FUNCTION_SWAP] → tokens_spelled g f).

Lemma preverify_function_ok `{!Spelling} g f :
  preverify_function g f = Ret tt → spelled_function g f → function_ok g f.
Proof.
  intros Hf [Hd Hs]. split_and!; [done|done|]. intros E. revert Hf. unfold preverify_function.
  rewrite E. repeat (rewrite bool_decide_eq_false_2 by done). rewrite bool_decide_eq_true_2 by done.
  apply preverify_swap_token.
Qed.

(** ** Sending LP tokens

    The name of a pool, which starts with a length, is read as a pair [xxxx/yyyy]. *)
Lemma pair_key_not_pair a b :
  "/"%char ∉ s2b a → "/"%char ∉ s2b b → ∃ e, DecodeTokensFromSwapPair (pair_key a b) = Error e.
Proof.
  intros Ha Hb. unfold DecodeTokensFromSwapPair, pair_key. eexists.
  rewrite (bool_decide_eq_false_2 (_ !! 4%nat = _)); [by rewrite orb_true_r|].
  rewrite !s2b_app, s2b_b2s. intros Hl. change (([byte_of_Z (len a mod 256)] ++ s2b a ++ s2b b) !! 4%nat)
    with ((s2b a ++ s2b b) !! 3%nat) in Hl. apply list_elem_of_lookup_2, elem_of_app in Hl. tauto.
Qed.

(** C26: LP tokens cannot be sent: the pre-verification reads the name of the pool as a
    pair of tickers and rejects every sendLp whose tickers have no slash. *)
Theorem preverify_sendlp_rejected f t0 t1 :
  param f 1 = Ret t0 → param f 2 = Ret t1 →
  ("/"%char ∉ s2b (ToLower t0)) → ("/"%char ∉ s2b (ToLower t1)) → preverify_sendlp f ≠ Ret tt.
Proof.
  intros E1 E2 H1' H2'. unfold preverify_sendlp. rewrite E1, E2.
  intros ([] & _ & (a & _ & ([] & _ & Hr)%outcome_bind_inv)%outcome_bind_inv)%outcome_bind_inv. simpl in Hr.
  apply outcome_bind_inv in Hr as (amt & _ & (tokens & Hd & _)%outcome_bind_inv).
  destruct (pair_name_cases t0 t1) as [En|En]; rewrite En in Hd; unfold or_error in Hd.
  - by destruct (pair_key_not_pair (ToLower t0) (ToLower t1) H1' H2') as [e Ee]; rewrite Ee in Hd.
  - by destruct (pair_key_not_pair (ToLower t1) (ToLower t0) H2' H1') as [e Ee]; rewrite Ee in Hd.
Qed.
End params.

(** ** The functions of an accepted commit *)
Section accepted.
Context `{GoUnicode, Config, BtcAddr, Btcd}.

Definition signed_function (f : SwapFunctionData) : Prop :=
  ∃ content previous id, CheckFunctionSigVerify content f previous = Ret (id, true).
Definition accepted_function (g : BRC20ModuleIndexer) (o : option SwapFunctionData) : Prop :=
  ∃ f pk, o = Some f ∧ GetPkScriptByAddress (SwapFunction.Address f) = Ret pk ∧
    signed_function (f <| SwapFunction.PkScript := b2s pk |>) ∧
    preverify_function g (f <| SwapFunction.PkScript := b2s pk |>) = Ret tt.

Lemma preverify_functions_accepted g content ids idx data i :
  preverify_functions g content ids idx data = Ret (i, None) → Forall (accepted_function g) data.
Proof.
  revert ids idx. induction data as [|[f|] data IH]; intros ids idx; [by constructor| |done].
  simpl. destruct (GetPkScriptByAddress _) as [pk| |] eqn:Epk; [|done..].
  intros ([id ok] & Es & Hr)%outcome_bind_inv. destruct ok; [|done]. simpl in Hr.
  destruct (preverify_function _ _) as [[]| |] eqn:Ef; [|done..]. constructor; [|by eapply IH].
  exists f, pk. split_and!; try done. by eexists _, _, id.
Qed.

Lemma ProcessInscribeCommitPreVerify_accepted g body i :
  ProcessInscribeCommitPreVerify g body = Ret (i, None) →
  Forall (accepted_function g) (CommitBody.CommitData body).
Proof.
  unfold ProcessInscribeCommitPreVerify. case_match; [done|]. destruct (_ !! _); [|done].
  intros (gas & _ & Hr)%outcome_bind_inv. case_match; [done|]. by eapply preverify_functions_accepted.
Qed.

(** ** Heights

    The format of the parameters depends on the height alone. *)
Definition at_height (h : Z) : BRC20ModuleIndexer := Init <| G.BestHeight := h |>.
Definition before_withdraw (h : Z) : bool := h <? Conf.ENABLE_SWAP_WITHDRAW_HEIGHT conf.

Lemma function_ok_height `{!Spelling} g f : function_ok g f ↔ function_ok (at_height (G.BestHeight g)) f.
Proof. done. Qed.
Lemma function_ok_paired `{!Spelling} g g' f : paired g = paired g' → function_ok g f → function_ok g' f.
Proof.
  intros E. unfold function_ok, tokens_spelled, swap_token_of_pair, function_tokens, offset.
  rewrite E. done.
Qed.
Lemma spelled_function_paired `{!Spelling} g g' f :
  paired g = paired g' → spelled_function g f → spelled_function g' f.
Proof.
  intros E. unfold spelled_function, tokens_spelled, function_tokens. rewrite E. done.
Qed.
End accepted.
