(* ===== verification/CopyCommit.v ===== *)
(** * A commit on the copy and on the state

    Below the withdraw height an accepted commit ends on the copy as it does on the
    state, so a commit is applied as a whole or not at all. *)
From S2P Require Import Prelude GoStd Decimal Script Utils Json Model History Swap Bip322 CommitJson Indexer CondApprove Ledger Modules Commit PreVerify CherryPick CommitFlow PairNames SwapProof ModuleAcc ModulePools PreVerifyProof ModuleBooks Relate CopySim CopyFunctions.

Section commits.
Context `{GoUnicode, Config, BtcAddr, Btcd}.
Implicit Types (m n : BRC20ModuleSwapInfo) (g h : BRC20ModuleIndexer) (f : SwapFunctionData).

(** ** Running the functions *)

(** The tickers a function names are among [ticks]. *)
Definition function_known (ticks : gset string) g f : Prop :=
  let named name := bool_decide (SwapFunction.Function_ f = name) in
  if named BRC20_SWAP_FUNCTION_DEPLOY_POOL then
    ∀ i t, (i < 2)%nat → param f i = Ret t → ToLower t ∈ ticks
  else if named BRC20_SWAP_FUNCTION_ADD_LIQ then pair_known ticks g f
  else if named BRC20_SWAP_FUNCTION_REMOVE_LIQ then pair_known ticks g f
  else if named BRC20_SWAP_FUNCTION_SWAP then swap_known ticks g f
  else if named BRC20_SWAP_FUNCTION_DECREASE_APPROVAL then ∀ t, param f 0 = Ret t → ToLower t ∈ ticks
  else if named BRC20_SWAP_FUNCTION_SEND then ∀ t, param f 1 = Ret t → ToLower t ∈ ticks
  else True.

Lemma commit_function_twin ticks m n g h f :
  twin m n → same_reads ticks g h → function_known ticks g f →
  related (commit_function g f) (commit_function h f) m n (λ _ _ m' n', twin m' n').
Proof.
  intros Hw Hr. unfold function_known, commit_function. cbv zeta.
  repeat (case_bool_decide; [intros Hk|]).
  - by eapply DeployPool_twin.
  - by eapply AddLiquidity_twin.
  - by eapply RemoveLiquidity_twin.
  - by eapply Swap_twin.
  - by eapply DecreaseApproval_twin.
  - by eapply Send_twin.
  - by apply SendLp_twin.
  - intros _. by apply related_ret.
Qed.

Lemma or_return_twin p q idx critical k k' m n (R : verify_result → verify_result → Prop) :
  (∀ r, R r r) → related p q m n (λ _ _ m' n', twin m' n') →
  (∀ m' n', twin m' n' → related k k' m' n' (λ r r' _ _, R r r')) →
  related (or_return p idx critical k) (or_return q idx critical k') m n (λ r r' _ _, R r r').
Proof.
  intros HR Hpq Hk. unfold or_return. apply related_bind, related_catch.
  - eapply related_mono; [exact Hpq|]. intros [] [] m' n' Hw. by apply Hk.
  - intros e m' n'. by apply related_ret.
Qed.

Definition data_known (ticks : gset string) g (data : list (option SwapFunctionData)) : Prop :=
  Forall (λ o, ∀ f, o = Some f → function_known ticks g f) data.
Lemma commit_functions_twin ticks g h id gas idx data sizes m n :
  same_reads ticks g h → data_known ticks g data → twin m n →
  related (commit_functions g id gas [] [] false idx data sizes)
    (commit_functions h id gas [] [] false idx data sizes) m n (λ r r' _ _, r = r').
Proof.
  intros Hr. revert idx sizes m n. induction data as [|[f|] data IH]; intros idx sizes m n Hd Hw.
  - by destruct sizes; apply related_ret.
  - inversion_clear Hd as [|? ? Hf Hd']. specialize (Hf f eq_refl).
    destruct sizes as [|size sizes]; [by apply related_ret|]. simpl.
    apply related_bind, related_catch; [|by intros; apply related_ret].
    apply related_bind, related_lift, same_end_refl. intros pk _. apply related_ret.
    apply or_return_twin; [done| |].
    { destruct (0 <? Sign gas); [|by apply related_ret]. simpl. apply related_bind, related_lift.
      unfold gas_amount. rewrite (sr_paired _ _ _ Hr). apply same_end_refl. intros ? _. by apply GasFee_twin. }
    intros m1 n1 Hw1. apply or_return_twin; [done|by eapply commit_function_twin|].
    intros m2 n2 Hw2. apply or_return_twin; [done|by apply related_ret|].
    intros m3 n3 Hw3. apply or_return_twin; [done|by apply related_ret|]. intros m4 n4 Hw4. by apply IH.
  - destruct sizes; [by apply related_ret|apply related_gopanic].
Qed.

(** ** The filter names every ticker of an accepted commit *)
Lemma pick_pair_returns t0 t1 p :
  returns (pick_pair t0 t1) p (λ _ p', Pick.pickTokensTick p ⊆ Pick.pickTokensTick p' ∧
    ToLower t0 ∈ Pick.pickTokensTick p' ∧ ToLower t1 ∈ Pick.pickTokensTick p').
Proof.
  unfold pick_pair, pick_tick. apply returns_bind, returns_modify, returns_bind, returns_modify, returns_modify.
  rsimpl. set_solver.
Qed.
Lemma preverify_params (k : nat) f msg : require_params k f msg = Ret tt → ∀ i, (i < k)%nat → ∃ t, param f i = Ret t.
Proof.
  unfold require_params, param. destruct (Nat.eqb_spec (length (SwapFunction.Params f)) k) as [E|]; [|done].
  intros _ i Hi. rewrite <-E in Hi. apply lookup_lt_is_Some in Hi as [t ->]. by exists t.
Qed.

Lemma require_params_msg (k : nat) f msg msg' :
  require_params k f msg = Ret tt → require_params k f msg' = Ret tt.
Proof. unfold require_params. by case_match. Qed.
Lemma pick_liquidity_returns g f (k : nat) params pair tokens p msg msg' :
  require_params (k + offset g) f msg = Ret tt → function_tokens msg' g f = Ret tokens →
  returns (pick_liquidity g f k params pair) p (λ _ p', Pick.pickTokensTick p ⊆ Pick.pickTokensTick p' ∧
    ToLower tokens.1 ∈ Pick.pickTokensTick p' ∧ ToLower tokens.2 ∈ Pick.pickTokensTick p').
Proof.
  intros Hn Ht. unfold pick_liquidity.
  eapply returns_bind, returns_lift; [by eapply require_params_msg|].
  eapply returns_bind, returns_lift; [by eapply function_tokens_msg|]. apply pick_pair_returns.
Qed.
Lemma pair_known_tokens ticks g f msg tokens :
  function_tokens msg g f = Ret tokens → ToLower tokens.1 ∈ ticks → ToLower tokens.2 ∈ ticks →
  pair_known ticks g f.
Proof.
  intros Ht H1' H2' msg' tokens' Ht'. apply (function_tokens_msg _ _ _ msg) in Ht'.
  by assert (tokens' = tokens) as -> by congruence.
Qed.
Lemma pick_address_returns addr msg msg' p :
  require_address addr msg = Ret tt →
  returns (pick_address addr msg') p (λ _ p', Pick.pickTokensTick p' = Pick.pickTokensTick p).
Proof.
  unfold require_address, pick_address, or_error. destruct (GetPkScriptByAddress addr) as [pk| |]; try done.
  intros _. eapply returns_bind, returns_lift; [done|]. by apply returns_modify.
Qed.
Lemma pick_tick_returns tick p :
  returns (pick_tick tick) p (λ _ p', Pick.pickTokensTick p ⊆ Pick.pickTokensTick p' ∧ tick ∈ Pick.pickTokensTick p').
Proof. unfold pick_tick. apply returns_modify. rsimpl. set_solver. Qed.

(** An accepted swap has a direction. *)
Lemma preverify_swap_direction g f :
  preverify_swap g f = Ret tt → ∀ t0 t1 req, swap_direction t0 t1 (offset g) f = Ret req → exact_in req ≠ None.
Proof.
  unfold preverify_swap. intros Hf t0 t1 req Hd.
  apply outcome_bind_inv in Hf as ([] & _ & Hf). apply outcome_bind_inv in Hf as (? & _ & Hf).
  apply outcome_bind_inv in Hf as (? & _ & Hf). case_match; [done|].
  apply outcome_bind_inv in Hf as (dir & Edir & Hf). case_match eqn:E; [done|]. clear Hf.
  unfold swap_direction in Hd. rewrite Edir in Hd. simpl in Hd.
  apply andb_false_iff in E. rewrite !negb_false_iff in E.
  case_match; [do 3 apply outcome_bind_inv in Hd as (? & _ & Hd); by injection Hd as <-|].
  case_match; [do 3 apply outcome_bind_inv in Hd as (? & _ & Hd); by injection Hd as <-|].
  by destruct E.
Qed.

Lemma pick_swap_known g0 g f p :
  paired g0 = paired g → preverify_swap g0 f = Ret tt →
  returns (pick_liquidity g f 6 "func: swap params invalid" "func: swap poolPair invalid") p
    (λ _ p', Pick.pickTokensTick p ⊆ Pick.pickTokensTick p' ∧ swap_known (Pick.pickTokensTick p') g f).
Proof.
  intros Ep Hf. assert (offset g0 = offset g) as Eo by (unfold offset; by rewrite Ep).
  assert (∀ msg, function_tokens msg g0 f = function_tokens msg g f) as Et.
  { intros. unfold function_tokens. by rewrite Ep. }
  pose proof (preverify_swap_direction _ _ Hf) as Hd. pose proof (preverify_swap_token _ _ Hf) as Hs.
  revert Hf. unfold preverify_swap. rewrite Eo in *.
  intros ([] & Hn & (tokens & Ht & _)%outcome_bind_inv)%outcome_bind_inv.
  rewrite Et in Ht. eapply returns_mono; [by eapply pick_liquidity_returns|].
  intros [] p' (? & ? & ?). split; [done|]. intros msg tokens' req Ht' Hr.
  apply (function_tokens_msg _ _ _ "func: swap poolPair invalid") in Ht'.
  assert (tokens' = tokens) as -> by congruence.
  pose proof (Hd _ _ _ Hr) as Hdir. apply swap_direction_tokens in Hr as [Hnone|[[-> ->]|[-> ->]]]; [done..|].
  intros t Hp. eapply (Hs _ tokens.1 tokens.2); [|by rewrite Eo]. rewrite Et. by destruct tokens.
Qed.
Lemma pick_function_known g0 g f p :
  paired g0 = paired g → preverify_function g0 f = Ret tt →
  returns (pick_function g f) p (λ _ p', Pick.pickTokensTick p ⊆ Pick.pickTokensTick p' ∧
    function_known (Pick.pickTokensTick p') g f).
Proof.
  intros Ep. unfold preverify_function, pick_function, function_known. cbv zeta.
  assert (offset g0 = offset g) as Eo by (unfold offset; by rewrite Ep).
  assert (∀ msg, function_tokens msg g0 f = function_tokens msg g f) as Et.
  { intros. unfold function_tokens. by rewrite Ep. }
  repeat case_bool_decide; try done.
  - unfold preverify_deploy. intros ([] & Hn & _)%outcome_bind_inv.
    destruct (preverify_params _ _ _ Hn 0) as (t0 & E0); [lia|].
    destruct (preverify_params _ _ _ Hn 1) as (t1 & E1); [lia|].
    eapply returns_bind, returns_lift; [by eapply require_params_msg|].
    eapply returns_bind, returns_lift; [exact E0|]. eapply returns_bind, returns_lift; [exact E1|].
    eapply returns_mono; [apply pick_pair_returns|]. intros [] p' (Hle & H0' & H1'). split; [done|].
    intros [|[|i]] t Hi Ei; [congruence..|lia].
  - unfold preverify_add_liq. rewrite Eo. intros ([] & Hn & (tokens & Ht & _)%outcome_bind_inv)%outcome_bind_inv.
    rewrite Et in Ht. eapply returns_mono; [by eapply pick_liquidity_returns|].
    intros [] p' (? & ? & ?). split; [done|]. by eapply pair_known_tokens.
  - unfold preverify_remove_liq. rewrite Eo. intros ([] & Hn & (tokens & Ht & _)%outcome_bind_inv)%outcome_bind_inv.
    rewrite Et in Ht. eapply returns_mono; [by eapply pick_liquidity_returns|].
    intros [] p' (? & ? & ?). split; [done|]. by eapply pair_known_tokens.
  - intros Hf. by apply (pick_swap_known g0).
  - unfold preverify_decrease_approval. intros ([] & Hn & _)%outcome_bind_inv.
    destruct (preverify_params _ _ _ Hn 0) as (t0 & E0); [lia|].
    eapply returns_bind, returns_lift; [by eapply require_params_msg|].
    eapply returns_bind, returns_lift; [exact E0|].
    eapply returns_mono; [apply pick_tick_returns|]. intros [] p' (? & ?). split; [done|]. congruence.
  - unfold preverify_send. intros ([] & Hn & (t0 & E0 & ([] & Ha & _)%outcome_bind_inv)%outcome_bind_inv)%outcome_bind_inv.
    destruct (preverify_params _ _ _ Hn 1) as (t1 & E1); [lia|].
    eapply returns_bind, returns_lift; [by eapply require_params_msg|].
    eapply returns_bind, returns_lift; [exact E0|].
    eapply returns_bind, returns_mono; [by eapply pick_address_returns|]. intros [] p1 Hp1.
    eapply returns_bind, returns_lift; [exact E1|].
    eapply returns_mono; [apply pick_tick_returns|]. rewrite Hp1. intros [] p' (? & ?). split; [done|]. congruence.
  - unfold preverify_sendlp. intros ([] & Hn & (t0 & E0 & ([] & Ha & _)%outcome_bind_inv)%outcome_bind_inv)%outcome_bind_inv.
    destruct (preverify_params _ _ _ Hn 1) as (t1 & E1); [lia|].
    destruct (preverify_params _ _ _ Hn 2) as (t2 & E2); [lia|].
    eapply returns_bind, returns_lift; [by eapply require_params_msg|].
    eapply returns_bind, returns_lift; [exact E0|].
    eapply returns_bind, returns_mono; [by eapply pick_address_returns|]. intros [] p1 Hp1.
    eapply returns_bind, returns_lift; [exact E1|]. eapply returns_bind, returns_lift; [exact E2|].
    eapply returns_mono; [apply pick_pair_returns|]. rewrite Hp1. by intros [] p' (? & ?).
Qed.

Lemma function_known_mono ticks ticks' g f :
  ticks ⊆ ticks' → function_known ticks g f → function_known ticks' g f.
Proof.
  intros Hle. unfold function_known. cbv zeta.
  repeat case_match; try done; unfold pair_known, swap_known; try (by intros Hk **; eapply Hle, Hk).
  - intros Hk msg tokens Ht. destruct (Hk msg tokens Ht). auto.
  - intros Hk msg tokens Ht. destruct (Hk msg tokens Ht). auto.
  - intros Hk msg tokens req Ht Hr. destruct (Hk msg tokens req Ht Hr). auto.
Qed.

Lemma pick_functions_known g0 g data p :
  paired g0 = paired g → Forall (accepted_function g0) data →
  returns (for_each (λ o : option SwapFunctionData,
      match o with
      | None => gopanic nil_deref
      | Some f => pick_address (SwapFunction.Address f) "addr invalid" ;; pick_function g f
      end) data) p
    (λ _ p', Pick.pickTokensTick p ⊆ Pick.pickTokensTick p' ∧ data_known (Pick.pickTokensTick p') g data).
Proof.
  intros Ep. revert p. induction data as [|o data IH]; intros p Ha.
  { apply returns_ret. split; [done|constructor]. }
  inversion_clear Ha as [|? ? (f & pk & -> & Epk & _ & Hf) Ha']. simpl.
  apply returns_bind, returns_bind. eapply returns_mono.
  { apply (pick_address_returns _ ""). unfold require_address, or_error. by rewrite Epk. }
  change (preverify_function g0 f = Ret tt) in Hf.
  intros [] p1 Hp1. eapply returns_mono; [by apply (pick_function_known g0)|].
  intros [] p2 (Hle & Hk). eapply returns_mono; [by apply IH|]. intros [] p3 (Hle' & Hk').
  split; [rewrite Hp1 in Hle; by etrans|]. constructor; [|done]. intros f' [= <-].
  by eapply function_known_mono.
Qed.
Lemma cherry_pick_filter_known g0 g body m0 pick :
  paired g0 = paired g → Forall (accepted_function g0) (CommitBody.CommitData body) →
  G.ModulesInfoMap g !! CommitBody.Module_ body = Some m0 → cherry_pick_filter g body = Ret pick →
  data_known (Pick.pickTokensTick pick) g (CommitBody.CommitData body).
Proof.
  intros Ep Ha Hm. unfold cherry_pick_filter.
  assert (returns (InitCherryPickFilter g body) no_pick
    (λ _ p, data_known (Pick.pickTokensTick p) g (CommitBody.CommitData body))) as (u & p & -> & Hk).
  { unfold InitCherryPickFilter. rewrite Hm. unfold pick_user, pick_tick.
    do 5 apply returns_bind, returns_modify.
    eapply returns_mono; [by eapply pick_functions_known|]. by intros [] p (_ & ?). }
  by intros [= <-].
Qed.

(** ** The copy of the module *)
Lemma copy_objects_lookup {A} (copy : A → A) users (heap res : gmap loc A) a t :
  copy_objects copy users heap = Ret res →
  res !! obj_loc a t = (users !! a ≫= lookup t) ≫= λ l, copy <$> heap !! l.
Proof.
  unfold copy_objects, by_pair. case_bool_decide; [|done]. intros [= <-]. unfold obj_loc.
  rewrite (lookup_kmap (M2 := gmap loc) encode), lookup_omap. f_equal.
  rewrite lookup_map_uncurry. done.
Qed.
Lemma copy_users_lookup users a t :
  copy_users users !! a ≫= lookup t = (λ _, obj_loc a t) <$> (users !! a ≫= lookup t).
Proof.
  unfold copy_users, copy_tokens. rewrite map_lookup_imap. destruct (users !! a) as [ts|]; [|done]. simpl.
  rewrite map_lookup_imap. by destruct (ts !! t).
Qed.
Lemma lp_entry_copy (t : gmap string (gmap string (option Decimal))) a pair :
  mjoin ((fmap (M := gmap string) NewDecimalCopy <$> t) !! a ≫= lookup pair) = mjoin (t !! a ≫= lookup pair).
Proof.
  rewrite lookup_fmap. destruct (t !! a) as [us|]; [|done]. simpl. rewrite lookup_fmap.
  destruct (us !! pair); [|done]. simpl. apply NewDecimalCopy_id.
Qed.
Lemma Mod_CherryPick_twin `{!Spelling} m n : mod_inv m → Mod_CherryPick m = Ret n → twin m n.
Proof.
  intros Hm (balances & Eb & En)%outcome_bind_inv. injection En as <-.
  assert (objects_ok m) as Hom by exact (mi_object _ Hm).
  split; try done; rsimpl.
  - intros t a l Hh. unfold holder in Hh. rsimpl. rewrite copy_users_lookup in Hh.
    destruct (Mod.UsersTokenBalanceDataMap m !! a ≫= lookup t) as [l0|] eqn:El; [|done].
    injection Hh as <-. destruct (Hom t a l0 El) as (b & Hb & ? & ?). exists (MBal_CherryPick b). split; [|done].
    rewrite (copy_objects_lookup _ _ _ _ _ _ Eb), El. simpl. by rewrite Hb.
  - intros t a. unfold amounts, balance_of. rsimpl. rewrite copy_users_lookup.
    destruct (Mod.UsersTokenBalanceDataMap m !! a ≫= lookup t) as [l0|] eqn:El; [|done].
    destruct (Hom t a l0 El) as (b & Hb & _). simpl. rewrite Hb, (copy_objects_lookup _ _ _ _ _ _ Eb), El. simpl.
    rewrite Hb. simpl. by rewrite !NewDecimalCopy_id.
  - intros pair. unfold copy_lp. rewrite map_lookup_imap. destruct (_ !! pair); simpl; split; intros []; eauto; done.
  - intros a. rewrite lookup_fmap, fmap_is_Some. done.
  - intros pair a. pose proof (mi_agree _ Hm pair a) as E. unfold lp_in_pool, copy_lp in *. rsimpl.
    rewrite map_lookup_imap. destruct (Mod.LPTokenUsersBalanceMap m !! pair) as [us|]; [|done]. simpl in *.
    rewrite map_lookup_imap. destruct (us !! a); [|done]. simpl in *. rewrite E. unfold lp_entry.
    by rewrite lp_entry_copy.
  - intros pair a. unfold lp_of_user. rsimpl. by rewrite lp_entry_copy.
  - intros pair. rewrite lookup_fmap. destruct (_ !! pair) as [p|]; constructor.
    split; symmetry; try apply NewDecimalCopy_id; done.
Qed.

(** ** The copy of the indexer *)
Record picked_copy g modul pick m h : Prop := {
  pc_module : ∃ n, Mod_CherryPick m = Ret n ∧ G.ModulesInfoMap h !! modul = Some n;
  pc_height : G.BestHeight h = 0;
  pc_tickers : G.InscriptionsTickerInfoMap h =
    TokenInfo_CherryPick <$> picked ({[ToLower (Mod.GasTick m)]} ∪ Pick.pickTokensTick pick) (G.InscriptionsTickerInfoMap g);
}.
Lemma CherryPick_copy g modul pick m h :
  G.ModulesInfoMap g !! modul = Some m → CherryPick g modul pick = Ret h → picked_copy g modul pick m h.
Proof.
  intros Hm. unfold CherryPick. rewrite Hm. intros (c & Ec & Eh)%outcome_bind_inv.
  unfold cherryPickBRC20Data in Ec. apply outcome_bind_inv in Ec as (balances & _ & [= <-]).
  unfold cherryPickModuleData in Eh. rewrite Hm in Eh.
  apply outcome_bind_inv in Eh as (modules & (n & En & [= <-])%outcome_bind_inv & [= <-]).
  split; [|done..]. exists n. split; [done|]. exact (lookup_singleton_eq (M := gmap string) modul n).
Qed.
Lemma CherryPick_reads g modul pick m h :
  picked_copy g modul pick m h → paired g = before_withdraw 0 →
  same_reads ({[ToLower (Mod.GasTick m)]} ∪ Pick.pickTokensTick pick) g h.
Proof.
  intros [_ Hh Ht] Ep. split; [by unfold paired at 2; rewrite Hh|]. intros tick amt Hin.
  unfold CheckTickVerify. rewrite Ht, lookup_fmap. unfold picked. rewrite map_lookup_filter.
  destruct (G.InscriptionsTickerInfoMap g !! ToLower tick) as [y|]; [|done]. simpl.
  rewrite option_guard_True by done. simpl. case_match; [done|].
  by rewrite NewDecimalCopy_id.
Qed.

(** ** Verifying on both *)
Lemma on_module_related {A} (R : A → A → Prop) (p q : GoM BRC20ModuleSwapInfo A) id m n g h :
  G.ModulesInfoMap g !! id = Some m → G.ModulesInfoMap h !! id = Some n →
  related p q m n (λ a b _ _, R a b) → related (on_module id p) (on_module id q) g h (λ a b _ _, R a b).
Proof.
  intros Hm Hn. unfold related, on_module. rewrite Hm, Hn.
  by destruct (p m) as [[a|e|w] m'], (q n) as [[b|e'|w'] n'].
Qed.
Lemma ProcessCommitVerify_twin ticks id body sizes g h m n :
  G.ModulesInfoMap g !! CommitBody.Module_ body = Some m →
  G.ModulesInfoMap h !! CommitBody.Module_ body = Some n →
  twin m n → Mod.CommitIdMap m = Mod.CommitIdMap n → Mod.CommitIdChainMap m = Mod.CommitIdChainMap n →
  same_reads ticks g h → ToLower (Mod.GasTick m) ∈ ticks → data_known ticks g (CommitBody.CommitData body) →
  related (ProcessCommitVerify [] id body sizes []) (ProcessCommitVerify [] id body sizes []) g h
    (λ r r' _ _, r = r').
Proof.
  intros Hm Hn Hw Eid Ech Hr Hg Hd. unfold ProcessCommitVerify. apply related_bind, related_get.
  rewrite Hm, Hn, <-Eid, <-Ech, <-(tw_gas _ _ Hw), (same_reads_amount ticks g h) by done.
  repeat (case_match; [by apply related_ret|]).
  apply related_bind, related_lift, same_end_refl. intros gas _. case_match; [by apply related_ret|].
  eapply on_module_related; [done..|]. destruct (CommitBody.CommitData body) as [|o data] eqn:Ed.
  - by apply related_ret.
  - by eapply commit_functions_twin.
Qed.

Lemma below_withdraw_paired g :
  0 ≤ G.BestHeight g < Conf.ENABLE_SWAP_WITHDRAW_HEIGHT conf → paired g = before_withdraw 0.
Proof.
  intros Hh. unfold paired, before_withdraw. transitivity true; [apply Z.ltb_lt|symmetry; apply Z.ltb_lt]; lia.
Qed.
Lemma tried_and_executed `{!Spelling} g0 g body m pick h id sizes i :
  ProcessInscribeCommitPreVerify g0 body = Ret (i, None) → paired g0 = paired g →
  0 ≤ G.BestHeight g < Conf.ENABLE_SWAP_WITHDRAW_HEIGHT conf →
  G.ModulesInfoMap g !! CommitBody.Module_ body = Some m → mod_inv m →
  cherry_pick_filter g body = Ret pick → CherryPick g (CommitBody.Module_ body) pick = Ret h →
  same_end eq (run_outcome (ProcessCommitVerify [] id body sizes []) h)
    (run_outcome (ProcessCommitVerify [] id body sizes []) g).
Proof.
  intros Ha%ProcessInscribeCommitPreVerify_accepted Ep Hh Hm Hinv Hf Hc.
  pose proof (CherryPick_copy _ _ _ _ _ Hm Hc) as Hpc.
  pose proof (CherryPick_reads _ _ _ _ _ Hpc (below_withdraw_paired g Hh)) as Hr.
  destruct Hpc as [(n & Hn & Hnm) _ _].
  assert (related (ProcessCommitVerify [] id body sizes []) (ProcessCommitVerify [] id body sizes []) g h
    (λ r r' _ _, r = r')) as Hrel.
  { eapply ProcessCommitVerify_twin; [exact Hm|exact Hnm|by apply Mod_CherryPick_twin|..].
    - unfold Mod_CherryPick in Hn. by apply outcome_bind_inv in Hn as (? & _ & [= <-]).
    - unfold Mod_CherryPick in Hn. by apply outcome_bind_inv in Hn as (? & _ & [= <-]).
    - exact Hr.
    - by apply elem_of_union_l, elem_of_singleton_2.
    - pose proof (cherry_pick_filter_known _ _ _ _ _ Ep Ha Hm Hf) as Hk.
      eapply Forall_impl; [exact Hk|]. intros o Ho f Ef. eapply function_known_mono; [apply union_subseteq_r|by apply Ho]. }
  apply related_run in Hrel. revert Hrel. unfold same_end. by repeat case_match.
Qed.

(** ** Claims *)

(** C8: The copy predicts the state: below the withdraw height, a commit whose functions
    passed the pre-verification ends on the copy made for it exactly as on the state
    itself, with the same result, index and error message. *)
Theorem commit_copy_faithful `{!Spelling} g0 g body m pick h id sizes i :
  ProcessInscribeCommitPreVerify g0 body = Ret (i, None) → paired g0 = paired g →
  0 ≤ G.BestHeight g < Conf.ENABLE_SWAP_WITHDRAW_HEIGHT conf →
  G.ModulesInfoMap g !! CommitBody.Module_ body = Some m → mod_inv m →
  cherry_pick_filter g body = Ret pick → CherryPick g (CommitBody.Module_ body) pick = Ret h →
  same_end eq (run_outcome (ProcessCommitVerify [] id body sizes []) h)
    (run_outcome (ProcessCommitVerify [] id body sizes []) g).
Proof. apply tried_and_executed. Qed.

Definition unlisted (dataFrom : InscriptionBRC20Data) g : BRC20ModuleIndexer :=
  g <| G.InscriptionsValidCommitMapById ::= delete (GetInscriptionId dataFrom) |>.

Lemma holds_no_error {S A} (p : GoM S A) s (E : S → Prop) : never_fails p → holds p s (λ _ _, True) E.
Proof. intros Hp. eapply holds_never_fails; [done|]. apply (holds_pure p s True). done. Qed.

(** C5: Commits are atomic: below the withdraw height, a moved commit that passed the
    pre-verification and is rejected leaves the state as it was, apart from being taken
    off the list of pending commits and marked invalid. *)
Theorem ProcessCommit_atomic `{!Spelling} g0 g dataFrom dataTo isInvalid body i e g' :
  Unmarshal_Commit (Data.ContentBody dataFrom) = Ret (Some body) →
  ProcessInscribeCommitPreVerify g0 body = Ret (i, None) → paired g0 = paired g →
  0 ≤ G.BestHeight g < Conf.ENABLE_SWAP_WITHDRAW_HEIGHT conf → mods_ok g →
  ProcessCommit [] dataFrom dataTo isInvalid g = (Error e, g') →
  g' = unlisted dataFrom g ∨
  g' = run_state (set_commit_invalid (CommitBody.Module_ body) (GetInscriptionId dataFrom)) (unlisted dataFrom g).
Proof.
  intros Eb Ha Ep Hh Hok. revert e g'.
  enough (holds (ProcessCommit [] dataFrom dataTo isInvalid) g (λ _ _, True) (λ g', g' = unlisted dataFrom g ∨
    g' = run_state (set_commit_invalid (CommitBody.Module_ body) (GetInscriptionId dataFrom)) (unlisted dataFrom g)))
    as Hs by by intros e g' Er; eapply holds_run_error in Hs.
  unfold ProcessCommit. rewrite Eb. apply holds_bind, holds_modify. cbv beta.
  change (field_update _ _ g) with (unlisted dataFrom g). set (g1 := unlisted dataFrom g).
  apply holds_bind, holds_lift; [|by left]. intros ? [= <-].
  case_match; [|by apply holds_throw; left]. simpl. apply holds_bind, holds_ret.
  case_match; [by apply holds_throw; left|]. apply holds_bind, holds_get.
  destruct (G.ModulesInfoMap g1 !! CommitBody.Module_ body) as [m|] eqn:Hm; [|by apply holds_throw; left].
  apply holds_bind. unfold set_commit_invalid. apply on_module_holds. intros m0 Hm0. apply holds_modify.
  assert (m0 = m) as -> by congruence. cbv beta.
  set (m1 := m <| Mod.CommitInvalidMap ::= _ |>).
  assert (run_state (on_module (CommitBody.Module_ body)
    (modify (λ m, m <| Mod.CommitInvalidMap ::= union {[GetInscriptionId dataFrom]} |>))) g1 =
    set_module (CommitBody.Module_ body) m1 g1) as -> by by unfold run_state, on_module; rewrite Hm.
  assert (mod_inv m1) as Hm1.
  { assert (mod_inv m) as Hi by by eapply Hok. by split; apply Hi. }
  set (g2 := set_module _ m1 g1).
  assert (G.ModulesInfoMap g2 !! CommitBody.Module_ body = Some m1) as Hg2 by apply lookup_insert_eq.
  case_match; [by apply holds_throw; right|].
  apply holds_bind, holds_lift; [intros sizes _|by right]. apply holds_bind, holds_get.
  apply holds_bind, holds_lift; [intros pick Hpick|by right].
  apply holds_bind, holds_lift; [intros h Hc|by right].
  pose proof (tried_and_executed g0 g2 body m1 pick h (GetInscriptionId dataFrom) sizes i Ha Ep Hh Hg2 Hm1 Hpick Hc) as Hsame.
  apply holds_bind, holds_lift; [intros tried Et|by right]. rewrite Et in Hsame.
  destruct tried.2 as [err|] eqn:Ee; [by apply holds_throw; right|].
  apply holds_bind. unfold holds at 1. unfold run_outcome in Hsame. simpl in Hsame.
  destruct (ProcessCommitVerify _ _ _ _ _ g2) as [[r| |] g3]; try done. simpl in Hsame. subst r. rewrite Ee.
  apply holds_no_error. unfold settle_commit, unset_commit_invalid.
  repeat (apply never_fails_bind; [|intros []]); apply on_module_never_fails; apply never_fails_modify.
Qed.

(** ** After the withdraw height *)
Lemma bad_pair_rejected h f msg p0 :
  paired h = true → param f 0 = Ret p0 → is_ret (DecodeTokensFromSwapPair p0) = false →
  ∀ tokens, function_tokens msg h f ≠ Ret tokens.
Proof.
  unfold function_tokens. intros -> -> Hd tokens. simpl. destruct (param f 1); simpl; [|done..].
  unfold or_error. by destruct (DecodeTokensFromSwapPair p0).
Qed.
Lemma bad_pair_function h f p0 n :
  paired h = true → param f 0 = Ret p0 → is_ret (DecodeTokensFromSwapPair p0) = false →
  SwapFunction.Function_ f ∈ [BRC20_SWAP_FUNCTION_ADD_LIQ; BRC20_SWAP_FUNCTION_REMOVE_LIQ; BRC20_SWAP_FUNCTION_SWAP] →
  holds (commit_function h f) n (λ _ _, False) (λ _, True).
Proof.
  intros Hh Hp Hd Hin. pose proof (λ msg, bad_pair_rejected h f msg p0 Hh Hp Hd) as Hno.
  rewrite !elem_of_cons, elem_of_nil in Hin.
  destruct Hin as [E|[E|[E|[]]]]; unfold commit_function; rewrite E;
    repeat (rewrite bool_decide_eq_false_2 by done); rewrite bool_decide_eq_true_2 by done.
  - unfold ProcessCommitFunctionAddLiquidity. apply holds_bind, holds_lift; [|done]. by intros ? ?%Hno.
  - unfold ProcessCommitFunctionRemoveLiquidity. apply holds_bind, holds_lift; [|done]. by intros ? ?%Hno.
  - unfold ProcessCommitFunctionSwap. apply holds_bind, holds_lift; [|done]. by intros ? ?%Hno.
Qed.
Lemma or_return_holds p idx critical k n (Q : verify_result → BRC20ModuleSwapInfo → Prop) :
  (∀ e n', Q (Z.of_nat idx, critical, Some e) n') →
  holds p n (λ _ n', holds k n' Q (λ _, True)) (λ _, True) →
  holds (or_return p idx critical k) n Q (λ _, True).
Proof.
  intros HQ Hp. unfold or_return. apply holds_bind, holds_catch.
  eapply holds_mono; [exact Hp|done|]. intros n' _ e. by apply holds_ret.
Qed.
Lemma holds_all {S A} (p : GoM S A) s (Q : A → S → Prop) :
  (∀ a s', Q a s') → holds p s Q (λ _, True).
Proof. unfold holds. by destruct (p s) as [[a|e|w] s']. Qed.
Lemma bad_pair_verify external id body sizes h f data p0 :
  CommitBody.CommitData body = Some f :: data →
  paired h = true → param f 0 = Ret p0 → is_ret (DecodeTokensFromSwapPair p0) = false →
  SwapFunction.Function_ f ∈ [BRC20_SWAP_FUNCTION_ADD_LIQ; BRC20_SWAP_FUNCTION_REMOVE_LIQ; BRC20_SWAP_FUNCTION_SWAP] →
  holds (ProcessCommitVerify external id body sizes []) h (λ r _, r.2 ≠ None) (λ _, True).
Proof.
  intros Ed Hh Hp Hd Hin. unfold ProcessCommitVerify. apply holds_bind, holds_get.
  destruct (_ !! _) as [m|]; [|by apply holds_ret].
  repeat (case_match; [by apply holds_ret|]). apply holds_bind, holds_lift; [intros gas _|done].
  case_match; [by apply holds_ret|]. rewrite Ed in *. destruct sizes as [|size sizes]; [done|].
  unfold holds, on_module. destruct (_ !! _) as [n|]; [|done].
  assert (holds (commit_functions h id gas [] external (length (A:=SwapFunctionResultCheckState) [] =? length (Some f :: data))%nat 0
    (Some f :: data) (size :: sizes)) n (λ r _, r.2 ≠ None) (λ _, True)) as Hc.
  { simpl. apply holds_bind, holds_catch. apply holds_bind, holds_lift; [|by intros ? _ ?; apply holds_ret].
    intros pk _. apply holds_ret. apply or_return_holds; [done|].
    apply holds_all. intros [] n'. apply or_return_holds; [done|].
    eapply holds_mono; [by apply (bad_pair_function h (f <| SwapFunction.PkScript := b2s pk |>) p0)|done..]. }
  unfold holds in Hc. by destruct (commit_functions _ _ _ _ _ _ _ _ _ n) as [[r|e|w] n'].
Qed.

(** C24: From the withdraw height on, commits whose first function is on a pool are lost:
    the copy has height 0 and reads the first parameter, a ticker in the new format, as
    a pair of tickers, so a moved commit is never executed. *)
Theorem commit_lost_after_withdraw external dataFrom dataTo isInvalid g g' body f data p0 :
  Unmarshal_Commit (Data.ContentBody dataFrom) = Ret (Some body) →
  CommitBody.CommitData body = Some f :: data →
  SwapFunction.Function_ f ∈ [BRC20_SWAP_FUNCTION_ADD_LIQ; BRC20_SWAP_FUNCTION_REMOVE_LIQ; BRC20_SWAP_FUNCTION_SWAP] →
  param f 0 = Ret p0 → is_ret (DecodeTokensFromSwapPair p0) = false →
  0 < Conf.ENABLE_SWAP_WITHDRAW_HEIGHT conf ≤ G.BestHeight g →
  ProcessCommit external dataFrom dataTo isInvalid g ≠ (Ret tt, g').
Proof.
  intros Eb Ed Hin Hp Hd Hh Er.
  enough (holds (ProcessCommit external dataFrom dataTo isInvalid) g (λ _ _, False) (λ _, True)) as Hno
    by by eapply holds_run in Hno.
  unfold ProcessCommit. rewrite Eb. apply holds_bind, holds_modify. set (g1 := field_update _ _ g).
  apply holds_bind, holds_lift; [|done]. intros ? [= <-]. case_match; [|by apply holds_throw].
  simpl. apply holds_bind, holds_ret. case_match; [by apply holds_throw|]. apply holds_bind, holds_get.
  destruct (G.ModulesInfoMap g1 !! _) as [m|]; [|by apply holds_throw].
  apply holds_bind. unfold set_commit_invalid. apply on_module_holds. intros m0 Hm0. apply holds_modify.
  set (g2 := set_module _ _ _). case_match; [by apply holds_throw|].
  apply holds_bind, holds_lift; [intros sizes _|done]. apply holds_bind, holds_get.
  apply holds_bind, holds_lift; [intros pick _|done]. apply holds_bind, holds_lift; [intros h Hc|done].
  assert (∃ m2, G.ModulesInfoMap g2 !! CommitBody.Module_ body = Some m2) as [m2 Hm2].
  { eexists. apply lookup_insert_eq. }
  destruct (CherryPick_copy _ _ _ _ _ Hm2 Hc) as [_ Hh0 _].
  assert (paired h = true) as Hpair by (unfold paired; rewrite Hh0; apply Z.ltb_lt; lia).
  apply holds_bind, holds_lift; [intros tried Et|done].
  pose proof (bad_pair_verify external (GetInscriptionId dataFrom) body sizes h f data p0 Ed Hpair Hp Hd Hin) as Hv.
  unfold holds in Hv. unfold run_outcome in Et.
  destruct (ProcessCommitVerify _ _ _ _ _ h) as [o h'] eqn:E. simpl in Et. subst o.
  destruct tried.2; [by apply holds_throw|done].
Qed.
End commits.
