(* ===== verification/Checked.v ===== *)
(** * A commit with and without expected results

    The checks of expected results change nothing the functions of a commit read, so a
    commit that ends well with them, on one of two twins, ends well without them on the
    other. *)
From S2P Require Import Prelude GoStd Decimal Script Utils Json Model History Swap Bip322 CommitJson Indexer CondApprove Ledger Modules Commit PreVerify CherryPick CommitFlow PairNames SwapProof ModuleAcc ModulePools PreVerifyProof ModuleBooks Relate CopySim CopyFunctions CopyCommit.

Section checked.
Context `{GoUnicode, Config, BtcAddr, Btcd}.
Implicit Types (m n : BRC20ModuleSwapInfo) (g h : BRC20ModuleIndexer) (f : SwapFunctionData).

(** ** The checks are quiet *)
#[global] Instance quiet_Keep : Keep objects_ok quiet.
Proof. split; [exact quiet_refl|exact quiet_trans|by intros ?? []]. Qed.
Abbreviation quietly := (keeping objects_ok quiet).

Lemma get_balance_quietly t a : quietly (Module_GetUserTokenBalance t a).
Proof.
  intros m Hm. destruct (GetUserTokenBalance_quiet m t a Hm) as (l & m' & E & Hq & _). unfold holds. by rewrite E.
Qed.
Lemma mod_load_quietly l : quietly (mod_load l).
Proof. unfold mod_load. keeping. Qed.
Lemma load_pool_quietly pair msg : quietly (load_pool pair msg).
Proof. unfold load_pool. keeping. Qed.
#[local] Hint Resolve get_balance_quietly mod_load_quietly load_pool_quietly : keeping.
Lemma check_user_result_quietly g i user : quietly (check_user_result g i user).
Proof. unfold check_user_result. cbv zeta. keeping. Qed.
Lemma check_pool_result_quietly g i pool : quietly (check_pool_result g i pool).
Proof. unfold check_pool_result. cbv zeta. keeping. Qed.
#[local] Hint Resolve check_user_result_quietly check_pool_result_quietly : keeping.
Lemma BRC20ResultsPreVerify_quietly g result : quietly (BRC20ResultsPreVerify g result).
Proof. unfold BRC20ResultsPreVerify. keeping. Qed.

(** ** Runs that end without an error *)

(** [q] returns from [n] without an error, when [p] does from [m]. *)
Definition carries (p q : ModM verify_result) m n : Prop :=
  ∀ r m', p m = (Ret r, m') → r.2 = None → returns q n (λ r' _, r'.2 = None).

Lemma carries_or_return (p q : ModM unit) idx critical idx' critical' k k' m n :
  related p q m n (λ _ _ m' n', twin m' n') →
  (∀ m' n', twin m' n' → carries k k' m' n') →
  carries (or_return p idx critical k) (or_return q idx' critical' k') m n.
Proof.
  intros Hpq Hk r m'. unfold related in Hpq. unfold or_return, mbind, GoM_bind, catch, returns.
  destruct (p m) as [[[]|e|w] m1], (q n) as [[[]|e'|w'] n1]; try done.
  - intros Er Hr. apply (Hk m1 n1 Hpq r m' Er Hr).
  - by intros [= <- <-].
Qed.
(** A check on the left only. *)
Lemma carries_check p idx critical idx' critical' k k' m n :
  twin m n → quietly p → (∀ m', twin m' n → carries k k' m' n) →
  carries (or_return p idx critical k) (or_return (mret tt) idx' critical' k') m n.
Proof.
  intros Hw Hp Hk r m'. specialize (Hp m (tw_left _ _ Hw)). unfold holds in Hp.
  unfold or_return, mbind, GoM_bind, catch. destruct (p m) as [[[]|e|w] m1]; try done.
  - intros Er Hr. assert (twin m1 n) as Hw1 by exact (ts_twin _ _ _ _ (quiet_twin m n m1 n Hw Hp (quiet_refl n (tw_right _ _ Hw)))).
    exact (Hk m1 Hw1 r m' Er Hr).
  - by intros [= <- <-].
Qed.

(** A step that only computes, and whose error is an error of both. *)
Lemma carries_catch {A} (o : outcome A) (c : ModM A) K K' m n :
  (∀ s, c s = (o, s)) → (∀ e r s s', K (inr e) s = (Ret r, s') → r.2 ≠ None) →
  (∀ a, o = Ret a → carries (K (inl a)) (K' (inl a)) m n) →
  carries (catch c ≫= K) (catch c ≫= K') m n.
Proof.
  intros Hc He HK r m' Er Hr. unfold returns. unfold mbind, GoM_bind, catch in *. rewrite Hc in Er |- *.
  destruct o as [a|e|w]; [by apply (HK a eq_refl r m')|by destruct (He _ _ _ _ Er)|done].
Qed.

Lemma commit_functions_checked ticks g h id id' gas results instant idx data sizes m n :
  same_reads ticks g h → data_known ticks g data → twin m n →
  carries (commit_functions g id gas results [] instant idx data sizes)
    (commit_functions h id' gas [] [] false idx data sizes) m n.
Proof.
  intros Hr. revert idx sizes m n. induction data as [|[f|] data IH]; intros idx sizes m n Hd Hw.
  - intros r m' _ _. destruct sizes; by apply returns_ret.
  - inversion_clear Hd as [|? ? Hf Hd']. specialize (Hf f eq_refl).
    destruct sizes as [|size sizes]; [intros r m' _ _; by apply returns_ret|]. cbn [commit_functions].
    apply (carries_catch (b2s <$> GetPkScriptByAddress (SwapFunction.Address f))).
    { intros s. unfold lift, mbind, GoM_bind. by destruct (GetPkScriptByAddress _). }
    { by intros e r s s' [= <- <-]. }
    intros pk _. cbv beta iota zeta.
    apply carries_or_return.
    { destruct (0 <? Sign gas); [|by apply related_ret]. simpl. apply related_bind, related_lift.
      unfold gas_amount. rewrite (sr_paired _ _ _ Hr). apply same_end_refl. intros ? _. by apply GasFee_twin. }
    intros m1 n1 Hw1. apply carries_or_return; [by eapply commit_function_twin|].
    intros m2 n2 Hw2. apply carries_check; [done| |].
    { destruct instant; [|keeping]. case_match; [apply BRC20ResultsPreVerify_quietly|keeping]. }
    intros m3 Hw3. apply carries_or_return; [by apply related_ret|]. intros m4 n4 Hw4. by apply IH.
  - destruct sizes; [intros r m' _ _; by apply returns_ret|by intros r m' ?].
Qed.

Lemma twin_sym m n : twin m n → twin n m.
Proof.
  intros [? ? ? ? ? ? Eb ? ? ? ? Ep]. split; try done; [by intros; symmetry..|].
  intros pair. specialize (Ep pair). destruct Ep as [p q []|]; constructor. by split.
Qed.

(** ** An accepted function names tickers that are there *)
Lemma require_tick_there tick amt msg g :
  require_tick tick amt msg g = Ret tt → ToLower tick ∈ dom (G.InscriptionsTickerInfoMap g).
Proof.
  unfold require_tick. intros [a Ha]%require_ok_inv. unfold CheckTickVerify in Ha.
  destruct (_ !! _) eqn:E; [|done]. by eapply elem_of_dom_2.
Qed.
Abbreviation tickers g := (dom (G.InscriptionsTickerInfoMap g)).
Lemma preverify_swap_there g f : preverify_swap g f = Ret tt → swap_known (tickers g) g f.
Proof.
  unfold preverify_swap. intros ([] & _ & (tokens & Ht & Hr)%outcome_bind_inv)%outcome_bind_inv.
  apply outcome_bind_inv in Hr as (token & _ & Hr). case_match; [done|].
  apply outcome_bind_inv in Hr as (derection & _ & Hr). case_match; [done|].
  apply outcome_bind_inv in Hr as (req & Ed & ([] & Hin & ([] & Hout & _)%outcome_bind_inv)%outcome_bind_inv).
  intros msg tokens' req' Ht' Hd. apply (function_tokens_msg _ _ _ "func: swap poolPair invalid") in Ht'.
  assert (tokens' = tokens) as -> by congruence. assert (req' = req) as -> by congruence.
  split; by eapply require_tick_there.
Qed.
Lemma preverify_function_there g f : preverify_function g f = Ret tt → function_known (tickers g) g f.
Proof.
  unfold preverify_function, function_known. cbv zeta. repeat case_bool_decide; try done.
  - unfold preverify_deploy. intros ([] & Hn & (t0 & E0 & (t1 & E1 & Hr)%outcome_bind_inv)%outcome_bind_inv)%outcome_bind_inv.
    do 3 (case_bool_decide; [done|]).
    intros [|[|i]] t Hi Ei; [..|lia]; simplify_eq; apply elem_of_dom, not_eq_None_Some; congruence.
  - unfold preverify_add_liq. intros ([] & _ & (tokens & Ht & Hr)%outcome_bind_inv)%outcome_bind_inv.
    do 4 apply outcome_bind_inv in Hr as (? & _ & Hr). apply outcome_bind_inv in Hr as ([] & H0' & Hr).
    apply outcome_bind_inv in Hr as ([] & H1' & _). eapply pair_known_tokens; [done|by eapply require_tick_there..].
  - unfold preverify_remove_liq. intros ([] & _ & (tokens & Ht & Hr)%outcome_bind_inv)%outcome_bind_inv.
    do 5 apply outcome_bind_inv in Hr as (? & _ & Hr). apply outcome_bind_inv in Hr as ([] & H0' & Hr).
    apply outcome_bind_inv in Hr as ([] & H1' & _). eapply pair_known_tokens; [done|by eapply require_tick_there..].
  - apply preverify_swap_there.
  - unfold preverify_decrease_approval. intros ([] & _ & (t0 & E0 & (amt & _ & Hr)%outcome_bind_inv)%outcome_bind_inv)%outcome_bind_inv.
    intros t Et. assert (t = t0) as -> by congruence. by eapply require_tick_there.
  - unfold preverify_send. intros ([] & _ & (a & _ & ([] & _ & (t0 & E0 & (amt & _ & Hr)%outcome_bind_inv)%outcome_bind_inv)%outcome_bind_inv)%outcome_bind_inv)%outcome_bind_inv.
    intros t Et. assert (t = t0) as -> by congruence. by eapply require_tick_there.
Qed.
Lemma accepted_data_known g data : Forall (accepted_function g) data → data_known (tickers g) g data.
Proof.
  intros Ha. eapply Forall_impl; [exact Ha|]. intros o (f & pk & -> & _ & _ & Hf) f' [= <-].
  change (preverify_function g f = Ret tt) in Hf. by apply preverify_function_there.
Qed.

(** ** Verifying on a copy, with expected results, and on the state *)
Lemma ProcessCommitVerify_checked ticks id id' body sizes results g h m n i critical :
  G.ModulesInfoMap g !! CommitBody.Module_ body = Some m →
  G.ModulesInfoMap h !! CommitBody.Module_ body = Some n →
  twin n m → Mod.CommitIdMap n = Mod.CommitIdMap m → Mod.CommitIdChainMap n = Mod.CommitIdChainMap m →
  same_reads ticks h g → ToLower (Mod.GasTick n) ∈ ticks → data_known ticks h (CommitBody.CommitData body) →
  run_outcome (ProcessCommitVerify [] id body sizes results) h = Ret (i, critical, None) →
  ∃ i' critical', run_outcome (ProcessCommitVerify [] id' body sizes []) g = Ret (i', critical', None).
Proof.
  intros Hm Hn Hw Eid Ech Hr Hg Hd. unfold run_outcome, ProcessCommitVerify, mbind, GoM_bind, get, lift.
  rewrite Hm, Hn, <-Eid, <-Ech, <-(tw_gas _ _ Hw), <-(same_reads_amount ticks h g) by done.
  repeat (case_match; [done|]). destruct (tick_amount _ _ h) as [gas| |]; [|done..].
  case_match; [done|]. unfold on_module. rewrite Hm, Hn.
  destruct (CommitBody.CommitData body) as [|o data] eqn:Ed.
  { intros _. simpl. eauto. }
  set (inst := (length results =? length (o :: data))%nat).
  pose proof (commit_functions_checked ticks h g id id' gas results inst 0 (o :: data) sizes n m Hr Hd Hw) as Hc.
  destruct (commit_functions h id gas results [] inst 0 (o :: data) sizes n) as [[[[] e]| |] n'] eqn:E; cbn [fst]; try done.
  intros [= -> -> ->]. destruct (Hc _ _ E eq_refl) as ([[i' c'] e'] & m' & E' & He).
  change (length (A:=SwapFunctionResultCheckState) [] =? length (o :: data))%nat with false. rewrite E'. cbn in He. subst. eauto.
Qed.
End checked.
