(* ===== verification/CommitBooks.v ===== *)
(** * New modules and commits on the accounts of all modules

    A new module holds nothing; a commit, tried and executed, moves tickers inside its
    module only. *)
From S2P Require Import Prelude GoStd Decimal Script Utils Json Model History Swap Bip322 CommitJson Indexer CondApprove Ledger Modules Commit PreVerify CherryPick CommitFlow PairNames SwapProof ModuleAcc ModuleSteps ModuleProof ModulePools ModuleOps ModuleBooks ModuleHandlers PreVerifyProof.

Section commits.
Context `{Spelling, MapOrder, Config, BtcAddr, Btcd}.
Implicit Types (g : BRC20ModuleIndexer) (m : BRC20ModuleSwapInfo).

(** ** New modules *)

(** [g'] has the accounts of [g] and maybe new modules without any. *)
Record extended g g' : Prop := {
  ex_ok : mods_ok g';
  ex_total i u : mod_total g' i u = mod_total g i u;
  ex_lp i pair : lp_excess g' i pair = lp_excess g i pair;
  ex_grow i m : G.ModulesInfoMap g !! i = Some m →
    ∃ m', G.ModulesInfoMap g' !! i = Some m' ∧ grow m m';
}.
Lemma books_extended g g' : books g g' → extended g g'.
Proof. by intros []. Qed.

Lemma new_module_empty id body data s gt lp fee tick t pair :
  let m := new_module id body data s gt lp fee tick in
  mod_inv m ∧ module_total m t = 0 ∧ lp_held m pair = 0 ∧ lp_supply m pair = 0.
Proof.
  intros m.
  assert (∀ t a l, ¬ holder m t a l) as Hn by (intros ???; unfold holder; cbn; by rewrite lookup_empty).
  split_and!; [|done..|by unfold lp_supply; cbn; rewrite lookup_empty]. split.
  - by intros ??? ?%Hn.
  - intros t' a l. split; [|by intros ?%Hn]. cbn. by rewrite lookup_empty.
  - intros p q. cbn. by rewrite lookup_empty.
  - intros p. cbn. rewrite lookup_empty. by intros [].
  - intros p a. unfold lp_in_pool, lp_of_user. cbn. by rewrite !lookup_empty.
Qed.

Lemma set_new_module_extended id m g :
  mods_ok g → G.ModulesInfoMap g !! id = None → mod_inv m →
  (∀ t, module_total m t = 0) → (∀ p, lp_held m p - lp_supply m p = 0) →
  extended g (set_module id m g).
Proof.
  intros Hok Hn Hm Ht Hl. unfold set_module. split.
  - intros i m1. rsimpl. rewrite lookup_insert_Some. intros [[<- <-]|[_ Hi]]; [done|by eapply Hok].
  - intros i u. unfold mod_total. rsimpl. destruct (decide (id = i)) as [<-|]; simplify_map_eq; auto.
  - intros i p. unfold lp_excess. rsimpl. destruct (decide (id = i)) as [<-|]; simplify_map_eq; auto.
  - intros i m1 Hm1. exists m1. split; [|done]. rsimpl. rewrite lookup_insert_ne; [done|congruence].
Qed.

Lemma ProcessCreateModule_extended data g :
  mods_ok g → holds (ProcessCreateModule data) g (λ _, extended g) (extended g).
Proof.
  intros Hok. pose proof (books_extended _ _ (books_refl g Hok)).
  unfold ProcessCreateModule. apply holds_bind, holds_lift; [|done]. intros body _.
  case_match; [by apply holds_throw|]. cbv zeta. apply holds_bind, holds_get.
  destruct (bool_decide_reflect (is_Some (G.ModulesInfoMap g !! GetInscriptionId data))) as [|Hd];
    [by apply holds_throw|].
  apply holds_bind, holds_lift; [|done]. intros ? _. case_match; [by apply holds_throw|].
  case_match; [|by apply holds_throw].
  apply holds_bind, holds_lift; [|done]. intros ? _. case_match; [by apply holds_throw|].
  do 3 (apply holds_bind, holds_lift; [|done]; intros ? _).
  apply holds_modify. match goal with |- extended _ (field_update _ (_ (GetInscriptionId data) (new_module ?a ?b ?c ?d ?e ?f ?h ?i)) _) =>
    pose proof (new_module_empty a b c d e f h i) as Hnew end.
  apply set_new_module_extended; [done|by apply eq_None_not_Some|..].
  - by apply (Hnew "" "").
  - intros t. by apply (Hnew t "").
  - intros p. destruct (Hnew "" p) as (_ & _ & -> & ->). done.
Qed.

(** ** Inscribing a commit *)
Lemma set_commit_invalid_bookkeeping id c : bookkeeping (set_commit_invalid id c).
Proof. unfold set_commit_invalid. keeping. Qed.
Lemma unset_commit_invalid_bookkeeping id c : bookkeeping (unset_commit_invalid id c).
Proof. unfold unset_commit_invalid. keeping. Qed.
Lemma settle_commit_bookkeeping id c p : bookkeeping (settle_commit id c p).
Proof. unfold settle_commit. keeping. Qed.
#[local] Hint Resolve set_commit_invalid_bookkeeping unset_commit_invalid_bookkeeping
  settle_commit_bookkeeping deref_bookkeeping : keeping.
Lemma ProcessInscribeCommit_bookkeeping data : bookkeeping (ProcessInscribeCommit data).
Proof. unfold ProcessInscribeCommit. keeping. Qed.

(** ** Executing a commit *)
Definition functions_ok g (data : list (option SwapFunctionData)) : Prop :=
  Forall (λ f, ∀ f', f = Some f' → function_ok g f') data.
Lemma functions_ok_paired g g' data : paired g = paired g' → functions_ok g data → functions_ok g' data.
Proof.
  intros E Hd. eapply Forall_impl; [exact Hd|]. intros f Hf f' Ef. by apply (function_ok_paired g), Hf.
Qed.

Lemma ProcessCommitVerify_books external id body sizes results g :
  mods_ok g → functions_ok g (CommitBody.CommitData body) →
  holds (ProcessCommitVerify external id body sizes results) g (λ _, books g) (books g).
Proof.
  intros Hok Hd. unfold ProcessCommitVerify. apply holds_bind, holds_get.
  destruct (_ !! _); [|by apply holds_ret, books_refl].
  repeat (case_match; [by apply holds_ret, books_refl|]).
  apply holds_bind, holds_lift; [intros gas _|intros ? _; by apply books_refl].
  case_match; [by apply holds_ret, books_refl|].
  apply on_module_bookkeeping; [|done]. by apply commit_functions_conserving.
Qed.

(** What the functions of a commit are, when it is moved at the height of [g]. *)
Definition commit_ok g (dataFrom : InscriptionBRC20Data) : Prop :=
  ∀ body, Unmarshal_Commit (Data.ContentBody dataFrom) = Ret (Some body) →
    functions_ok g (CommitBody.CommitData body).

Lemma ProcessCommit_books external dataFrom dataTo inv g :
  mods_ok g → commit_ok g dataFrom →
  holds (ProcessCommit external dataFrom dataTo inv) g (λ _, books g) (books g).
Proof.
  intros Hok Hc. unfold ProcessCommit. apply holds_bind, holds_modify. set (g1 := field_update _ _ g).
  assert (books g g1) as Hb by by apply books_same.
  apply holds_bind, holds_lift; [intros body Eb|done].
  assert (∀ b, body = Some b → functions_ok g (CommitBody.CommitData b)) as Hf.
  { intros b ->. apply Hc. unfold or_error in Eb. by destruct (Unmarshal_Commit _). }
  case_match; [|by apply holds_throw].
  apply holds_bind. destruct body as [body|]; [|apply holds_gopanic].
  specialize (Hf body eq_refl). simpl. apply holds_ret. case_match; [by apply holds_throw|].
  apply holds_bind, holds_get. destruct (G.ModulesInfoMap g1 !! _) as [m0|]; [|by apply holds_throw].
  apply holds_bind. unfold set_commit_invalid at 1. apply on_module_holds. intros m Hm.
  apply holds_modify. cbv beta.
  set (m1 := m <| Mod.CommitInvalidMap ::= _ |>).
  assert (books g1 (set_module (CommitBody.Module_ body) m1 g1)) as Hb'.
  { eapply set_module_books; [by destruct Hb|done|].
    assert (conserving (modify (λ m, m <| Mod.CommitInvalidMap ::= union {[GetInscriptionId dataFrom]} |>)))
      as Hmod by by apply modify_conserving. exact (Hmod m (bs_ok _ _ Hb _ _ Hm)). }
  eapply books_trans in Hb'; [|exact Hb]. clear Hb.
  assert (functions_ok (set_module (CommitBody.Module_ body) m1 g1) (CommitBody.CommitData body)) as Hf'.
  { by apply (functions_ok_paired g). }
  set (g2 := set_module _ _ _) in *. clearbody g2. clear Hf.
  case_match; [by apply holds_throw|].
  apply holds_bind, holds_lift; [intros sizes _|done]. apply holds_bind, holds_get.
  do 3 (apply holds_bind, holds_lift; [intros ? _|done]).
  case_match; [by apply holds_throw|]. apply holds_bind.
  eapply holds_mono; [apply ProcessCommitVerify_books; [by destruct Hb'|done]|intros r g3 Hb3|intros g3 Hb3];
    [|by eapply books_trans].
  eapply books_trans in Hb3; [|exact Hb']. case_match; [by apply holds_throw|].
  apply (books_end _ _ _ Hb3). keeping.
Qed.

(** C7: Executing a commit creates and destroys nothing, when its pool functions name every
    ticker in one spelling and its swaps are about a token of their pair: from well-formed
    modules, and whether the commit is executed or rejected, modules are well formed,
    every module holds of every ticker, users and pools together, what it held before,
    and LP tokens and recorded LP supply change by the same amount. *)
Theorem commit_conserves external dataFrom dataTo isInvalid g r g' :
  mods_ok g → commit_ok g dataFrom →
  ProcessCommit external dataFrom dataTo isInvalid g = (r, g') → (∀ w, r ≠ Panic w) →
  mods_ok g' ∧
  ∀ id t pair, mod_total g' id t = mod_total g id t ∧ lp_excess g' id pair = lp_excess g id pair.
Proof.
  intros Hok Hc Er Hr. pose proof (ProcessCommit_books external dataFrom dataTo isInvalid g Hok Hc) as Hb.
  unfold holds in Hb. rewrite Er in Hb. destruct r as [u|e|w]; [| |by destruct (Hr w)];
    (split; [apply Hb|intros; split; apply Hb]).
Qed.
End commits.
