(* ===== verification/LoopSpec.v ===== *)
(** * The specification of the main loop

    What one input does to the token ledger, as a function: which operation of
    LedgerSpec it stands for is read off the inscription alone.  The times the inputs
    are handled at do not matter. *)
From S2P Require Import Prelude GoStd Decimal Script Utils Json Model History Swap Indexer CondApprove Ledger LedgerSpec MainLoop.

(** ** Live transfers of the specification *)
Section spec.
Context `{GoUnicode, Config}.
Implicit Types (L : ALedger) (d : InscriptionBRC20Data).

(** What is locked under a key. *)
Definition locked_at L (k t a : string) : option Z := ABal.Pending (abal L t a) !! k.

Lemma a_deploy_locked d L :
  AL.Transfers (a_deploy d L) = AL.Transfers L ∧ ∀ k t a, locked_at (a_deploy d L) k t a = locked_at L k t a.
Proof. unfold a_deploy. by repeat case_match. Qed.
Lemma a_mint_locked d L :
  AL.Transfers (a_mint d L) = AL.Transfers L ∧ ∀ k t a, locked_at (a_mint d L) k t a = locked_at L k t a.
Proof.
  unfold a_mint. repeat case_match; try done. unfold mint_step. split; [done|]. intros k t0 a0.
  unfold locked_at. rewrite abal_set. case_bool_decide as E; [|done]. by destruct E as [-> ->].
Qed.
Lemma a_inscribe_transfer_locked d L k t a :
  (k ≠ Data.CreateIdxKey d →
     AL.Transfers (a_inscribe_transfer d L) !! k = AL.Transfers L !! k ∧
     locked_at (a_inscribe_transfer d L) k t a = locked_at L k t a) ∧
  (k = Data.CreateIdxKey d → AL.Transfers L !! k = None →
     AL.Transfers (a_inscribe_transfer d L) !! k = Some (t, a) →
     is_Some (locked_at (a_inscribe_transfer d L) k t a)).
Proof.
  unfold a_inscribe_transfer. repeat case_match; try (split; [done|congruence]).
  unfold lock_step, locked_at. split.
  - intros Hk. rewrite transfers_set. rsimpl. rewrite lookup_insert_ne by done. split; [done|].
    rewrite abal_set. case_bool_decide as E; [|done]. destruct E as [-> ->]. cbn. by rewrite lookup_insert_ne.
  - intros -> _. rewrite transfers_set. rsimpl. rewrite lookup_insert_eq. intros [= -> ->].
    rewrite abal_set, bool_decide_eq_true_2 by done. cbn. rewrite lookup_insert_eq. by eexists.
Qed.
Lemma a_transfer_locked d L k t a :
  AL.Transfers (a_transfer d L) = AL.Transfers L ∧
  (k ≠ Data.CreateIdxKey d → locked_at (a_transfer d L) k t a = locked_at L k t a) ∧
  (k = Data.CreateIdxKey d → AL.Transfers L !! k = Some (t, a) → locked_at (a_transfer d L) k t a = None).
Proof.
  unfold a_transfer. destruct (AL.Transfers L !! Data.CreateIdxKey d) as [[t' s]|] eqn:Et.
  2:{ split_and!; [done..|]. intros -> E. congruence. }
  destruct (ABal.Pending (abal L t' s) !! Data.CreateIdxKey d) as [amt|] eqn:Ep.
  2:{ split_and!; [done..|]. intros -> E. rewrite Et in E. by simplify_eq. }
  cbv zeta. generalize (if Data.Satoshi d =? 0 then s else Data.PkScript d). intros r.
  unfold move_step, locked_at. split; [done|]. split.
  - intros Hk. rewrite !abal_set. repeat case_bool_decide; destruct_and?; simplify_eq; rsimpl;
      rewrite ?lookup_delete_ne by done; done.
  - intros -> E. rewrite Et in E. simplify_eq. rewrite !abal_set.
    repeat case_bool_decide; destruct_and?; simplify_eq; rsimpl; rewrite ?lookup_delete_eq; try done; naive_solver.
Qed.


(** ** One input *)
Abbreviation item := (Z * InscriptionBRC20Data)%type.

(** An inscription on a satoshi, with the text of an object that asks for a deploy, a
    mint or a transfer of the plain ledger; any other is no concern of it. *)
Definition a_inscription d L : ALedger :=
  if (Data.Satoshi d =? 0) || negb (isJson (Data.ContentBody d)) then L else
  match ok (Unmarshal_Protocal (Data.ContentBody d)) with
  | Some body =>
    let op := ProtoBody.Operation body in
    if negb (bool_decide (ProtoBody.Proto body = BRC20_P)) then L
    else if bool_decide (op = BRC20_OP_DEPLOY) then a_deploy d L
    else if bool_decide (op = BRC20_OP_MINT) then a_mint d L
    else if bool_decide (op = BRC20_OP_TRANSFER) then a_inscribe_transfer d L
    else L
  | None => L
  end.
(** A transfer inscription is spent by its first move. *)
Definition ledger_step d L : ALedger :=
  if Data.IsTransfer d then if Data.Sequence d =? 1 then a_transfer d L else L
  else a_inscription d L.
Definition ledger_after (items : list item) L : ALedger := foldl (λ L i, ledger_step i.2 L) L items.
Lemma ledger_after_app items items' L :
  ledger_after (items ++ items') L = ledger_after items' (ledger_after items L).
Proof. apply foldl_app. Qed.

(** Its cases. *)
Inductive ledger_moves d L : ALedger → Prop :=
  | lm_same : ledger_moves d L L
  | lm_deploy : Data.IsTransfer d = false → ledger_moves d L (a_deploy d L)
  | lm_mint : Data.IsTransfer d = false → ledger_moves d L (a_mint d L)
  | lm_lock : Data.IsTransfer d = false → ledger_moves d L (a_inscribe_transfer d L)
  | lm_move : Data.IsTransfer d = true → ledger_moves d L (a_transfer d L).
Lemma ledger_step_moves d L : ledger_moves d L (ledger_step d L).
Proof.
  unfold ledger_step, a_inscription. destruct (Data.IsTransfer d) eqn:Hd.
  - case_match; [by apply lm_move|apply lm_same].
  - cbv zeta. repeat (case_match; try apply lm_same); by constructor.
Qed.

(** A step with another key. *)
Lemma ledger_moves_other d L L' k t a :
  ledger_moves d L L' → k ≠ Data.CreateIdxKey d →
  AL.Transfers L' !! k = AL.Transfers L !! k ∧ locked_at L' k t a = locked_at L k t a.
Proof.
  intros [|Hd|Hd|Hd|Hd] Hk; [done|..].
  - by destruct (a_deploy_locked d L) as [-> ->].
  - by destruct (a_mint_locked d L) as [-> ->].
  - by apply a_inscribe_transfer_locked.
  - destruct (a_transfer_locked d L k t a) as (-> & Hne & _). by rewrite Hne.
Qed.
(** A move of what is no transfer, or not live. *)
Lemma a_transfer_none d L : AL.Transfers L !! Data.CreateIdxKey d = None → a_transfer d L = L.
Proof. unfold a_transfer. by intros ->. Qed.
Lemma a_transfer_spent d L : (∀ t a, locked_at L (Data.CreateIdxKey d) t a = None) → a_transfer d L = L.
Proof.
  unfold a_transfer, locked_at. intros Hn. destruct (_ !! Data.CreateIdxKey d) as [[t a]|]; [|done]. by rewrite Hn.
Qed.
(** After its move a transfer is spent. *)
Lemma a_transfer_spends d L t a : ledger_inv L → locked_at (a_transfer d L) (Data.CreateIdxKey d) t a = None.
Proof.
  intros HL. apply eq_None_ne_Some. intros v Hv.
  pose proof (inv_transfers _ (a_transfer_inv d L HL) _ _ _ _ Hv) as Ht.
  destruct (a_transfer_locked d L (Data.CreateIdxKey d) t a) as (E & _ & Heq). rewrite E in Ht.
  rewrite Heq in Hv; done.
Qed.
End spec.
