(* ===== verification/LoopFrames.v ===== *)
(** * What the handlers of the main loop leave alone

    [silent]: the balances of the plain ledger, and the withdraw and commit
    inscriptions.  The handlers of modules are silent, apart from withdraws and the
    inscription of commits; the handlers of the ledger keep those inscriptions.  Which
    keys a handler may enter in the maps of invalid transfers and of conditional
    approves is a parameter: one inscription enters its own at most. *)
From S2P Require Import Prelude GoStd Decimal Script Utils Json Model History Swap Bip322 Indexer CondApprove Ledger LedgerSpec LedgerFrame Modules Commit PreVerify CherryPick CommitFlow MainLoop.

(** The map of handled withdraws is nil, so that no withdraw gets through. *)
Definition no_requests (g : BRC20ModuleIndexer) : Prop := G.InscriptionsWithdrawRemoveMap g = None.
Definition commit_maps (g : BRC20ModuleIndexer) :=
  (G.InscriptionsValidCommitMap g, G.InscriptionsInvalidCommitMap g).
(** Keys in the map of invalid transfers, and in the maps of conditional approves. *)
Inductive key_map : Type := InvalidTransfers | CondApproveKeys.
Definition entered (m : key_map) (g : BRC20ModuleIndexer) (k : string) : Prop :=
  match m with
  | InvalidTransfers => is_Some (G.InscriptionsInvalidTransferMap g !! k)
  | CondApproveKeys =>
    is_Some (G.InscriptionsValidConditionalApproveMap g !! k) ∨
    is_Some (G.InscriptionsInvalidConditionalApproveMap g !! k)
  end.
(** No new keys; the key of an inscription in one of the maps. *)
Definition nothing_new : key_map → string → Prop := λ _ _, False.
Definition anything : key_map → string → Prop := λ _ _, True.
Definition new_key (m : key_map) (data : InscriptionBRC20Data) : key_map → string → Prop :=
  λ m' k, m' = m ∧ k = Data.CreateIdxKey data.

Section relations.
Context (new : key_map → string → Prop).
Record same_requests (g g' : BRC20ModuleIndexer) : Prop := {
  sr_withdraws : no_requests g';
  sr_commits : commit_maps g' = commit_maps g;
  sr_moved : G.InscriptionsTransferRemoveMap g' = G.InscriptionsTransferRemoveMap g;
  sr_durty : G.Durty g' = G.Durty g;
  sr_entered m k : entered m g' k → entered m g k ∨ new m k;
}.
Record same_ledger (g g' : BRC20ModuleIndexer) : Prop := {
  sl_core : core g' = core g;
  sl_balances : G.Balances g' = G.Balances g;
  sl_infos : G.InscriptionsTickerInfoMap g' = G.InscriptionsTickerInfoMap g;
  sl_requests : same_requests g g';
}.
#[global] Instance same_requests_Keep : Keep no_requests same_requests.
Proof.
  split; [intros g Hg; split; auto| |by intros ?? []]. intros g1 g2 g3 [] [].
  split; [done|congruence..|]. intros m k Hk. destruct (sr_entered1 m k Hk); [auto|by right].
Qed.
#[global] Instance same_ledger_Keep : Keep no_requests same_ledger.
Proof.
  split; [intros g Hg; by split; [..|apply keep_refl]| |by intros ?? [??? []]]. intros g1 g2 g3 [??? R1] [??? R2].
  split; [congruence..|exact (keep_trans _ _ _ R1 R2)].
Qed.
End relations.
Abbreviation silent new := (keeping no_requests (same_ledger new)).
Abbreviation no_request new := (keeping no_requests (same_requests new)).

Lemma silent_no_request {A} new (f : Idx A) : silent new f → no_request new f.
Proof. intros Hf g Hg. eapply holds_mono; [by apply Hf|by intros ?? []|by intros ? []]. Qed.
Lemma on_module_silent {A} new id (f : GoM BRC20ModuleSwapInfo A) : silent new (on_module id f).
Proof.
  intros g Hg. unfold holds, on_module. destruct (_ !! id) as [m|]; [|done].
  destruct (f m) as [[] ?]; [| |done]; (split; [done..|]; split; [done..|by intros; left]).
Qed.
#[export] Hint Resolve on_module_silent : keeping.
Ltac frame_field := repeat case_match; first [reflexivity | done | by intros; left].
#[export] Hint Extern 5 (silent _ (modify _)) =>
  apply keeping_modify; intros; split; [..|split]; frame_field : keeping.
#[export] Hint Extern 5 (no_request _ (modify _)) =>
  apply keeping_modify; intros; split; frame_field : keeping.
#[export] Hint Extern 6 (no_request _ (on_module _ _)) =>
  apply silent_no_request, on_module_silent : keeping.

Section frames.
Context `{GoUnicode, MapOrder, Config, BtcAddr, Btcd} (new : key_map → string → Prop).

(** ** Conditional approves *)
Lemma load_cond_approve_silent l : silent new (load_cond_approve l).
Proof. unfold load_cond_approve. keeping. Qed.
#[local] Hint Resolve load_cond_approve_silent : keeping.
Lemma update_cond_approve_silent l f : silent new (update_cond_approve l f).
Proof. unfold update_cond_approve. keeping. Qed.
Lemma load_transfer_state_silent l : silent new (load_transfer_state l).
Proof. unfold load_transfer_state. keeping. Qed.
Lemma store_transfer_state_silent l t : silent new (store_transfer_state l t).
Proof. unfold store_transfer_state. keeping. Qed.
#[local] Hint Resolve update_cond_approve_silent load_transfer_state_silent store_transfer_state_silent
  : keeping.
Lemma alloc_transfer_state_silent t : silent new (alloc_transfer_state t).
Proof. unfold alloc_transfer_state. keeping. Qed.
Lemma alloc_cond_approve_silent i : silent new (alloc_cond_approve i).
Proof. unfold alloc_cond_approve. keeping. Qed.
Lemma NewConditionalApproveEvent_silent s r a b d i t x :
  silent new (NewConditionalApproveEvent s r a b d i t x).
Proof. unfold NewConditionalApproveEvent. keeping. Qed.
#[local] Hint Resolve alloc_transfer_state_silent alloc_cond_approve_silent NewConditionalApproveEvent_silent : keeping.
Lemma match_approves_silent t b l : silent new (match_approves t b l).
Proof. revert b. induction l as [|x l IH]; intros b; cbn [match_approves]; keeping. Qed.
Lemma match_transfers_silent o t d i b l : silent new (match_transfers o t d i b l).
Proof. revert b. induction l as [|x l IH]; intros b; cbn [match_transfers]; keeping. Qed.
Lemma enter_tx_silent id : silent new (enter_tx id).
Proof. unfold enter_tx. keeping. Qed.
#[local] Hint Resolve match_approves_silent match_transfers_silent enter_tx_silent : keeping.
Lemma by_transfer_modules_silent t l : silent new (by_transfer_modules t l).
Proof.
  induction l as [|x l IH]; cbn [by_transfer_modules]; unfold Module_GenerateApproveEventsByTransfer;
    keeping.
Qed.
#[local] Hint Resolve by_transfer_modules_silent : keeping.
Lemma GenerateApproveEventsByTransfer_silent i t f to a :
  silent new (GenerateApproveEventsByTransfer i t f to a).
Proof. unfold GenerateApproveEventsByTransfer. keeping. Qed.
Lemma GenerateApproveEventsByApprove_silent o b d i :
  silent new (GenerateApproveEventsByApprove o b d i).
Proof. unfold GenerateApproveEventsByApprove, Module_GenerateApproveEventsByApprove. keeping. Qed.
Lemma ProcessConditionalApproveEvents_silent l : silent new (ProcessConditionalApproveEvents l).
Proof. unfold ProcessConditionalApproveEvents, process_event. keeping. Qed.
Lemma enter_global_tx_silent t : silent new (enter_global_tx t).
Proof. unfold enter_global_tx. keeping. Qed.
#[local] Hint Resolve GenerateApproveEventsByTransfer_silent GenerateApproveEventsByApprove_silent
  ProcessConditionalApproveEvents_silent enter_global_tx_silent : keeping.

(** ** Handlers of modules *)
Lemma ProcessConditionalApprove_silent data i inv : silent new (ProcessConditionalApprove data i inv).
Proof. unfold ProcessConditionalApprove. keeping. Qed.
(** Entering a key, whether a valid or an invalid one. *)
Lemma enter_valid_silent k l : new CondApproveKeys k →
  silent new (modify (λ g, g <| G.InscriptionsValidConditionalApproveMap ::= <[k := l]> |>)).
Proof.
  intros Hk. apply keeping_modify. intros g Hg. split; [done..|]. split; [done..|].
  intros [] k'; [by left|]. simpl. rsimpl. rewrite lookup_insert_is_Some. naive_solver.
Qed.
Lemma enter_invalid_silent k l : new CondApproveKeys k →
  silent new (modify (λ g, g <| G.InscriptionsInvalidConditionalApproveMap ::= <[k := l]> |>)).
Proof.
  intros Hk. apply keeping_modify. intros g Hg. split; [done..|]. split; [done..|].
  intros [] k'; [by left|]. simpl. rsimpl. rewrite lookup_insert_is_Some. naive_solver.
Qed.
#[local] Hint Resolve enter_valid_silent enter_invalid_silent : keeping.
Lemma ProcessInscribeConditionalApprove_silent data :
  new CondApproveKeys (Data.CreateIdxKey data) → silent new (ProcessInscribeConditionalApprove data).
Proof. intros Hnew. unfold ProcessInscribeConditionalApprove. keeping. Qed.
Lemma ProcessApprove_silent data info inv : silent new (ProcessApprove data info inv).
Proof. unfold ProcessApprove. keeping. Qed.
Lemma ProcessInscribeApprove_silent data : silent new (ProcessInscribeApprove data).
Proof. unfold ProcessInscribeApprove. keeping. Qed.
Lemma ProcessCreateModule_silent data : silent new (ProcessCreateModule data).
Proof. unfold ProcessCreateModule. keeping. Qed.
Lemma set_commit_invalid_silent id c : silent new (set_commit_invalid id c).
Proof. unfold set_commit_invalid. keeping. Qed.
Lemma unset_commit_invalid_silent id c : silent new (unset_commit_invalid id c).
Proof. unfold unset_commit_invalid. keeping. Qed.
Lemma deref_silent {A} (o : option A) : silent new (deref o).
Proof. unfold deref. keeping. Qed.
#[local] Hint Resolve set_commit_invalid_silent unset_commit_invalid_silent deref_silent : keeping.
Lemma ProcessCommitVerify_silent external id body sizes results :
  silent new (ProcessCommitVerify external id body sizes results).
Proof. unfold ProcessCommitVerify. keeping. Qed.
#[local] Hint Resolve ProcessCommitVerify_silent : keeping.
Lemma ProcessCommit_silent external dataFrom dataTo inv :
  silent new (ProcessCommit external dataFrom dataTo inv).
Proof.
  unfold ProcessCommit, settle_commit. keeping.
Qed.

Lemma ProcessInscribeWithdraw_silent data : silent new (ProcessInscribeWithdraw data).
Proof. unfold ProcessInscribeWithdraw. keeping. Qed.

(** ** Handlers of the ledger *)
Lemma load_balance_no_request l : no_request new (load_balance l).
Proof. unfold load_balance. keeping. Qed.
Lemma store_balance_no_request l b : no_request new (store_balance l b).
Proof. unfold store_balance. keeping. Qed.
#[local] Hint Resolve load_balance_no_request store_balance_no_request : keeping.
Lemma update_balance_no_request l f : no_request new (update_balance l f).
Proof. unfold update_balance. keeping. Qed.
Lemma update_token_no_request t f : no_request new (update_token t f).
Proof. unfold update_token. keeping. Qed.
Lemma update_deploy_no_request t f : no_request new (update_deploy t f).
Proof. unfold update_deploy, update_token. keeping. Qed.
Lemma GetUserTokenBalance_no_request t a : no_request new (GetUserTokenBalance t a).
Proof.
  unfold GetUserTokenBalance, find_or_new_balance, alloc_balance, set_token_user. keeping.
Qed.
Lemma UpdateHistory_no_request h : no_request new (UpdateHistoryHeightAndGetHistoryIndex h).
Proof. unfold UpdateHistoryHeightAndGetHistoryIndex. keeping. Qed.
#[local] Hint Resolve UpdateHistory_no_request : keeping.
Lemma new_history_no_request ty v tr from bal to : no_request new (new_history ty v tr from bal to).
Proof. unfold new_history. keeping. Qed.
Lemma add_user_history_no_request pk n : no_request new (add_user_history pk n).
Proof. unfold add_user_history. keeping. Qed.
Lemma add_all_history_no_request n : no_request new (add_all_history n).
Proof. unfold add_all_history. keeping. Qed.
#[local] Hint Resolve update_balance_no_request update_token_no_request update_deploy_no_request
  GetUserTokenBalance_no_request new_history_no_request add_user_history_no_request
  add_all_history_no_request : keeping.
Lemma move_history_no_request s v from l pk data : no_request new (move_history s v from l pk data).
Proof. unfold move_history. keeping. Qed.
Lemma transfer_history_no_request t i from data : no_request new (transfer_history t i from data).
Proof. unfold transfer_history. keeping. Qed.
#[local] Hint Resolve move_history_no_request transfer_history_no_request : keeping.
Lemma transfer_modules_silent t info s r data : silent new (transfer_modules t info s r data).
Proof. unfold transfer_modules, deref. keeping. Qed.
Lemma transfer_modules_no_request t info s r data : no_request new (transfer_modules t info s r data).
Proof. apply silent_no_request, transfer_modules_silent. Qed.
#[local] Hint Resolve transfer_modules_no_request : keeping.

Lemma ProcessDeploy_no_request data : no_request new (ProcessDeploy data).
Proof. unfold ProcessDeploy, deploy_register. keeping. Qed.
Lemma ProcessMint_no_request now data : no_request new (ProcessMint now data).
Proof. unfold ProcessMint, mint_apply, mint_valid, mint_history. keeping. Qed.
Lemma enter_transfer_no_request k info : new InvalidTransfers k →
  no_request new (modify (λ g, g <| G.InscriptionsInvalidTransferMap ::= <[k := info]> |>)).
Proof.
  intros Hk. apply keeping_modify. intros g Hg. split; [done..|].
  intros [] k'; [|by left]. simpl. rsimpl. rewrite lookup_insert_is_Some. naive_solver.
Qed.
#[local] Hint Resolve enter_transfer_no_request : keeping.
Lemma ProcessInscribeTransfer_no_request data :
  new InvalidTransfers (Data.CreateIdxKey data) → no_request new (ProcessInscribeTransfer data).
Proof. intros Hnew. unfold ProcessInscribeTransfer, inscribe_transfer_apply, inscribe_transfer_history, deref. keeping. Qed.
Lemma ProcessTransfer_no_request data info inv : no_request new (ProcessTransfer data info inv).
Proof. unfold ProcessTransfer, transfer_apply, transfer_receive, deref. keeping. Qed.
End frames.
