(* ===== verification/Tracking.v ===== *)
(** * What the handlers mark as changed

    After a height the balances and tickers whose [UpdateHeight] is that height are
    written to the database, and the transfer inscriptions that carry it.  Here: the
    handlers of the ledger set it whenever they change what is written. *)
From S2P Require Import Prelude GoStd Decimal Script Utils Json Model History Swap Bip322 Indexer CondApprove Ledger LedgerSpec LedgerFrame LedgerRep LedgerProof Modules Commit PreVerify CherryPick CommitFlow MainLoop LoopFrames EarlyErrors.

(** ** What is written *)
Definition kept_balance (b : BRC20TokenBalance) :=
  (Bal.UpdateHeight b, Bal.AvailableBalance b, Bal.TransferableBalance b).
Definition kept_deploy (i : InscriptionBRC20TickInfo) :=
  (TickInfo.Decimals i, TickInfo.Max i, TickInfo.Limit i, TickInfo.TotalMinted i, TickInfo.SelfMint i).
Definition kept_token (x : BRC20TokenInfo) := (TokenInfo.UpdateHeight x, kept_deploy (TokenInfo.Deploy x)).

(** The numbers of a ticker are those of the texts it was deployed with, which have no
    sign, except that a zero stands for the largest number of a self mint. *)
Definition unsigned (s : string) : bool := negb (has_prefix ["-"%char] (s2b s)).
Definition reads (self : bool) (p : Z) (s : string) (d : option Decimal) : Prop :=
  unsigned s = true ∧ ∃ v, NewDecimalFromString s p = Ret v ∧
    (d = Some v ∨ self = true ∧ Val v = 0 ∧ d = Some (mkDecimal p (max_units p))).
Definition spelled (i : InscriptionBRC20TickInfo) : Prop :=
  ∃ data, TickInfo.Data i = Some data ∧
    reads (TickInfo.SelfMint i) (TickInfo.Decimals i) (InfoResp.BRC20Max data) (TickInfo.Max i) ∧
    reads (TickInfo.SelfMint i) (TickInfo.Decimals i) (InfoResp.BRC20Limit data) (TickInfo.Limit i) ∧
    ParseUint 64 (InfoResp.BRC20Decimal data) = Some (TickInfo.Decimals i).
Definition spells (g : BRC20ModuleIndexer) : Prop :=
  map_Forall (λ _ x, spelled (TokenInfo.Deploy x)) (G.InscriptionsTickerInfoMap g).

(** Nothing but texts of that kind, and no handled withdraws. *)
Definition marks (g : BRC20ModuleIndexer) : Prop := spells g ∧ no_requests g.

(** ** Marked changes

    [h] is the height of what is handled, [keys] has the keys of what is inscribed; the
    ticker [but] is being deployed. *)
Section tracks.
Context (but : option string) (keys : string → Prop) (h : Z).
Implicit Types (g : BRC20ModuleIndexer) (b : BRC20TokenBalance) (x : BRC20TokenInfo).

Definition marked_balance b b' : Prop :=
  Bal.Ticker b' = Bal.Ticker b ∧ Bal.PkScript b' = Bal.PkScript b ∧
  (Bal.UpdateHeight b' = h ∨ kept_balance b' = kept_balance b).
Definition marked_token x x' : Prop :=
  TokenInfo.Ticker x' = TokenInfo.Ticker x ∧
  (TokenInfo.UpdateHeight x' = h ∨ kept_token x' = kept_token x).
(** An object made meanwhile. *)
Definition fresh_balance b : Prop :=
  Bal.UpdateHeight b = h ∨ dval (Bal.AvailableBalance b) = 0 ∧ dval (Bal.TransferableBalance b) = 0.

Record tracks g g' : Prop := {
  tr_users t a l : at_ (core g) t a = Some l → at_ (core g') t a = Some l;
  tr_user t a l : at_ (core g') t a = Some l →
    at_ (core g) t a = Some l ∨ ∃ b', G.Balances g' !! l = Some b' ∧ fresh_balance b';
  tr_balance l b : G.Balances g !! l = Some b → ∃ b', G.Balances g' !! l = Some b' ∧ marked_balance b b';
  tr_token t x : G.InscriptionsTickerInfoMap g !! t = Some x →
    ∃ x', G.InscriptionsTickerInfoMap g' !! t = Some x' ∧ marked_token x x';
  tr_deployed t x' : G.InscriptionsTickerInfoMap g' !! t = Some x' → G.InscriptionsTickerInfoMap g !! t = None →
    TokenInfo.UpdateHeight x' = h ∨ but = Some t;
  tr_transfer k i : G.InscriptionsValidTransferMap g' !! k = Some i →
    G.InscriptionsValidTransferMap g !! k = Some i ∨ keys k ∧ TickInfo.Height i = h;
  tr_transfers k i : G.InscriptionsValidTransferMap g !! k = Some i → ¬ keys k →
    G.InscriptionsValidTransferMap g' !! k = Some i;
  tr_invalid k : is_Some (G.InscriptionsInvalidTransferMap g' !! k) →
    is_Some (G.InscriptionsInvalidTransferMap g !! k) ∨ keys k;
  tr_marks : marks g';
}.

Lemma marked_balance_trans b1 b2 b3 : marked_balance b1 b2 → marked_balance b2 b3 → marked_balance b1 b3.
Proof.
  intros (E1 & E2 & E3) (F1 & F2 & F3). split_and!; [congruence..|].
  destruct F3 as [F3|F3]; [by left|]. destruct E3 as [E3|E3]; [left|right; congruence].
  injection F3 as F3 _ _. congruence.
Qed.
Lemma marked_token_trans x1 x2 x3 : marked_token x1 x2 → marked_token x2 x3 → marked_token x1 x3.
Proof.
  intros (E1 & E3) (F1 & F3). split; [congruence|].
  destruct F3 as [F3|F3]; [by left|]. destruct E3 as [E3|E3]; [left|right; congruence].
  injection F3 as F3 _. congruence.
Qed.
Lemma fresh_marked b b' : fresh_balance b → marked_balance b b' → fresh_balance b'.
Proof.
  intros Hb (_ & _ & [E|E]); [by left|]. injection E as E1 E2 E3. unfold fresh_balance. by rewrite E1, E2, E3.
Qed.

Lemma tracks_refl g : marks g → tracks g g.
Proof.
  intros Hs. split; try (by left); intros; try congruence.
  - exists b. split; [done|]. split_and!; [done..|by right].
  - exists x. split; [done|]. split; [done|by right].
Qed.
Lemma tracks_trans g1 g2 g3 : tracks g1 g2 → tracks g2 g3 → tracks g1 g3.
Proof.
  intros H1 H2. split.
  - intros t a l Hl. by apply (tr_users _ _ H2), (tr_users _ _ H1).
  - intros t a l Hl. destruct (tr_user _ _ H2 t a l Hl) as [Hl2|Hf]; [|by right].
    destruct (tr_user _ _ H1 t a l Hl2) as [Hl1|(b2 & Hb2 & Hf2)]; [by left|]. right.
    destruct (tr_balance _ _ H2 l b2 Hb2) as (b3 & Hb3 & E3). exists b3. split; [done|]. by eapply fresh_marked.
  - intros l b Hb. destruct (tr_balance _ _ H1 l b Hb) as (b2 & Hb2 & E2).
    destruct (tr_balance _ _ H2 l b2 Hb2) as (b3 & Hb3 & E3). exists b3. split; [done|].
    by eapply marked_balance_trans.
  - intros t x Hx. destruct (tr_token _ _ H1 t x Hx) as (x2 & Hx2 & E2).
    destruct (tr_token _ _ H2 t x2 Hx2) as (x3 & Hx3 & E3). exists x3. split; [done|].
    by eapply marked_token_trans.
  - intros t x3 Hx3 Hn. destruct (G.InscriptionsTickerInfoMap g2 !! t) as [x2|] eqn:Hx2; [|by apply (tr_deployed _ _ H2 t)].
    destruct (tr_token _ _ H2 t x2 Hx2) as (x & Hx & (_ & E)). assert (x = x3) as -> by congruence.
    destruct (tr_deployed _ _ H1 t x2 Hx2 Hn) as [E2|E2]; [|by right]. left.
    destruct E as [E|[= E _]]; congruence.
  - intros k i Hi. destruct (tr_transfer _ _ H2 k i Hi) as [Hi2|Hi2]; [|by right].
    by apply (tr_transfer _ _ H1).
  - intros k i Hi Hk. apply (tr_transfers _ _ H2); [|done]. by apply (tr_transfers _ _ H1).
  - intros k Hi. destruct (tr_invalid _ _ H2 k Hi) as [Hi2|Hi2]; [|by right].
    by apply (tr_invalid _ _ H1).
  - apply H2.
Qed.
#[global] Instance tracks_Keep : Keep marks tracks.
Proof. split; [apply tracks_refl|apply tracks_trans|by intros ?? []]. Qed.

(** Nothing that is written changes. *)
Definition ledger_view g :=
  (G.UserTokensBalanceData g, G.Balances g, G.InscriptionsTickerInfoMap g,
   G.InscriptionsValidTransferMap g, G.InscriptionsInvalidTransferMap g,
   G.InscriptionsWithdrawRemoveMap g).
Lemma tracks_view g g' : ledger_view g' = ledger_view g → marks g → tracks g g'.
Proof.
  intros [= E1 E2 E3 E4 E5 E6] Hs. destruct (tracks_refl g Hs).
  split; unfold at_, marks, spells, no_requests in *; cbn in *; by rewrite ?E1, ?E2, ?E3, ?E4, ?E5, ?E6.
Qed.

(** ** One write *)
Lemma tracks_balance l b b' g :
  marks g → G.Balances g !! l = Some b → marked_balance b b' → tracks g (g <| G.Balances ::= <[l := b']> |>).
Proof.
  intros Hs Hb Hm. destruct (tracks_refl g Hs). split; try done; rsimpl.
  - intros t a l' Hl. by left.
  - intros l' b0 Hb0. destruct (decide (l = l')) as [<-|].
    + rewrite lookup_insert_eq. exists b'. by simplify_eq.
    + rewrite lookup_insert_ne by done. by apply tr_balance0.
Qed.
Lemma tracks_alloc b g :
  marks g → tracks g (g <| G.Balances ::= <[fresh (dom (G.Balances g)) := b]> |>).
Proof.
  intros Hs. destruct (tracks_refl g Hs). set (l := fresh _).
  assert (G.Balances g !! l = None) as Hl by apply not_elem_of_dom, is_fresh.
  split; try done; rsimpl.
  - intros t a l' Hl'. by left.
  - intros l' b0 Hb0. rewrite lookup_insert_ne by congruence. by apply tr_balance0.
Qed.
Lemma tracks_token t f g :
  marks g → (∀ x, marked_token x (f x)) →
  (∀ x, spelled (TokenInfo.Deploy x) → spelled (TokenInfo.Deploy (f x))) →
  tracks g (g <| G.InscriptionsTickerInfoMap ::= alter f t |>).
Proof.
  intros Hs Hm Hf. destruct (tracks_refl g Hs). split; try done; rsimpl.
  - intros t' x Hx. destruct (decide (t = t')) as [<-|].
    + rewrite lookup_alter_eq, Hx. by eexists.
    + rewrite lookup_alter_ne by done. by apply tr_token0.
  - intros t' x Hx Hn. destruct (decide (t = t')) as [<-|].
    + by rewrite lookup_alter_eq, Hn in Hx.
    + rewrite lookup_alter_ne in Hx by done. congruence.
  - split; [|apply Hs]. destruct Hs as [Hs _].
    intros t' x Hx. rsimpl in Hx. destruct (decide (t = t')) as [<-|].
    + rewrite lookup_alter_eq in Hx. apply fmap_Some in Hx as (y & Hy & ->). by apply Hf, (Hs t).
    + rewrite lookup_alter_ne in Hx by done. by apply (Hs t').
Qed.
Lemma tracks_users t a l g :
  marks g →
  at_ (core g) t a = Some l ∨
    at_ (core g) t a = None ∧ (∃ b, G.Balances g !! l = Some b ∧ fresh_balance b) →
  tracks g (g <| G.UserTokensBalanceData ::=
    <[a := <[t := l]> (default ∅ (G.UserTokensBalanceData g !! a))]> |>).
Proof.
  intros Hs Hat. destruct (tracks_refl g Hs).
  assert (∀ t' a', at_ (core (g <| G.UserTokensBalanceData ::=
      <[a := <[t := l]> (default ∅ (G.UserTokensBalanceData g !! a))]> |>)) t' a' =
    if bool_decide (t = t' ∧ a = a') then Some l else at_ (core g) t' a') as Hl.
  { intros t' a'. by apply (at_insert_users (core g)). }
  split; try done.
  - intros t' a' l' Hl'. rewrite Hl. case_bool_decide as E; [|done]. destruct E as [<- <-].
    destruct Hat as [Hat|[Hat _]]; congruence.
  - intros t' a' l'. rewrite Hl. case_bool_decide as E; [|by left]. destruct E as [<- <-]. intros [= <-].
    destruct Hat as [Hat|[_ Hf]]; [by left|by right].
Qed.
Lemma tracks_new_transfer k i f g :
  marks g → TickInfo.Height i = h → keys k →
  tracks g (g <| G.InscriptionsValidTransferMap ::= <[k := i]> |>
              <| G.InscriptionsValidBRC20DataMap ::= f |>).
Proof.
  intros Hs Hi Hk. destruct (tracks_refl g Hs). split; try done.
  - intros k' i'. rsimpl. rewrite lookup_insert_Some. intros [[<- <-]|[_ ?]]; [by right|by left].
  - intros k' i' Hi' Hne. rsimpl. rewrite lookup_insert_ne; [done|]. intros ->. by apply Hne.
Qed.
Lemma tracks_dead_transfer k i g :
  marks g → keys k → tracks g (g <| G.InscriptionsInvalidTransferMap ::= <[k := i]> |>).
Proof.
  intros Hs Hk. destruct (tracks_refl g Hs). split; try done.
  intros k'. rsimpl. rewrite lookup_insert_is_Some. intros [->|[_ ?]]; [by right|by left].
Qed.
End tracks.
Lemma tracks_weaken but (keys keys' : string → Prop) h g g' :
  (∀ k, keys k → keys' k) → tracks but keys h g g' → tracks but keys' h g g'.
Proof. intros Hk []. split; try done; naive_solver. Qed.

#[export] Hint Extern 5 (keeping marks (tracks _ _ _) (modify _)) =>
  apply keeping_modify; intros; apply tracks_view; [repeat case_match; reflexivity|assumption] : keeping.

(** ** Operations *)
Section handlers.
Context `{GoUnicode, MapOrder, Config}.
Context (but : option string) (keys : string → Prop) (h : Z).
Abbreviation trk := (keeping marks (tracks but keys h)).

Lemma silent_trk {A} (m : Idx A) : silent anything m → trk m.
Proof.
  assert (∀ g g', marks g → same_ledger anything g g' → tracks but keys h g g') as Hv.
  { intros g g' Hg [Hc Hb Hi Hr]. apply tracks_view; [|done]. unfold ledger_view. rewrite Hb, Hi.
    destruct Hr as [Hr _ _ _ _]. destruct Hg as [_ Hg]. unfold no_requests in *. rewrite Hr, Hg.
    unfold core in Hc. by injection Hc as _ -> _ _ -> ->. }
  intros Hm g Hg. eapply holds_mono; [apply Hm, Hg|intros a g'|intros g']; by apply Hv.
Qed.
Lemma update_balance_trk l f : (∀ b, marked_balance h b (f b)) → trk (update_balance l f).
Proof.
  intros Hf g Hg. apply holds_bind. unfold load_balance. apply holds_bind, holds_get.
  destruct (G.Balances g !! l) as [b|] eqn:Hb; [|done]. apply holds_ret, holds_modify. by apply tracks_balance with b.
Qed.
Lemma update_token_trk t f :
  (∀ x, marked_token h x (f x)) → (∀ x, spelled (TokenInfo.Deploy x) → spelled (TokenInfo.Deploy (f x))) →
  trk (update_token t f).
Proof. intros Hm Hf. apply keeping_modify. intros g Hg. by apply tracks_token. Qed.
Lemma load_balance_trk l : trk (load_balance l).
Proof. unfold load_balance. keeping. Qed.
Lemma find_or_new_balance_trk t ticker a : trk (find_or_new_balance t ticker a).
Proof.
  intros g Hg. unfold find_or_new_balance. apply holds_bind, holds_get. cbv zeta.
  set (us := default ∅ _). assert (at_ (core g) t a = us !! t) as Hat.
  { unfold at_, us. cbn. by destruct (_ !! a). }
  destruct (us !! t) as [l|] eqn:El; apply holds_bind.
  - apply holds_ret, holds_bind, holds_modify, holds_ret. by apply tracks_users; [|left].
  - apply holds_bind, holds_get. cbv zeta. set (l := fresh _).
    apply holds_bind, holds_modify, holds_ret, holds_bind, holds_modify, holds_ret.
    assert (tracks but keys h g (g <| G.Balances ::= <[l := new_balance ticker a]> |>)) as Ht1.
    { by apply tracks_alloc. }
    eapply tracks_trans; [exact Ht1|]. apply tracks_users; [apply Ht1|]. right. split; [done|].
    exists (new_balance ticker a). split; [apply lookup_insert_eq|by right].
Qed.
Lemma set_token_user_trk t a l : trk (set_token_user t a l).
Proof. unfold set_token_user. keeping. Qed.
Hint Resolve load_balance_trk find_or_new_balance_trk set_token_user_trk : keeping.
Lemma GetUserTokenBalance_trk t a : trk (GetUserTokenBalance t a).
Proof. unfold GetUserTokenBalance. keeping. Qed.
Lemma add_user_history_trk a n : trk (add_user_history a n).
Proof. unfold add_user_history. keeping. Qed.
Lemma add_all_history_trk n : trk (add_all_history n).
Proof. unfold add_all_history. keeping. Qed.
Lemma UpdateHistory_trk obj : trk (UpdateHistoryHeightAndGetHistoryIndex obj).
Proof. unfold UpdateHistoryHeightAndGetHistoryIndex. keeping. Qed.
Hint Resolve UpdateHistory_trk : keeping.
Lemma new_history_trk ty v tr from bal to : trk (new_history ty v tr from bal to).
Proof. unfold new_history. keeping. Qed.
Lemma deref_trk {A} (o : option A) : trk (deref o).
Proof. unfold deref. keeping. Qed.

(** ** An object that is marked already *)
Definition touched (l : loc) (g : BRC20ModuleIndexer) : Prop :=
  ∃ b, G.Balances g !! l = Some b ∧ Bal.UpdateHeight b = h.
Lemma touched_tracks l g g' : tracks but keys h g g' → touched l g → touched l g'.
Proof.
  intros Ht (b & Hb & E). destruct (tr_balance _ _ _ _ _ Ht l b Hb) as (b' & Hb' & (_ & _ & E')).
  exists b'. split; [done|]. destruct E' as [E'|E']; [done|]. injection E' as E' _ _. congruence.
Qed.
Definition marks_at l g := marks g ∧ touched l g.
Definition tracks_at l g g' := tracks but keys h g g' ∧ touched l g'.
#[global] Instance tracks_at_Keep l : Keep (marks_at l) (tracks_at l).
Proof.
  split.
  - intros g [Hg Hl]. split; [by apply tracks_refl|done].
  - intros g1 g2 g3 [Ht1 _] [Ht2 ?]. split; [by eapply tracks_trans|done].
  - intros g g' [[] ?]. done.
Qed.
Abbreviation trk_at l := (keeping (marks_at l) (tracks_at l)).
Lemma trk_at_of {A} l (m : Idx A) : trk m → trk_at l m.
Proof.
  intros Hm g [Hg Hl]. eapply holds_mono; [by apply Hm|intros a g' Ht'|intros g' Ht'];
    (split; [exact Ht'|exact (touched_tracks l g g' Ht' Hl)]).
Qed.

(** Marking an object, and writing one that is marked. *)
Lemma touch_trk l f (k : Idx unit) :
  (∀ b, marked_balance h b (f b) ∧ Bal.UpdateHeight (f b) = h) → trk_at l k →
  trk (update_balance l f ;; k).
Proof.
  intros Hf Hk g Hg. apply holds_bind.
  apply holds_post with (λ _ g', tracks_at l g g').
  - unfold update_balance. apply holds_bind. unfold load_balance. apply holds_bind, holds_get.
    destruct (G.Balances g !! l) as [b|] eqn:Hb; [|done]. apply holds_ret, holds_modify.
    split; [by apply tracks_balance with b; [..|apply Hf]|]. exists (f b).
    split; [apply lookup_insert_eq|apply Hf].
  - intros _ g' [Ht Hl]. eapply holds_mono; [apply Hk; by split; [destruct Ht|]|intros a g2 [Ht2 _]|intros g2 [Ht2 _]];
      by eapply tracks_trans.
Qed.
Definition keeps_owner (f : BRC20TokenBalance → outcome BRC20TokenBalance) : Prop :=
  ∀ b b', f b = Ret b' → Bal.UpdateHeight b' = Bal.UpdateHeight b ∧ Bal.Ticker b' = Bal.Ticker b ∧
    Bal.PkScript b' = Bal.PkScript b.
Lemma write_trk_at l f (k : Idx unit) :
  keeps_owner f → trk_at l k → trk_at l (b ← load_balance l; b ← lift (f b); store_balance l b ;; k).
Proof.
  intros Hf Hk g [Hg (b & Hb & Eb)]. assert (tracks_at l g g) as Hrefl.
  { apply keep_refl. split; [done|]. by exists b. }
  apply holds_bind. unfold load_balance. apply holds_bind, holds_get. rewrite Hb. apply holds_ret.
  apply holds_bind, holds_lift; [|done]. intros b' E. destruct (Hf _ _ E) as (E1 & E2 & E3).
  apply holds_bind, holds_modify. set (g1 := field_update _ _ _).
  assert (tracks_at l g g1) as Hg1.
  { split.
    - apply tracks_balance with b; [done..|]. split_and!; [done..|left; congruence].
    - exists b'. split; [apply lookup_insert_eq|congruence]. }
  eapply holds_mono; [apply Hk; exact (keep_inv _ _ Hg1)|intros ? g2 Hg2|intros g2 Hg2];
    exact (keep_trans _ _ _ Hg1 Hg2).
Qed.
Lemma mark_trk l f (k : Idx unit) :
  (∀ b b', f b = Ret b' → Bal.UpdateHeight b' = h ∧ Bal.Ticker b' = Bal.Ticker b ∧
    Bal.PkScript b' = Bal.PkScript b) →
  trk k → trk (b ← load_balance l; b ← lift (f b); store_balance l b ;; k).
Proof.
  intros Hf Hk g Hg. apply holds_bind. unfold load_balance. apply holds_bind, holds_get.
  destruct (G.Balances g !! l) as [b|] eqn:Hb; [|done]. apply holds_ret.
  apply holds_bind, holds_lift; [|intros e _; by apply tracks_refl]. intros b' E.
  destruct (Hf _ _ E) as (E1 & E2 & E3). apply holds_bind, holds_modify. set (g1 := field_update _ _ _).
  assert (tracks but keys h g g1) as Hg1.
  { apply tracks_balance with b; [done..|]. split_and!; [done..|by left]. }
  eapply holds_mono; [apply Hk; exact (keep_inv _ _ Hg1)|intros ? g2 Hg2|intros g2 Hg2];
    exact (keep_trans _ _ _ Hg1 Hg2).
Qed.

(** ** Histories *)
Hint Resolve GetUserTokenBalance_trk add_user_history_trk add_all_history_trk new_history_trk deref_trk
  : keeping.
Hint Extern 5 (keeping marks (tracks _ _ _) (update_balance _ _)) =>
  apply update_balance_trk; intros; repeat case_match; (split_and!; [done..|by right]) : keeping.
Hint Extern 5 (keeping marks (tracks _ _ _) (update_token _ _)) =>
  apply update_token_trk; [intros; split; [done|by right]|done] : keeping.
Lemma deploy_history_trk t i data l (b : bool) :
  trk (when b (history ← new_history BRC20_HISTORY_TYPE_N_INSCRIBE_DEPLOY true false i None data;
     update_balance l (λ b, b <| Bal.History ::= λ l, l ++ [history] |>) ;;
     update_token t (λ t, t <| TokenInfo.History ::= λ l, l ++ [history] |>) ;;
     add_user_history (Data.PkScript data) history ;;
     add_all_history history)).
Proof. keeping. Qed.
Lemma mint_history_trk t v info l data : trk (mint_history t v info l data).
Proof. unfold mint_history. keeping. Qed.
Lemma inscribe_transfer_history_trk t v info l data : trk (inscribe_transfer_history t v info l data).
Proof. unfold inscribe_transfer_history. keeping. Qed.
Lemma transfer_history_trk t v info data : trk (transfer_history t v info data).
Proof. unfold transfer_history. keeping. Qed.
Lemma move_history_trk s v info l a data : trk (move_history s v info l a data).
Proof. unfold move_history. keeping. Qed.
Hint Resolve mint_history_trk inscribe_transfer_history_trk transfer_history_trk move_history_trk : keeping.

(** ** Mint *)
Lemma credit_keeps data amt : keeps_owner (credit data amt).
Proof. intros b b' E. unfold credit in E. by repeat (apply outcome_bind_inv in E as (? & _ & E)); simplify_eq. Qed.
Lemma lock_transfer_keeps k info : keeps_owner (lock_transfer k info).
Proof. intros b b' E. unfold lock_transfer in E. by repeat (apply outcome_bind_inv in E as (? & _ & E)); simplify_eq. Qed.
Lemma unlock_transfer_keeps k amt : keeps_owner (unlock_transfer k amt).
Proof. intros b b' E. unfold unlock_transfer in E. by repeat (apply outcome_bind_inv in E as (? & _ & E)); simplify_eq. Qed.

Lemma mint_tinfo_spelled now data m i i' : mint_tinfo now data m i = Ret i' → spelled i → spelled i'.
Proof.
  intros E (data0 & Ed & Hm & Hl & Hp). unfold mint_tinfo in E. rewrite Ed in E.
  apply outcome_bind_inv in E as (total & _ & E). apply outcome_bind_inv in E as (c & _ & E). cbv zeta in E.
  do 4 apply outcome_bind_inv in E as (? & _ & E). apply outcome_bind_inv in E as (deployed & [= <-] & E).
  apply outcome_bind_inv in E as (? & _ & E). injection E as <-. by eexists.
Qed.
Lemma mint_valid_trk now t tinfo info l amt data :
  Data.Height data = h → spelled tinfo → trk_at l (mint_valid now t tinfo info l amt data).
Proof.
  intros Hh Hs. unfold mint_valid. apply keeping_bind; [apply _|apply keeping_lift, _|intros m].
  apply keeping_lift_bind; [apply _|]. intros tinfo' E. apply mint_tinfo_spelled in E; [|done].
  apply keeping_bind; [apply _| |intros _].
  { apply trk_at_of, update_token_trk; [|done]. intros x. split; [done|by left]. }
  apply keeping_bind; [apply _|apply keeping_lift, _|intros s]. cbv zeta.
  apply write_trk_at; [apply credit_keeps|]. apply trk_at_of. keeping.
Qed.
Lemma mint_apply_trk now t tokenInfo body amt data :
  Data.Height data = h → spelled (TokenInfo.Deploy tokenInfo) →
  trk (mint_apply now t tokenInfo body amt data).
Proof.
  intros Hh Hs. unfold mint_apply. cbv zeta. apply keeping_bind; [apply _|keeping|intros l].
  apply touch_trk; [intros b; split; [split_and!; [done..|by left]|done]|].
  apply keeping_bind; [apply _|apply keeping_lift, _|intros minted].
  apply keeping_bind; [apply _|apply keeping_lift, _|intros c]. apply keeping_get_bind. intros g _.
  case_match; [|by apply mint_valid_trk]. apply trk_at_of. keeping.
Qed.
Lemma ProcessMint_trk now data : Data.Height data = h → trk (ProcessMint now data).
Proof.
  intros Hh. unfold ProcessMint. case_match; [|keeping..]. case_match; [|keeping..].
  apply keeping_get_bind. intros g [Hg _]. destruct (_ !! _) as [x|] eqn:Hx; [|keeping].
  specialize (Hg _ _ Hx). pose proof mint_apply_trk. keeping.
Qed.

(** ** Inscribing a transfer *)
Lemma inscribe_transfer_apply_trk t tokenInfo body amt data :
  Data.Height data = h → keys (Data.CreateIdxKey data) →
  trk (inscribe_transfer_apply t tokenInfo body amt data).
Proof.
  intros Hh Hk. unfold inscribe_transfer_apply. cbv zeta.
  do 2 (apply keeping_bind; [apply _|keeping|intros ?]).
  apply touch_trk; [intros b; split; [split_and!; [done..|by left]|done]|].
  apply keeping_bind; [apply _|apply trk_at_of, deref_trk|intros deployed].
  apply keeping_bind; [apply _|apply trk_at_of, load_balance_trk|intros b].
  apply keeping_bind; [apply _|apply keeping_lift, _|intros c]. apply keeping_get_bind. intros g _.
  apply keeping_bind; [apply _|apply trk_at_of; keeping|intros _]. case_match.
  - apply trk_at_of, keeping_modify. intros g1 Hg1. by apply tracks_dead_transfer.
  - apply write_trk_at; [apply lock_transfer_keeps|].
    apply trk_at_of, keeping_modify. intros g1 Hg1. by apply tracks_new_transfer.
Qed.
Lemma ProcessInscribeTransfer_trk data :
  Data.Height data = h → keys (Data.CreateIdxKey data) →
  trk (ProcessInscribeTransfer data).
Proof.
  intros Hh Hk. pose proof inscribe_transfer_apply_trk. unfold ProcessInscribeTransfer. keeping.
Qed.

(** ** Moving one *)
Lemma transfer_receive_trk t info a data :
  Data.Height data = h → trk (transfer_receive t info a data).
Proof.
  intros Hh. unfold transfer_receive. cbv zeta. apply keeping_get_bind. intros g _.
  apply keeping_bind; [apply _|keeping|intros l].
  apply (mark_trk l (λ b, credit data (TickInfo.Amount info) (b <| Bal.UpdateHeight := Data.Height data |>))).
  { intros b b' (E1 & E2 & E3)%credit_keeps. rewrite E1, E2, E3. done. }
  unfold update_deploy. keeping.
Qed.
Lemma transfer_apply_trk t info l a receiver data :
  Data.Height data = h → trk_at l (transfer_apply t info l a receiver data).
Proof.
  intros Hh. unfold transfer_apply. apply write_trk_at; [apply unlock_transfer_keeps|].
  apply trk_at_of. pose proof transfer_receive_trk. keeping.
Qed.
Lemma transfer_modules_trk t info s r data : trk (transfer_modules t info s r data).
Proof.
  apply silent_trk, transfer_modules_silent.
Qed.
Lemma ProcessTransfer_trk data info inv :
  Data.Height data = h → trk (ProcessTransfer data info inv).
Proof.
  intros Hh. unfold ProcessTransfer. cbv zeta. set (data' := if Data.Satoshi data =? 0 then _ else data).
  assert (Data.Height data' = h) as Hh' by (unfold data'; by case_match).
  clearbody data'. apply keeping_get_bind. intros g _. case_match; [|keeping].
  apply keeping_bind; [apply _|keeping|intros _]. case_match; [|keeping]. case_match; [|keeping].
  apply touch_trk; [intros b1; split; [split_and!; [done..|by left]|done]|].
  case_match; [apply trk_at_of; keeping|].
  apply keeping_bind; [apply _|apply trk_at_of, load_balance_trk|intros from].
  case_match; [apply keeping_throw, _|]. apply keeping_bind; [apply _|by apply transfer_apply_trk|intros _].
  apply trk_at_of. pose proof transfer_modules_trk. keeping.
Qed.
End handlers.

(** ** Deploying *)

(** Supply and limit are written without a sign. *)
Definition plain_deploy (d : InscriptionBRC20Data) : bool :=
  match Unmarshal_Deploy (Data.ContentBody d) with
  | Ret body => unsigned (DeployBody.BRC20Max body) && unsigned (DeployBody.BRC20Limit body)
  | _ => true
  end.
Lemma deploy_range_reads s p v w msg self :
  unsigned s = true → 0 ≤ p ≤ 18 → NewDecimalFromString s p = Ret v → deploy_range self msg v = Ret w →
  reads self p s w.
Proof.
  intros Hu Hp Ev Ew. split; [done|]. exists v. split; [done|].
  pose proof (NewDecimalFromString_precision _ _ _ Hp Ev) as Ep.
  unfold deploy_range, GetMaxUint64 in Ew. destruct v as [q v]. simpl in Ep, Ew |- *. subst q.
  destruct (Z.eqb_spec (Z.sgn v) 0); [|left; congruence]. right. destruct self; [|done].
  rewrite precisionFactor_ok in Ew by done. injection Ew as <-. split_and!; [done|lia|done].
Qed.

Section deploy.
Context `{GoUnicode, MapOrder, Config}.
Context (keys : string → Prop) (d : InscriptionBRC20Data).

Lemma tracks_deploy t ticker i g :
  marks g → G.InscriptionsTickerInfoMap g !! t = None → spelled i →
  tracks (Some t) keys (Data.Height d) g (g <| G.InscriptionsTickerInfoMap ::= <[t := TokenInfo.mk 0 ticker i [] [] [] [] []]> |>).
Proof.
  intros Hg Hn Hi. destruct (tracks_refl (Some t) keys (Data.Height d) g Hg). split; try done; rsimpl.
  - intros t' x Hx. rewrite lookup_insert_ne by congruence. by apply tr_token0.
  - intros t' x. rewrite lookup_insert_Some. intros [[<- _]|[_ ?]] ?; [by right|congruence].
  - split; [|apply Hg]. apply map_Forall_insert_2; [done|apply Hg].
Qed.
Lemma tracks_deployed t g g' :
  tracks (Some t) keys (Data.Height d) g g' → (∀ x, G.InscriptionsTickerInfoMap g' !! t = Some x → TokenInfo.UpdateHeight x = Data.Height d) →
  tracks None keys (Data.Height d) g g'.
Proof.
  intros [] Hx. split; try done. intros t' x Hx' Hn. destruct (tr_deployed0 t' x Hx' Hn) as [E|[= <-]]; [by left|].
  left. by apply Hx.
Qed.
Lemma deploy_register_trk t i g :
  marks g → G.InscriptionsTickerInfoMap g !! t = None → (∀ a, at_ (core g) t a = None) →
  spelled i → info_small i → data_ok d →
  holds (deploy_register t i d) g (λ _, tracks None keys (Data.Height d) g) (λ _, False).
Proof.
  intros Hg Hn Hat Hi Hsmall Hd. eapply holds_never_fails; [apply deploy_register_never_fails|].
  instantiate (1 := λ _, True). unfold deploy_register. cbv zeta. apply holds_bind, holds_modify. set (g1 := field_update _ _ g).
  assert (tracks (Some t) keys (Data.Height d) g g1) as H1' by by apply tracks_deploy.
  apply holds_bind. unfold alloc_balance. apply holds_bind, holds_get. cbv zeta. set (l := fresh _).
  apply holds_bind, holds_modify, holds_ret. set (g2 := field_update _ _ g1).
  assert (tracks (Some t) keys (Data.Height d) g g2) as H2'.
  { eapply tracks_trans; [exact H1'|]. apply tracks_alloc, H1'. }
  apply holds_bind, holds_get, holds_bind.
  assert (is_Some (C.heap (core g2) !! l)) as Hl by (unfold g2; rewrite core_store; rsimpl; rewrite lookup_insert_eq; by eexists).
  eapply holds_mono; [|cbv beta|done].
  { apply (holds_and _ _ (λ _ g3, tracks (Some t) keys (Data.Height d) g2 g3) (λ _ g3, core g3 = core g2) (λ _, True) (λ _, True)).
    - eapply holds_mono; [apply (deploy_history_trk (Some t) keys (Data.Height d) t i d l)|done|done]. apply H2'.
    - apply holds_returns. apply frames_when. intros _. by apply deploy_history_frames. }
  intros [] g3 [H3' Hc3]. apply holds_bind, holds_modify. set (g4 := field_update _ _ g3).
  assert (tracks (Some t) keys (Data.Height d) g g4) as H4'.
  { eapply tracks_trans; [exact H2'|]. eapply tracks_trans; [exact H3'|].
    apply tracks_token; [apply H3'|intros x; split; [done|by left]|done]. }
  apply holds_modify. apply (tracks_deployed t).
  - eapply tracks_trans; [exact H4'|].
    eapply tracks_trans; [apply (tracks_users (Some t) keys (Data.Height d) t (Data.PkScript d) l g4); [apply H4'|]|].
    + right. split.
      * change (at_ (core g3) t (Data.PkScript d) = None). rewrite Hc3. apply Hat.
      * assert (touched (Data.Height d) l g2) as (b & Hb & Eb)%(touched_tracks _ _ _ _ _ _ H3').
        { eexists. split; [apply lookup_insert_eq|done]. }
        exists b. split; [done|by left].
    + by apply tracks_view; [|apply H4'].
  - intros x. unfold g4. rsimpl. rewrite lookup_alter_eq. intros (y & _ & ->)%fmap_Some. done.
Qed.

Lemma ProcessDeploy_trk g L :
  R (core g) L → marks g → data_ok d → plain_deploy d = true →
  holds (ProcessDeploy d) g (λ _, tracks None keys (Data.Height d) g) (λ _, True).
Proof.
  intros HR Hg Hd Hplain. assert (tracks None keys (Data.Height d) g g) as Hrefl by by apply tracks_refl.
  unfold ProcessDeploy, plain_deploy in *. destruct (Unmarshal_Deploy _) as [body| |]; [|done..].
  apply andb_true_iff in Hplain as [Hmax Hlim].
  destruct (GetValidUniqueLowerTickerTicker _) as [t| |] eqn:Et; [|done..].
  case_match; [done|]. apply holds_bind, holds_get. case_bool_decide as Hn; [done|]. case_match; [done|].
  apply eq_None_not_Some in Hn. cbv zeta. destruct (ParseUint _ _) as [dec|] eqn:Edec; [|done].
  destruct (18 <? dec) eqn:Hdec; [done|]. apply Z.ltb_ge in Hdec.
  pose proof (ParseUint_nonneg _ _ _ Edec) as Hdec0. assert (0 ≤ dec ≤ 18) as Hp by lia.
  apply holds_bind, holds_lift; [intros max Emax|done]. apply holds_bind, holds_lift; [intros [] _|done]; [done|].
  apply holds_bind, holds_lift; [intros tmax Etmax|done].
  apply holds_bind, holds_lift; [intros lim Elim|done]. apply holds_bind, holds_lift; [intros [] _|done]; [done|].
  apply holds_bind, holds_lift; [intros tlim Etlim|done].
  assert (NewDecimalFromString (DeployBody.BRC20Max body) dec = Ret max) as Emax' by (unfold or_error in Emax; by case_match).
  assert (NewDecimalFromString (DeployBody.BRC20Limit body) dec = Ret lim) as Elim' by (unfold or_error in Elim; by case_match).
  pose proof (deploy_range_reads _ _ _ _ _ _ Hmax Hp Emax' Etmax) as Hrmax.
  pose proof (deploy_range_reads _ _ _ _ _ _ Hlim Hp Elim' Etlim) as Hrlim.
  assert (u8 dec = dec) as -> by (unfold u8; rewrite Z.mod_small; lia).
  set (i := deploy_info body d <| TickInfo.Decimals := dec |> <| TickInfo.Max := tmax |> <| TickInfo.Limit := tlim |>).
  eapply holds_mono; [apply (deploy_register_trk t i g); try done|done|done].
  - intros a. destruct (at_ (core g) t a) as [l|] eqn:E; [|done].
    destruct (at_object _ _ _ _ _ HR E) as (b & y & _ & Hy & _). congruence.
  - by eexists.
  - by eapply (positioned_small i d dec).
Qed.
End deploy.
