(* ===== verification/LoopLedger.v ===== *)
(** * The main loop and the token ledger

    Whatever inscriptions and moves go through the loop, modules included, every step
    changes the balances of the plain ledger as its specification, [ledger_step], says. *)
From S2P Require Import Prelude GoStd Decimal Script Utils Json Model History Swap Bip322 CommitJson Indexer CondApprove Ledger LedgerSpec LedgerFrame LedgerRep LedgerProof Samples LedgerRun Modules Commit PreVerify CherryPick CommitFlow MainLoop LoopSpec LoopFrames.

Section loop.
Context `{GoUnicode, MapOrder, Config, BtcAddr, Btcd}.
Implicit Types (g : BRC20ModuleIndexer) (L : ALedger) (d : InscriptionBRC20Data).

(** ** Inputs *)
Abbreviation item := (Z * InscriptionBRC20Data)%type.

(** [d] is an inscription, not a move, among [past]. *)
Definition inscribed (past : list item) d : Prop := Data.IsTransfer d = false ∧ ∃ now, (now, d) ∈ past.
(** The sizes of an input are in range, and an inscription has a key of its own. *)
Definition item_ok (past : list item) (i : item) : Prop :=
  data_ok i.2 ∧
  (Data.IsTransfer i.2 = false → ∀ d, inscribed past d → Data.CreateIdxKey d ≠ Data.CreateIdxKey i.2).

Lemma inscribed_app past i d : inscribed past d → inscribed (past ++ [i]) d.
Proof. intros (Hd & now & Hin). split; [done|]. exists now. set_solver. Qed.
Lemma inscribed_last past now d : Data.IsTransfer d = false → inscribed (past ++ [(now, d)]) d.
Proof. intros Hd. split; [done|]. exists now. set_solver. Qed.

(** The key of an inscription among [past]. *)
Definition inscribed_key (past : list item) (k : string) : Prop :=
  ∃ d, inscribed past d ∧ Data.CreateIdxKey d = k.
Lemma inscribed_key_app past i k : inscribed_key past k → inscribed_key (past ++ [i]) k.
Proof. intros (d & Hd & Ek). exists d. split; [by apply inscribed_app|done]. Qed.
Lemma inscribed_key_last past now d :
  Data.IsTransfer d = false → inscribed_key (past ++ [(now, d)]) (Data.CreateIdxKey d).
Proof. intros Hd. exists d. split; [by apply inscribed_last|done]. Qed.
Lemma item_fresh past now d k :
  item_ok past (now, d) → inscribed_key past k → Data.IsTransfer d = false → k ≠ Data.CreateIdxKey d.
Proof. intros [_ Hf] (d' & Hd' & <-) Hd. by apply Hf. Qed.

(** ** States that represent a ledger *)

(** A commit in the map of valid commits was inscribed and accepted. *)
Definition accepted_commit (past : list item) (key : string) d : Prop :=
  inscribed past d ∧ Data.CreateIdxKey d = key ∧
  ∃ g body i, G.BestHeight g = Data.Height d ∧ Unmarshal_Commit (Data.ContentBody d) = Ret (Some body) ∧
    ProcessInscribeCommitPreVerify g body = Ret (i, None).

(** The state [g], after the inputs [past], represents the ledger [L]. *)
Record ledger_sound (past : list item) g L : Prop := {
  ls_R : R (core g) L;
  ls_inv : ledger_inv L;
  ls_keys k t a : AL.Transfers L !! k = Some (t, a) →
    ∃ d, inscribed past d ∧ Data.CreateIdxKey d = k ∧ Data.PkScript d = a;
  ls_requests : no_requests g;
  ls_commits k d : G.InscriptionsValidCommitMap g !! k = Some d → accepted_commit past k d;
  ls_invalid : G.InscriptionsInvalidCommitMap g = ∅;
  ls_entered m k : entered m g k → inscribed_key past k;
  ls_apart k : entered CondApproveKeys g k → AL.Transfers L !! k = None;
  ls_moved k : is_Some (G.InscriptionsTransferRemoveMap g !! k) →
    inscribed_key past k ∧ ∀ t a, locked_at L k t a = None;
}.

(** [Init], with the map of withdraw requests that loading makes. *)
Definition started (withdraws : option (gmap string InscriptionBRC20SwapInfo)) : BRC20ModuleIndexer :=
  Init <| G.InscriptionsWithdrawMap := withdraws |>.
Lemma started_sound w : ledger_sound [] (started w) empty_ledger.
Proof.
  split; [apply R_init|apply empty_ledger_inv|done..| |done|].
  - by intros [] k; [intros []|intros [[]|[]]].
  - by intros k [].
Qed.
Lemma ls_inscribed past g L k t a : ledger_sound past g L → AL.Transfers L !! k = Some (t, a) → inscribed_key past k.
Proof. intros Hs (d & Hd & Ek & _)%(ls_keys _ _ _ Hs). by exists d. Qed.
Lemma ls_fresh past g L now d :
  ledger_sound past g L → item_ok past (now, d) → Data.IsTransfer d = false →
  AL.Transfers L !! Data.CreateIdxKey d = None.
Proof.
  intros Hs Hok Hd. apply eq_None_ne_Some. intros [t a] E. pose proof (ls_inscribed _ _ _ _ _ _ Hs E) as Hi.
  exact (item_fresh _ _ _ _ Hok Hi Hd eq_refl).
Qed.

Lemma accepted_app past i k d : accepted_commit past k d → accepted_commit (past ++ [i]) k d.
Proof. intros (Hd & Hk & Ha). split; [by apply inscribed_app|done]. Qed.

Lemma ledger_moves_inv past now d L L' :
  item_ok past (now, d) → ledger_inv L →
  (∀ k t a, AL.Transfers L !! k = Some (t, a) →
     ∃ d, inscribed past d ∧ Data.CreateIdxKey d = k ∧ Data.PkScript d = a) →
  ledger_moves d L L' →
  ledger_inv L' ∧
  (∀ k t a, AL.Transfers L' !! k = Some (t, a) →
     ∃ d', inscribed (past ++ [(now, d)]) d' ∧ Data.CreateIdxKey d' = k ∧ Data.PkScript d' = a).
Proof.
  intros [_ Hfresh] HL Hk Hm.
  assert (∀ k t a, AL.Transfers L !! k = Some (t, a) →
    ∃ d', inscribed (past ++ [(now, d)]) d' ∧ Data.CreateIdxKey d' = k ∧ Data.PkScript d' = a) as Hold.
  { intros k t a (d' & Hd' & ?)%Hk. exists d'. split; [by apply inscribed_app|done]. }
  destruct Hm as [|Hd|Hd|Hd|Hd].
  - done.
  - split; [by apply a_deploy_inv|]. intros k t a. unfold a_deploy. repeat case_match; apply Hold.
  - split; [by apply a_mint_inv|]. intros k t a. unfold a_mint. repeat case_match; apply Hold.
  - split.
    + apply a_inscribe_transfer_inv; [done|]. apply eq_None_ne_Some. intros [t a] E.
      apply Hk in E as (d' & Hd' & E & _). by apply (Hfresh Hd d').
    + intros k t a. unfold a_inscribe_transfer. repeat case_match; try apply Hold. unfold lock_step.
      rewrite transfers_set. rsimpl. rewrite lookup_insert_Some.
      intros [[<- [= _ <-]]|[_ E]]; [|by apply Hold in E].
      exists d. split; [by apply inscribed_last|done].
  - split; [by apply a_transfer_inv|]. intros k t a. unfold a_transfer. repeat case_match; apply Hold.
Qed.

(** ** One step *)

(** What the ledger depends on, but for the map of moved transfers. *)
Definition aside g :=
  (core g, commit_maps g, G.InscriptionsValidConditionalApproveMap g,
   G.InscriptionsInvalidConditionalApproveMap g, G.InscriptionsWithdrawRemoveMap g).
Lemma aside_entered g g' m k : aside g' = aside g → entered m g' k → entered m g k.
Proof.
  intros E. unfold aside, core in E. injection E as _ _ _ _ _ Ei _ _ Ev Ed _.
  destruct m; simpl; by rewrite ?Ei, ?Ev, ?Ed.
Qed.
(** Writes to the other maps, and to that of moved transfers when it is cleared. *)
Lemma ledger_sound_cleared past g g' L :
  ledger_sound past g L → aside g' = aside g →
  (∀ k, is_Some (G.InscriptionsTransferRemoveMap g' !! k) → is_Some (G.InscriptionsTransferRemoveMap g !! k)) →
  ledger_sound past g' L.
Proof.
  intros [HR HL Hk Hr Hc Hi He Ha Hm] E Er. pose proof E as E'.
  injection E' as E1 E2 E3 E4 E5 E6 Ev Ei _ _ Ew.
  assert (core g' = core g) as Hcore by (unfold aside in E; congruence).
  split; rewrite ?Hcore, ?Ev, ?Ei; try done.
  - unfold no_requests. by rewrite Ew.
  - intros m k Hm'. by eapply He, aside_entered.
  - intros k Hk'. by eapply Ha, aside_entered.
  - intros k Hk'. by apply Hm, Er.
Qed.
Lemma ledger_sound_same past g g' L :
  ledger_sound past g L → aside g' = aside g →
  G.InscriptionsTransferRemoveMap g' = G.InscriptionsTransferRemoveMap g → ledger_sound past g' L.
Proof. intros Hs E Er. eapply ledger_sound_cleared; [done..|]. by rewrite Er. Qed.

(** What a step does to the map of moved transfers: the first move of a transfer, valid
    or not, is entered. *)
Definition move_maps g := (G.InscriptionsInvalidTransferMap g, G.InscriptionsTransferRemoveMap g).
Inductive moved_step d L L' (moved : gmap string InscriptionBRC20TickInfo * gmap string Z)
    : gmap string Z → Prop :=
  | ms_inscription : Data.IsTransfer d = false → moved_step d L L' moved moved.2
  | ms_other : L' = L → moved_step d L L' moved moved.2
  | ms_transfer :
      Data.IsTransfer d = true → moved.2 !! Data.CreateIdxKey d = None →
      is_Some (AL.Transfers L !! Data.CreateIdxKey d) ∨ is_Some (moved.1 !! Data.CreateIdxKey d) →
      L' = a_transfer d L →
      moved_step d L L' moved (<[Data.CreateIdxKey d := Data.Height d]> moved.2).

(** A step enters the key of its inscription at most, a conditional approve beside the
    ledger. *)
Definition own_keys (new : key_map → string → Prop) d L : Prop :=
  ∀ m k, new m k → Data.IsTransfer d = false ∧ k = Data.CreateIdxKey d ∧ (m = CondApproveKeys → ledger_step d L = L).
Lemma nothing_own d L : own_keys nothing_new d L.
Proof. by intros m k []. Qed.

Lemma moved_step_sound past now d g L moved' :
  item_ok past (now, d) → ledger_sound past g L → moved_step d L (ledger_step d L) (move_maps g) moved' →
  ∀ k, is_Some (moved' !! k) →
    inscribed_key (past ++ [(now, d)]) k ∧ ∀ t a, locked_at (ledger_step d L) k t a = None.
Proof.
  intros Hok Hs Hm k Hk. destruct Hm as [Hd|E|Hd Hnew Hin E].
  - apply (ls_moved _ _ _ Hs) in Hk as [Hi Hl]. split; [by apply inscribed_key_app|]. intros t a.
    destruct (ledger_moves_other d L _ k t a (ledger_step_moves d L)) as [_ ->]; [|done].
    by eapply item_fresh.
  - rewrite E. apply (ls_moved _ _ _ Hs) in Hk as [Hi Hl]. split; [by apply inscribed_key_app|done].
  - rewrite E. destruct (decide (k = Data.CreateIdxKey d)) as [->|Hne].
    + split; [|intros t a; apply a_transfer_spends, Hs]. apply inscribed_key_app.
      destruct Hin as [[[t a] Ht]|Hin]; [by eapply ls_inscribed|by apply (ls_entered _ _ _ Hs InvalidTransfers)].
    + rewrite lookup_insert_ne in Hk by done. apply (ls_moved _ _ _ Hs) in Hk as [Hi Hl].
      split; [by apply inscribed_key_app|]. intros t a.
      destruct (a_transfer_locked d L k t a) as (_ & -> & _); done.
Qed.

(** From [g] by writes beside the ledger to [g1], and by a handler to [g']. *)
Lemma ledger_sound_step past now d new g g1 g' L :
  item_ok past (now, d) → ledger_sound past g L → aside g1 = aside g →
  same_requests new g1 g' → own_keys new d L → R (core g') (ledger_step d L) →
  moved_step d L (ledger_step d L) (move_maps g) (G.InscriptionsTransferRemoveMap g1) →
  ledger_sound (past ++ [(now, d)]) g' (ledger_step d L).
Proof.
  intros Hok Hs E [Hr' [= Ev Ei] Em _ He] Hnew HR' Hm.
  destruct (ledger_moves_inv past now d L (ledger_step d L)) as [HL' Hk'];
    [done|apply Hs|apply Hs|apply ledger_step_moves|].
  pose proof E as E'. injection E' as _ _ _ _ _ _ Ev' Ei' _ _ _. split; try done.
  - rewrite Ev, Ev'. intros k d' Hd'. by apply accepted_app, (ls_commits _ _ _ Hs).
  - rewrite Ei, Ei'. apply Hs.
  - intros m k [Hk|Hk]%He.
    + eapply inscribed_key_app, (ls_entered _ _ _ Hs), aside_entered; done.
    + destruct (Hnew _ _ Hk) as (Hd & -> & _). by apply inscribed_key_last.
  - intros k [Hk|Hk]%He.
    + apply (aside_entered g) in Hk; [|done]. pose proof (ls_entered _ _ _ Hs _ _ Hk) as Hi.
      apply (ls_apart _ _ _ Hs) in Hk. destruct (Data.IsTransfer d) eqn:Hd.
      * unfold ledger_step. rewrite Hd. case_match; [|done].
        by rewrite (proj1 (a_transfer_locked d L k "" "")).
      * destruct (ledger_moves_other d L _ k "" "" (ledger_step_moves d L)) as [-> _]; [by eapply item_fresh|done].
    + destruct (Hnew _ _ Hk) as (Hd & -> & ->); [|done]. by eapply ls_fresh.
  - rewrite Em. by eapply moved_step_sound.
Qed.

(** ** Handlers *)

(** After a step, whatever its outcome; [moved] is the map before it. *)
Definition stepped past (i : item) moved L g : Prop :=
  ledger_sound (past ++ [i]) g (ledger_step i.2 L) ∧
  moved_step i.2 L (ledger_step i.2 L) moved (G.InscriptionsTransferRemoveMap g).
Definition sound_after {A} past (i : item) moved g L (f : Idx A) : Prop :=
  holds f g (λ _, stepped past i moved L) (stepped past i moved L).

(** A handler that leaves the ledger alone, for an input that is none of its concern. *)
Lemma idle_step past now d new g g' L :
  item_ok past (now, d) → ledger_sound past g L → ledger_step d L = L → own_keys new d L →
  same_ledger new g g' → stepped past (now, d) (move_maps g) L g'.
Proof.
  intros Hok Hs Hidle Hnew [Hc _ _ Hr].
  assert (moved_step d L (ledger_step d L) (move_maps g) (G.InscriptionsTransferRemoveMap g)) as Hm
    by by constructor 2.
  split; [|by rewrite (sr_moved _ _ _ Hr)].
  eapply ledger_sound_step; [done|done|done|exact Hr|done| |done]. simpl. rewrite Hc, Hidle. apply Hs.
Qed.
Lemma silent_sound {A} new past now d g L (f : Idx A) :
  item_ok past (now, d) → ledger_sound past g L → ledger_step d L = L → own_keys new d L → silent new f →
  sound_after past (now, d) (move_maps g) g L f.
Proof.
  intros Hok Hs Hidle Hnew Hf.
  eapply holds_mono; [apply Hf, (ls_requests _ _ _ Hs)|intros ? g'|intros g']; by eapply idle_step.
Qed.
Lemma leads_sound new past now d g g1 L (f : Idx unit) :
  item_ok past (now, d) → ledger_sound past g L → aside g1 = aside g → own_keys new d L →
  moved_step d L (ledger_step d L) (move_maps g) (G.InscriptionsTransferRemoveMap g1) →
  leads f g1 (ledger_step d L) → no_request new f → sound_after past (now, d) (move_maps g) g1 L f.
Proof.
  intros Hok Hs E Hnew Hmv Hl Hn.
  assert (no_requests g1) as Hg1 by (pose proof E as E'; injection E' as _ _ _ _ _ _ _ _ _ _ Ew; unfold no_requests; rewrite Ew; apply Hs).
  pose proof (holds_and _ _ _ _ _ _ (holds_spec f g1 (λ g, R (core g) (ledger_step d L)) Hl) (Hn g1 Hg1)) as Hh.
  eapply holds_mono; [exact Hh|intros _ g' [HR Hr]|intros g' [HR Hr]];
    (split; [by eapply ledger_sound_step|by rewrite (sr_moved _ _ _ Hr)]).
Qed.
Lemma yields_leads {A} (f : Idx A) g L : yields f g L → leads f g L.
Proof. by intros [_ Hy]. Qed.

(** [Durty] is not looked at. *)
Lemma stepped_durty past i moved L g :
  stepped past i moved L g → stepped past i moved L (g <| G.Durty := true |>).
Proof. intros [Hs Hmv]. split; [|done]. by eapply ledger_sound_same. Qed.
Lemma logged_sound past i moved g L f ok :
  sound_after past i moved g L f → ok = set_durty ∨ ok = mret tt →
  holds (logged f ok) g (λ _, stepped past i moved L) (λ _, False).
Proof.
  intros Hf Hok. apply holds_bind, holds_catch.
  eapply holds_mono; [exact Hf|intros [] g' Hs|intros g' Hs e; by apply holds_ret].
  destruct Hok as [->| ->]; [|by apply holds_ret]. apply holds_modify. by apply stepped_durty.
Qed.

(** Inscribing a commit: it is accepted before it is entered. *)
Lemma ProcessInscribeCommit_entered new d g :
  no_requests g →
  holds (ProcessInscribeCommit d) g
    (λ _ g', core g' = core g ∧ no_requests g' ∧
       G.InscriptionsTransferRemoveMap g' = G.InscriptionsTransferRemoveMap g ∧
       (∀ m k, entered m g' k → entered m g k) ∧
       G.InscriptionsInvalidCommitMap g' = G.InscriptionsInvalidCommitMap g ∧
       G.InscriptionsValidCommitMap g' = <[Data.CreateIdxKey d := d]> (G.InscriptionsValidCommitMap g) ∧
       ∃ g0 body i, G.BestHeight g0 = G.BestHeight g ∧
         Unmarshal_Commit (Data.ContentBody d) = Ret (Some body) ∧
         ProcessInscribeCommitPreVerify g0 body = Ret (i, None))
    (same_ledger new g).
Proof.
  intros Hg. assert (same_ledger new g g) as Hrefl by by apply keep_refl.
  unfold ProcessInscribeCommit. apply holds_bind, holds_lift; [intros body Eb|done].
  destruct body as [body|]; [|apply holds_bind, holds_gopanic]. apply holds_bind, holds_ret.
  case_match; [by apply holds_throw|]. apply holds_bind, holds_get.
  destruct (G.ModulesInfoMap g !! _) as [m|]; [|by apply holds_throw]. apply holds_bind.
  unfold set_commit_invalid, on_module at 1. unfold holds at 1.
  destruct (G.ModulesInfoMap g !! _) as [m1|]; [|done]. cbv zeta. simpl.
  set (g1 := g <| G.ModulesInfoMap ::= _ |>).
  assert (same_ledger new g g1) as Hg1 by (split; [done..|split; [done..|by left]]).
  case_match; [by apply holds_throw|]. apply holds_bind, holds_get.
  apply holds_bind, holds_lift; [|done]. intros [i err] Ei. destruct err; [by apply holds_throw|].
  apply holds_bind, holds_modify. set (g2 := field_update _ _ _).
  assert (Unmarshal_Commit (Data.ContentBody d) = Ret (Some body)) as Eb'.
  { revert Eb. unfold or_error. by destruct (Unmarshal_Commit _). }
  unfold unset_commit_invalid, on_module, holds. destruct (_ !! _); [|done]. simpl.
  split_and!; try done. by exists g1, body, i.
Qed.

Lemma ProcessInscribeCommit_sound past now d g L :
  item_ok past (now, d) → ledger_sound past g L → ledger_step d L = L → Data.IsTransfer d = false →
  G.BestHeight g = Data.Height d →
  sound_after past (now, d) (move_maps g) g L (ProcessInscribeCommit d).
Proof.
  intros Hok Hs Hidle Hd Hh.
  eapply holds_mono; [apply (ProcessInscribeCommit_entered nothing_new), Hs| |].
  - intros [] g' (Hc & Hr & Hmv & He & Hi & Hv & g0 & body & i & Eg & Eb & Ei).
    split; [|rewrite Hmv; by constructor]. simpl. rewrite Hidle.
    split; [rewrite Hc; apply Hs|apply Hs| |done| |rewrite Hi; apply Hs|..].
    + intros k t a (d' & Hd' & ?)%(ls_keys _ _ _ Hs). exists d'. split; [by apply inscribed_app|done].
    + rewrite Hv. intros k d'. rewrite lookup_insert_Some.
      intros [[<- <-]|[_ E%(ls_commits _ _ _ Hs)]]; [|by apply accepted_app].
      split; [by apply inscribed_last|]. split; [done|]. exists g0, body, i. by rewrite Eg.
    + intros m k Hk. by eapply inscribed_key_app, (ls_entered _ _ _ Hs), He.
    + intros k Hk. by apply (ls_apart _ _ _ Hs), He.
    + rewrite Hmv. intros k [Hk Hl]%(ls_moved _ _ _ Hs). split; [by apply inscribed_key_app|done].
  - intros g' Hg'. eapply idle_step; [done..|apply nothing_own|exact Hg'].
Qed.

(** ** Dispatch *)
Lemma inscription_handler_cases now body h :
  inscription_handler now body = Some h →
  h ∈ [ProcessDeploy; ProcessMint now; ProcessInscribeTransfer; ProcessCreateModule;
       ProcessInscribeWithdraw; ProcessInscribeApprove; ProcessInscribeConditionalApprove;
       ProcessInscribeCommit].
Proof. unfold inscription_handler. intros Hh. repeat case_match; simplify_eq; set_solver. Qed.

(** Inscriptions that are passed over leave the state alone. *)
Lemma process_inscription_holds now d g (P : BRC20ModuleIndexer → Prop) :
  P g →
  (∀ h, h ∈ [ProcessDeploy; ProcessMint now; ProcessInscribeTransfer; ProcessCreateModule;
       ProcessInscribeWithdraw; ProcessInscribeApprove; ProcessInscribeConditionalApprove;
       ProcessInscribeCommit] → holds (logged (h d) set_durty) g (λ _, P) (λ _, False)) →
  holds (process_inscription now d) g (λ _, P) (λ _, False).
Proof.
  intros HP Hh. unfold process_inscription. do 2 (case_match; [done|]).
  destruct (Unmarshal_Protocal _) as [body| |]; [|done|apply holds_gopanic].
  destruct (inscription_handler now body) as [h|] eqn:E; [|done].
  apply Hh. by eapply inscription_handler_cases.
Qed.

Lemma stepped_refl past now d g L :
  item_ok past (now, d) → ledger_sound past g L → ledger_step d L = L →
  stepped past (now, d) (move_maps g) L g.
Proof.
  intros Hok Hs Hidle. eapply idle_step; [done..|apply nothing_own|]. apply keep_refl, Hs.
Qed.

(** An operation of the ledger. *)
Lemma operation_sound new past now d g L L' (f : Idx unit) :
  item_ok past (now, d) → ledger_sound past g L → Data.IsTransfer d = false → ledger_step d L = L' →
  own_keys new d L → yields f g L' → no_request new f → sound_after past (now, d) (move_maps g) g L f.
Proof.
  intros Hok Hs Hd <- Hnew Hf Hn. eapply leads_sound; [done|done|done|exact Hnew|by constructor| |done].
  by apply yields_leads.
Qed.
(** An inscription that is none of the plain ledger. *)
Lemma other_inscription_sound past now d g L h :
  item_ok past (now, d) → ledger_sound past g L → Data.IsTransfer d = false →
  G.BestHeight g = Data.Height d → ledger_step d L = L →
  h ∈ [ProcessCreateModule; ProcessInscribeWithdraw; ProcessInscribeApprove;
       ProcessInscribeConditionalApprove; ProcessInscribeCommit] →
  sound_after past (now, d) (move_maps g) g L (h d).
Proof.
  intros Hok Hs Hd Hh Hidle Hin.
  repeat (apply elem_of_cons in Hin as [->|Hin]); [..|by apply not_elem_of_nil in Hin].
  1-3: apply (silent_sound nothing_new); [done..|apply nothing_own|].
  - apply ProcessCreateModule_silent.
  - apply ProcessInscribeWithdraw_silent.
  - apply ProcessInscribeApprove_silent.
  - apply (silent_sound (new_key CondApproveKeys d)); [done..| |by apply ProcessInscribeConditionalApprove_silent].
    by intros m k [-> ->].
  - by apply ProcessInscribeCommit_sound.
Qed.

Lemma process_inscription_sound past now d g L :
  item_ok past (now, d) → ledger_sound past g L → Data.IsTransfer d = false →
  G.BestHeight g = Data.Height d →
  holds (process_inscription now d) g (λ _, stepped past (now, d) (move_maps g) L) (λ _, False).
Proof.
  intros Hok Hs Hd Hh. pose proof (proj1 Hok) as Hdok.
  pose proof (ls_R _ _ _ Hs) as HR. pose proof (ls_inv _ _ _ Hs) as HL.
  assert (ledger_step d L = a_inscription d L) as Hstep by by unfold ledger_step; rewrite Hd.
  pose proof (stepped_refl past now d g L Hok Hs) as Hrefl.
  assert (∀ h, ledger_step d L = L → h ∈ [ProcessCreateModule; ProcessInscribeWithdraw; ProcessInscribeApprove;
    ProcessInscribeConditionalApprove; ProcessInscribeCommit] →
    holds (logged (h d) set_durty) g (λ _, stepped past (now, d) (move_maps g) L) (λ _, False)) as Hother.
  { intros h Hidle Hin. apply logged_sound with (g := g); [|by left]. by apply other_inscription_sound. }
  unfold process_inscription, a_inscription in *.
  destruct (Data.Satoshi d =? 0); [by apply holds_ret, Hrefl|]. simpl in Hstep.
  destruct (isJson _); [|by apply holds_ret, Hrefl]. simpl in Hstep |- *.
  destruct (Unmarshal_Protocal _) as [body|e|w]; [|by apply holds_ret, Hrefl|apply holds_gopanic]. simpl in Hstep.
  unfold inscription_handler. destruct (bool_decide (ProtoBody.Proto body = BRC20_P)); simpl in Hstep |- *.
  - destruct (bool_decide (ProtoBody.Operation body = BRC20_OP_DEPLOY)).
    { apply logged_sound with (g := g); [|by left]. eapply (operation_sound nothing_new); [done..|apply nothing_own| |].
      - by apply ProcessDeploy_yields.
      - apply ProcessDeploy_no_request. }
    destruct (bool_decide (ProtoBody.Operation body = BRC20_OP_MINT)).
    { apply logged_sound with (g := g); [|by left]. eapply (operation_sound nothing_new); [done..|apply nothing_own| |].
      - by apply ProcessMint_yields.
      - apply ProcessMint_no_request. }
    destruct (bool_decide (ProtoBody.Operation body = BRC20_OP_TRANSFER)).
    { apply logged_sound with (g := g); [|by left].
      eapply (operation_sound (new_key InvalidTransfers d)); [done..|by intros m k [-> ->]| |].
      - apply ProcessInscribeTransfer_yields; [done..|by eapply ls_fresh].
      - by apply ProcessInscribeTransfer_no_request. }
    repeat case_match; try (by apply holds_ret, Hrefl); simplify_eq; apply Hother; set_solver.
  - repeat case_match; try (by apply holds_ret, Hrefl); simplify_eq; apply Hother; set_solver.
Qed.

Variable external : list SwapFunctionResultCheckState.
Lemma first_move_sound past now d g L :
  item_ok past (now, d) → ledger_sound past g L → Data.IsTransfer d = true → Data.Sequence d = 1 →
  holds (first_move external d) g (λ _, stepped past (now, d) (move_maps g) L) (λ _, False).
Proof.
  intros Hok Hs Hd Hseq.
  assert (ledger_step d L = a_transfer d L) as Hstep by by unfold ledger_step; rewrite Hd, Hseq.
  pose proof (stepped_refl past now d g L Hok Hs) as Hnone.
  unfold first_move. cbv zeta. apply holds_bind, holds_get. case_bool_decide as Hnew.
  { apply holds_ret, Hnone. rewrite Hstep. by apply a_transfer_spent, (ls_moved _ _ _ Hs). }
  apply eq_None_not_Some in Hnew.
  destruct (GetTransferInfoByKey _ g) as [info inv] eqn:Et.
  assert (if info then is_Some (AL.Transfers L !! Data.CreateIdxKey d) ∨
      is_Some (G.InscriptionsInvalidTransferMap g !! Data.CreateIdxKey d)
    else AL.Transfers L !! Data.CreateIdxKey d = None) as Hin.
  { unfold GetTransferInfoByKey in Et. rewrite (r_transfers _ _ (ls_R _ _ _ Hs)), lookup_fmap. cbn.
    destruct (G.InscriptionsValidTransferMap g !! _); simplify_eq; simpl; [left; by eexists|].
    destruct (G.InscriptionsInvalidTransferMap g !! _); [right; by eexists|done]. }
  destruct info as [info|].
  { apply holds_bind, holds_modify, holds_bind, holds_modify. set (g1 := field_update _ _ _).
    eapply logged_sound; [|by right].
    apply (leads_sound nothing_new past now d g g1); [done..|apply nothing_own| | |apply ProcessTransfer_no_request].
    - by constructor 3.
    - rewrite Hstep. apply ProcessTransfer_leads; [apply Hs|apply Hs|apply Hok|exact Et]. }
  pose proof (a_transfer_none _ _ Hin) as Hidle. rewrite <-Hstep in Hidle.
  destruct (GetApproveInfoByKey _ g) as [[info|] inv'].
  { apply holds_bind, holds_modify, holds_bind, holds_modify. set (g1 := field_update _ _ _).
    eapply logged_sound; [|by right].
    apply (silent_sound nothing_new past now d g1 L);
      [done|by eapply ledger_sound_same|done|apply nothing_own|apply ProcessApprove_silent]. }
  destruct (GetWithdrawInfoByKey _ g) as [info|].
  { rewrite (ls_requests _ _ _ Hs). apply holds_gopanic. }
  destruct (GetCommitInfoByKey _ g) as [[from|] inv'']; [|by apply holds_ret, Hnone].
  apply holds_bind, holds_modify, holds_bind, holds_modify. set (g1 := field_update _ _ _).
  eapply logged_sound; [|by right].
  apply (silent_sound nothing_new past now d g1 L);
    [done|by eapply ledger_sound_same|done|apply nothing_own|apply ProcessCommit_silent].
Qed.

Lemma process_data_sound past now d g L :
  item_ok past (now, d) → ledger_sound past g L →
  holds (process_data external now d) g (λ _, stepped past (now, d) (move_maps g) L) (λ _, False).
Proof.
  intros Hok Hs. unfold process_data. apply holds_bind, holds_modify. set (g1 := field_update _ _ g).
  assert (ledger_sound past g1 L) as Hs1 by (by eapply ledger_sound_same).
  destruct (Data.IsTransfer d) eqn:Hd; [|by apply (process_inscription_sound past now d g1 L)].
  unfold process_move. cbv zeta.
  assert (holds (if negb (Data.Sequence d =? 1) then mret tt else first_move external d) g1
    (λ _, stepped past (now, d) (move_maps g) L) (λ _, False)) as Hfirst.
  { destruct (Z.eqb_spec (Data.Sequence d) 1) as [|Hq]; simpl; [by apply (first_move_sound past now d g1)|].
    apply holds_ret, (stepped_refl past now d g1); [done..|]. unfold ledger_step.
    by rewrite Hd, (proj2 (Z.eqb_neq _ _) Hq). }
  destruct (Data.Height d <? _); [|done]. apply holds_bind, holds_get.
  destruct (GetConditionalApproveInfoByKey _ g1) as [[info|] inv] eqn:Ec; [|done].
  assert (entered CondApproveKeys g1 (Data.CreateIdxKey d)) as Hc.
  { unfold GetConditionalApproveInfoByKey in Ec. simpl.
    destruct (G.InscriptionsValidConditionalApproveMap g1 !! _) eqn:Ev; [left; by eexists|].
    right. injection Ec as Ec _. by eexists. }
  apply (ls_apart _ _ _ Hs1), a_transfer_none in Hc.
  eapply logged_sound; [|by left]. apply (silent_sound nothing_new past now d g1 L);
    [done|done| |apply nothing_own|apply ProcessConditionalApprove_silent].
  unfold ledger_step. rewrite Hd, Hc. by destruct (_ =? _).
Qed.
End loop.
