(* ===== verification/Marking.v ===== *)
(** * What the main loop marks as changed

    One input through the loop: what it changes of the ledger is marked with its height,
    and a state that is not dirty afterwards has not changed. *)
From S2P Require Import Prelude GoStd Decimal Script Utils Json Model History Swap Bip322 CommitJson Indexer CondApprove Ledger LedgerSpec LedgerFrame LedgerRep LedgerProof Samples LedgerRun Modules Commit PreVerify CherryPick CommitFlow MainLoop LoopSpec LoopFrames EarlyErrors Tracking LoopLedger.

Section marking.
Context `{GoUnicode, MapOrder, Config, BtcAddr, Btcd}.
Implicit Types (g : BRC20ModuleIndexer) (d : InscriptionBRC20Data).

(** The key of an inscription. *)
Definition item_key d (k : string) : Prop := Data.IsTransfer d = false ∧ k = Data.CreateIdxKey d.
Abbreviation tracked d := (tracks None (item_key d) (Data.Height d)).

Record marked d g g' : Prop := {
  mk_tracks : tracked d g g';
  mk_idle : G.Durty g' = false → G.Durty g = false ∧ ledger_view g' = ledger_view g ∧
    G.InscriptionsTransferRemoveMap g' = G.InscriptionsTransferRemoveMap g;
}.
Lemma marked_refl d g : marks g → marked d g g.
Proof. intros Hg. split; [by apply tracks_refl|done]. Qed.
Lemma marked_trans d g1 g2 g3 : marked d g1 g2 → marked d g2 g3 → marked d g1 g3.
Proof.
  intros [T1 I1] [T2 I2]. split; [by eapply tracks_trans|]. intros (E2 & V2 & M2)%I2.
  destruct (I1 E2) as (E1 & V1 & M1). split_and!; [done|congruence..].
Qed.
(** A write beside the ledger. *)
Lemma marked_view d g g' :
  marks g → ledger_view g' = ledger_view g → G.InscriptionsTransferRemoveMap g' = G.InscriptionsTransferRemoveMap g →
  (G.Durty g' = false → G.Durty g = false) → marked d g g'.
Proof. intros Hg Hv Hm Hd. split; [by apply tracks_view|]. intros E. by split_and!; [apply Hd|..]. Qed.
Lemma same_ledger_view g g' : marks g → same_ledger anything g g' → ledger_view g' = ledger_view g.
Proof.
  intros [_ Hg] [Hc Hb Hi [Hr _ _ _ _]]. unfold ledger_view. rewrite Hb, Hi. unfold no_requests in *.
  rewrite Hr, Hg. unfold core in Hc. by injection Hc as _ -> _ _ -> ->.
Qed.

(** The map of moved transfers and the mark of the height. *)
Definition steady g g' : Prop :=
  G.InscriptionsTransferRemoveMap g' = G.InscriptionsTransferRemoveMap g ∧ G.Durty g' = G.Durty g.
#[global] Instance steady_Keep : Keep (λ _, True) steady.
Proof. split; [done| |done]. intros g1 g2 g3 [] []. split; congruence. Qed.
Lemma no_request_steady {A} (m : Idx A) g :
  marks g → no_request anything m → holds m g (λ _, steady g) (steady g).
Proof. intros [_ Hg] Hm. eapply holds_mono; [by apply Hm|intros _ g' []|intros g' []]; done. Qed.

(** A handler whose errors leave the ledger alone. *)
Lemma logged_marked (m : Idx unit) ok d g :
  marks g →
  holds m g (λ _, tracked d g) (λ g', ledger_view g' = ledger_view g ∨ G.Durty g = true ∧ tracked d g g') →
  holds m g (λ _, steady g) (steady g) → ok = set_durty ∨ ok = mret tt ∧ G.Durty g = true →
  holds (logged m ok) g (λ _, marked d g) (λ _, False).
Proof.
  intros Hg Ht Hn Hok. pose proof (holds_and _ _ _ _ _ _ Ht Hn) as Hh.
  apply holds_bind, holds_catch. eapply holds_mono; [exact Hh|intros [] g' [Ht' Hr]|intros g' [Ht' Hr] e].
  - destruct Hok as [->|[-> Hd]].
    + apply holds_modify. split; [|done]. eapply tracks_trans; [exact Ht'|]. apply tracks_view; [done|apply Ht'].
    + apply holds_ret. split; [done|]. destruct Hr. congruence.
  - apply holds_ret. destruct Hr as [Hm Hd]. destruct Ht' as [Hv|[Hd' Ht']].
    + apply marked_view; [done..|]. congruence.
    + split; [done|congruence].
Qed.

Lemma ProcessInscribeCommit_trk keys h d : keeping marks (tracks None keys h) (ProcessInscribeCommit d).
Proof.
  assert (∀ A id (m : GoM BRC20ModuleSwapInfo A), keeping marks (tracks None keys h) (on_module id m)) as Hm.
  { intros. apply silent_trk, on_module_silent. }
  pose proof (λ A, deref_trk (A := A) None keys h). unfold ProcessInscribeCommit, set_commit_invalid, unset_commit_invalid. keeping.
Qed.
Lemma ProcessInscribeCommit_steady d g : holds (ProcessInscribeCommit d) g (λ _, steady g) (steady g).
Proof.
  revert g. enough (keeping (λ _, True) steady (ProcessInscribeCommit d)) as Hk by (intros g; by apply Hk).
  assert (∀ A id (m : GoM BRC20ModuleSwapInfo A), keeping (λ _, True) steady (on_module id m)) as Hm.
  { intros A id m g _. unfold holds, on_module. destruct (_ !! id) as [x|]; [|done]. by destruct (m x) as [[] ?]. }
  assert (∀ f, (∀ g, steady g (f g)) → keeping (λ _, True) steady (modify f)) as Hf.
  { intros f Hf. by apply keeping_modify. }
  unfold ProcessInscribeCommit, set_commit_invalid, unset_commit_invalid, deref. keeping; by apply Hf.
Qed.

(** ** The handlers *)
Definition marking (m : Idx unit) d g : Prop :=
  holds m g (λ _, tracked d g) (λ g', ledger_view g' = ledger_view g ∨ G.Durty g = true ∧ tracked d g g').
Lemma early_marking m d g :
  holds m g (λ _, tracked d g) (λ _, True) → fails_early m → marking m d g.
Proof.
  intros Ht He. eapply holds_mono; [exact (holds_and _ _ _ _ _ _ Ht (He g))|by intros ?? []|].
  intros g' [_ <-]. by left.
Qed.
Lemma keeping_marking m d g :
  marks g → keeping marks (tracked d) m → fails_early m → marking m d g.
Proof. intros Hg Hm. apply early_marking. eapply holds_mono; [by apply Hm|done|done]. Qed.
Lemma silent_marking m d g : marks g → silent anything m → marking m d g.
Proof.
  intros Hg Hm. eapply holds_mono; [apply Hm, Hg|intros [] g' Hs|intros g' Hs].
  - apply tracks_view; [by apply same_ledger_view|done].
  - left. by apply same_ledger_view.
Qed.
Lemma durty_marking m d g :
  marks g → G.Durty g = true → keeping marks (tracked d) m → marking m d g.
Proof. intros Hg Hd Hm. eapply holds_mono; [by apply Hm|done|]. intros g' Ht. by right. Qed.
Lemma ProcessInscribeCommit_marking d g : marks g → marking (ProcessInscribeCommit d) d g.
Proof.
  intros Hg. pose proof (ProcessInscribeCommit_trk (item_key d) (Data.Height d) d g Hg) as Ht.
  eapply holds_mono; [exact (holds_and _ _ _ _ _ _ Ht (ProcessInscribeCommit_entered anything d g (proj2 Hg)))|by intros ?? []|].
  intros g' [_ Hs]. left. by apply same_ledger_view.
Qed.

Variable external : list SwapFunctionResultCheckState.
Lemma process_inscription_marked past now d g L :
  ledger_sound past g L → marks g → data_ok d → plain_deploy d = true → Data.IsTransfer d = false →
  holds (process_inscription now d) g (λ _, marked d g) (λ _, False).
Proof.
  intros Hs Hg Hd Hp Hi. apply process_inscription_holds; [by apply marked_refl|].
  assert (item_key d (Data.CreateIdxKey d)) as Hk by done.
  assert (∀ h, h ∈ [ProcessDeploy; ProcessMint now; ProcessInscribeTransfer; ProcessCreateModule;
    ProcessInscribeWithdraw; ProcessInscribeApprove; ProcessInscribeConditionalApprove; ProcessInscribeCommit] →
    marking (h d) d g ∧ holds (h d) g (λ _, steady g) (steady g)) as Hall.
  2:{ intros h [Hm Hst]%Hall. by apply logged_marked; [..|left]. }
  intros h Hin.
  repeat (apply elem_of_cons in Hin as [->|Hin]); [..|by apply not_elem_of_nil in Hin]; split;
    try first [apply ProcessInscribeCommit_steady | apply no_request_steady; [done|]].
  - apply early_marking; [|apply ProcessDeploy_early]. eapply ProcessDeploy_trk; [apply Hs|done..].
  - apply ProcessDeploy_no_request.
  - apply keeping_marking; [done|by apply ProcessMint_trk|apply ProcessMint_early].
  - apply ProcessMint_no_request.
  - apply keeping_marking; [done|by apply ProcessInscribeTransfer_trk|apply ProcessInscribeTransfer_early].
  - by apply ProcessInscribeTransfer_no_request.
  - apply silent_marking; [done|apply ProcessCreateModule_silent].
  - apply silent_no_request, ProcessCreateModule_silent.
  - apply silent_marking; [done|apply ProcessInscribeWithdraw_silent].
  - apply silent_no_request, ProcessInscribeWithdraw_silent.
  - apply silent_marking; [done|apply ProcessInscribeApprove_silent].
  - apply silent_no_request, ProcessInscribeApprove_silent.
  - apply silent_marking; [done|by apply ProcessInscribeConditionalApprove_silent].
  - apply silent_no_request. by apply ProcessInscribeConditionalApprove_silent.
  - by apply ProcessInscribeCommit_marking.
Qed.

Lemma first_move_marked d g :
  marks g → Data.IsTransfer d = true →
  holds (first_move external d) g (λ _, marked d g) (λ _, False).
Proof.
  intros Hg Hi.
  (* the entry of the move, the mark, the handler *)
  assert (∀ f (m : Idx unit), (∀ g, ledger_view (f g) = ledger_view g) →
    keeping marks (tracked d) m → no_request anything m →
    holds (modify f ;; set_durty ;; logged m (mret tt)) g (λ _, marked d g) (λ _, False)) as Hmove.
  { intros f m Hf Hm Hn. apply holds_bind, holds_modify, holds_bind, holds_modify. set (g1 := field_update _ _ _).
    assert (ledger_view g1 = ledger_view g) as Hv by (unfold g1; rewrite <-(Hf g); done).
    assert (tracked d g g1) as Ht by by apply tracks_view.
    assert (marked d g g1) as Hg1 by by split.
    eapply holds_post; [apply (logged_marked m (mret tt) d g1)|].
    - apply Ht.
    - apply durty_marking; [apply Ht|done|done].
    - apply no_request_steady; [apply Ht|done].
    - by right.
    - intros [] g2 Hg2. by eapply marked_trans. }
  unfold first_move. cbv zeta. apply holds_bind, holds_get.
  case_bool_decide; [by apply marked_refl|].
  destruct (GetTransferInfoByKey _ g) as [[info|] inv].
  { apply Hmove; [done|by apply ProcessTransfer_trk|apply ProcessTransfer_no_request]. }
  destruct (GetApproveInfoByKey _ g) as [[info|] inv'].
  { apply Hmove; [done|apply silent_trk|apply silent_no_request]; apply ProcessApprove_silent. }
  destruct (GetWithdrawInfoByKey _ g) as [info|].
  { destruct Hg as [_ Hr]. rewrite Hr. apply holds_gopanic. }
  destruct (GetCommitInfoByKey _ g) as [[from|] inv'']; [|by apply marked_refl].
  apply Hmove; [done|apply silent_trk|apply silent_no_request]; apply ProcessCommit_silent.
Qed.

Lemma process_data_marked past now d g L :
  ledger_sound past g L → marks g → data_ok d → plain_deploy d = true ∨ Data.IsTransfer d = true →
  holds (process_data external now d) g (λ _, marked d g) (λ _, False).
Proof.
  intros Hs Hg Hd Hp. unfold process_data. apply holds_bind, holds_modify. set (g1 := field_update _ _ g).
  assert (ledger_sound past g1 L) as Hs1 by by eapply ledger_sound_same.
  assert (marked d g g1) as H1' by by apply marked_view.
  apply holds_post with (λ _, marked d g1); [|intros _ g2 H2'; by eapply marked_trans].
  assert (marks g1) as Hg1 by done.
  destruct (Data.IsTransfer d) eqn:Hi; [|by destruct Hp; [eapply process_inscription_marked|]].
  unfold process_move. cbv zeta.
  assert (holds (if negb (Data.Sequence d =? 1) then mret tt else first_move external d) g1
    (λ _, marked d g1) (λ _, False)) as Hfirst.
  { destruct (negb _); [by apply holds_ret, marked_refl|by apply first_move_marked]. }
  destruct (Data.Height d <? _); [|done]. apply holds_bind, holds_get.
  destruct (GetConditionalApproveInfoByKey _ g1) as [[info|] inv]; [|done].
  apply logged_marked; [done| | |by left].
  - apply silent_marking; [done|apply ProcessConditionalApprove_silent].
  - apply no_request_steady; [done|]. apply silent_no_request, ProcessConditionalApprove_silent.
Qed.
End marking.
