(* ===== verification/Heights.v ===== *)
(** * The transfers of a height

    While the inputs of one height go through the loop: a transfer inscription is live
    exactly when it is neither among the moved ones of the heights before nor in the
    map of those moved at this height. *)
From S2P Require Import Prelude GoStd Decimal Script Utils Json Model History Swap Bip322 CommitJson Indexer CondApprove Ledger LedgerSpec LedgerFrame LedgerRep LedgerProof Samples LedgerRun Modules Commit PreVerify CherryPick CommitFlow MainLoop LoopSpec LoopFrames EarlyErrors Tracking LoopLedger Marking.

(** ** In the middle of a height *)
Section heights.
Context `{GoUnicode, MapOrder, Config, BtcAddr, Btcd}.
Abbreviation item := (Z * InscriptionBRC20Data)%type.
Implicit Types (g : BRC20ModuleIndexer) (L : ALedger) (d : InscriptionBRC20Data).

(** [moved0] holds of the transfers moved at the heights before [h], [g0] is the state
    before this one. *)
Record at_height (moved0 : string → Prop) (h : Z) (past : list item) g0 g L : Prop := {
  ah_sound : ledger_sound past g L;
  ah_tracks : tracks None (λ k, G.InscriptionsValidTransferMap g0 !! k = None) h g0 g;
  ah_live k t a : AL.Transfers L !! k = Some (t, a) →
    is_Some (locked_at L k t a) ↔ ¬ moved0 k ∧ G.InscriptionsTransferRemoveMap g !! k = None;
  ah_known k : moved0 k ∨ is_Some (G.InscriptionsTransferRemoveMap g !! k) ∨
      is_Some (G.InscriptionsInvalidTransferMap g !! k) → inscribed_key past k;
  ah_heights : map_Forall (λ _ n, n = h) (G.InscriptionsTransferRemoveMap g);
  ah_idle : G.Durty g = false → ledger_view g = ledger_view g0 ∧
    G.InscriptionsTransferRemoveMap g = G.InscriptionsTransferRemoveMap g0;
}.

(** What a step does to the live transfers. *)
Lemma live_step (moved0 : string → Prop) past now d g L L' moved' :
  item_ok past (now, d) → ledger_sound past g L → ledger_moves d L L' →
  moved_step d L L' (move_maps g) moved' →
  (∀ k, moved0 k ∨ is_Some (G.InscriptionsTransferRemoveMap g !! k) → inscribed_key past k) →
  (∀ k t a, AL.Transfers L !! k = Some (t, a) →
     is_Some (locked_at L k t a) ↔ ¬ moved0 k ∧ G.InscriptionsTransferRemoveMap g !! k = None) →
  ∀ k t a, AL.Transfers L' !! k = Some (t, a) →
    is_Some (locked_at L' k t a) ↔ ¬ moved0 k ∧ moved' !! k = None.
Proof.
  intros [_ Hfresh] Hs Hm Hmv Hknown Hlive. unfold move_maps in Hmv.
  destruct Hmv as [Hd| ->|Hd Hnew Hin ->].
  - destruct Hm as [|_|_|_|Hd']; [done|..|congruence].
    + destruct (a_deploy_locked d L) as [Et El]. intros k t a. rewrite Et, El. apply Hlive.
    + destruct (a_mint_locked d L) as [Et El]. intros k t a. rewrite Et, El. apply Hlive.
    + intros k t a. destruct (a_inscribe_transfer_locked d L k t a) as [Hne Heq].
      destruct (decide (k = Data.CreateIdxKey d)) as [->|Hk].
      * assert (∀ d', inscribed past d' → Data.CreateIdxKey d' ≠ Data.CreateIdxKey d) as Hf by by apply Hfresh.
        assert (AL.Transfers L !! Data.CreateIdxKey d = None) as Hn.
        { apply eq_None_ne_Some. intros [t' a'] (d' & Hd' & E & _)%(ls_keys _ _ _ Hs). by apply (Hf d'). }
        intros Ht. split; [|intros _; by apply Heq]. intros _. split.
        -- intros Hmd. destruct (Hknown (Data.CreateIdxKey d)) as (d' & Hd' & E); [by left|]. by apply (Hf d').
        -- apply eq_None_not_Some. intros Hsm.
           destruct (Hknown (Data.CreateIdxKey d)) as (d' & Hd' & E); [by right|]. by apply (Hf d').
      * destruct Hne as [Et El]; [done|]. rewrite Et, El. apply Hlive.
  - done.
  - intros k t a. destruct (a_transfer_locked d L k t a) as (Et & Hne & Heq). rewrite Et.
    destruct (decide (k = Data.CreateIdxKey d)) as [->|Hk].
    + intros Ht. rewrite Heq, lookup_insert_eq by done. split; [by intros [? ?]|by intros []].
    + intros Ht. rewrite Hne, lookup_insert_ne by done. by apply Hlive.
Qed.

Lemma moved_step_heights d L L' g moved' h :
  moved_step d L L' (move_maps g) moved' → Data.Height d = h →
  map_Forall (λ _ n, n = h) (G.InscriptionsTransferRemoveMap g) → map_Forall (λ _ n, n = h) moved'.
Proof. intros [Hd| ->|Hd Hnew Hin ->] Hh Hf; [done|done|]. by apply map_Forall_insert_2. Qed.

Variable external : list SwapFunctionResultCheckState.
Lemma process_data_at_height moved0 h past now d g0 g L :
  at_height moved0 h past g0 g L → item_ok past (now, d) → Data.Height d = h →
  plain_deploy d = true ∨ Data.IsTransfer d = true →
  holds (process_data external now d) g (λ _ g', at_height moved0 h (past ++ [(now, d)]) g0 g' (ledger_step d L)) (λ _, False).
Proof.
  intros [Hs Ht Hlive Hknown Hh Hidle] Hok Hd Hp.
  pose proof (process_data_marked external past now d g L Hs (tr_marks _ _ _ _ _ Ht) (proj1 Hok) Hp) as H1'.
  pose proof (process_data_sound external past now d g L Hok Hs) as H2'.
  eapply holds_mono; [exact (holds_and _ _ _ _ _ _ H1' H2')| |by intros ? []].
  intros [] g' [[Ht' Hidle'] [Hs' Hmv]]. simpl in Hs', Hmv.
  pose proof (ledger_step_moves d L) as Hm. set (L' := ledger_step d L) in *.
  assert (tracks None (λ k, G.InscriptionsValidTransferMap g0 !! k = None) h g g') as Ht2.
  { rewrite Hd in Ht'. eapply tracks_weaken; [|exact Ht']. intros k [Hi ->]. apply eq_None_ne_Some. intros i E.
    apply (tr_transfers _ _ _ _ _ Ht) in E; [|congruence].
    assert (AL.Transfers L !! Data.CreateIdxKey d = Some (ToLower (TickInfo.Tick i), TickInfo.PkScript i)) as Ek.
    { rewrite (r_transfers _ _ (ls_R _ _ _ Hs)), lookup_fmap. cbn. by rewrite E. }
    apply (ls_keys _ _ _ Hs) in Ek as (d' & Hd' & Ek & _). by apply (proj2 Hok Hi d'). }
  split.
  - done.
  - by eapply tracks_trans.
  - eapply live_step; [done|done|done|done|naive_solver|done].
  - intros k [Hk|[Hk|Hk]].
    + apply inscribed_key_app, Hknown. by left.
    + by apply (ls_moved _ _ _ Hs').
    + by apply (ls_entered _ _ _ Hs' InvalidTransfers).
  - by eapply moved_step_heights.
  - intros (E & V & M)%Hidle'. destruct (Hidle E) as [V0 M0]. split; congruence.
Qed.
End heights.
