(* ===== verification/Recorded.v ===== *)
(** * What the database holds of the ledger

    [recorded]: the newest row of every ticker, of every balance and of every transfer
    inscription is the one of the state.  Saving after a height in which every change was
    marked keeps it. *)
From S2P Require Import Prelude GoStd Decimal Script Utils Json Model History Swap Indexer CondApprove Ledger LedgerSpec LedgerFrame LedgerRep LedgerProof Tables Save Modules Commit PreVerify CherryPick CommitFlow MainLoop LoopFrames EarlyErrors Tracking.

(** ** Lists of rows *)
Lemma elem_of_filter_map {V} (f : string * V → bool) (m : gmap string V) k v :
  (k, v) ∈ List.filter f (map_to_list m) ↔ m !! k = Some v ∧ f (k, v) = true.
Proof. by rewrite list_elem_of_In, filter_In, <-list_elem_of_In, elem_of_map_to_list. Qed.
Lemma NoDup_filter_map {V} (f : string * V → bool) (m : gmap string V) : NoDup (List.filter f (map_to_list m)).
Proof. apply NoDup_ListNoDup, List.NoDup_filter, NoDup_ListNoDup, NoDup_map_to_list. Qed.
Lemma Forall2_elem_r {A B} (P : A → B → Prop) l k y : Forall2 P l k → y ∈ k → ∃ x, x ∈ l ∧ P x y.
Proof.
  induction 1 as [|x y' l k Hxy _ IH]; [by intros ?%not_elem_of_nil|].
  intros [->|Hy]%elem_of_cons; [exists x; split; [by left|done]|].
  destruct (IH Hy) as (x' & Hx & HP). exists x'. split; [by right|done].
Qed.
Lemma Forall2_elem_l {A B} (P : A → B → Prop) l k x : Forall2 P l k → x ∈ l → ∃ y, y ∈ k ∧ P x y.
Proof. intros Hf Hx. apply Forall2_flip in Hf. exact (Forall2_elem_r _ _ _ _ Hf Hx). Qed.
Lemma Forall2_keys {A B K} (P : A → B → Prop) (key : B → K) (f : A → K) l k :
  Forall2 P l k → (∀ x y, x ∈ l → P x y → key y = f x) → key <$> k = f <$> l.
Proof.
  induction 1 as [|x y l k Hxy _ IH]; intros Hk; [done|]. rewrite !fmap_cons.
  f_equal; [apply Hk; [by left|done]|apply IH; intros; apply Hk; [by right|done]].
Qed.
(** At most one row for each entry. *)
Lemma concat_keys {A B K} (P : A → list B → Prop) (key : B → K) (f : A → K) l k :
  Forall2 P l k → (∀ x rs, x ∈ l → P x rs → rs = [] ∨ ∃ r, rs = [r] ∧ key r = f x) →
  key <$> concat k `sublist_of` f <$> l.
Proof.
  induction 1 as [|x rs l k Hxr _ IH]; intros Hk; [done|]. simpl.
  assert (key <$> concat k `sublist_of` f <$> l) as Hsub by (apply IH; intros; apply Hk; [by right|done]).
  destruct (Hk x rs) as [->|(r & -> & E)]; [by left|done|by apply sublist_cons|].
  simpl. rewrite E. by apply sublist_skip.
Qed.
Lemma elem_of_concat {A} (x : A) (ls : list (list A)) : x ∈ concat ls ↔ ∃ l, l ∈ ls ∧ x ∈ l.
Proof. rewrite list_elem_of_In, in_concat. by setoid_rewrite <-list_elem_of_In. Qed.

(** ** Rows of a map *)
Section insert_at.
Context {V R : Type} (height : Z) (h : V → Z) (row : string → V → outcome R) (m : gmap string V).
Context (rows : list R) (Hrows : insert_at height h row m = Ret rows).

Lemma insert_at_rows :
  Forall2 (λ p r, row p.1 p.2 = Ret r) (List.filter (λ p : string * V, h p.2 =? height) (map_to_list m)) rows.
Proof using Hrows. by apply mapM_Forall2. Qed.
Lemma insert_at_elem r :
  r ∈ rows ↔ ∃ k v, m !! k = Some v ∧ h v = height ∧ row k v = Ret r.
Proof using Hrows.
  split.
  - intros Hr. destruct (Forall2_elem_r _ _ _ _ insert_at_rows Hr) as ([k v] & [Hk E]%elem_of_filter_map & Er).
    exists k, v. split_and!; [done|by apply Z.eqb_eq|done].
  - intros (k & v & Hk & E & Er). edestruct (Forall2_elem_l _ _ _ (k, v) insert_at_rows) as (r' & Hr' & E').
    { apply elem_of_filter_map. split; [done|by apply Z.eqb_eq]. }
    simpl in E'. congruence.
Qed.
Lemma insert_at_has k v : m !! k = Some v → h v = height → ∃ r, row k v = Ret r ∧ r ∈ rows.
Proof using Hrows.
  intros Hk E. edestruct (Forall2_elem_l _ _ _ (k, v) insert_at_rows) as (r & Hr & Er).
  { apply elem_of_filter_map. split; [done|by apply Z.eqb_eq]. }
  by exists r.
Qed.
Lemma insert_at_NoDup {K} (key : R → K) (f : string → V → K) :
  (∀ k v r, m !! k = Some v → row k v = Ret r → key r = f k v) →
  (∀ k v k' v', m !! k = Some v → m !! k' = Some v' → f k v = f k' v' → k = k') →
  NoDup (key <$> rows).
Proof using Hrows.
  intros Hk Hinj. rewrite (Forall2_keys _ key (λ p, f p.1 p.2) _ _ insert_at_rows).
  - apply NoDup_fmap_2_strong; [|apply NoDup_filter_map].
    intros [k v] [k' v'] [Hkv _]%elem_of_filter_map [Hkv' _]%elem_of_filter_map E. simpl in E.
    assert (k = k') as -> by by eapply Hinj. congruence.
  - intros [k v] r [Hkv _]%elem_of_filter_map Er. by apply Hk.
Qed.
End insert_at.

(** ** One row *)
Section rows.
Context `{GoUnicode, Postgres}.
Variable height : Z.

Lemma column_ret {A} (o : option A) a : column o = Ret a → o = Some a.
Proof. destruct o; [by intros [= ->]|done]. Qed.
(** A column of an amount. *)
Definition column_holds (s : string) (d : option Decimal) : Prop :=
  ∀ p, 0 ≤ p ≤ 18 → dec_ok p d → 0 ≤ dval d → s = amount_column p d.
Lemma numeric_holds d s t : Decimal_String d = Ret s → column (numeric_column s) = Ret t → column_holds t d.
Proof. intros Es Et%column_ret p Hp Hd Hv. by eapply numeric_column_decimal. Qed.
(** A column of a maximum or limit: of the text it was deployed with. *)
Definition column_reads (self : bool) (p : Z) (s : string) (d : option Decimal) : Prop :=
  ∃ v, 0 ≤ v ∧ s = amount_column p (Some (mkDecimal p v)) ∧
    (d = Some (mkDecimal p v) ∨ self = true ∧ v = 0 ∧ d = Some (mkDecimal p (max_units p))).
Lemma unsigned_value s p v :
  0 ≤ p ≤ 18 → unsigned s = true → NewDecimalFromString s p = Ret v →
  ∃ n, v = mkDecimal p n ∧ 0 ≤ n ∧
    ∀ t, column (numeric_column s) = Ret t → t = amount_column p (Some (mkDecimal p n)).
Proof.
  intros Hp Hu Ev. apply NewDecimalFromString_iff in Ev as (neg & i & f & -> & Hwf & ->); [|done].
  destruct neg. { unfold unsigned in Hu. rewrite s2b_b2s in Hu. done. }
  exists (amount_value p false i f). split; [done|]. split.
  - unfold amount_value. cbn [andb]. pose proof (digits_value_nonneg i). pose proof (digits_value_nonneg f).
    destruct Hwf as (_ & _ & _ & Hl). pose proof (Z.pow_pos_nonneg 10 p). pose proof (Z.pow_pos_nonneg 10 (p - blen f)). nia.
  - intros t Et%column_ret. by apply (numeric_column_amount p) in Et as ->.
Qed.
Lemma reads_column self p s d t :
  0 ≤ p ≤ 18 → reads self p s d → column (numeric_column s) = Ret t → column_reads self p t d.
Proof.
  intros Hp (Hu & v & Ev & Hd) Et. destruct (unsigned_value _ _ _ Hp Hu Ev) as (n & -> & Hn & Hc).
  exists n. split; [done|]. split; [by apply Hc|done].
Qed.

Definition ticker_recorded (x : BRC20TokenInfo) (r : TickerRow.ticker_info) : Prop :=
  let i := TokenInfo.Deploy x in
  TickerRow.tick r = TokenInfo.Ticker x ∧ TickerRow.decimals r = TickInfo.Decimals i ∧
  TickerRow.self_mint r = TickInfo.SelfMint i ∧
  column_reads (TickInfo.SelfMint i) (TickInfo.Decimals i) (TickerRow.max_supply r) (TickInfo.Max i) ∧
  column_reads (TickInfo.SelfMint i) (TickInfo.Decimals i) (TickerRow.limit_per_mint r) (TickInfo.Limit i) ∧
  column_holds (TickerRow.minted r) (TickInfo.TotalMinted i).
Definition balance_key (r : BalanceRow.user_balance) : string * string := (BalanceRow.tick r, BalanceRow.pkscript r).
Definition balance_recorded (b : BRC20TokenBalance) (r : BalanceRow.user_balance) : Prop :=
  column_holds (BalanceRow.available_balance r) (Bal.AvailableBalance b) ∧
  column_holds (BalanceRow.transferable_balance r) (Bal.TransferableBalance b).
Definition transfer_recorded (i : InscriptionBRC20TickInfo) (r : TransferRow.valid_transfer) : Prop :=
  TransferRow.tick r = TickInfo.Tick i ∧ TransferRow.pkscript r = TickInfo.PkScript i ∧
  column_holds (TransferRow.amount r) (TickInfo.Amount i) ∧ TransferRow.txid r = TickInfo.TxId i ∧
  TransferRow.vout r = TickInfo.Vout i ∧ TransferRow.output_value r = TickInfo.Satoshi i ∧
  TransferRow.output_offset r = TickInfo.Offset i.

Lemma ticker_row_ret x r :
  ticker_row height x = Ret r → 0 ≤ TickInfo.Decimals (TokenInfo.Deploy x) ≤ 18 → spelled (TokenInfo.Deploy x) →
  TickerRow.block_height r = height ∧ ticker_recorded x r.
Proof.
  unfold ticker_row. cbv zeta. intros E Hp (data & Ed & Hm & Hl & Hdec). rewrite Ed in E.
  apply outcome_bind_inv in E as (? & [= <-] & E). apply outcome_bind_inv in E as (minted & Em & E).
  apply outcome_bind_inv in E as (h & Eh%column_ret%int4_column_id & E).
  apply outcome_bind_inv in E as (tick & Et%column_ret%text_column_id & E).
  apply outcome_bind_inv in E as (max & Emax & E).
  apply outcome_bind_inv in E as (decimals & Edec%column_ret & E).
  apply outcome_bind_inv in E as (limit & Elim & E).
  apply outcome_bind_inv in E as (m & Ecm & [= <-]). subst h tick. split; [done|]. unfold ticker_recorded. simpl.
  split_and!; [done| |done|..].
  - unfold ParseUint in Hdec. destruct (parse_digits _) as [v|] eqn:Ev; [|done]. case_match; [|done].
    injection Hdec as <-. pose proof (parse_digits_all _ _ Ev) as Hall.
    apply int4_of_text_digits in Edec; [|done]. subst decimals. unfold parse_digits in Ev.
    rewrite (parse_digits_value _ Hall) in Ev. case_match; [done|congruence].
  - by eapply reads_column.
  - by eapply reads_column.
  - by eapply numeric_holds.
Qed.
Lemma balance_row_ret b r :
  balance_row height b = Ret r →
  BalanceRow.block_height r = height ∧ balance_key r = (Bal.Ticker b, Bal.PkScript b) ∧ balance_recorded b r.
Proof.
  unfold balance_row. intros E. apply outcome_bind_inv in E as (available & Ea & E).
  apply outcome_bind_inv in E as (transferable & Etr & E).
  apply outcome_bind_inv in E as (h & Eh%column_ret%int4_column_id & E).
  apply outcome_bind_inv in E as (tick & Et%column_ret%text_column_id & E).
  apply outcome_bind_inv in E as (ca & Eca & E). apply outcome_bind_inv in E as (ct & Ect & [= <-]).
  subst. split_and!; [done..|]. split; by eapply numeric_holds.
Qed.
Lemma transfer_row_ret key tick pk id txid amount number vout satoshi offset r :
  transfer_row height key tick pk id txid amount number vout satoshi offset = Ret r →
  TransferRow.block_height r = height ∧ TransferRow.create_key r = key ∧
  TransferRow.tick r = tick ∧ TransferRow.pkscript r = pk ∧
  column_holds (TransferRow.amount r) amount ∧ TransferRow.txid r = txid ∧
  TransferRow.vout r = vout ∧ TransferRow.output_value r = satoshi ∧ TransferRow.output_offset r = offset.
Proof.
  unfold transfer_row. intros E. apply outcome_bind_inv in E as (a & Ea & E).
  apply outcome_bind_inv in E as (h & Eh%column_ret%int4_column_id & E).
  apply outcome_bind_inv in E as (? & Et%column_ret%text_column_id & E).
  apply outcome_bind_inv in E as (ca & Eca & E).
  apply outcome_bind_inv in E as (? & _ & E). apply outcome_bind_inv in E as (? & _ & E).
  apply outcome_bind_inv in E as (? & Ev%column_ret%int4_column_id & E).
  apply outcome_bind_inv in E as (? & Es%column_ret%int8_column_id & E).
  apply outcome_bind_inv in E as (? & Eo%column_ret%int8_column_id & [= <-]).
  subst. split_and!; try done. by eapply numeric_holds.
Qed.
End rows.

(** ** Rows of the balances *)
Section balances.
Context `{GoUnicode, Postgres}.
Context (height : Z) (objects : gmap loc BRC20TokenBalance) (users : gmap string (gmap string loc)).
Context (rows : list BalanceRow.user_balance)
  (Hrows : SaveDataToDBTickerBalanceMap height objects users = Ret rows).

(** The rows of one object. *)
Definition object_rows (q : string * loc) : outcome (list BalanceRow.user_balance) :=
  balanceData ← deref_ptr (objects !! q.2);
  if Bal.UpdateHeight balanceData =? height then r ← balance_row height balanceData; Ret [r] else Ret [].
Lemma object_rows_ret q rs :
  object_rows q = Ret rs → ∃ b, objects !! q.2 = Some b ∧
    (Bal.UpdateHeight b ≠ height ∧ rs = [] ∨
     Bal.UpdateHeight b = height ∧ ∃ r, balance_row height b = Ret r ∧ rs = [r]).
Proof.
  unfold object_rows. intros (b & Eb & E)%outcome_bind_inv. exists b.
  destruct (objects !! q.2) as [b'|]; [|done]. injection Eb as ->. split; [done|].
  destruct (Z.eqb_spec (Bal.UpdateHeight b) height).
  - apply outcome_bind_inv in E as (r & Er & [= <-]). right. split; [done|]. by exists r.
  - injection E as <-. by left.
Qed.

Lemma balance_rows_nested :
  ∃ rss, rows = concat (concat rss) ∧
    Forall2 (λ p rs, Forall2 (λ q r, object_rows q = Ret r) (map_to_list p.2) rs) (map_to_list users) rss.
Proof using Hrows.
  unfold SaveDataToDBTickerBalanceMap in Hrows. apply outcome_bind_inv in Hrows as (rss & E & [= <-]).
  exists rss. split; [done|]. apply mapM_Forall2 in E. eapply Forall2_impl; [exact E|].
  intros p rs Ep. by apply mapM_Forall2 in Ep.
Qed.

Lemma balance_rows_elem r :
  r ∈ rows ↔ ∃ a us t l b, users !! a = Some us ∧ us !! t = Some l ∧ objects !! l = Some b ∧
    Bal.UpdateHeight b = height ∧ balance_row height b = Ret r.
Proof using Hrows.
  destruct balance_rows_nested as (rss & -> & Hf). rewrite elem_of_concat. split.
  - intros (rs & (rss' & Hrss & Hrs)%elem_of_concat & Hr).
    destruct (Forall2_elem_r _ _ _ _ Hf Hrss) as ([a us] & Hus%elem_of_map_to_list & Hf').
    destruct (Forall2_elem_r _ _ _ _ Hf' Hrs) as ([t l] & Hl%elem_of_map_to_list & E).
    destruct (object_rows_ret _ _ E) as (b & Hb & [[_ ->]|(Eh & r' & Er & ->)]); [by apply not_elem_of_nil in Hr|].
    apply list_elem_of_singleton in Hr as ->. by exists a, us, t, l, b.
  - intros (a & us & t & l & b & Hus%elem_of_map_to_list & Hl%elem_of_map_to_list & Hb & Eh & Er).
    destruct (Forall2_elem_l _ _ _ _ Hf Hus) as (rss' & Hrss & Hf').
    destruct (Forall2_elem_l _ _ _ _ Hf' Hl) as (rs & Hrs & E). exists rs.
    split; [apply elem_of_concat; by exists rss'|].
    destruct (object_rows_ret _ _ E) as (b' & Hb' & [[Hne _]|(_ & r' & Er' & ->)]); simpl in Hb'; [congruence|].
    apply list_elem_of_singleton. congruence.
Qed.

Lemma balance_rows_has a us t l b :
  users !! a = Some us → us !! t = Some l → objects !! l = Some b → Bal.UpdateHeight b = height →
  ∃ r, r ∈ rows ∧ balance_row height b = Ret r.
Proof using Hrows.
  destruct balance_rows_nested as (rss & -> & Hf). intros Hus%elem_of_map_to_list Hl%elem_of_map_to_list Hb Eh.
  destruct (Forall2_elem_l _ _ _ _ Hf Hus) as (rss' & Hrss & Hf').
  destruct (Forall2_elem_l _ _ _ _ Hf' Hl) as (rs & Hrs & E).
  destruct (object_rows_ret _ _ E) as (b' & Hb' & [[Hne _]|(_ & r' & Er' & ->)]); simpl in Hb'; [congruence|].
  exists r'. split; [|congruence]. apply elem_of_concat. exists [r'].
  split; [apply elem_of_concat; by exists rss'|by left].
Qed.

(** No two objects have the same ticker and holder. *)
Hypothesis owned : ∀ a us t l b, users !! a = Some us → us !! t = Some l → objects !! l = Some b →
  Bal.PkScript b = a ∧ ToLower (Bal.Ticker b) = t.
Definition owner_key (r : BalanceRow.user_balance) : string * string :=
  (BalanceRow.pkscript r, ToLower (BalanceRow.tick r)).
Lemma balance_rows_owner :
  ∃ keys, NoDup keys ∧ owner_key <$> rows `sublist_of` keys.
Proof using Hrows owned.
  destruct balance_rows_nested as (rss & -> & Hf).
  exists (map_to_list users ≫= λ p, (λ q : string * loc, (p.1, q.1)) <$> map_to_list p.2). split.
  - apply NoDup_bind; [|intros [a us] _; apply NoDup_fmap_2_strong; [|apply NoDup_map_to_list]|apply NoDup_map_to_list].
    + intros [a us] [a' us'] k Hp%elem_of_map_to_list Hp'%elem_of_map_to_list
        (q & -> & _)%list_elem_of_fmap (q' & E & _)%list_elem_of_fmap. injection E as -> _. simpl in *. congruence.
    + intros [t l] [t' l'] Hl%elem_of_map_to_list Hl'%elem_of_map_to_list [= E]. simpl in *. congruence.
  - assert (∀ p, p ∈ map_to_list users → users !! p.1 = Some p.2) as Hin.
    { intros [a us] Hp. by apply elem_of_map_to_list in Hp. }
    clear Hrows. induction Hf as [|p rs l rss Hp _ IH]; [done|]. simpl. rewrite concat_app, fmap_app.
    apply sublist_app; [|apply IH; intros; apply Hin; by right].
    eapply concat_keys; [exact Hp|]. intros [t lo] rs' Hl%elem_of_map_to_list E.
    destruct (object_rows_ret _ _ E) as (b & Hb & [[_ ->]|(_ & r & Er & ->)]); [by left|]. right. exists r.
    split; [done|]. apply balance_row_ret in Er as (_ & [= E1 E2] & _). unfold owner_key. simpl. rewrite E1, E2.
    destruct (owned p.1 p.2 t lo b) as [-> ->]; [apply Hin; by left|done..].
Qed.
Lemma balance_rows_NoDup : NoDup (balance_key <$> rows).
Proof using Hrows owned.
  destruct balance_rows_owner as (keys & Hnd & Hsub).
  apply (NoDup_fmap_1 (λ k : string * string, (k.2, ToLower k.1))). rewrite <-list_fmap_compose.
  by eapply sublist_NoDup.
Qed.
End balances.

(** ** The database of a state *)
Section recorded.
Context `{GoUnicode, Postgres}.
Implicit Types (g : BRC20ModuleIndexer) (db : SwapDB).

Definition ticker_rows db := newest TickerRow.block_height TickerRow.tick (DB.brc20_ticker_info db).
Definition balance_rows db := newest BalanceRow.block_height balance_key (DB.brc20_user_balance db).
Definition transfer_rows db := newest TransferRow.block_height TransferRow.create_key (DB.brc20_valid_transfer db).
Definition moved_keys db (k : string) : Prop := ∃ s, s ∈ DB.brc20_transfer_state db ∧ StateRow.create_key s = k.

(** Rows of heights below [n], and one of a key and height at most. *)
Record ordered (n : Z) db : Prop := {
  od_tickers : keyed TickerRow.block_height TickerRow.tick (DB.brc20_ticker_info db);
  od_balances : keyed BalanceRow.block_height balance_key (DB.brc20_user_balance db);
  od_transfers : keyed TransferRow.block_height TransferRow.create_key (DB.brc20_valid_transfer db);
  od_ticker_heights : below TickerRow.block_height n (DB.brc20_ticker_info db);
  od_balance_heights : below BalanceRow.block_height n (DB.brc20_user_balance db);
  od_transfer_heights : below TransferRow.block_height n (DB.brc20_valid_transfer db);
}.
Record recorded db g : Prop := {
  rd_token t x : G.InscriptionsTickerInfoMap g !! t = Some x →
    ∃ r, ticker_rows db !! TokenInfo.Ticker x = Some r ∧ ticker_recorded x r;
  rd_token_only k r : ticker_rows db !! k = Some r →
    ∃ x, G.InscriptionsTickerInfoMap g !! ToLower k = Some x ∧ TokenInfo.Ticker x = k;
  rd_balance t a l b : at_ (core g) t a = Some l → G.Balances g !! l = Some b →
    match balance_rows db !! (Bal.Ticker b, a) with
    | Some r => balance_recorded b r
    | None => dval (Bal.AvailableBalance b) = 0 ∧ dval (Bal.TransferableBalance b) = 0
    end;
  rd_balance_only k r : balance_rows db !! k = Some r →
    ∃ l b, at_ (core g) (ToLower k.1) k.2 = Some l ∧ G.Balances g !! l = Some b ∧ Bal.Ticker b = k.1;
  rd_transfer k i : G.InscriptionsValidTransferMap g !! k = Some i →
    ∃ r, transfer_rows db !! k = Some r ∧ TransferRow.block_height r = TickInfo.Height i ∧ transfer_recorded i r;
  rd_transfer_only k r : transfer_rows db !! k = Some r → is_Some (G.InscriptionsValidTransferMap g !! k);
}.

Lemma empty_ordered n : ordered n empty_db.
Proof. split; by constructor. Qed.
Lemma empty_recorded w : recorded empty_db (Init <| G.InscriptionsWithdrawMap := w |>).
Proof. split; try done; intros *; unfold at_; cbn; rewrite ?lookup_empty; done. Qed.

(** The tables of the ledger after a save. *)
Lemma SaveDataToDB_ret h g db db' :
  SaveDataToDB h g db = Ret db' →
  ∃ tickers balances moved transfers,
    SaveDataToDBTickerInfoMap h (G.InscriptionsTickerInfoMap g) = Ret tickers ∧
    SaveDataToDBTickerBalanceMap h (G.Balances g) (G.UserTokensBalanceData g) = Ret balances ∧
    SaveDataToDBTransferStateMap h (G.InscriptionsTransferRemoveMap g) = Ret moved ∧
    SaveDataToDBValidTransferMap h (G.InscriptionsValidTransferMap g) = Ret transfers ∧
    DB.brc20_ticker_info db' = DB.brc20_ticker_info db ++ tickers ∧
    DB.brc20_user_balance db' = DB.brc20_user_balance db ++ balances ∧
    DB.brc20_transfer_state db' = DB.brc20_transfer_state db ++ moved ∧
    DB.brc20_valid_transfer db' = DB.brc20_valid_transfer db ++ transfers.
Proof.
  unfold SaveDataToDB. intros (tickers & E1 & E)%outcome_bind_inv. apply outcome_bind_inv in E as (balances & E2 & E).
  apply outcome_bind_inv in E as (moved & E3 & E). apply outcome_bind_inv in E as (transfers & E4 & E).
  do 15 apply outcome_bind_inv in E as (? & _ & E). injection E as <-.
  exists tickers, balances, moved, transfers. by split_and!.
Qed.

Lemma saved_moved h g db db' moved :
  SaveDataToDBTransferStateMap h (G.InscriptionsTransferRemoveMap g) = Ret moved →
  DB.brc20_transfer_state db' = DB.brc20_transfer_state db ++ moved →
  map_Forall (λ _ n, n = h) (G.InscriptionsTransferRemoveMap g) →
  ∀ k, moved_keys db' k ↔ moved_keys db k ∨ is_Some (G.InscriptionsTransferRemoveMap g !! k).
Proof.
  intros Hm Edb Hh k. pose proof (insert_at_elem _ _ _ _ _ Hm) as Hel. unfold moved_keys. rewrite Edb.
  assert (∀ k r, (h ← column (int4_column h); Ret (StateRow.mk h k)) = Ret r → StateRow.create_key r = k) as Hk.
  { intros k' r (? & _ & [= <-])%outcome_bind_inv. done. }
  split.
  - intros (s & [Hs|Hs]%elem_of_app & <-); [left; by exists s|]. right.
    apply Hel in Hs as (k' & n & Hn & _ & Er). by rewrite (Hk _ _ Er).
  - intros [(s & Hs & <-)|[n Hn]]; [exists s; split; [set_solver|done]|].
    destruct (insert_at_has _ _ _ _ _ Hm k n Hn) as (r & Er & Hr); [by rewrite (Hh _ _ Hn)|]. exists r. split; [set_solver|]. by eapply Hk.
Qed.
End recorded.

(** ** Saving *)
Section saving.
Context `{GoUnicode, Postgres}.
Context (h : Z) (keys : string → Prop) (g0 g : BRC20ModuleIndexer) (L0 L : ALedger) (db db' : SwapDB).
Hypothesis before : recorded db g0.
Hypothesis order : ordered h db.
Hypothesis changes : tracks None keys h g0 g.
Hypothesis represents0 : R (core g0) L0.
Hypothesis represents : R (core g) L.

Lemma below_app {A} (height : A → Z) rows new :
  below height h rows → Forall (λ r, height r = h) new → below height (h + 1) (rows ++ new).
Proof. intros Hb Hn. apply Forall_app. split; (eapply Forall_impl; [eassumption|]); simpl; intros; lia. Qed.

Lemma token_named t x : G.InscriptionsTickerInfoMap g !! t = Some x →
  ToLower (TokenInfo.Ticker x) = t ∧ 0 ≤ TickInfo.Decimals (TokenInfo.Deploy x) ≤ 18.
Proof using represents. intros Hx. destruct (R_ticker _ _ _ _ represents Hx) as [_ (? & ? & _)]. done. Qed.

Lemma saved_tickers tickers :
  SaveDataToDBTickerInfoMap h (G.InscriptionsTickerInfoMap g) = Ret tickers →
  DB.brc20_ticker_info db' = DB.brc20_ticker_info db ++ tickers →
  (keyed TickerRow.block_height TickerRow.tick (DB.brc20_ticker_info db') ∧
   below TickerRow.block_height (h + 1) (DB.brc20_ticker_info db')) ∧
  (∀ t x, G.InscriptionsTickerInfoMap g !! t = Some x →
     ∃ r, ticker_rows db' !! TokenInfo.Ticker x = Some r ∧ ticker_recorded x r) ∧
  (∀ k r, ticker_rows db' !! k = Some r →
     ∃ x, G.InscriptionsTickerInfoMap g !! ToLower k = Some x ∧ TokenInfo.Ticker x = k).
Proof using before order changes represents.
  intros Hs Edb. destruct order as [Hk _ _ Hb _ _].
  assert (∀ t x r, G.InscriptionsTickerInfoMap g !! t = Some x → ticker_row h x = Ret r →
    TickerRow.block_height r = h ∧ ticker_recorded x r) as Hrow.
  { intros t x r Hx Er. apply ticker_row_ret; [done|by eapply token_named|]. by apply (tr_marks _ _ _ _ _ changes) in Hx. }
  pose proof (insert_at_elem _ _ _ _ _ Hs) as Hel.
  assert (Forall (λ r, TickerRow.block_height r = h) tickers) as Hnew.
  { apply Forall_forall. intros r (t & x & Hx & _ & Er)%Hel. by eapply Hrow. }
  assert (NoDup (TickerRow.tick <$> tickers)) as Hnd.
  { eapply (insert_at_NoDup _ _ _ _ _ Hs _ (λ _ x, TokenInfo.Ticker x)).
    - intros t x r Hx Er. by apply (Hrow _ _ _ Hx Er).
    - intros t x t' x' Hx Hx' E. apply token_named in Hx as [<- _], Hx' as [<- _]. by rewrite E. }
  unfold ticker_rows. rewrite Edb. split; [split; [by eapply keyed_app|by apply below_app]|].
  split.
  - intros t x Hx. destruct (decide (TokenInfo.UpdateHeight x = h)) as [E|E].
    + destruct (insert_at_has _ _ _ _ _ Hs t x Hx E) as (r & Er & Hr). exists r.
      destruct (Hrow _ _ _ Hx Er) as [_ Hrec]. split; [|done].
      apply (newest_app _ _ _ _ h); [done..|]. left. split; [done|apply Hrec].
    + destruct (G.InscriptionsTickerInfoMap g0 !! t) as [x0|] eqn:Hx0.
      2:{ by destruct (tr_deployed _ _ _ _ _ changes t x Hx Hx0). }
      destruct (tr_token _ _ _ _ _ changes t x0 Hx0) as (x' & Hx' & Et & [Eh|Ek]); [congruence|].
      assert (x' = x) as -> by congruence. injection Ek as _ E1 E2 E3 E4 E5.
      destruct (rd_token _ _ before t x0 Hx0) as (r & Hr & Hrec). exists r. split.
      * apply (newest_app _ _ _ _ h); [done..|]. right. rewrite Et. split; [|done].
        intros r' (t' & x' & Hx'' & E' & Er)%Hel Ek'. destruct (Hrow _ _ _ Hx'' Er) as [_ (En & _)].
        rewrite En, <-Et in Ek'. assert (t' = t) as ->; [|congruence].
        apply token_named in Hx as [<- _], Hx'' as [<- _]. by rewrite Ek'.
      * unfold ticker_recorded in *. by rewrite E1, E2, E3, E4, E5, Et.
  - intros k r Hr. apply (newest_app _ _ _ _ h) in Hr; [|done..].
    destruct Hr as [[(t & x & Hx & _ & Er)%Hel <-]|[_ Hr]].
    + destruct (Hrow _ _ _ Hx Er) as [_ (-> & _)]. exists x. by rewrite (proj1 (token_named _ _ Hx)).
    + destruct (rd_token_only _ _ before k r Hr) as (x0 & Hx0 & <-).
      destruct (tr_token _ _ _ _ _ changes _ x0 Hx0) as (x' & Hx' & Et & _). by exists x'.
Qed.

Lemma at_owner t a l : at_ (core g) t a = Some l →
  ∃ b, G.Balances g !! l = Some b ∧ Bal.PkScript b = a ∧ ToLower (Bal.Ticker b) = t.
Proof using represents.
  intros Hl. destruct (at_object _ _ _ _ _ represents Hl) as (b & y & Hb & _ & _ & (E1 & E2 & _) & _).
  by exists b.
Qed.

Lemma saved_balances balances :
  SaveDataToDBTickerBalanceMap h (G.Balances g) (G.UserTokensBalanceData g) = Ret balances →
  DB.brc20_user_balance db' = DB.brc20_user_balance db ++ balances →
  (keyed BalanceRow.block_height balance_key (DB.brc20_user_balance db') ∧
   below BalanceRow.block_height (h + 1) (DB.brc20_user_balance db')) ∧
  (∀ t a l b, at_ (core g) t a = Some l → G.Balances g !! l = Some b →
    match balance_rows db' !! (Bal.Ticker b, a) with
    | Some r => balance_recorded b r
    | None => dval (Bal.AvailableBalance b) = 0 ∧ dval (Bal.TransferableBalance b) = 0
    end) ∧
  (∀ k r, balance_rows db' !! k = Some r →
    ∃ l b, at_ (core g) (ToLower k.1) k.2 = Some l ∧ G.Balances g !! l = Some b ∧ Bal.Ticker b = k.1).
Proof using before order changes represents0 represents.
  intros Hs Edb. destruct order as [_ Hk _ _ Hb _].
  assert (∀ r, r ∈ balances ↔ ∃ t a l b, at_ (core g) t a = Some l ∧ G.Balances g !! l = Some b ∧
    Bal.UpdateHeight b = h ∧ balance_row h b = Ret r) as Hel.
  { intros r. rewrite (balance_rows_elem _ _ _ _ Hs). unfold at_. cbn. split.
    - intros (a & us & t & l & b & Hus & Hl & ?). exists t, a, l, b. by rewrite Hus.
    - intros (t & a & l & b & (us & Hus & Hl)%bind_Some & ?). by exists a, us, t, l, b. }
  assert (NoDup (balance_key <$> balances)) as Hnd.
  { eapply balance_rows_NoDup; [exact Hs|]. intros a us t l b Hus Hl Hb0.
    destruct (at_owner t a l) as (b' & Hb' & ?); [unfold at_; cbn; by rewrite Hus|]. congruence. }
  assert (Forall (λ r, BalanceRow.block_height r = h) balances) as Hnew.
  { apply Forall_forall. intros r (t & a & l & b & _ & _ & _ & Er)%Hel. by eapply balance_row_ret. }
  assert (∀ r t a l b, at_ (core g) t a = Some l → G.Balances g !! l = Some b → r ∈ balances →
    balance_key r = (Bal.Ticker b, a) → balance_row h b = Ret r ∧ Bal.UpdateHeight b = h) as Hown.
  { intros r t a l b Hl Hb0 (t' & a' & l' & b' & Hl' & Hb' & Eh & Er)%Hel Ekey.
    pose proof (balance_row_ret _ _ _ Er) as (_ & Ekey' & _). rewrite Ekey in Ekey'. injection Ekey' as E1 E2.
    destruct (at_owner _ _ _ Hl) as (? & ? & Ea & Et), (at_owner _ _ _ Hl') as (? & ? & Ea' & Et'). simplify_eq.
    assert (l' = l) as -> by congruence. simplify_eq. done. }
  unfold balance_rows. rewrite Edb. split; [split; [by eapply keyed_app|by apply below_app]|].
  split.
  - intros t a l b Hl Hb0. destruct (at_owner _ _ _ Hl) as (b1 & Hb1 & Ea & Et).
    assert (b1 = b) as -> by congruence. clear Hb1.
    destruct (decide (Bal.UpdateHeight b = h)) as [Eh|Eh].
    + assert (∃ r, r ∈ balances ∧ balance_row h b = Ret r) as Hhas.
      { unfold at_ in Hl. cbn in Hl. apply bind_Some in Hl as (us & Hus & Hl).
        destruct (balance_rows_has _ _ _ _ Hs a us t l b) as (r & Hr & Er); [done..|]. by exists r. }
      destruct Hhas as (r & Hr & Er).
      pose proof (balance_row_ret _ _ _ Er) as (_ & Ekey & Hrec). rewrite Ea in Ekey.
      assert (newest BalanceRow.block_height balance_key (DB.brc20_user_balance db ++ balances) !! (Bal.Ticker b, a) = Some r)
        as -> by (apply (newest_app _ _ _ _ h); [done..|]; by left). done.
    + assert (∀ r, r ∈ balances → balance_key r ≠ (Bal.Ticker b, a)) as Hno.
      { intros r Hr Ekey. by destruct (Hown r t a l b Hl Hb0 Hr Ekey). }
      assert (newest BalanceRow.block_height balance_key (DB.brc20_user_balance db ++ balances) !! (Bal.Ticker b, a) =
        balance_rows db !! (Bal.Ticker b, a)) as ->.
      { apply option_eq. intros r. rewrite (newest_app _ _ _ _ h) by done. unfold balance_rows. naive_solver. }
      destruct (tr_user _ _ _ _ _ changes t a l Hl) as [Hl0|(b' & Hb' & Hf)].
      * destruct (G.Balances g0 !! l) as [b0|] eqn:Hb00.
        -- destruct (tr_balance _ _ _ _ _ changes l b0 Hb00) as (b' & Hb' & Et' & _ & [E|E]); [congruence|].
           assert (b' = b) as -> by congruence. injection E as _ E1 E2.
           pose proof (rd_balance _ _ before t a l b0 Hl0 Hb00) as Hrec. rewrite Et'.
           unfold balance_recorded in *. by rewrite E1, E2.
        -- destruct (at_object _ _ _ _ _ represents0 Hl0) as (b0 & _ & Hb0' & _). congruence.
      * assert (b' = b) as -> by congruence. destruct Hf as [Hf|Hz]; [done|].
        destruct (balance_rows db !! (Bal.Ticker b, a)) as [r|] eqn:Er; [|done].
        destruct (rd_balance_only _ _ before _ _ Er) as (l0 & b0 & Hl0 & Hb00 & Et0). simpl in Hl0, Et0.
        pose proof (tr_users _ _ _ _ _ changes _ _ _ Hl0) as Hl1. rewrite Et in Hl0, Hl1.
        assert (l0 = l) as -> by congruence.
        destruct (tr_balance _ _ _ _ _ changes l b0 Hb00) as (b' & Hb'' & _ & _ & [E|E]); [congruence|].
        assert (b' = b) as -> by congruence. injection E as _ E1 E2.
        pose proof (rd_balance _ _ before t a l b0 Hl0 Hb00) as Hrec. rewrite Et0, Er in Hrec.
        unfold balance_recorded in *. by rewrite E1, E2.
  - intros k r Hr. apply (newest_app _ _ _ _ h) in Hr; [|done..].
    destruct Hr as [[(t & a & l & b & Hl & Hb0 & _ & Er)%Hel <-]|[_ Hr]].
    + apply balance_row_ret in Er as (_ & -> & _). destruct (at_owner _ _ _ Hl) as (b1 & Hb1 & Ea & Et).
      assert (b1 = b) as -> by congruence. exists l, b. simpl. by rewrite Ea, Et.
    + destruct (rd_balance_only _ _ before k r Hr) as (l & b & Hl & Hb0 & Et).
      destruct (tr_balance _ _ _ _ _ changes l b Hb0) as (b' & Hb' & Et' & _). exists l, b'.
      split; [by apply (tr_users _ _ _ _ _ changes)|]. split; [done|congruence].
Qed.

Lemma saved_transfers transfers :
  SaveDataToDBValidTransferMap h (G.InscriptionsValidTransferMap g) = Ret transfers →
  DB.brc20_valid_transfer db' = DB.brc20_valid_transfer db ++ transfers →
  (∀ k i, G.InscriptionsValidTransferMap g0 !! k = Some i → ¬ keys k) →
  (keyed TransferRow.block_height TransferRow.create_key (DB.brc20_valid_transfer db') ∧
   below TransferRow.block_height (h + 1) (DB.brc20_valid_transfer db')) ∧
  (∀ k i, G.InscriptionsValidTransferMap g !! k = Some i →
    ∃ r, transfer_rows db' !! k = Some r ∧ TransferRow.block_height r = TickInfo.Height i ∧ transfer_recorded i r) ∧
  (∀ k r, transfer_rows db' !! k = Some r → is_Some (G.InscriptionsValidTransferMap g !! k)).
Proof using before order changes.
  intros Hs Edb Hold. destruct order as [_ _ Hk _ _ Hb].
  pose proof (insert_at_elem _ _ _ _ _ Hs) as Hel. cbv beta in Hel.
  assert (∀ k i r, (meta ← deref_ptr (TickInfo.Meta i);
    transfer_row h k (TickInfo.Tick i) (TickInfo.PkScript i) (GetInscriptionId meta) (TickInfo.TxId i) (TickInfo.Amount i)
      (TickInfo.InscriptionNumber i) (TickInfo.Vout i) (TickInfo.Satoshi i) (TickInfo.Offset i)) = Ret r →
    TransferRow.block_height r = h ∧ TransferRow.create_key r = k ∧ transfer_recorded i r) as Hrow.
  { intros k i r (meta & _ & E)%outcome_bind_inv. apply transfer_row_ret in E as (E1&E2&E3&E4&E5&E6&E7&E8&E9).
    done. }
  assert (Forall (λ r, TransferRow.block_height r = h) transfers) as Hnew.
  { apply Forall_forall. intros r (k & i & _ & _ & Er)%Hel. by eapply Hrow. }
  assert (NoDup (TransferRow.create_key <$> transfers)) as Hnd.
  { eapply (insert_at_NoDup _ _ _ _ _ Hs _ (λ k _, k)); [|done]. intros k i r _ Er. by eapply Hrow. }
  unfold transfer_rows. rewrite Edb. split; [split; [by eapply keyed_app|by apply below_app]|].
  split.
  - intros k i Hi. destruct (decide (TickInfo.Height i = h)) as [E|E].
    + destruct (insert_at_has _ _ _ _ _ Hs k i Hi E) as (r & Er & Hr). exists r.
      apply Hrow in Er as (E1 & E2 & E3). split; [|split; [congruence|done]].
      apply (newest_app _ _ _ _ h); [done..|]. by left.
    + destruct (tr_transfer _ _ _ _ _ changes k i Hi) as [Hi0|[_ ?]]; [|done].
      destruct (rd_transfer _ _ before k i Hi0) as (r & Hr & Hrec). exists r. split; [|done].
      apply (newest_app _ _ _ _ h); [done..|]. right. split; [|done].
      intros r' (k' & i' & Hi' & Eh & Er)%Hel Ek. apply Hrow in Er as (_ & Ek' & _). congruence.
  - intros k r Hr. apply (newest_app _ _ _ _ h) in Hr; [|done..].
    destruct Hr as [[(k' & i & Hi & _ & Er)%Hel <-]|[_ Hr]].
    + apply Hrow in Er as (_ & -> & _). by exists i.
    + destruct (rd_transfer_only _ _ before k r Hr) as [i Hi]. exists i.
      apply (tr_transfers _ _ _ _ _ changes); [done|]. by eapply Hold.
Qed.

Lemma save_recorded :
  SaveDataToDB h g db = Ret db' → (∀ k i, G.InscriptionsValidTransferMap g0 !! k = Some i → ¬ keys k) →
  recorded db' g ∧ ordered (h + 1) db'.
Proof using before order changes represents0 represents.
  intros (tickers & balances & moved & transfers & E1 & E2 & _ & E4 & D1 & D2 & _ & D4)%SaveDataToDB_ret Hk.
  destruct (saved_tickers _ E1 D1) as ([? ?] & ? & ?). destruct (saved_balances _ E2 D2) as ([? ?] & ? & ?).
  destruct (saved_transfers _ E4 D4 Hk) as ([? ?] & ? & ?). done.
Qed.
End saving.
(** A state with the same ledger has the same rows. *)
Lemma recorded_view `{GoUnicode, Postgres} db g g' : recorded db g → ledger_view g' = ledger_view g → recorded db g'.
Proof.
  intros [] [= E1 E2 E3 E4 E5 E6]. split; unfold at_ in *; cbn in *; by rewrite ?E1, ?E2, ?E3, ?E4.
Qed.
