(* ===== verification/Reload.v ===== *)
(** * Loading what was saved

    The ledger loaded from a database that [recorded] a state represents the ledger of
    that state, with the live transfer inscriptions only. *)
From S2P Require Import Prelude GoStd Decimal Script Utils Json Model History Swap Indexer CondApprove Ledger LedgerSpec LedgerFrame LedgerRep LedgerProof Tables Save Load Modules Commit PreVerify CherryPick CommitFlow MainLoop LoopFrames EarlyErrors Tracking Recorded.

(** ** Loops over rows *)
Lemma fold_rows_ind {S R M} (f : M → R → GoM S M) (P : list R → M → S → Prop) rows m s :
  P [] m s →
  (∀ past r rest m s, rows = past ++ r :: rest → P past m s →
     ∃ m' s', f m r s = (Ret m', s') ∧ P (past ++ [r]) m' s') →
  ∃ m' s', fold_rows f m rows s = (Ret m', s') ∧ P rows m' s'.
Proof.
  intros HP Hf. cut (∀ past rest m s, rows = past ++ rest → P past m s →
    ∃ m' s', fold_rows f m rest s = (Ret m', s') ∧ P rows m' s'); [intros Hc; by apply (Hc [])|].
  clear m s HP. intros past rest. revert past. induction rest as [|r rest IH]; intros past m s -> HP.
  - exists m, s. by rewrite app_nil_r in *.
  - destruct (Hf past r rest m s eq_refl HP) as (m1 & s1 & E1 & HP1).
    destruct (IH (past ++ [r]) m1 s1) as (m' & s' & E & HP'); [by rewrite <-app_assoc|done|].
    exists m', s'. simpl. unfold mbind, GoM_bind. by rewrite E1.
Qed.
Lemma for_each_ind {S A} (f : A → GoM S unit) (P : list A → S → Prop) l s :
  P [] s →
  (∀ past x rest s, l = past ++ x :: rest → P past s → ∃ s', f x s = (Ret tt, s') ∧ P (past ++ [x]) s') →
  ∃ s', for_each f l s = (Ret tt, s') ∧ P l s'.
Proof.
  intros HP Hf. cut (∀ past rest s, l = past ++ rest → P past s →
    ∃ s', for_each f rest s = (Ret tt, s') ∧ P l s'); [intros Hc; by apply (Hc [])|].
  clear s HP. intros past rest. revert past. induction rest as [|x rest IH]; intros past s -> HP.
  - exists s. by rewrite app_nil_r in *.
  - destruct (Hf past x rest s eq_refl HP) as (s1 & E1 & HP1).
    destruct (IH (past ++ [x]) s1) as (s' & E & HP'); [by rewrite <-app_assoc|done|].
    exists s'. simpl. unfold mbind, GoM_bind. by rewrite E1.
Qed.
(** Each row gives the entry of its key. *)
Lemma fold_rows_map {S R V} (f : gmap string V → R → GoM S (gmap string V)) (key : R → string) (val : R → V) rows s :
  (∀ m r, r ∈ rows → f m r s = (Ret (<[key r := val r]> m), s)) → NoDup (key <$> rows) →
  ∃ m, fold_rows f ∅ rows s = (Ret m, s) ∧ ∀ k v, m !! k = Some v ↔ ∃ r, r ∈ rows ∧ key r = k ∧ v = val r.
Proof.
  intros Hf Hnd.
  destruct (fold_rows_ind f (λ past (m : gmap string V) s', s' = s ∧
    ∀ k v, m !! k = Some v ↔ ∃ r, r ∈ past ∧ key r = k ∧ v = val r) rows ∅ s) as (m & s' & E & -> & Hm).
  - split; [done|]. intros k v. rewrite lookup_empty. split; [done|]. by intros (r & ?%not_elem_of_nil & _).
  - intros past r rest m s' Er [-> Hm]. exists (<[key r := val r]> m), s. split; [|split; [done|]].
    { apply Hf. rewrite Er. set_solver. }
    intros k v. rewrite lookup_insert_Some, Hm. setoid_rewrite elem_of_app. setoid_rewrite list_elem_of_singleton.
    assert (∀ r', r' ∈ past → key r' ≠ key r) as Hne.
    { intros r' Hr' E. rewrite Er, fmap_app, fmap_cons in Hnd. apply NoDup_app in Hnd as (_ & Hd & _).
      apply (Hd (key r')); [by apply list_elem_of_fmap_2|]. rewrite E. by left. }
    split.
    + intros [[<- <-]|[Hk (r' & Hr' & <- & ->)]]; [by exists r; auto|by exists r'; auto].
    + intros (r' & [Hr'| ->] & <- & ->); [|by left]. right. split; [by apply not_eq_sym, Hne|by exists r'].
  - by exists m.
Qed.
Lemma fatal_ret {S A} what (m : GoM S A) s a s' : m s = (Ret a, s') → fatal what m s = (Ret a, s').
Proof. unfold fatal. by intros ->. Qed.

Lemma lookup_user (users : gmap string (gmap string loc)) t a l t' a' :
  <[a := <[t := l]> (default ∅ (users !! a))]> users !! a' ≫= lookup t' =
  if bool_decide (t = t' ∧ a = a') then Some l else users !! a' ≫= lookup t'.
Proof.
  destruct (decide (a = a')) as [<-|].
  - rewrite lookup_insert_eq. simpl. destruct (decide (t = t')) as [<-|].
    + by rewrite lookup_insert_eq, bool_decide_eq_true_2.
    + rewrite lookup_insert_ne, bool_decide_eq_false_2 by naive_solver. by destruct (users !! a).
  - by rewrite lookup_insert_ne, bool_decide_eq_false_2 by naive_solver.
Qed.
(** ** The index by ticker *)
Section index.
Context `{GoUnicode} (infos : gmap string BRC20TokenInfo).
Context (users : gmap string (gmap string loc)) (s : BRC20ModuleIndexer).
Hypothesis known : ∀ t a l, users !! a ≫= lookup t = Some l → is_Some (infos !! t) ∧ is_Some (G.Balances s !! l).
Definition busy (l : loc) : Prop := ∃ b, G.Balances s !! l = Some b ∧ holds_nothing b = false.
(** The index with the holders [entry] of something. *)
Definition indexes (tokens : gmap string (gmap string loc)) (entry : string → string → loc → Prop) : Prop :=
  (∀ t, is_Some (tokens !! t) ↔ is_Some (infos !! t)) ∧
  ∀ t a l, tokens !! t ≫= lookup a = Some l ↔ entry t a l ∧ busy l.

Lemma load_holder_indexes a t l tokens (entry entry' : string → string → loc → Prop) :
  users !! a ≫= lookup t = Some l → indexes tokens entry → (∀ l', ¬ entry t a l') →
  (∀ t' a' l', entry' t' a' l' ↔ entry t' a' l' ∨ (t' = t ∧ a' = a ∧ l' = l)) →
  ∃ tokens', load_holder a tokens (t, l) s = (Ret tokens', s) ∧ indexes tokens' entry'.
Proof using known.
  intros Hl [Hdom Hi] Hnew Hext. destruct (known _ _ _ Hl) as [Ht [b Hb]].
  assert (load_balance l s = (Ret b, s)) as Eb.
  { unfold load_balance, mbind, GoM_bind, get. by rewrite Hb. }
  unfold load_holder. cbn [fst snd]. erewrite bind_ret by exact Eb.
  change ((Sign (Bal.AvailableBalance b) =? 0) && (Sign (Bal.TransferableBalance b) =? 0)) with (holds_nothing b).
  destruct (holds_nothing b) eqn:En.
  - exists tokens. split; [done|]. split; [done|]. intros t' a' l'. rewrite Hi, Hext. split; [naive_solver|].
    intros [[He|(-> & -> & ->)] Hbusy]; [done|]. destruct Hbusy as (b' & Hb' & En'). congruence.
  - destruct (proj2 (Hdom t) Ht) as [us Hus]. simpl. rewrite Hus.
    exists (<[t := <[a := l]> us]> tokens). split; [done|]. split.
    + intros t'. rewrite <-Hdom. destruct (decide (t = t')) as [<-|]; [|by rewrite lookup_insert_ne].
      rewrite lookup_insert_eq, Hus. split; by eexists.
    + intros t' a' l'. assert (us = default ∅ (tokens !! t)) as -> by by rewrite Hus.
      rewrite lookup_user, Hext. case_bool_decide as E.
      * destruct E as [<- <-]. split.
        -- intros [= <-]. split; [by right|by exists b].
        -- intros [[He|(_ & _ & ->)] _]; [by destruct (Hnew l')|done].
      * rewrite Hi. split; [naive_solver|]. intros [[He|(-> & -> & ->)] Hbusy]; [done|by destruct E].
Qed.
Lemma load_index :
  ∃ tokens, UserTokensBalanceMap2TokenUsersBalanceMap infos users s = (Ret tokens, s) ∧
    indexes tokens (λ t a l, users !! a ≫= lookup t = Some l).
Proof using known.
  set (entries := λ (past : list (string * gmap string loc)) t a l,
    ∃ us, (a, us) ∈ past ∧ us !! t = Some l).
  destruct (fold_rows_ind (λ tokenUsersMap (p : string * gmap string loc),
      fold_rows (load_holder p.1) tokenUsersMap (map_to_list p.2))
    (λ past tokens s', s' = s ∧ indexes tokens (entries past)) (map_to_list users)
    ((λ _ : BRC20TokenInfo, ∅ : gmap string loc) <$> infos) s) as (tokens & s' & E & -> & Hdom & Hi).
  - split; [done|]. split.
    + intros t. by rewrite lookup_fmap, fmap_is_Some.
    + intros t a l. rewrite lookup_fmap. destruct (infos !! t); simpl; rewrite ?lookup_empty;
        (split; [done|]); by intros [(us & ?%not_elem_of_nil & _) _].
  - intros past [a us] rest tokens s' Er [-> Hpast]. simpl.
    assert (users !! a = Some us) as Hus by (apply elem_of_map_to_list; rewrite Er; set_solver).
    assert (∀ us', (a, us') ∉ past) as Hfresh.
    { intros us' Hin. pose proof (NoDup_fst_map_to_list users) as Hnd. rewrite Er, fmap_app, fmap_cons in Hnd.
      apply NoDup_app in Hnd as (_ & Hd & _). apply (Hd a); [|by left]. by apply (list_elem_of_fmap_2 fst _ (a, us')). }
    destruct (fold_rows_ind (load_holder a) (λ past' tokens s', s' = s ∧
      indexes tokens (λ t a' l, entries past t a' l ∨ a' = a ∧ (t, l) ∈ past')) (map_to_list us) tokens s)
      as (tokens' & s' & E & -> & Hi').
    + split; [done|]. destruct Hpast as [Hdom Hi]. split; [done|]. intros t a' l. rewrite Hi.
      split; [naive_solver|]. intros [[He|[_ ?%not_elem_of_nil]] Hb]; [done|done].
    + intros past' [t l] rest' tokens1 s' Er' [-> Hi].
      assert (us !! t = Some l) as Hl by (apply elem_of_map_to_list; rewrite Er'; set_solver).
      destruct (load_holder_indexes a t l tokens1 (λ t a' l, entries past t a' l ∨ a' = a ∧ (t, l) ∈ past')
        (λ t' a' l', entries past t' a' l' ∨ a' = a ∧ (t', l') ∈ past' ++ [(t, l)])) as (tokens2 & E2 & Hi2).
      * by rewrite Hus.
      * done.
      * intros l' [(us' & Hin & _)|[_ Hin]]; [by destruct (Hfresh us')|].
        pose proof (NoDup_fst_map_to_list us) as Hnd. rewrite Er', fmap_app, fmap_cons in Hnd.
        apply NoDup_app in Hnd as (_ & Hd & _). apply (Hd t); [|by left]. by apply (list_elem_of_fmap_2 fst _ (t, l')).
      * intros t' a' l'. rewrite elem_of_app, list_elem_of_singleton. clear. naive_solver.
      * exists tokens2, s. done.
    + exists tokens', s. split; [done|]. split; [done|]. destruct Hi' as [Hdom Hi']. split; [done|].
      intros t a' l. rewrite Hi'. unfold entries. setoid_rewrite elem_of_app. setoid_rewrite list_elem_of_singleton.
      rewrite elem_of_map_to_list. clear. naive_solver.
  - exists tokens. split; [done|]. split; [done|]. intros t a l. rewrite Hi. unfold entries. split.
    + intros [(us & Hus%elem_of_map_to_list & Hl) Hb]. split; [by rewrite Hus|done].
    + intros [(us & Hus & Hl)%bind_Some Hb]. split; [|done]. exists us. split; [by apply elem_of_map_to_list|done].
Qed.
End index.

(** ** Transfers in the balances of their holders *)
Section links.
Context `{GoUnicode} (transfers : gmap string InscriptionBRC20TickInfo) (s : BRC20ModuleIndexer).
(** The object of the holder. *)
Definition holder_of (v : InscriptionBRC20TickInfo) : option loc :=
  G.UserTokensBalanceData s !! TickInfo.PkScript v ≫= lookup (ToLower (TickInfo.Tick v)).
Hypothesis held : ∀ k v, transfers !! k = Some v →
  ∃ l b, holder_of v = Some l ∧ G.Balances s !! l = Some b ∧ Bal.ValidTransferMap b = ∅.
(** The heap with the transfers in [entry] linked. *)
Definition linked (heap : gmap loc BRC20TokenBalance) (entry : string → InscriptionBRC20TickInfo → Prop) : Prop :=
  ∀ l b, G.Balances s !! l = Some b → Bal.ValidTransferMap b = ∅ →
    ∃ m, heap !! l = Some (b <| Bal.ValidTransferMap := m |>) ∧
      ∀ k v, m !! k = Some v ↔ entry k v ∧ holder_of v = Some l.

Lemma link_transfer_linked k v heap (entry entry' : string → InscriptionBRC20TickInfo → Prop) :
  transfers !! k = Some v → linked heap entry → (∀ v', ¬ entry k v') →
  (∀ k' v', entry' k' v' ↔ entry k' v' ∨ k' = k ∧ v' = v) →
  ∃ heap', link_transfer k v (s <| G.Balances := heap |>) = (Ret tt, s <| G.Balances := heap' |>) ∧ linked heap' entry'.
Proof using held.
  intros Hv Hl Hnew Hext. destruct (held k v Hv) as (l & b & Eh & Hb & Em).
  destruct (Hl l b Hb Em) as (m & Hm & Hin).
  set (b' := b <| Bal.ValidTransferMap := m |>) in *.
  exists (<[l := b' <| Bal.ValidTransferMap ::= <[k := v]> |>]> heap). split.
  - unfold link_transfer. erewrite bind_ret by done. cbv beta.
    change (G.UserTokensBalanceData (s <| G.Balances := heap |>)) with (G.UserTokensBalanceData s).
    unfold holder_of in Eh. rewrite Eh. cbn [deref]. erewrite bind_ret by done.
    unfold update_balance, load_balance, store_balance. unfold mbind, GoM_bind, get.
    change (G.Balances (s <| G.Balances := heap |>)) with heap. rewrite Hm. done.
  - intros l' c Hc Ec. destruct (decide (l = l')) as [<-|Hne].
    + assert (c = b) as -> by congruence. exists (<[k := v]> m). rewrite lookup_insert_eq. split; [done|].
      intros k' v'. rewrite lookup_insert_Some, Hin, Hext. split.
      * intros [[<- <-]|[Hk [He Eh']]]; [split; [by right|done]|split; [by left|done]].
      * intros [[He|[-> ->]] Eh']; [|by left]. right. split; [|done]. intros ->. by apply (Hnew v').
    + destruct (Hl l' c Hc Ec) as (m' & Hm' & Hin'). exists m'. rewrite lookup_insert_ne by done. split; [done|].
      intros k' v'. rewrite Hin', Hext. split; [intros [He Eh']; split; [by left|done]|].
      intros [[He|[-> ->]] Eh']; [done|congruence].
Qed.
Lemma link_transfers :
  ∃ heap, for_each (λ p : string * InscriptionBRC20TickInfo, link_transfer p.1 p.2) (map_to_list transfers) s =
      (Ret tt, s <| G.Balances := heap |>) ∧
    linked heap (λ k v, transfers !! k = Some v).
Proof using held.
  destruct (for_each_ind (λ p : string * InscriptionBRC20TickInfo, link_transfer p.1 p.2)
    (λ past s', ∃ heap, s' = s <| G.Balances := heap |> ∧ linked heap (λ k v, (k, v) ∈ past))
    (map_to_list transfers) s) as (s' & E & heap & -> & Hl).
  - exists (G.Balances s). split; [by destruct s|]. intros l b Hb Em. exists ∅. split.
    + rewrite Hb. f_equal. rewrite <-Em. by destruct b.
    + intros k v. rewrite lookup_empty. split; [done|]. by intros [?%not_elem_of_nil _].
  - intros past [k v] rest s' Er (heap & -> & Hl).
    destruct (link_transfer_linked k v heap (λ k v, (k, v) ∈ past) (λ k' v', (k', v') ∈ past ++ [(k, v)]))
      as (heap' & E & Hl').
    + apply elem_of_map_to_list. rewrite Er. set_solver.
    + done.
    + intros v' Hin. pose proof (NoDup_fst_map_to_list transfers) as Hnd. rewrite Er, fmap_app, fmap_cons in Hnd.
      apply NoDup_app in Hnd as (_ & Hd & _). apply (Hd k); [|by left]. by apply (list_elem_of_fmap_2 fst _ (k, v')).
    + intros k' v'. rewrite elem_of_app, list_elem_of_singleton. clear. naive_solver.
    + eexists. split; [exact E|]. by exists heap'.
  - exists heap. split; [exact E|]. intros l b Hb Em. destruct (Hl l b Hb Em) as (m & Hm & Hin). exists m.
    split; [done|]. intros k v. by rewrite Hin, elem_of_map_to_list.
Qed.
End links.

(** ** The ledger that is loaded *)

(** The inscription of a deploy is not saved: the parent a self mint must name is the
    inscription of an empty transaction id.  Nor is what a zero maximum or limit of a
    self mint stands for: the text is, and it is read as zero. *)
Definition no_parent : string := inscription_id (HashString (s2b "")) 0.
Definition reloads_amount (tok : AToken) (m m' : Z) : Prop :=
  m' = m ∨ is_Some (ATok.Parent tok) ∧ m = max_units (ATok.Decimals tok) ∧ m' = 0.
Record reloads_token (tok tok' : AToken) : Prop := {
  rt_ticker : ATok.Ticker tok' = ATok.Ticker tok;
  rt_decimals : ATok.Decimals tok' = ATok.Decimals tok;
  rt_minted : ATok.Minted tok' = ATok.Minted tok;
  rt_parent : ATok.Parent tok' = (λ _, no_parent) <$> ATok.Parent tok;
  rt_max : reloads_amount tok (ATok.Max tok) (ATok.Max tok');
  rt_limit : reloads_amount tok (ATok.Limit tok) (ATok.Limit tok');
}.
Definition live (L : ALedger) (p : string * (string * string)) : Prop :=
  is_Some (ABal.Pending (abal L p.2.1 p.2.2) !! p.1).
#[global] Instance live_dec L p : Decision (live L p).
Proof. unfold live. apply _. Defined.
Record reloads (L L' : ALedger) : Prop := {
  rl_tokens t : option_Forall2 reloads_token (AL.Tokens L !! t) (AL.Tokens L' !! t);
  rl_bals : AL.Bals L' = AL.Bals L;
  rl_transfers : AL.Transfers L' = base.filter (live L) (AL.Transfers L);
}.

Section reload.
Context `{GoUnicode, Postgres}.
Context (db : SwapDB) (n : Z) (g : BRC20ModuleIndexer) (L : ALedger).
Hypothesis record : recorded db g.
Hypothesis order : ordered n db.
Hypothesis represents : R (core g) L.
Hypothesis sound : ledger_inv L.
Hypothesis spelling : spells g.

(** *** Tickers *)
Definition parsed (s : string) (p : Z) : Decimal :=
  match MustNewDecimalFromString s p with Ret d => d | _ => mkDecimal 0 0 end.
Lemma column_parsed s p d :
  0 ≤ p ≤ 18 → dec_ok p d → 0 ≤ dval d → column_holds s d →
  MustNewDecimalFromString s p = Ret (mkDecimal p (dval d)) ∧ parsed s p = mkDecimal p (dval d).
Proof.
  intros Hp Hd Hv Hs. unfold parsed. rewrite (Hs p Hp Hd Hv), MustNewDecimalFromString_column by done. done.
Qed.
Lemma column_reads_parsed self s p d :
  0 ≤ p ≤ 18 → column_reads self p s d →
  ∃ v, MustNewDecimalFromString s p = Ret (mkDecimal p v) ∧ parsed s p = mkDecimal p v ∧
    (dval d = v ∨ self = true ∧ dval d = max_units p ∧ v = 0).
Proof.
  intros Hp (v & Hv & -> & Hd). exists v. unfold parsed. rewrite MustNewDecimalFromString_column by done.
  split; [done|]. split; [done|]. destruct Hd as [->|(? & -> & ->)]; [by left|by right].
Qed.
Definition loaded_token (r : TickerRow.ticker_info) : BRC20TokenInfo :=
  let p := TickerRow.decimals r in
  TokenInfo.mk 0 (TickerRow.tick r) (loaded_deploy r (Some (parsed (TickerRow.max_supply r) p))
    (Some (parsed (TickerRow.limit_per_mint r) p)) (Some (parsed (TickerRow.minted r) p))) [] [] [] [] [].

Lemma newest_ticker r : r ∈ latest TickerRow.block_height TickerRow.tick (DB.brc20_ticker_info db) ↔
  ticker_rows db !! TickerRow.tick r = Some r.
Proof using order. unfold ticker_rows. rewrite newest_Some by apply order. split; [done|by intros []]. Qed.
Lemma ticker_row_of r :
  r ∈ latest TickerRow.block_height TickerRow.tick (DB.brc20_ticker_info db) →
  ∃ x, G.InscriptionsTickerInfoMap g !! ToLower (TickerRow.tick r) = Some x ∧ ticker_recorded x r.
Proof using record order.
  intros Hr%newest_ticker. destruct (rd_token_only _ _ record _ _ Hr) as (x & Hx & E).
  destruct (rd_token _ _ record _ _ Hx) as (r' & Hr' & Hrec). rewrite E, Hr in Hr'. exists x. by simplify_eq.
Qed.
(** The amounts of a ticker. *)
Lemma token_amounts t x :
  G.InscriptionsTickerInfoMap g !! t = Some x →
  let p := TickInfo.Decimals (TokenInfo.Deploy x) in
  ToLower (TokenInfo.Ticker x) = t ∧ 0 ≤ p ≤ 18 ∧
  (dec_ok p (TickInfo.TotalMinted (TokenInfo.Deploy x)) ∧ 0 ≤ dval (TickInfo.TotalMinted (TokenInfo.Deploy x))).
Proof using represents sound.
  intros Hx p. destruct (R_ticker _ _ _ _ represents Hx) as [HL (Hn & Hp & _ & _ & Ht & _)].
  pose proof (inv_minted _ sound _ _ HL) as Hmint. cbn in Hmint.
  split; [done|]. split; [done|]. split; [done|apply Hmint].
Qed.
Lemma loaded_token_eq x r :
  G.InscriptionsTickerInfoMap g !! ToLower (TickerRow.tick r) = Some x → ticker_recorded x r →
  reloads_token (tok_abs (tcore x)) (tok_abs (tcore (loaded_token r))) ∧
  tok_ok (ToLower (TickerRow.tick r)) (tcore (loaded_token r)) ∧
  (∀ m s, load_ticker m r s = (Ret (<[ToLower (TickerRow.tick r) := loaded_token r]> m), s)).
Proof using represents sound spelling.
  intros Hx (En & Ep & Es & Hmax & Hlim & Hmint). set (p := TickInfo.Decimals (TokenInfo.Deploy x)) in *.
  destruct (token_amounts _ _ Hx) as (Hn & Hp & [Ht1 Ht2]). fold p in Hp, Ht1.
  destruct (column_reads_parsed _ _ p _ Hp Hmax) as (vm & Em & Em' & Rm).
  destruct (column_reads_parsed _ _ p _ Hp Hlim) as (vl & El & El' & Rl).
  destruct (column_parsed _ p _ Hp Ht1 Ht2 Hmint) as [Et Et'].
  assert (u8 p = p) as Eu by (unfold u8; rewrite Z.mod_small; lia).
  assert (TickInfo.Decimals (TokenInfo.Deploy (loaded_token r)) = p) as Edec.
  { change (u8 (TickerRow.decimals r) = p). by rewrite Ep. }
  split_and!.
  - assert (tok_abs (tcore (loaded_token r)) = ATok.mk (TickerRow.tick r) (u8 (TickerRow.decimals r))
      (Val (parsed (TickerRow.max_supply r) (TickerRow.decimals r)))
      (Val (parsed (TickerRow.limit_per_mint r) (TickerRow.decimals r)))
      (if TickerRow.self_mint r then Some no_parent else None)
      (Val (parsed (TickerRow.minted r) (TickerRow.decimals r)))) as -> by done.
    rewrite Ep, Em', El', Et', Eu, En, Es. unfold tok_abs, tcore. cbn [fst snd Val].
    split; cbn; try done; [by destruct (TickInfo.SelfMint _)|..].
    + destruct Rm as [->|(-> & -> & ->)]; [by left|]. right. split; [by eexists|done].
    + destruct Rl as [->|(-> & -> & ->)]; [by left|]. right. split; [by eexists|done].
  - unfold tok_ok, tcore. cbn [fst snd]. rewrite Edec. split; [done|]. split; [done|]. split_and!; try done.
    + change (dec_ok p (Some (parsed (TickerRow.max_supply r) (TickerRow.decimals r)))). by rewrite Ep, Em'.
    + change (dec_ok p (Some (parsed (TickerRow.limit_per_mint r) (TickerRow.decimals r)))). by rewrite Ep, El'.
    + change (dec_ok p (Some (parsed (TickerRow.minted r) (TickerRow.decimals r)))). by rewrite Ep, Et'.
  - intros m s. unfold load_ticker. rewrite Ep, (proj2 (Z.leb_le 0 p)), (proj2 (Z.ltb_lt p 256)) by lia. cbn [andb negb].
    unfold mbind, GoM_bind, lift. rewrite Et, Em, El. unfold loaded_token. by rewrite Ep, Em', El', Et'.
Qed.

Lemma load_tickers s :
  ∃ infos, LoadFromDbTickerInfoMap db s = (Ret infos, s) ∧
    (∀ t y, infos !! t = Some y → ∃ x, G.InscriptionsTickerInfoMap g !! t = Some x ∧
       reloads_token (tok_abs (tcore x)) (tok_abs (tcore y)) ∧ tok_ok t (tcore y)) ∧
    (∀ t x, G.InscriptionsTickerInfoMap g !! t = Some x → is_Some (infos !! t)).
Proof using record order represents sound spelling.
  set (rows := latest TickerRow.block_height TickerRow.tick (DB.brc20_ticker_info db)).
  destruct (fold_rows_map load_ticker (λ r, ToLower (TickerRow.tick r)) loaded_token (row_order rows) s) as (infos & E & Hi).
  - intros m r Hr. rewrite row_order_perm in Hr. destruct (ticker_row_of r Hr) as (x & Hx & Hrec).
    by eapply loaded_token_eq.
  - rewrite row_order_perm. apply NoDup_fmap_2_strong; [|].
    + intros r r' Hr Hr' E. apply newest_ticker in Hr as Hn, Hr' as Hn'.
      destruct (ticker_row_of r Hr) as (x & Hx & E1 & _), (ticker_row_of r' Hr') as (x' & Hx' & E1' & _).
      rewrite E in Hx. simplify_eq. rewrite E1, <-E1', Hn' in Hn. by simplify_eq.
    + eapply NoDup_fmap_1. apply latest_unique, order.
  - exists infos. split; [exact E|]. split.
    + intros t y (r & Hr & <- & ->)%Hi. rewrite row_order_perm in Hr. destruct (ticker_row_of r Hr) as (x & Hx & Hrec).
      exists x. split; [done|]. destruct (loaded_token_eq x r Hx Hrec) as (? & ? & _). done.
    + intros t x Hx. destruct (rd_token _ _ record _ _ Hx) as (r & Hr & Hrec). exists (loaded_token r).
      apply Hi. exists r. destruct Hrec as (E1 & _). rewrite <-E1 in Hr. rewrite row_order_perm.
      split; [by apply newest_ticker|]. split; [|done]. rewrite E1. by apply token_amounts.
Qed.

(** *** Balances *)
Context (infos : gmap string BRC20TokenInfo).
Hypothesis loaded_infos : ∀ t x, G.InscriptionsTickerInfoMap g !! t = Some x →
  ∃ y, infos !! t = Some y ∧ TickInfo.Decimals (TokenInfo.Deploy y) = TickInfo.Decimals (TokenInfo.Deploy x).
Definition precision (t : string) : Z := from_option (λ y, TickInfo.Decimals (TokenInfo.Deploy y)) 0 (infos !! t).
Definition loaded_balance (r : BalanceRow.user_balance) : BRC20TokenBalance :=
  let p := precision (ToLower (BalanceRow.tick r)) in
  new_balance (BalanceRow.tick r) (BalanceRow.pkscript r)
    <| Bal.AvailableBalance := Some (parsed (BalanceRow.available_balance r) p) |>
    <| Bal.TransferableBalance := Some (parsed (BalanceRow.transferable_balance r) p) |>.
(** The rows that are loaded. *)
Definition loaded_rows : list BalanceRow.user_balance :=
  row_order (latest BalanceRow.block_height balance_key (DB.brc20_user_balance db)).

Lemma elem_of_loaded_rows r : r ∈ loaded_rows ↔ balance_rows db !! balance_key r = Some r.
Proof using order.
  unfold loaded_rows, balance_rows. rewrite row_order_perm, newest_Some by apply order. split; [done|by intros []].
Qed.
(** The object of a row. *)
Lemma row_object r :
  r ∈ loaded_rows →
  ∃ l b x, let p := precision (ToLower (BalanceRow.tick r)) in
    at_ (core g) (ToLower (BalanceRow.tick r)) (BalanceRow.pkscript r) = Some l ∧ G.Balances g !! l = Some b ∧
    G.InscriptionsTickerInfoMap g !! ToLower (BalanceRow.tick r) = Some x ∧
    p = TickInfo.Decimals (TokenInfo.Deploy x) ∧ Bal.Ticker b = BalanceRow.tick r ∧ 0 ≤ p ≤ 18 ∧
    bal_ok (C.valid (core g)) p (ToLower (BalanceRow.tick r)) (BalanceRow.pkscript r) b ∧
    abal L (ToLower (BalanceRow.tick r)) (BalanceRow.pkscript r) = bal_abs b ∧
    0 ≤ dval (Bal.AvailableBalance b) ∧ 0 ≤ dval (Bal.TransferableBalance b) ∧ balance_recorded b r.
Proof using record order represents sound loaded_infos.
  intros Hr%elem_of_loaded_rows. destruct (rd_balance_only _ _ record _ _ Hr) as (l & b & Hl & Hb & Et). simpl in Hl, Et.
  destruct (at_object _ _ _ _ _ represents Hl) as (b' & x & Hb' & Hx & Hp & Hok & Hab & _).
  assert (b' = b) as -> by congruence. destruct (loaded_infos _ _ Hx) as (y & Hy & Ey).
  assert (precision (ToLower (BalanceRow.tick r)) = TickInfo.Decimals (TokenInfo.Deploy x)) as Ep
    by (unfold precision; by rewrite Hy).
  exists l, b, x. cbv zeta. rewrite Ep. split_and!; try done; try apply Hp.
  - pose proof (inv_avail _ sound (ToLower (BalanceRow.tick r)) (BalanceRow.pkscript r)) as Hv. rewrite Hab in Hv. done.
  - destruct Hok as (_ & _ & _ & _ & _ & Hlock & _). rewrite Hlock, <-Hab. apply locked_nonneg.
    intros k v. apply (inv_pending _ sound).
  - pose proof (rd_balance _ _ record _ _ _ _ Hl Hb) as Hrec. rewrite Et in Hrec.
    by rewrite (Hr : balance_rows db !! (BalanceRow.tick r, BalanceRow.pkscript r) = Some r) in Hrec.
Qed.
Lemma row_amounts r l b :
  r ∈ loaded_rows → at_ (core g) (ToLower (BalanceRow.tick r)) (BalanceRow.pkscript r) = Some l →
  G.Balances g !! l = Some b →
  let p := precision (ToLower (BalanceRow.tick r)) in
  (MustNewDecimalFromString (BalanceRow.available_balance r) p = Ret (mkDecimal p (dval (Bal.AvailableBalance b))) ∧
   parsed (BalanceRow.available_balance r) p = mkDecimal p (dval (Bal.AvailableBalance b))) ∧
  (MustNewDecimalFromString (BalanceRow.transferable_balance r) p = Ret (mkDecimal p (dval (Bal.TransferableBalance b))) ∧
   parsed (BalanceRow.transferable_balance r) p = mkDecimal p (dval (Bal.TransferableBalance b))).
Proof using record order represents sound loaded_infos.
  intros Hr Hl Hb p. destruct (row_object r Hr) as (l' & b' & x & Hl' & Hb' & Hx & Ep & _ & Hp & Hok & _ & Ha & Ht & Hra & Hrt).
  assert (l' = l) as -> by congruence. assert (b' = b) as -> by congruence.
  destruct Hok as (_ & _ & Hda & _ & Hdt & _). split; by apply column_parsed.
Qed.
Lemma token_decimals_known t x s :
  G.InscriptionsTickerInfoMap g !! ToLower t = Some x → token_decimals infos t s = (Ret (precision (ToLower t)), s).
Proof using loaded_infos.
  intros Hx. destruct (loaded_infos _ _ Hx) as (y & Hy & _). unfold token_decimals, precision. by rewrite Hy.
Qed.

(** What is in the index by holder and in the heap. *)
Record users_loaded (rows : list BalanceRow.user_balance) (users : gmap string (gmap string loc))
    (heap : gmap loc BRC20TokenBalance) : Prop := {
  ul_row t a l : users !! a ≫= lookup t = Some l →
    ∃ r, r ∈ rows ∧ ToLower (BalanceRow.tick r) = t ∧ BalanceRow.pkscript r = a ∧ heap !! l = Some (loaded_balance r);
  ul_has r : r ∈ rows → is_Some (users !! BalanceRow.pkscript r ≫= lookup (ToLower (BalanceRow.tick r)));
}.
Lemma load_balances s :
  ∃ users heap, LoadFromDbUserTokensBalanceData db infos s = (Ret users, s <| G.Balances := heap |>) ∧
    users_loaded loaded_rows users heap.
Proof using record order represents sound spelling loaded_infos.
  destruct (fold_rows_ind (load_balance_row infos) (λ past users s',
    ∃ heap, s' = s <| G.Balances := heap |> ∧ users_loaded past users heap) loaded_rows ∅ s)
    as (users & s' & E & heap & -> & Hu).
  - exists (G.Balances s). split; [by destruct s|]. split; [by intros t a l|by intros r ?%not_elem_of_nil].
  - intros past r rest users s' Er (heap & -> & Hu).
    assert (r ∈ loaded_rows) as Hr by (rewrite Er; set_solver).
    destruct (row_object r Hr) as (l0 & b & x & Hl0 & Hb & Hx & _).
    destruct (row_amounts r l0 b Hr Hl0 Hb) as [[Ea Ea'] [Et Et']].
    set (l := fresh (dom heap)). assert (heap !! l = None) as Hfresh by apply not_elem_of_dom, is_fresh.
    exists (<[BalanceRow.pkscript r := <[ToLower (BalanceRow.tick r) := l]> (default ∅ (users !! BalanceRow.pkscript r))]> users),
      (s <| G.Balances := <[l := loaded_balance r]> heap |>). split.
    + unfold load_balance_row. cbv zeta. erewrite bind_ret by by eapply token_decimals_known.
      erewrite bind_ret by (unfold lift; by rewrite Ea). erewrite bind_ret by (unfold lift; by rewrite Et).
      unfold loaded_balance. cbv zeta. rewrite Ea', Et'. reflexivity.
    + exists (<[l := loaded_balance r]> heap). split; [done|]. split.
      * intros t a l'. rewrite lookup_user. case_bool_decide as Eb.
        -- destruct Eb as [<- <-]. intros [= <-]. exists r. rewrite lookup_insert_eq. split; [set_solver|done].
        -- intros (r' & Hr' & E1 & E2 & Hh)%(ul_row _ _ _ Hu). exists r'.
           split; [set_solver|]. split_and!; [done..|]. rewrite lookup_insert_ne; [done|]. congruence.
      * intros r' [Hr'|Hr']%elem_of_app; rewrite lookup_user; case_bool_decide as Eb; try by eexists.
        -- by apply (ul_has _ _ _ Hu).
        -- apply list_elem_of_singleton in Hr' as ->. by destruct Eb.
  - by exists users, heap.
Qed.

(** *** Transfer inscriptions *)
Hypothesis moved : ∀ k t a, AL.Transfers L !! k = Some (t, a) →
  is_Some (ABal.Pending (abal L t a) !! k) ↔ ¬ moved_keys db k.
Definition live_rows : list TransferRow.valid_transfer :=
  row_order (not_moved (DB.brc20_transfer_state db) TransferRow.create_key
    (latest TransferRow.block_height TransferRow.create_key (DB.brc20_valid_transfer db))).
Definition live_transfer (r : TransferRow.valid_transfer) : InscriptionBRC20TickInfo :=
  loaded_transfer r (parsed (TransferRow.amount r) (precision (ToLower (TransferRow.tick r)))).

Lemma elem_of_live_rows r :
  r ∈ live_rows ↔ transfer_rows db !! TransferRow.create_key r = Some r ∧ ¬ moved_keys db (TransferRow.create_key r).
Proof using order.
  unfold live_rows, transfer_rows, moved_keys. rewrite row_order_perm, elem_of_not_moved, newest_Some by apply order.
  split.
  - intros [Hr Hm]. split; [done|]. intros (st & Hs & E). by apply (Hm st).
  - intros [[Hr _] Hm]. split; [done|]. intros st Hs E. apply Hm. by exists st.
Qed.
(** The live transfers are those of the ledger. *)
Lemma pending_info k t a v :
  ABal.Pending (abal L t a) !! k = Some v →
  ∃ i l b x, G.InscriptionsValidTransferMap g !! k = Some i ∧ ToLower (TickInfo.Tick i) = t ∧ TickInfo.PkScript i = a ∧
    at_ (core g) t a = Some l ∧ G.Balances g !! l = Some b ∧ G.InscriptionsTickerInfoMap g !! t = Some x ∧
    let p := precision t in
    0 ≤ p ≤ 18 ∧ dec_ok p (TickInfo.Amount i) ∧ dval (TickInfo.Amount i) = v ∧ 0 < v ∧ info_small i.
Proof using represents sound loaded_infos.
  intros Hv. destruct (at_ (core g) t a) as [l|] eqn:Hl.
  2:{ rewrite (r_none _ _ represents _ _ Hl) in Hv. done. }
  destruct (at_object _ _ _ _ _ represents Hl) as (b & x & Hb & Hx & Hp & (_ & _ & _ & _ & _ & _ & Hvm) & Hab & _).
  rewrite Hab in Hv. cbn in Hv. rewrite lookup_fmap in Hv. apply fmap_Some in Hv as (i & Hi & ->).
  destruct (Hvm k i Hi) as (Hval & Hpk & Ht & Hd). destruct (loaded_infos _ _ Hx) as (y & Hy & Ey).
  exists i, l, b, x. unfold precision. rewrite Hy. simpl. rewrite Ey. split_and!; try done; try apply Hp.
  - apply (inv_pending _ sound t a k). rewrite Hab. cbn. by rewrite lookup_fmap, Hi.
  - by eapply (r_valid _ _ represents k).
Qed.
Lemma live_row k t a v :
  ABal.Pending (abal L t a) !! k = Some v →
  ∃ i r, G.InscriptionsValidTransferMap g !! k = Some i ∧ r ∈ live_rows ∧ TransferRow.create_key r = k ∧
    transfer_recorded i r ∧ TransferRow.block_height r = TickInfo.Height i.
Proof using record order represents sound loaded_infos moved.
  intros Hv. destruct (pending_info k t a v Hv) as (i & l & b & x & Hi & _).
  destruct (rd_transfer _ _ record k i Hi) as (r & Hr & Hh & Hrec).
  assert (TransferRow.create_key r = k) as Ek by (apply newest_in in Hr; [by destruct Hr|apply order]).
  exists i, r. split; [done|]. split; [|done]. apply elem_of_live_rows. rewrite Ek. split; [done|].
  apply (moved k t a); [by eapply inv_transfers|by eexists].
Qed.
Lemma row_pending r :
  r ∈ live_rows →
  ∃ i v, ABal.Pending (abal L (ToLower (TransferRow.tick r)) (TransferRow.pkscript r)) !! TransferRow.create_key r = Some v ∧
    G.InscriptionsValidTransferMap g !! TransferRow.create_key r = Some i ∧ transfer_recorded i r ∧
    TransferRow.block_height r = TickInfo.Height i ∧
    MustNewDecimalFromString (TransferRow.amount r) (precision (ToLower (TransferRow.tick r))) =
      Ret (mkDecimal (precision (ToLower (TransferRow.tick r))) v) ∧
    parsed (TransferRow.amount r) (precision (ToLower (TransferRow.tick r))) =
      mkDecimal (precision (ToLower (TransferRow.tick r))) v.
Proof using record order represents sound loaded_infos moved.
  intros [Hr Hm]%elem_of_live_rows. destruct (rd_transfer_only _ _ record _ _ Hr) as [i Hi].
  destruct (rd_transfer _ _ record _ i Hi) as (r' & Hr' & Hh & Hrec). assert (r' = r) as -> by congruence.
  pose proof Hrec as (Et & Ep & Ea & _). rewrite Et, Ep.
  assert (AL.Transfers L !! TransferRow.create_key r = Some (ToLower (TickInfo.Tick i), TickInfo.PkScript i)) as Ht.
  { rewrite (r_transfers _ _ represents), lookup_fmap. cbn. by rewrite Hi. }
  destruct (proj2 (moved _ _ _ Ht) Hm) as [v Hv]. exists i, v. split; [done|]. split; [done|]. split; [done|]. split; [done|].
  destruct (pending_info _ _ _ _ Hv) as (i' & l & b & x & Hi' & _ & _ & _ & _ & _ & Hp & Hd & Ev & Hpos & _).
  assert (i' = i) as -> by congruence. rewrite <-Ev. apply column_parsed; [done|done|lia|done].
Qed.

Lemma load_transfers s :
  ∃ transfers, LoadFromDBValidTransferMap db infos s = (Ret transfers, s) ∧
    ∀ k v, transfers !! k = Some v ↔ ∃ r, r ∈ live_rows ∧ TransferRow.create_key r = k ∧ v = live_transfer r.
Proof using record order represents sound loaded_infos moved.
  apply fold_rows_map.
  - intros m r Hr. destruct (row_pending r Hr) as (i & v & Hv & _ & _ & _ & Em & Ep).
    destruct (pending_info _ _ _ _ Hv) as (_ & _ & _ & x & _ & _ & _ & _ & _ & Hx & _).
    unfold load_transfer, live_transfer. erewrite bind_ret by by eapply token_decimals_known.
    erewrite bind_ret by (unfold lift; by rewrite Em). by rewrite Ep.
  - unfold live_rows. rewrite row_order_perm. pose proof (latest_unique _ _ _ (od_transfers _ _ order)) as Hnd.
    revert Hnd. unfold not_moved. generalize (latest TransferRow.block_height TransferRow.create_key (DB.brc20_valid_transfer db)).
    intros l Hnd. eapply sublist_NoDup; [exact Hnd|]. apply (fmap_sublist TransferRow.create_key). clear Hnd. induction l as [|r l IH]; [done|]. simpl. case_match; [by apply sublist_skip|by apply sublist_cons].
Qed.
End reload.
