(* ===== verification/Loaded.v ===== *)
(** * The ledger that is loaded

    From a database that [recorded] a state, loading ends and its result represents the
    ledger of that state: the balances are the same, the transfers are those not moved,
    and of a ticker only the parent of a self mint is lost, and what it means that its
    maximum or limit was given as zero. *)
From S2P Require Import Prelude GoStd Decimal Script Utils Json Model History Swap Indexer CondApprove Ledger LedgerSpec LedgerFrame LedgerRep LedgerProof Tables Save Load Modules Commit PreVerify CherryPick CommitFlow MainLoop LoopFrames EarlyErrors Tracking Recorded Reload.

Lemma locked_zero b : (∀ k v, ABal.Pending b !! k = Some v → 0 < v) → locked b = 0 → ABal.Pending b = ∅.
Proof.
  intros Hpos Hz. apply map_empty. intros k. apply eq_None_ne_Some. intros v Hv.
  pose proof (Hpos _ _ Hv). assert (v ≤ locked b); [|lia].
  apply (msum_ge_elem (λ _ v, v) _ k); [|done]. intros k' v' Hv'. apply Hpos in Hv'. lia.
Qed.

Section loaded.
Context `{GoUnicode, Postgres}.
Context (db : SwapDB) (n : Z) (g : BRC20ModuleIndexer) (L : ALedger).
Hypothesis record : recorded db g.
Hypothesis order : ordered n db.
Hypothesis represents : R (core g) L.
Hypothesis sound : ledger_inv L.
Hypothesis moved : ∀ k t a, AL.Transfers L !! k = Some (t, a) →
  is_Some (ABal.Pending (abal L t a) !! k) ↔ ¬ moved_keys db k.

(** *** What the parts of the load give *)
Context (infos : gmap string BRC20TokenInfo) (users : gmap string (gmap string loc)) (heap : gmap loc BRC20TokenBalance).
Hypothesis tickers_from : ∀ t y, infos !! t = Some y → ∃ x, G.InscriptionsTickerInfoMap g !! t = Some x ∧
  reloads_token (tok_abs (tcore x)) (tok_abs (tcore y)) ∧ tok_ok t (tcore y).
Hypothesis tickers_all : ∀ t x, G.InscriptionsTickerInfoMap g !! t = Some x → is_Some (infos !! t).
Hypothesis balances : users_loaded infos (loaded_rows db) users heap.

Lemma loaded_infos t x : G.InscriptionsTickerInfoMap g !! t = Some x →
  ∃ y, infos !! t = Some y ∧ TickInfo.Decimals (TokenInfo.Deploy y) = TickInfo.Decimals (TokenInfo.Deploy x).
Proof using tickers_from tickers_all.
  intros Hx. destruct (tickers_all _ _ Hx) as [y Hy]. exists y. split; [done|].
  destruct (tickers_from _ _ Hy) as (x' & Hx' & E & _). assert (x' = x) as -> by congruence.
  by apply rt_decimals in E.
Qed.

(** The object of a holder. *)
Lemma loaded_object t a l :
  users !! a ≫= lookup t = Some l →
  ∃ b y, heap !! l = Some b ∧ infos !! t = Some y ∧ Bal.ValidTransferMap b = ∅ ∧ Bal.PkScript b = a ∧
    ToLower (Bal.Ticker b) = t ∧ Bal.AvailableBalanceSafe b = None ∧
    let p := TickInfo.Decimals (TokenInfo.Deploy y) in
    Bal.AvailableBalance b = Some (mkDecimal p (ABal.Avail (abal L t a))) ∧
    Bal.TransferableBalance b = Some (mkDecimal p (locked (abal L t a))).
Proof using record order represents sound tickers_from tickers_all balances.
  intros (r & Hr & <- & <- & Hb)%(ul_row _ _ _ _ balances).
  destruct (row_object db n g L record order represents sound infos loaded_infos r Hr)
    as (l0 & b0 & x & Hl0 & Hb0 & Hx & _ & _ & _ & Hok & Hab & _).
  destruct (row_amounts db n g L record order represents sound infos loaded_infos r l0 b0 Hr Hl0 Hb0) as [[_ Ea] [_ Et]].
  destruct (tickers_all _ _ Hx) as [y Hy]. exists (loaded_balance infos r), y.
  split; [exact Hb|]. unfold loaded_balance. rewrite Ea, Et. unfold precision in *. rewrite Hy. cbn [from_option].
  split_and!; try done; rewrite Hab; [done|]. cbn. by destruct Hok as (_ & _ & _ & _ & _ & -> & _).
Qed.
Lemma loaded_object_inj t a t' a' l :
  users !! a ≫= lookup t = Some l → users !! a' ≫= lookup t' = Some l → t = t' ∧ a = a'.
Proof using record order represents sound tickers_from tickers_all balances.
  intros (b & _ & Hb & _ & _ & <- & <- & _)%loaded_object (b' & _ & Hb' & _ & _ & <- & <- & _)%loaded_object.
  by simplify_eq.
Qed.
(** Without an object there is nothing to hold. *)
Lemma loaded_none t a : users !! a ≫= lookup t = None → abal L t a = no_balance.
Proof using record order represents sound balances.
  intros Hn. destruct (at_ (core g) t a) as [l|] eqn:Hl; [|by apply (r_none _ _ represents)].
  destruct (at_object _ _ _ _ _ represents Hl) as (b & x & Hb & Hx & Hp & (Epk & Et & _ & _ & _ & Hlock & _) & Hab & _).
  pose proof (rd_balance _ _ record _ _ _ _ Hl Hb) as Hrec.
  destruct (balance_rows db !! (Bal.Ticker b, a)) as [r|] eqn:Er.
  - assert (balance_key r = (Bal.Ticker b, a)) as Ek by (apply newest_in in Er; [by destruct Er|apply order]).
    injection Ek as E1 E2. destruct (ul_has _ _ _ _ balances r) as [l' Hl'].
    { apply (elem_of_loaded_rows _ _ order). unfold balance_key. by rewrite E1, E2. }
    rewrite E1, E2, Et in Hl'. congruence.
  - destruct Hrec as [Ea Etr]. rewrite Hab in *. rewrite Hlock in Etr.
    assert (ABal.Pending (bal_abs b) = ∅) as Ep.
    { apply locked_zero; [|done]. intros k v Hv. apply (inv_pending _ sound t a k). by rewrite Hab. }
    unfold bal_abs in *. unfold no_balance. cbn in Ep. by rewrite Ea, Ep.
Qed.

Context (transfers : gmap string InscriptionBRC20TickInfo).
Hypothesis transfers_from : ∀ k v, transfers !! k = Some v ↔
  ∃ r, r ∈ live_rows db ∧ TransferRow.create_key r = k ∧ v = live_transfer infos r.

(** A transfer that is loaded. *)
Lemma loaded_transfer_pending k i :
  transfers !! k = Some i →
  ∃ v p, ABal.Pending (abal L (ToLower (TickInfo.Tick i)) (TickInfo.PkScript i)) !! k = Some v ∧
    p = precision infos (ToLower (TickInfo.Tick i)) ∧
    TickInfo.Amount i = Some (mkDecimal p v) ∧ 0 ≤ p ≤ 18 ∧ info_small i.
Proof using record order represents sound tickers_from tickers_all moved transfers_from.
  intros (r & Hr & <- & ->)%transfers_from.
  destruct (row_pending db n g L record order represents sound infos loaded_infos moved r Hr)
    as (i0 & v & Hv & Hi0 & Hrec & Eh & _ & Ep).
  destruct (pending_info g L represents sound infos loaded_infos _ _ _ _ Hv)
    as (i1 & _ & _ & _ & Hi1 & _ & _ & _ & _ & _ & Hp & _ & _ & _ & Hs). assert (i1 = i0) as -> by congruence.
  exists v, (precision infos (ToLower (TransferRow.tick r))). split; [done|]. split; [done|].
  assert (TickInfo.Amount (live_transfer infos r) =
    Some (mkDecimal (precision infos (ToLower (TransferRow.tick r))) v)) as Ea.
  { unfold live_transfer, loaded_transfer. cbv zeta. rsimpl. by rewrite Ep. }
  split; [done|]. split; [done|]. destruct Hrec as (_ & E2 & _ & E4 & E5 & E6 & E7).
  destruct Hs as (S1 & _ & S3 & S4 & S5 & S6 & S7 & _). unfold info_small. rewrite Ea.
  unfold live_transfer, loaded_transfer. cbn. rewrite E2, E4, E5, E6, E7, Eh. split_and!; try done.
  exists (precision infos (ToLower (TransferRow.tick r))). done.
Qed.
Lemma pending_loaded k t a v :
  ABal.Pending (abal L t a) !! k = Some v →
  ∃ i, transfers !! k = Some i ∧ ToLower (TickInfo.Tick i) = t ∧ TickInfo.PkScript i = a.
Proof using record order represents sound tickers_from tickers_all moved transfers_from.
  intros Hv.
  destruct (live_row db n g L record order represents sound infos loaded_infos moved _ _ _ _ Hv)
    as (i0 & r & Hi0 & Hr & <- & (E1 & E2 & _) & _).
  destruct (pending_info g L represents sound infos loaded_infos _ _ _ _ Hv) as (i1 & _ & _ & _ & Hi1 & Et & Ea & _).
  assert (i1 = i0) as -> by congruence. exists (live_transfer infos r). split; [apply transfers_from; by exists r|].
  change (ToLower (TransferRow.tick r) = t ∧ TransferRow.pkscript r = a). by rewrite E1, E2.
Qed.

(** *** The state at the end *)
Context (s : BRC20ModuleIndexer) (tokens : gmap string (gmap string loc)) (heap' : gmap loc BRC20TokenBalance).
Hypothesis objects : G.Balances s = heap.
Hypothesis users_of : G.UserTokensBalanceData s = users.
Hypothesis index : indexes infos s tokens (λ t a l, users !! a ≫= lookup t = Some l).
Hypothesis links : linked s heap' (λ k v, transfers !! k = Some v).
Definition loaded_core : Core :=
  C.mk (tcore <$> infos) users tokens (bcore <$> heap') transfers ∅.

Lemma loaded_transfer_held k v : transfers !! k = Some v →
  ∃ l b, holder_of s v = Some l ∧ G.Balances s !! l = Some b ∧ Bal.ValidTransferMap b = ∅.
Proof using record order represents sound tickers_from tickers_all balances moved transfers_from objects users_of.
  intros (x & p & Hx & _)%loaded_transfer_pending. unfold holder_of. rewrite users_of, objects.
  destruct (users !! TickInfo.PkScript v ≫= lookup (ToLower (TickInfo.Tick v))) as [l|] eqn:El.
  - destruct (loaded_object _ _ _ El) as (b & y & Hb & _ & Em & _). by exists l, b.
  - apply loaded_none in El. by rewrite El in Hx.
Qed.
Lemma loaded_pending t a l m :
  users !! a ≫= lookup t = Some l →
  (∀ k v, m !! k = Some v ↔ transfers !! k = Some v ∧ holder_of s v = Some l) →
  ((λ i, dval (TickInfo.Amount i)) <$> m : gmap string Z) = ABal.Pending (abal L t a).
Proof using record order represents sound tickers_from tickers_all balances moved transfers_from users_of.
  intros Hl Hm. unfold holder_of in Hm. rewrite users_of in Hm. apply map_eq. intros k. apply option_eq. intros v.
  rewrite lookup_fmap, fmap_Some. split.
  - intros (i & [Hi Hh]%Hm & ->). destruct (loaded_object_inj _ _ _ _ _ Hl Hh) as [-> ->].
    apply loaded_transfer_pending in Hi as (v & p & Hv & _ & -> & _). done.
  - intros Hv. destruct (pending_loaded _ _ _ _ Hv) as (i & Hi & Et & Ea). exists i.
    split; [apply Hm; by rewrite Et, Ea|]. apply loaded_transfer_pending in Hi as (v' & p & Hv' & _ & -> & _).
    rewrite Et, Ea in Hv'. cbn. congruence.
Qed.

Definition loaded_ledger : ALedger :=
  AL.mk ((λ y, tok_abs (tcore y)) <$> infos) (AL.Bals L) (base.filter (live L) (AL.Transfers L)).
Lemma loaded_reloads : reloads L loaded_ledger.
Proof using represents tickers_from tickers_all.
  split; [|done..]. intros t. rewrite (r_tokens _ _ represents). cbn. rewrite !lookup_fmap. 
  destruct (infos !! t) as [y|] eqn:Ey.
  - destruct (tickers_from _ _ Ey) as (x & -> & E & _). by constructor.
  - destruct (G.InscriptionsTickerInfoMap g !! t) as [x|] eqn:Ex; [|constructor].
    destruct (tickers_all _ _ Ex). congruence.
Qed.
Lemma loaded_represents : R loaded_core loaded_ledger.
Proof using record order represents sound moved tickers_from tickers_all balances transfers_from objects users_of index links.
  assert (∀ t a, abal loaded_ledger t a = abal L t a) as Hab by done.
  assert (∀ t a l, indexed loaded_core t a l ↔ users !! a ≫= lookup t = Some l ∧ busy s l) as Hindex.
  { intros t a l. destruct index as [_ <-]. unfold indexed. cbn. by rewrite bind_Some. }
  split; unfold loaded_core, at_; cbn [C.tickers C.users C.tokens C.heap C.valid C.invalid].
  - cbn. by rewrite <-map_fmap_compose.
  - intros t x. rewrite lookup_fmap. intros (y & Hy & ->)%fmap_Some. by destruct (tickers_from _ _ Hy) as (_ & _ & _ & ?).
  - apply map_eq. intros k. apply option_eq. intros [t a]. cbn. rewrite map_lookup_filter_Some, lookup_fmap, fmap_Some.
    split.
    + intros [Ht [v Hv]]. cbn in Hv. destruct (pending_loaded _ _ _ _ Hv) as (i & Hi & <- & <-). by exists i.
    + intros (i & Hi & [= -> ->]). apply loaded_transfer_pending in Hi as (v & p & Hv & _).
      split; [by eapply inv_transfers|by exists v].
  - by intros k i (v & p & _ & _ & _ & _ & ?)%loaded_transfer_pending.
  - done.
  - intros t a. rewrite Hab. apply loaded_none.
  - intros t a l Hl. destruct (loaded_object _ _ _ Hl) as (b & y & Hb & Hy & Em & Epk & Et & Esafe & Ea & Etr).
    destruct (links l b) as (m & Hm & Hin); [by rewrite objects|done|].
    pose proof (loaded_pending t a l m Hl Hin) as Ep.
    set (q := TickInfo.Decimals (TokenInfo.Deploy y)) in *.
    assert (bcore (b <| Bal.ValidTransferMap := m |>) = Bal.mk 0 (Bal.Ticker b) a
      (Some (mkDecimal q (ABal.Avail (abal L t a)))) None (Some (mkDecimal q (locked (abal L t a)))) m [] [] [] [] []) as Ec.
    { rewrite <-Ea, <-Etr, <-Esafe, <-Epk. done. }
    exists (bcore (b <| Bal.ValidTransferMap := m |>)), (tcore y). rewrite !lookup_fmap, Hm, Hy.
    split; [done|]. split; [done|]. rewrite Ec, Hab.
    match type of Ec with _ = ?c => assert (bal_abs c = abal L t a) as Eb end.
    { unfold bal_abs. cbn. rewrite Ep. by destruct (abal L t a). }
    split; [|done]. unfold bal_ok. rewrite Eb. split_and!; try done.
    intros k i [Hi Hh]%Hin. split; [done|]. unfold holder_of in Hh. rewrite users_of in Hh.
    destruct (loaded_object_inj _ _ _ _ _ Hl Hh) as [-> ->]. split; [done|]. split; [done|].
    apply loaded_transfer_pending in Hi as (v & p & _ & -> & -> & _). cbn. unfold precision. by rewrite Hy.
  - intros t. destruct index as [-> _]. rewrite lookup_fmap, fmap_is_Some. done.
  - intros t a l [Hl _]%Hindex. done.
  - intros t a l Hl Hh. apply Hindex. split; [done|]. rewrite Hab in Hh.
    destruct (loaded_object _ _ _ Hl) as (b & y & Hb & _ & _ & _ & _ & _ & Ea & Etr). exists b. rewrite objects.
    split; [done|]. unfold holds_nothing. rewrite Ea, Etr. cbn. unfold holding in Hh.
    destruct (Z.eqb_spec (Z.sgn (ABal.Avail (abal L t a))) 0), (Z.eqb_spec (Z.sgn (locked (abal L t a))) 0); try done. lia.
Qed.
End loaded.

(** Loading ends, and what it gives represents the ledger that was saved. *)
Lemma load_ledger_represents `{GoUnicode, Postgres} db n g L s :
  recorded db g → ordered n db → R (core g) L → ledger_inv L → spells g →
  (∀ k t a, AL.Transfers L !! k = Some (t, a) → is_Some (ABal.Pending (abal L t a) !! k) ↔ ¬ moved_keys db k) →
  G.InscriptionsInvalidTransferMap s = ∅ →
  ∃ g' L', load_ledger db s = (Ret tt, g') ∧ reloads L L' ∧ R (core g') L'.
Proof.
  intros Hrec Hord HR HL Hsp Hmv Hinv.
  destruct (load_tickers db n g L Hrec Hord HR HL Hsp s) as (infos & E1 & Hfrom & Hall).
  pose proof (loaded_infos g infos Hfrom Hall) as Hinfos.
  unfold load_ledger. erewrite bind_ret by exact (fatal_ret _ _ _ _ _ E1). erewrite bind_ret by done.
  set (s1 := s <| G.InscriptionsTickerInfoMap := infos |>).
  destruct (load_balances db n g L Hrec Hord HR HL Hsp infos Hinfos s1) as (users & heap & E2 & Hu).
  erewrite bind_ret by exact (fatal_ret _ _ _ _ _ E2). erewrite bind_ret by done.
  set (s2 := s1 <| G.Balances := heap |> <| G.UserTokensBalanceData := users |>).
  change (field_update G.UserTokensBalanceData _ _) with s2.
  destruct (load_index infos users s2) as (tokens & E3 & Hidx).
  { intros t a l (b & y & Hb & Hy & _)%(loaded_object db n g L Hrec Hord HR HL infos users heap Hfrom Hall Hu).
    split; [by exists y|by exists b]. }
  erewrite bind_ret by exact E3. erewrite bind_ret by done.
  destruct (load_transfers db n g L Hrec Hord HR HL infos Hinfos Hmv (s2 <| G.TokenUsersBalanceData := tokens |>))
    as (transfers & E4 & Htr).
  erewrite bind_ret by exact (fatal_ret _ _ _ _ _ E4). erewrite bind_ret by done.
  set (s4 := s2 <| G.TokenUsersBalanceData := tokens |> <| G.InscriptionsValidTransferMap := transfers |>).
  destruct (link_transfers transfers s4) as (heap' & E5 & Hl).
  { exact (loaded_transfer_held db n g L Hrec Hord HR HL Hmv infos users heap Hfrom Hall Hu transfers Htr s4 eq_refl eq_refl). }
  eexists _, _. split; [exact E5|]. split; [exact (loaded_reloads g L HR infos Hfrom Hall)|].
  replace (core _) with (loaded_core infos users transfers tokens heap') by (unfold loaded_core, core; rsimpl; by rewrite <-Hinv).
  exact (loaded_represents db n g L Hrec Hord HR HL Hmv infos users heap Hfrom Hall Hu transfers Htr s4 tokens heap' eq_refl eq_refl Hidx Hl).
Qed.
