(* ===== verification/LoopRun.v ===== *)
(** * Runs of the main loop

    Batches of inscriptions and moves handled one after the other, from the state
    [Init] sets up, and what holds of the ledger after every batch. *)
From S2P Require Import Prelude GoStd Decimal Script Utils Json Model History Swap Bip322 CommitJson Indexer CondApprove Ledger LedgerSpec LedgerFrame LedgerRep LedgerProof Samples LedgerRun Modules Commit PreVerify CherryPick CommitFlow MainLoop Driver LoopSpec LoopFrames LoopLedger.

(** ** The clean-up of the index *)
Section clean_up.
Context `{GoUnicode}.
Implicit Types (g : BRC20ModuleIndexer) (L : ALedger).

(** The index by ticker with the holders of nothing taken out. *)
Definition cleaned g : BRC20ModuleIndexer :=
  g <| G.TokenUsersBalanceData ::= fmap (M := gmap string)
    (base.filter (λ p : string * loc,
      negb (from_option holds_nothing true (G.Balances g !! p.2)) = true)) |>.

Lemma Sign_zero o : Sign o = 0 ↔ dval o = 0.
Proof. rewrite Sign_dval. destruct (dval o); simpl; split; intros; lia. Qed.
Lemma holds_nothing_total g L t a l b :
  R (core g) L → ledger_inv L → at_ (core g) t a = Some l → G.Balances g !! l = Some b →
  holds_nothing b = true ↔ object_total b = 0.
Proof.
  intros HR HL Hl Hb. unfold holds_nothing, object_total.
  rewrite andb_true_iff, !Z.eqb_eq, !Sign_zero.
  destruct (at_object _ _ _ _ _ HR Hl) as (b' & y & Hb' & _ & _ & Hok & Hab & _).
  assert (b' = b) as -> by congruence. destruct Hok as (_ & _ & _ & _ & _ & Hlock & _).
  pose proof (inv_avail _ HL t a) as Hav. rewrite Hab in Hav. cbn in Hav.
  assert (0 ≤ dval (Bal.TransferableBalance b)); [|lia].
  rewrite Hlock, <-Hab. apply locked_nonneg. intros k v. apply (inv_pending _ HL).
Qed.

Lemma cleaned_index g t a l :
  indexed (core (cleaned g)) t a l ↔
  indexed (core g) t a l ∧ from_option holds_nothing true (G.Balances g !! l) = false.
Proof.
  unfold indexed, cleaned. rsimpl. rewrite lookup_fmap.
  destruct (G.TokenUsersBalanceData g !! t) as [users|]; simpl.
  - split.
    + intros (? & [= <-] & [Hl Hz]%map_lookup_filter_Some). simpl in Hz.
      split; [by exists users|by apply negb_true_iff].
    + intros ((? & [= <-] & Hl) & Hz). eexists. split; [done|].
      apply map_lookup_filter_Some. split; [done|]. simpl. by rewrite Hz.
  - split; [by intros (? & ? & _)|by intros ((? & ? & _) & _)].
Qed.

Lemma cleaned_R g L : R (core g) L → ledger_inv L → R (core (cleaned g)) L.
Proof.
  intros HR HL. split; try apply HR.
  - intros t. rewrite <-(r_users _ _ HR). unfold cleaned. rsimpl. rewrite lookup_fmap.
    by destruct (G.TokenUsersBalanceData g !! t).
  - intros t a l [Hl _]%cleaned_index. by apply HR.
  - intros t a l Hl Hh. apply cleaned_index. split; [by apply HR|].
    destruct (at_object _ _ _ _ _ HR Hl) as (b & _ & Hb & _). rewrite Hb. simpl.
    destruct (holds_nothing b) eqn:E; [|done]. apply (holds_nothing_total _ _ _ _ _ _ HR HL Hl Hb) in E.
    by rewrite (object_total_ok _ _ _ _ _ _ HR Hl Hb) in E.
Qed.

Lemma clean_up_runs g L : R (core g) L → clean_up g = (Ret tt, cleaned g).
Proof.
  intros HR. unfold clean_up, mbind, GoM_bind, get.
  rewrite bool_decide_eq_true_2; [done|]. intros t users Hu a l Hl.
  assert (at_ (core g) t a = Some l) as Hat by (apply (r_index _ _ HR); by exists users).
  destruct (at_object _ _ _ _ _ HR Hat) as (b & _ & Hb & _). by rewrite Hb.
Qed.
End clean_up.

(** ** Runs *)
Section runs.
Context `{GoUnicode, MapOrder, Config, BtcAddr, Btcd}.
Variable external : list SwapFunctionResultCheckState.
Implicit Types (g : BRC20ModuleIndexer) (L : ALedger) (d : InscriptionBRC20Data).

(** Inputs that satisfy [ok] after those before them. *)
Definition input_ok : Type := list (Z * InscriptionBRC20Data) → (Z * InscriptionBRC20Data) → Prop.
Definition items_ok (ok : input_ok) (past items : list (Z * InscriptionBRC20Data)) : Prop :=
  ∀ done i, done ++ [i] `prefix_of` items → ok (past ++ done) i.

(** The states after batches of inputs, none of which panicked, from the one [Init] or
    loading sets up; between batches the records of a height may be dropped. *)
Inductive loop_run (ok : input_ok) : list (Z * InscriptionBRC20Data) → BRC20ModuleIndexer → Prop :=
  | run_init w : loop_run ok [] (started w)
  | run_batch past g items g' :
      loop_run ok past g → items_ok ok past items →
      ProcessUpdateLatestBRC20Loop external items g = (Ret tt, g') →
      loop_run ok (past ++ items) g'
  | run_purge past g : loop_run ok past g → loop_run ok past (PurgeHistoricalData g).

(** No holder of nothing is in the index by ticker. *)
Definition tidy g : Prop :=
  ∀ t a l, indexed (core g) t a l → from_option holds_nothing true (G.Balances g !! l) = false.
Lemma cleaned_tidy g : tidy (cleaned g).
Proof. by intros t a l [_ Hl]%cleaned_index. Qed.

Lemma ledger_sound_cleaned past g L : ledger_sound past g L → ledger_sound past (cleaned g) L.
Proof.
  intros [HR HL ? ? ? ? ? ? ?]. split; try done. by apply cleaned_R.
Qed.
Lemma ledger_sound_purged past g L : ledger_sound past g L → ledger_sound past (PurgeHistoricalData g) L.
Proof. intros Hs. eapply ledger_sound_cleared; [done..|]. by intros k []. Qed.

Lemma loop_sound past items g L :
  ledger_sound past g L → items_ok item_ok past items →
  holds (ProcessUpdateLatestBRC20Loop external items) g
    (λ _ g', ledger_sound (past ++ items) g' (ledger_after items L) ∧ tidy g') (λ _, False).
Proof.
  intros Hs Hok. unfold ProcessUpdateLatestBRC20Loop. apply holds_bind, holds_modify.
  set (g1 := field_update _ _ g). assert (ledger_sound past g1 L) as Hs1 by by eapply ledger_sound_same.
  clearbody g1. clear g Hs. apply holds_bind.
  eapply holds_post.
  - apply (holds_for_each_prefix _ (λ l g, ledger_sound (past ++ l) g (ledger_after l L)) _ [] items).
    + by rewrite app_nil_r.
    + simpl. intros ditems [now d] g2 Hs2 Hpre.
      eapply holds_post; [apply process_data_sound; [by apply Hok|done]|].
      intros [] g3 [Hs3 _]. rewrite ledger_after_app, app_assoc. exact Hs3.
  - intros [] g2 Hs2. unfold holds. rewrite (clean_up_runs _ (ledger_after items L)); [|apply Hs2].
    split; [by apply ledger_sound_cleaned|apply cleaned_tidy].
Qed.

Lemma loop_run_sound past g : loop_run item_ok past g → ledger_sound past g (ledger_after past empty_ledger).
Proof.
  induction 1 as [w|past g items g' Hr Hs Hok Hg'|past g _ Hs].
  - apply started_sound.
  - pose proof (holds_run _ _ _ _ _ _ (loop_sound past items g _ Hs Hok) Hg') as [Hs' _].
    by rewrite ledger_after_app.
  - by apply ledger_sound_purged.
Qed.

(** ** Theorems *)

(** C9: Whatever inscriptions and moves of any kind (plain tokens, modules, approves,
    conditional approves, withdraws, commits) have gone through the main loop, in
    batches, what the holders of a ticker have together is exactly its recorded total
    minted, which never exceeds its maximum. *)
Theorem loop_supply_conserved past g t y :
  loop_run item_ok past g → G.InscriptionsTickerInfoMap g !! t = Some y →
  held g t = dval (TickInfo.TotalMinted (TokenInfo.Deploy y)) ∧
  0 ≤ dval (TickInfo.TotalMinted (TokenInfo.Deploy y)) ≤ dval (TickInfo.Max (TokenInfo.Deploy y)).
Proof.
  intros Hs%loop_run_sound Hy. pose proof (ls_R _ _ _ Hs) as HR. pose proof (ls_inv _ _ _ Hs) as HL. destruct (R_ticker _ _ _ _ HR Hy) as [HT _].
  rewrite (held_supply _ _ _ HR), (inv_supply _ HL _ _ HT).
  split; [done|]. apply (inv_minted _ HL _ _ HT).
Qed.

(** C14: After every batch the index of a ticker lists exactly the holders of something,
    each with the object the index by holder has: new holders are entered by the
    handlers, and those left with nothing are taken out at the end of the batch. *)
Theorem loop_index_exact past items g g' t a l :
  loop_run item_ok past g → items_ok item_ok past items →
  ProcessUpdateLatestBRC20Loop external items g = (Ret tt, g') →
  (∃ users, G.TokenUsersBalanceData g' !! t = Some users ∧ users !! a = Some l) ↔
  G.UserTokensBalanceData g' !! a ≫= lookup t = Some l ∧
    ∃ b, G.Balances g' !! l = Some b ∧ object_total b ≠ 0.
Proof.
  intros Hs%loop_run_sound Hok Hg'.
  pose proof (holds_run _ _ _ _ _ _ (loop_sound past items g _ Hs Hok) Hg') as [Hs' Ht].
  pose proof (ls_R _ _ _ Hs') as HR. pose proof (ls_inv _ _ _ Hs') as HL. split.
  - intros Hi. pose proof (r_index _ _ HR t a l Hi) as Hl. split; [exact Hl|].
    destruct (at_object _ _ _ _ _ HR Hl) as (b & _ & Hb & _). exists b. split; [done|].
    intros Hz%(holds_nothing_total _ _ _ _ _ _ HR HL Hl Hb). apply Ht in Hi. rewrite Hb in Hi. simpl in Hi. congruence.
  - intros (Hl & b & Hb & Hz). apply (r_complete _ _ HR); [done|].
    by rewrite <-(object_total_ok _ _ _ _ _ _ HR Hl Hb).
Qed.

(** C10: A batch run by the main loop refines the specification of the ledger: from a
    state that represents a ledger the loop never returns an error, and when it does
    not panic the new state represents the ledger [ledger_after] computes from the inputs
    alone: every inscription that asks for it deploys, mints or locks, the first move of
    a transfer inscription pays, and nothing else changes a balance. *)
Theorem ProcessUpdateLatestBRC20Loop_refines past items g L r g' :
  ledger_sound past g L → items_ok item_ok past items →
  ProcessUpdateLatestBRC20Loop external items g = (r, g') → (∀ w, r ≠ Panic w) →
  r = Ret tt ∧ ledger_sound (past ++ items) g' (ledger_after items L).
Proof.
  intros Hs Hok Hg' Hr. pose proof (loop_sound past items g L Hs Hok) as Hh.
  unfold holds in Hh. rewrite Hg' in Hh. destruct r as [[]|e|w]; [|done|by destruct (Hr w)].
  split; [done|]. apply Hh.
Qed.
End runs.
