(* ===== verification/Consensus.v ===== *)
(** * Nodes agree on the token ledger

    Two indexers fed with the same inscriptions and moves have the same tickers, the same
    balances and the same live transfers, whatever the order Go iterates their maps in,
    however the inputs are cut into batches, at whatever times they are handled, with
    whatever results their swap module gives and with whatever signatures it accepts. *)
From S2P Require Import Prelude GoStd Decimal Script Utils Json Model History Swap Bip322 CommitJson Indexer CondApprove Ledger LedgerSpec LedgerFrame LedgerRep LedgerProof Samples LedgerRun Modules Commit PreVerify CherryPick CommitFlow MainLoop Driver LoopSpec LoopFrames LoopLedger LoopRun.

(** What may differ from node to node. *)
Module Node.
Record Node := mk {
    Order : MapOrder;
    Addresses : BtcAddr;
    Engine : Btcd;
    Results : list SwapFunctionResultCheckState;
  }.
End Node.
Abbreviation Node := Node.Node.

Section nodes.
Context `{GoUnicode, Config}.
Implicit Types (g : BRC20ModuleIndexer) (n : Node).

(** The states a node reaches. *)
Definition node_run n (past : list (Z * InscriptionBRC20Data)) g : Prop :=
  let _ := Node.Order n in let _ := Node.Addresses n in let _ := Node.Engine n in
  loop_run (Node.Results n) item_ok past g.

(** What a holder has of a ticker: the available and the transferable amount, and the
    amounts of the live transfer inscriptions by their keys. *)
Definition balance_of g (t a : string) : Z * Z * gmap string Z :=
  match (G.UserTokensBalanceData g !! a ≫= lookup t) ≫= (λ l, G.Balances g !! l) with
  | Some b => (dval (Bal.AvailableBalance b), dval (Bal.TransferableBalance b),
      (λ i, dval (TickInfo.Amount i)) <$> Bal.ValidTransferMap b)
  | None => (0, 0, ∅)
  end.
(** What a ticker was deployed as, and what is minted of it. *)
Definition tickers_of g : gmap string AToken := (λ y, tok_abs (tcore y)) <$> G.InscriptionsTickerInfoMap g.

Lemma balance_of_R g L t a :
  R (core g) L →
  balance_of g t a = (ABal.Avail (abal L t a), locked (abal L t a), ABal.Pending (abal L t a)).
Proof.
  intros HR. unfold balance_of.
  change (G.UserTokensBalanceData g !! a ≫= lookup t) with (at_ (core g) t a).
  destruct (at_ (core g) t a) as [l|] eqn:El; simpl.
  - destruct (at_object _ _ _ _ _ HR El) as (b & y & -> & _ & _ & Hb & -> & _).
    destruct Hb as (_ & _ & _ & _ & _ & -> & _). done.
  - by rewrite (r_none _ _ HR _ _ El).
Qed.
Lemma tickers_of_R g L : R (core g) L → tickers_of g = AL.Tokens L.
Proof. intros HR. rewrite (r_tokens _ _ HR). unfold tickers_of. change (C.tickers (core g)) with (tcore <$> G.InscriptionsTickerInfoMap g). by rewrite <-map_fmap_compose. Qed.

Lemma node_run_sound n past g : node_run n past g → R (core g) (ledger_after past empty_ledger).
Proof. intros Hr. exact (ls_R _ _ _ (loop_run_sound _ _ _ Hr)). Qed.
(** The times of the inputs do not matter. *)
Lemma ledger_after_data (items items' : list (Z * InscriptionBRC20Data)) L : items.*2 = items'.*2 → ledger_after items L = ledger_after items' L.
Proof.
  revert items' L. induction items as [|i items IH]; intros [|i' items'] L E; simplify_eq/=; [done|].
  unfold ledger_after in *. simpl. rewrite H1. by apply IH.
Qed.

(** C11: Any two nodes that have handled the same inscriptions and moves agree on the token
    ledger: they know the same tickers with the same amounts minted, and every holder has
    the same available and transferable balance of each and the same live transfers.  They
    may iterate their maps in different orders, cut the inputs into other batches, purge
    at other times, handle the inputs at other times, and differ in the addresses they
    decode, the signatures they accept and the results of the swap they check. *)
Theorem nodes_agree n n' past past' g g' :
  node_run n past g → node_run n' past' g' → past.*2 = past'.*2 →
  tickers_of g = tickers_of g' ∧ ∀ t a, balance_of g t a = balance_of g' t a.
Proof.
  intros HR%node_run_sound HR'%node_run_sound E. rewrite (ledger_after_data _ _ _ E) in HR.
  split; [by rewrite (tickers_of_R _ _ HR), (tickers_of_R _ _ HR')|].
  intros t a. by rewrite (balance_of_R _ _ t a HR), (balance_of_R _ _ t a HR').
Qed.
End nodes.
