(* ===== verification/DriverRun.v ===== *)
(** * From the chain to the runs of the main loop

    The state the service answers from is one the main loop reaches with the whole
    input, so that all that holds of every run holds of it. *)
From S2P Require Import Prelude GoStd Decimal Script Utils Json Model History Swap Bip322 CommitJson Indexer CondApprove Ledger LedgerSpec LedgerFrame LedgerRep LedgerProof Samples LedgerRun Modules Commit PreVerify CherryPick CommitFlow MainLoop Tables Save Load Driver LoopFrames LoopLedger LoopRun.

(** ** A clean index *)
Definition kept (g : BRC20ModuleIndexer) (p : string * loc) : Prop :=
  negb (from_option holds_nothing true (G.Balances g !! p.2)) = true.
#[global] Instance kept_dec g p : Decision (kept g p).
Proof. unfold kept. apply _. Defined.
Definition index_of_kept g : gmap string (gmap string loc) :=
  fmap (M := gmap string) (base.filter (kept g)) (G.TokenUsersBalanceData g).
(** Every entry has its object, and none has nothing. *)
Record clean g : Prop := {
  cl_object : map_Forall (λ _, map_Forall (λ _ l, is_Some (G.Balances g !! l))) (G.TokenUsersBalanceData g);
  cl_index : index_of_kept g = G.TokenUsersBalanceData g;
}.

Lemma clean_up_eq g :
  clean_up g = if bool_decide (map_Forall (λ _, map_Forall (λ _ l, is_Some (G.Balances g !! l))) (G.TokenUsersBalanceData g))
    then (Ret tt, g <| G.TokenUsersBalanceData := index_of_kept g |>) else (Panic nil_deref, g).
Proof. unfold clean_up, mbind, GoM_bind, get. by case_bool_decide. Qed.
Lemma clean_up_clean g : clean g → clean_up g = (Ret tt, g).
Proof.
  intros [Ho Ei]. rewrite clean_up_eq, bool_decide_eq_true_2 by done. f_equal. rewrite Ei. by destruct g.
Qed.
Lemma cleaned_clean g g' : clean_up g = (Ret tt, g') → clean g'.
Proof.
  rewrite clean_up_eq. case_bool_decide as Ho; [|done]. intros [= <-]. split.
  - intros t users Hu a l Hl. revert Hu. rsimpl. unfold index_of_kept. rewrite lookup_fmap.
    destruct (G.TokenUsersBalanceData g !! t) as [users0|] eqn:E; [|done]. intros [= <-].
    apply map_lookup_filter_Some in Hl as [Hl _]. by eapply Ho.
  - unfold index_of_kept at 1. rsimpl. unfold index_of_kept. rewrite <-map_fmap_compose. apply map_fmap_ext.
    intros t users _. apply map_filter_filter_l. by intros.
Qed.
Lemma PurgeHistoricalData_clean g : clean g → clean (PurgeHistoricalData g).
Proof. by intros [? ?]; split. Qed.
Lemma Init_clean : clean Init.
Proof. split; [done|]. apply fmap_empty. Qed.

(** ** An empty database *)
Lemma row_order_nil `{Postgres} {A} : row_order (@nil A) = [].
Proof. apply Permutation_nil. symmetry. apply row_order_perm. Qed.

(** Loading makes the map of withdraw requests, and nothing else. *)
Lemma LoadDataFromDB_empty `{GoUnicode, Postgres} :
  LoadDataFromDB empty_db Init = (Ret tt, started (Some ∅)).
Proof.
  assert (∀ {S M R} (f : M → R → GoM S M) m, fold_rows f m (row_order []) = mret m) as Hf.
  { intros. by rewrite row_order_nil. }
  assert (LoadFromDbTickerInfoMap empty_db = mret ∅) as E1 by apply Hf.
  assert (∀ infos, LoadFromDbUserTokensBalanceData empty_db infos = mret ∅) as E2 by (intros; apply Hf).
  assert (∀ infos, LoadFromDBValidTransferMap empty_db infos = mret ∅) as E3 by (intros; apply Hf).
  assert (LoadFromDBModuleInfoMap empty_db = ∅) as E4 by (unfold LoadFromDBModuleInfoMap; simpl; by rewrite row_order_nil).
  assert (LoadFromDBSwapApproveMap empty_db = mret ∅) as E5 by apply Hf.
  assert (LoadFromDBSwapCondApproveMap empty_db = mret ∅) as E6 by apply Hf.
  assert (LoadFromDBSwapWithdrawMap empty_db = mret ∅) as E7 by apply Hf.
  assert (LoadFromDBSwapCommitMap empty_db = ∅) as E8
    by (unfold LoadFromDBSwapCommitMap; simpl; unfold latest, not_moved; simpl; by rewrite row_order_nil).
  unfold LoadDataFromDB, load_ledger, load_modules.
  rewrite E1, E4, E5, E6, E7, E8. unfold mbind, GoM_bind. cbn [fatal mret GoM_ret modify].
  rewrite E2. cbn [fatal mret GoM_ret]. rewrite E3. unfold UserTokensBalanceMap2TokenUsersBalanceMap.
  rewrite map_to_list_empty, fmap_empty. reflexivity.
Qed.

(** ** Batches *)
Section driver.
Context `{GoUnicode, MapOrder, Config, BtcAddr, Btcd, Postgres}.
Context (external : list SwapFunctionResultCheckState).
Implicit Types (g : BRC20ModuleIndexer).

Lemma on_index_inv {A} (m : Idx A) s a s' :
  on_index m s = (Ret a, s') →
  m (Svc.Index s) = (Ret a, Svc.Index s') ∧ Svc.Tables s' = Svc.Tables s.
Proof. unfold on_index, zoom. destruct (m (Svc.Index s)) as [o g]. by intros [= -> <-]. Qed.

Lemma end_height_inv s lastHeight s' :
  end_height lastHeight s = (Ret tt, s') →
  (G.Durty (Svc.Index s) = false ∧ s' = s) ∨
  (G.Durty (Svc.Index s) = true ∧ SaveDataToDB lastHeight (Svc.Index s) (Svc.Tables s) = Ret (Svc.Tables s') ∧
   Svc.Index s' = PurgeHistoricalData (Svc.Index s)).
Proof.
  intros (s1 & s2 & [= <- <-] & E)%bind_ret_inv. revert E. destruct (G.Durty (Svc.Index s)); simpl; [|by intros [= <-]; left].
  intros (lines & s2 & E2 & (db & s3 & E3 & [= <-])%bind_ret_inv)%bind_ret_inv. right.
  unfold lift in *. injection E2 as _ <-. injection E3 as E3 <-. done.
Qed.

Lemma end_height_run ok past s lastHeight s' :
  loop_run external ok past (Svc.Index s) → clean (Svc.Index s) → end_height lastHeight s = (Ret tt, s') →
  loop_run external ok past (Svc.Index s') ∧ clean (Svc.Index s').
Proof.
  intros Hr Hc [[_ ->]|(_ & _ & ->)]%end_height_inv; [done|].
  split; [by constructor|by apply PurgeHistoricalData_clean].
Qed.

Lemma loop_clean items g g' : ProcessUpdateLatestBRC20Loop external items g = (Ret tt, g') → clean g'.
Proof.
  unfold ProcessUpdateLatestBRC20Loop.
  intros (u & g1 & _ & (u' & g2 & _ & E)%bind_ret_inv)%bind_ret_inv. by eapply cleaned_clean.
Qed.

Lemma by_height_run ok past s lastHeight batch input now s' :
  loop_run external ok past (Svc.Index s) → clean (Svc.Index s) → items_ok ok past (batch ++ input) →
  (batch ≠ [] → lastHeight ≠ 0) → Forall (λ i, Data.Height i.2 ≠ 0) input →
  by_height external lastHeight batch (input ++ [(now, finish)]) s = (Ret tt, s') →
  loop_run external ok (past ++ batch ++ input) (Svc.Index s') ∧ clean (Svc.Index s').
Proof.
  revert past s lastHeight batch. induction input as [|i input IH]; intros past s lastHeight batch Hr Hc Hok Hb Hin; simpl.
  - destruct (bool_decide_reflect (batch ≠ [])) as [Hne|He]; simpl.
    + rewrite (proj2 (Z.eqb_neq lastHeight 0)) by auto. simpl.
      intros (u & s1 & [E1 _]%on_index_inv & (u' & s2 & E2 & [= <-])%bind_ret_inv)%bind_ret_inv. destruct u, u'.
      rewrite app_nil_r in *. eapply end_height_run; [|by eapply loop_clean|exact E2]. by eapply run_batch.
    + apply dec_stable in He as ->. rewrite app_nil_r. by intros [= <-].
  - inversion_clear Hin as [|? ? Hi Hin']. destruct (_ && _) eqn:Eb.
    + intros (u & s1 & [E1 _]%on_index_inv & (u' & s2 & E2 & E3)%bind_ret_inv)%bind_ret_inv. destruct u, u'.
      destruct (end_height_run ok (past ++ batch) s1 lastHeight s2) as [Hr2 Hc2]; [|by eapply loop_clean|done|].
      { eapply run_batch; [done| |exact E1]. intros dn j Hj. apply Hok. by eapply prefix_app_r. }
      apply (IH (past ++ batch) s2 (Data.Height i.2) [i]) in E3; try done.
      * by rewrite <-app_assoc in E3.
      * intros dn j Hj. rewrite <-app_assoc. apply Hok. rewrite <-app_assoc. by apply prefix_app.
    + intros E. apply (IH past s (Data.Height i.2) (batch ++ [i])) in E; try done.
      * by rewrite <-app_assoc in E.
      * by rewrite <-app_assoc.
Qed.

(** Without rows the input is read from the height asked for. *)
Lemma resume_empty startHeight : 0 ≤ startHeight → resume_height startHeight empty_db = startHeight.
Proof.
  intros Hs. unfold resume_height. destruct (Z.ltb_spec startHeight (GetBrc20LatestHeightFromDB empty_db)) as [Hl|]; [|done].
  cbn in Hl. lia.
Qed.

(** C12: What the service answers from is a state of the main loop: started on an empty
    database, when the whole input has been handled height by height, with the state
    saved and the records of a height dropped in between, the published state is one
    the main loop reaches with exactly that input. *)
Theorem ProcessUpdateLatestBRC20SwapInit_refines ok startHeight now load s s' :
  Svc.Tables s = empty_db → 0 ≤ startHeight →
  items_ok ok [] (load startHeight) → Forall (λ i, Data.Height i.2 ≠ 0) (load startHeight) →
  ProcessUpdateLatestBRC20SwapInit external startHeight now load s = (Ret tt, s') →
  loop_run external ok (load startHeight) (Svc.Index s').
Proof.
  intros Et Hs Hok Hin (s0 & s1 & [= <- <-] & (u & s2 & [= <- <-] & (u1 & s3 & [E1 _]%on_index_inv & (u2 & s4 & E2 & [E3 _]%on_index_inv)%bind_ret_inv)%bind_ret_inv)%bind_ret_inv)%bind_ret_inv.
  rewrite Et in *.
  rewrite (resume_empty _ Hs) in E2. destruct u1, u2. simpl in E1. rewrite LoadDataFromDB_empty in E1. injection E1 as E1.
  destruct (by_height_run ok [] s3 (u32 startHeight) [] (load startHeight) now s4) as [Hr Hc]; try done.
  { rewrite <-E1. apply run_init. }
  { rewrite <-E1. by split. }
  rewrite (clean_up_clean _ Hc) in E3. injection E3 as E3. by rewrite <-E3.
Qed.
End driver.
