(* ===== verification/Restart.v ===== *)
(** * The token ledger survives a restart

    After every height that changed something, the tables hold the ledger of the state;
    so the ledger a new start loads is the one the service stopped with. *)
From Stdlib Require Import Sorted.
From S2P Require Import Prelude GoStd Decimal Script Utils Json Model History Swap Bip322 CommitJson Indexer CondApprove Ledger LedgerSpec LedgerFrame LedgerRep LedgerProof Samples LedgerRun Modules Commit PreVerify CherryPick CommitFlow MainLoop Tables Save Load Driver LoopSpec LoopFrames EarlyErrors Tracking LoopLedger Marking Heights LoopRun DriverRun Recorded Reload Loaded.

Section restart.
Context `{GoUnicode, MapOrder, Config, BtcAddr, Btcd, Postgres}.
Context (external : list SwapFunctionResultCheckState).
Implicit Types (g : BRC20ModuleIndexer) (L : ALedger).
Abbreviation item := (Z * InscriptionBRC20Data)%type.

(** ** Between two heights

    Rows have heights below [next]. *)
Record at_rest (past : list item) (db : SwapDB) (next : Z) g L : Prop := {
  ar_sound : ledger_sound past g L;
  ar_marks : marks g;
  ar_live k t a : AL.Transfers L !! k = Some (t, a) → is_Some (locked_at L k t a) ↔ ¬ moved_keys db k;
  ar_known k : moved_keys db k ∨ is_Some (G.InscriptionsInvalidTransferMap g !! k) → inscribed_key past k;
  ar_none : G.InscriptionsTransferRemoveMap g = ∅;
  ar_recorded : recorded db g;
  ar_ordered : ordered next db;
}.

Lemma started_rest w next : at_rest [] empty_db next (started w) empty_ledger.
Proof.
  split; [apply started_sound|by split|done| |done|apply empty_recorded|apply empty_ordered].
  intros k [(st & Hst & _)|[i Hi]]; [by apply not_elem_of_nil in Hst|]. 
  change ((∅ : gmap string InscriptionBRC20TickInfo) !! k = Some i) in Hi. by rewrite lookup_empty in Hi.
Qed.

(** The rest of the state does not matter. *)
Lemma at_rest_view past db next g g' L :
  at_rest past db next g L → ledger_view g' = ledger_view g →
  G.InscriptionsTransferRemoveMap g' = G.InscriptionsTransferRemoveMap g → ledger_sound past g' L →
  at_rest past db next g' L.
Proof.
  intros [Hs Hg Hl Hk Hn Hr Ho] Hv Hm Hs'. split; try done.
  - by apply (tr_marks _ _ _ _ _ (tracks_view None (λ _, False) 0 _ _ Hv Hg)).
  - injection Hv as _ _ _ _ -> _. apply Hk.
  - congruence.
  - by eapply recorded_view.
Qed.

(** ** A batch *)
Definition height_item (h : Z) (i : item) : Prop :=
  Data.Height i.2 = h ∧ (plain_deploy i.2 = true ∨ Data.IsTransfer i.2 = true).

Lemma batch_at_height past db next h items g L :
  at_rest past db next g L → items_ok item_ok past items → Forall (height_item h) items →
  holds (ProcessUpdateLatestBRC20Loop external items) g
    (λ _ g', ∃ g0, ledger_view g0 = ledger_view g ∧ G.InscriptionsTransferRemoveMap g0 = ∅ ∧
       R (core g0) L ∧ at_height (moved_keys db) h (past ++ items) g0 g' (ledger_after items L)) (λ _, False).
Proof.
  intros Hrest Hok Hall. unfold ProcessUpdateLatestBRC20Loop. apply holds_bind, holds_modify.
  set (g0 := field_update _ _ g).
  assert (at_rest past db next g0 L) as [Hs Hg Hl Hk Hn Hr Ho].
  { eapply at_rest_view; [exact Hrest|done..|]. by eapply ledger_sound_same; [apply Hrest|..]. }
  apply holds_bind. eapply holds_post.
  - apply (holds_for_each_prefix _ (λ l g', at_height (moved_keys db) h (past ++ l) g0 g' (ledger_after l L)) _ [] items).
    + rewrite app_nil_r. split; [done|by apply tracks_refl| | |by rewrite Hn|done].
      * intros k t a Hka. rewrite (Hl _ _ _ Hka), Hn, lookup_empty. naive_solver.
      * intros k Hka. apply Hk. destruct Hka as [?|[[? Hka]|?]]; [by left| |by right].
        by rewrite Hn, lookup_empty in Hka.
    + simpl. intros ditems [now d] g2 Hh Hpre.
      assert ((now, d) ∈ items) as Hin by (destruct Hpre as [rest ->]; set_solver).
      rewrite Forall_forall in Hall. destruct (Hall _ Hin) as [Hd Hp].
      rewrite app_assoc, ledger_after_app. eapply process_data_at_height; [exact Hh|by apply Hok|done|done].
  - intros [] g2 [Hs2 Ht2 Hl2 Hk2 Hh2 Hi2]. unfold holds. rewrite (clean_up_runs _ (ledger_after items L)); [|apply Hs2].
    exists g0. split; [done|]. split; [done|]. split; [apply Hs|]. split; try done.
    + by apply ledger_sound_cleaned.
    + eapply tracks_trans; [exact Ht2|]. apply tracks_view; [done|apply Ht2].
Qed.

(** ** The end of a height *)
Lemma end_height_rest past db next h g g0 L0 L s s' :
  at_height (moved_keys db) h past g0 g L → recorded db g0 → G.InscriptionsTransferRemoveMap g0 = ∅ →
  R (core g0) L0 → ordered next db → next ≤ h →
  Svc.Index s = g → Svc.Tables s = db → end_height h s = (Ret tt, s') →
  at_rest past (Svc.Tables s') (h + 1) (Svc.Index s') L.
Proof.
  intros [Hs Ht Hl Hk Hh Hi] Hr Hn HR0 Ho Hle <- <-.
  assert (ordered h (Svc.Tables s)) as Ho'.
  { destruct Ho as [H1' H2' H3' B1 B2 B3]. split; [done..| | |]; (eapply Forall_impl; [eassumption|]; simpl; intros; lia). }
  assert (ordered (h + 1) (Svc.Tables s)) as Ho1.
  { destruct Ho' as [H1' H2' H3' B1 B2 B3]. split; [done..| | |]; (eapply Forall_impl; [eassumption|]; simpl; intros; lia). }
  intros [[Hd ->]|(Hd & Hsave & ->)]%end_height_inv.
  - destruct (Hi Hd) as [Hv Hm]. rewrite Hn in Hm. split; [done|apply Ht| | |done|by eapply recorded_view|done].
    + intros k t a Hka. rewrite (Hl _ _ _ Hka), Hm, lookup_empty. naive_solver.
    + intros k [?|?]; apply Hk; auto.
  - pose proof Hsave as (_ & _ & moved & _ & _ & _ & E3 & _ & _ & _ & D3 & _)%SaveDataToDB_ret.
    pose proof (saved_moved _ _ _ _ _ E3 D3 Hh) as Hmk.
    destruct (save_recorded h (λ k, G.InscriptionsValidTransferMap g0 !! k = None) g0 (Svc.Index s) L0 L
      (Svc.Tables s) (Svc.Tables s')) as [Hr' Ho2]; try done; [apply Hs|congruence|].
    assert (ledger_sound past (PurgeHistoricalData (Svc.Index s)) L) as Hs' by by apply ledger_sound_purged.
    split; [done| | | |done|by eapply recorded_view|done].
    + by apply (tr_marks _ _ _ _ _ Ht).
    + intros k t a Hka. rewrite (Hl _ _ _ Hka), Hmk, eq_None_not_Some. naive_solver.
    + intros k. rewrite Hmk. intros [[?|?]|?]; apply Hk; auto.
Qed.

(** ** Height by height *)
Definition plain_item (i : item) : Prop := plain_deploy i.2 = true ∨ Data.IsTransfer i.2 = true.
Definition in_order : list item → Prop := StronglySorted (λ i j, Data.Height i.2 ≤ Data.Height j.2).

Lemma batch_rest past next lastHeight batch g L s s1 s2 :
  at_rest past (Svc.Tables s) next g L → Svc.Index s = g → next ≤ lastHeight →
  items_ok item_ok past batch → Forall (λ i, Data.Height i.2 = lastHeight) batch → Forall plain_item batch →
  on_index (ProcessUpdateLatestBRC20Loop external batch) s = (Ret tt, s1) →
  end_height lastHeight s1 = (Ret tt, s2) →
  at_rest (past ++ batch) (Svc.Tables s2) (lastHeight + 1) (Svc.Index s2) (ledger_after batch L).
Proof.
  intros Hr <- Hle Hok Hh Hp [E1 Et]%on_index_inv E2.
  assert (Forall (height_item lastHeight) batch) as Hall by (apply Forall_forall; rewrite !Forall_forall in *; intros i Hi; split; [by apply Hh|by apply Hp]).
  pose proof (holds_run _ _ _ _ _ _ (batch_at_height _ _ _ _ _ _ _ Hr Hok Hall) E1) as (g0 & Hv & Hn & HR0 & Hat).
  eapply (end_height_rest _ (Svc.Tables s) next); [exact Hat| |exact Hn|exact HR0|apply Hr|exact Hle|done|done|exact E2].
  eapply recorded_view; [apply Hr|done].
Qed.

Lemma by_height_rest past next lastHeight batch input now s s' L :
  at_rest past (Svc.Tables s) next (Svc.Index s) L →
  items_ok item_ok past (batch ++ input) → Forall plain_item (batch ++ input) → in_order (batch ++ input) →
  Forall (λ i, Data.Height i.2 ≠ 0 ∧ next ≤ Data.Height i.2) (batch ++ input) →
  Forall (λ i, Data.Height i.2 = lastHeight) batch →
  by_height external lastHeight batch (input ++ [(now, finish)]) s = (Ret tt, s') →
  ∃ next', at_rest (past ++ batch ++ input) (Svc.Tables s') next' (Svc.Index s') (ledger_after (batch ++ input) L).
Proof.
  revert past next s lastHeight batch L.
  induction input as [|i input IH]; intros past next s lastHeight batch L Hr Hok Hp Ho Hn Hb; simpl.
  - rewrite app_nil_r in *. destruct (bool_decide_reflect (batch ≠ [])) as [Hne|He]; simpl.
    + assert (lastHeight ≠ 0 ∧ next ≤ lastHeight) as [Hl0 Hle].
      { destruct batch as [|j batch]; [done|]. inversion Hb; simplify_eq. by inversion Hn. }
      rewrite (proj2 (Z.eqb_neq lastHeight 0)) by auto. simpl.
      intros (u & s1 & E1 & (u' & s2 & E2 & [= <-])%bind_ret_inv)%bind_ret_inv. destruct u, u'.
      exists (lastHeight + 1). by eapply batch_rest.
    + apply dec_stable in He as ->. rewrite app_nil_r. intros [= <-]. by eexists.
  - destruct (_ && _) eqn:Eb.
    + apply andb_true_iff in Eb as [Hne%bool_decide_eq_true Hi%negb_true_iff%Z.eqb_neq].
      intros (u & s1 & E1 & (u' & s2 & E2 & E3)%bind_ret_inv)%bind_ret_inv. destruct u, u'.
      apply Forall_app in Hp as [Hp1 Hp2], Hn as [Hn1 Hn2].
      assert (next ≤ lastHeight ∧ lastHeight ≤ Data.Height i.2) as [Hle Hli].
      { destruct batch as [|j batch]; [done|]. inversion Hb as [|? ? <-]; simplify_eq.
        apply Forall_inv in Hn1 as [_ ?]. split; [done|]. apply StronglySorted_inv in Ho as [_ Ho].
        rewrite Forall_app in Ho. destruct Ho as [_ Ho]. by apply Forall_inv in Ho. }
      assert (items_ok item_ok past batch) as Hokb by (intros dn j Hj; apply Hok; by eapply prefix_app_r).
      pose proof (batch_rest past next lastHeight batch _ L s s1 s2 Hr eq_refl Hle Hokb Hb Hp1 E1 E2) as Hr2.
      assert (in_order (i :: input)) as Ho2.
      { clear -Ho. induction batch as [|j batch IHb]; [done|]. apply StronglySorted_inv in Ho as [Ho _]. by apply IHb. }
      apply (IH (past ++ batch) (lastHeight + 1) s2 (Data.Height i.2) [i] (ledger_after batch L)) in E3; try done.
      * by rewrite <-app_assoc, <-ledger_after_app in E3.
      * intros dn j Hj. rewrite <-app_assoc. apply Hok. rewrite <-app_assoc. by apply prefix_app.
      * apply StronglySorted_inv in Ho2 as [_ Ho2]. inversion_clear Hn2 as [|? ? [Hz _] Hn3].
        constructor; [split; [done|lia]|]. apply Forall_forall. intros j Hj.
        rewrite Forall_forall in Ho2. rewrite Forall_forall in Hn3. apply Hn3 in Hj as Hj'. apply Ho2 in Hj. split; [apply Hj'|lia].
      * by constructor.
    + intros E. rewrite cons_middle, app_assoc in Hok, Hp, Ho, Hn.
      apply (IH past next s (Data.Height i.2) (batch ++ [i]) L) in E; try done.
      * by rewrite <-app_assoc in E.
      * apply Forall_app. split; [|by constructor]. apply andb_false_iff in Eb as [Eb|Eb].
        -- apply bool_decide_eq_false, dec_stable in Eb as ->. constructor.
        -- apply negb_false_iff, Z.eqb_eq in Eb as <-. done.
Qed.

Lemma items_heights items : items_ok item_ok [] items → Forall (λ i, 0 ≤ Data.Height i.2) items.
Proof.
  intros Hok. apply Forall_forall. intros i (l1 & l2 & ->)%list_elem_of_split.
  destruct (Hok l1 i) as [(_ & _ & _ & _ & _ & _ & [? _] & _) _]; [|done]. exists l2. by rewrite <-app_assoc.
Qed.

(** C13: The token ledger survives a restart.  Take a service started on empty tables
    whose input is a chain with heights that do not go back and are not zero, with
    numbers in range and a key of its own for every inscription, in which the supplies
    and limits of deploys are written without a sign.  When it has handled that input,
    its state represents the ledger the inputs specify, loading the ledger from the
    tables it leaves ends, and the state loaded has the same balances and live transfer
    inscriptions.  Its tickers are the same too, except that a self mint comes back with
    another parent, and with a maximum or limit of zero where a zero stood for the
    largest amount. *)
Theorem restart_keeps_ledger startHeight now load s s' :
  Svc.Tables s = empty_db → 0 ≤ startHeight →
  items_ok item_ok [] (load startHeight) → Forall plain_item (load startHeight) →
  in_order (load startHeight) → Forall (λ i, Data.Height i.2 ≠ 0) (load startHeight) →
  ProcessUpdateLatestBRC20SwapInit external startHeight now load s = (Ret tt, s') →
  let L := ledger_after (load startHeight) empty_ledger in
  R (core (Svc.Index s')) L ∧
  ∃ g' L', load_ledger (Svc.Tables s') Init = (Ret tt, g') ∧ reloads L L' ∧ R (core g') L'.
Proof.
  intros Et Hs Hok Hp Ho Hin (s0 & s1 & [= <- <-] & (u & s2 & [= <- <-] & (u1 & s3 & [E1 Et1]%on_index_inv & (u2 & s4 & E2 & [E3 Et3]%on_index_inv)%bind_ret_inv)%bind_ret_inv)%bind_ret_inv)%bind_ret_inv.
  rewrite Et in *. rewrite (resume_empty _ Hs) in E2. destruct u1, u2. simpl in E1, Et1.
  rewrite LoadDataFromDB_empty in E1. injection E1 as E1.
  destruct (by_height_rest [] 0 (u32 startHeight) [] (load startHeight) now s3 s4 empty_ledger) as (next & Hr); try done.
  { rewrite Et1, Et, <-E1. apply started_rest. }
  { pose proof (items_heights _ Hok) as Hh. rewrite Forall_forall in *. intros i Hi. split; [by apply Hin|by apply Hh]. }
  simpl in Hr. set (L := ledger_after _ _) in Hr |- *. intros L0. change L0 with L. clear L0.
  pose proof Hr as [[HR HL _ _ _ _ _ _ _] [Hsp _] Hlive _ _ Hrec Hord].
  rewrite (clean_up_runs _ L HR) in E3. injection E3 as E3. rewrite Et3, <-E3. split; [by apply cleaned_R|].
  by apply (load_ledger_represents (Svc.Tables s4) next (Svc.Index s4)).
Qed.
End restart.
