(* ===== verification/Holders.v ===== *)
(** * The list of holders

    The holders of a ticker are listed completely, each once, in an order that does not
    depend on how Go visits its maps, page by page; together they hold what was minted. *)
From S2P Require Import Prelude GoStd Decimal Script Utils Json Model History Swap Bip322 Indexer CondApprove Ledger LedgerSpec LedgerFrame LedgerRep LedgerProof Samples LedgerRun Modules Commit PreVerify CherryPick CommitFlow MainLoop PairNames LoopFrames LoopLedger LoopRun Query.
From stdpp Require Import sorting.
#[local] Open Scope Z_scope.

(** ** Sorting *)
Lemma StronglySorted_weaken {A} (R S : relation A) l :
  (∀ a b, R a b → S a b) → StronglySorted R l → StronglySorted S l.
Proof. intros HRS. induction 1 as [|a l _ IH Ha]; constructor; [done|]. eapply Forall_impl; [exact Ha|]. intros b. apply HRS. Qed.
Section sorting.
Context {A : Type} (less : A → A → outcome bool) (lt : A → A → bool) (P : A → Prop).
Hypothesis less_ok : ∀ a b, P a → P b → less a b = Ret (lt a b).

Lemma sort_insert_ok x l :
  P x → Forall P l →
  ∃ l1 l2, l = l1 ++ l2 ∧ sort_insert less x l = Ret (l1 ++ x :: l2) ∧
    Forall (λ y, lt y x = true) l1 ∧ (∀ y l', l2 = y :: l' → lt y x = false).
Proof.
  intros Hx. induction 1 as [|y l Hy Hl IH]; simpl.
  { exists [], []. by split_and!. }
  rewrite less_ok by done. simpl. destruct (lt y x) eqn:E.
  - destruct IH as (l1 & l2 & -> & -> & H1' & H2'). exists (y :: l1), l2. split_and!; try done. by constructor.
  - exists [], (y :: l). split_and!; try done. intros ? ? [= <- <-]. done.
Qed.
Lemma sort_Slice_perm l : Forall P l → ∃ l', sort_Slice less l = Ret l' ∧ l' ≡ₚ l.
Proof.
  induction 1 as [|x l Hx Hl (l' & E & Hp)]; simpl; [by exists []|]. rewrite E. simpl.
  destruct (sort_insert_ok x l') as (l1 & l2 & -> & -> & _); [done|by rewrite Hp|].
  eexists. split; [done|]. by rewrite <-Permutation_middle, Hp.
Qed.

(** Elements that do not come before each other keep their order: sorting what was
    sorted by [older] sorts by [lt] first and by [older] next. *)
Variable older : relation A.
Definition then_older (a b : A) : Prop := lt a b = true ∨ lt b a = false ∧ older a b.
Hypothesis lt_weak : ∀ a b c, lt b a = false → lt c b = false → lt c a = false.
Hypothesis lt_trans : ∀ a b c, lt a b = true → lt b c = true → lt a c = true.

Lemma sort_Slice_sorted l l' :
  Forall P l → StronglySorted older l → sort_Slice less l = Ret l' → StronglySorted then_older l'.
Proof.
  intros Hl Hs. revert l'. induction Hs as [|x l Hs IH Hx]; intros l'.
  { intros [= <-]. constructor. }
  inversion_clear Hl as [|? ? HPx HPl]. simpl. destruct (sort_Slice_perm l HPl) as (s & E & Hp). rewrite E. simpl.
  specialize (IH HPl s E). assert (Forall (older x) s) as Hxs by by rewrite Hp.
  destruct (sort_insert_ok x s) as (l1 & l2 & -> & E2 & H1' & H2'); [done|by rewrite Hp|].
  rewrite E2. intros [= <-]. clear E E2 Hp.
  apply Forall_app in Hxs as [_ Hxs]. induction H1' as [|y l1 Hy H1' IH1]; simpl in *.
  - constructor; [done|]. destruct l2 as [|y l2]; [constructor|]. specialize (H2' y l2 eq_refl).
    inversion_clear IH as [|? ? _ Hyl]. inversion_clear Hxs as [|? ? Hxy Hxl].
    constructor; [by right|]. rewrite Forall_forall in *. intros z Hz. specialize (Hyl z Hz). specialize (Hxl z Hz).
    destruct Hyl as [Hyz|[Hzy _]]; [|right; split; [by eapply lt_weak|done]].
    destruct (lt z x) eqn:Ez; [|by right]. pose proof (lt_trans _ _ _ Hyz Ez). congruence.
  - inversion_clear IH as [|? ? IHs Hyl]. constructor; [by apply IH1|].
    apply Forall_app in Hyl as [Hy1 Hy2]. apply Forall_app. split; [done|]. constructor; [by left|done].
Qed.
End sorting.

(** ** Lists *)
Lemma mapM_returns {A B} (f : A → outcome B) l : Forall (λ x, ∃ y, f x = Ret y) l → ∃ k, mapM f l = Ret k.
Proof.
  induction 1 as [|x l [y Ey] _ [k Ek]]; simpl; [by exists []|]. rewrite Ey. simpl. rewrite Ek. by eexists.
Qed.
Lemma mapM_page {A B} (f : A → outcome B) l k (start size_ : Z) :
  mapM f l = Ret k → 0 ≤ start ≤ Z.of_nat (length l) →
  page start size_ l ≫= mapM f = Ret (take (Z.to_nat size_) (drop (Z.to_nat start) k)).
Proof.
  intros Hk%mapM_Forall2 Hs. unfold page. rewrite (proj2 (orb_false_iff _ _)); [|split; apply Z.ltb_ge; lia].
  simpl. apply mapM_Forall2. by apply Forall2_take, Forall2_drop.
Qed.
Definition ztotal {A} (f : A → Z) (l : list A) : Z := foldr (λ x n, f x + n) 0 l.
Lemma ztotal_perm {A} (f : A → Z) l k : l ≡ₚ k → ztotal f l = ztotal f k.
Proof. unfold ztotal. induction 1; simpl; lia. Qed.
Lemma ztotal_keys {A} (f : string → Z) (m : gmap string A) : ztotal f (elements (dom m)) = msum (λ k _, f k) m.
Proof.
  induction m as [|k x m Hk IH] using map_ind; [by rewrite dom_empty_L, elements_empty, msum_empty|].
  rewrite dom_insert_L, msum_insert_new by done.
  rewrite (ztotal_perm _ _ (k :: elements (dom m))); [simpl; lia|].
  apply elements_union_singleton. by apply not_elem_of_dom.
Qed.

(** ** The order of holders *)
Lemma bytes_ltb_trans a b c : bytes_ltb a b = true → bytes_ltb b c = true → bytes_ltb a c = true.
Proof.
  revert b c. induction a as [|x a IH]; intros [|y b] [|z c]; simpl; try done.
  destruct (Z.ltb_spec (Z_of_byte x) (Z_of_byte y)), (Z.ltb_spec (Z_of_byte y) (Z_of_byte x)),
    (Z.ltb_spec (Z_of_byte y) (Z_of_byte z)), (Z.ltb_spec (Z_of_byte z) (Z_of_byte y)),
    (Z.ltb_spec (Z_of_byte x) (Z_of_byte z)), (Z.ltb_spec (Z_of_byte z) (Z_of_byte x)); try lia; try done.
  apply IH.
Qed.
Lemma string_ltb_trans a b c : string_ltb a b = true → string_ltb b c = true → string_ltb a c = true.
Proof. apply bytes_ltb_trans. Qed.
Lemma string_ltb_weak a b c : string_ltb a b = false → string_ltb b c = false → string_ltb a c = false.
Proof.
  unfold string_ltb. intros H1' H2'. destruct (bytes_ltb (s2b a) (s2b c)) eqn:E; [|done].
  destruct (bytes_ltb (s2b c) (s2b b)) eqn:Ecb.
  - pose proof (bytes_ltb_trans _ _ _ E Ecb). congruence.
  - assert (s2b b = s2b c) as Eb by by apply bytes_ltb_total. rewrite Eb in *. congruence.
Qed.

(** More first, the greater script first among equals. *)
Definition in_order (a b : BRC20TokenBalance) : Prop :=
  object_total b < object_total a ∨
  object_total b = object_total a ∧ string_ltb (Bal.PkScript a) (Bal.PkScript b) = false.
Lemma in_order_antisym (hs : list BRC20TokenBalance) a b :
  NoDup (Bal.PkScript <$> hs) → a ∈ hs → b ∈ hs → in_order a b → in_order b a → a = b.
Proof.
  intros Hnd [i Hi]%list_elem_of_lookup_1 [j Hj]%list_elem_of_lookup_1 Hab Hba.
  assert (Bal.PkScript a = Bal.PkScript b) as E.
  { destruct Hab as [?|[? H1']], Hba as [?|[? H2']]; try lia. by apply s2b_inj, bytes_ltb_total. }
  assert (i = j); [|by simplify_eq]. eapply NoDup_lookup; [exact Hnd|..]; rewrite list_lookup_fmap.
  - by rewrite Hi.
  - rewrite Hj. simpl. by rewrite E.
Qed.

(** ** The list *)
Section holders.
Context `{GoUnicode, Config, BtcAddr, Btcd, BtcScripts}.
Implicit Types (g : BRC20ModuleIndexer).

(** The objects of a map of balances: each is there, and belongs to its key. *)
Definition objects_of g (p : Z) (users : gmap string loc) : Prop :=
  ∀ a l, users !! a = Some l → ∃ b, G.Balances g !! l = Some b ∧ Bal.PkScript b = a ∧
    dec_ok p (Bal.AvailableBalance b) ∧ dec_ok p (Bal.AvailableBalanceSafe b) ∧
    dec_ok p (Bal.TransferableBalance b).
Definition sound_object (p : Z) (b : BRC20TokenBalance) : Prop :=
  dec_ok p (Bal.AvailableBalance b) ∧ dec_ok p (Bal.AvailableBalanceSafe b) ∧ dec_ok p (Bal.TransferableBalance b).

(** The object of a key. *)
Definition object g (users : gmap string loc) (a : string) : option BRC20TokenBalance :=
  users !! a ≫= λ l, G.Balances g !! l.
(** What is listed, in whatever order. *)
Definition lists g (users : gmap string loc) (hs : list BRC20TokenBalance) : Prop :=
  (Bal.PkScript <$> hs) ≡ₚ elements (dom users) ∧ Forall (λ b, object g users (Bal.PkScript b) = Some b) hs.

Lemma overall_ok p b : sound_object p b → ∃ d, OverallBalance b = Ret d ∧ dec_ok p d ∧ dval d = object_total b.
Proof.
  intros (Ha & _ & Ht). unfold OverallBalance. rewrite (Add_ok p) by done.
  eexists. split; [done|]. split; [by apply dadd_dec_ok|]. unfold object_total.
  apply Decimal.Add_inv. by apply (Add_ok p).
Qed.
Lemma by_overall_ok p a b :
  sound_object p a → sound_object p b → by_overall a b = Ret (object_total b <? object_total a).
Proof.
  intros Ha Hb. unfold by_overall. destruct (overall_ok p a Ha) as (x & -> & Hx & <-).
  destruct (overall_ok p b Hb) as (y & -> & Hy & <-). simpl. rewrite (Cmp_ok p) by done. simpl.
  f_equal. unfold cmp. destruct (Z.compare_spec (dval x) (dval y)), (Z.ltb_spec (dval y) (dval x)); try lia; done.
Qed.
Lemma holder_info_returns p b : 0 ≤ p ≤ 18 → sound_object p b → ∃ i, holder_info b = Ret i.
Proof.
  intros Hp Hb. unfold holder_info. destruct (overall_ok p b Hb) as (x & -> & Hx & _).
  destruct Hb as (Ha & Hs & Ht). simpl.
  destruct (Decimal_String_ok p x) as [? ->]; [done..|]. destruct (Decimal_String_ok p _ Hp Ht) as [? ->].
  destruct (Decimal_String_ok p _ Hp Ha) as [? ->]. destruct (Decimal_String_ok p _ Hp Hs) as [? ->]. simpl.
  rewrite (Sub_ok p) by done. simpl.
  destruct (Decimal_String_ok p (dsub (Bal.AvailableBalance b) (Bal.AvailableBalanceSafe b))) as [? ->];
    [done|by apply dsub_dec_ok|]. by eexists.
Qed.

Lemma lists_omap g users hs : lists g users hs → hs = omap (object g users) (Bal.PkScript <$> hs).
Proof.
  intros [_ Hf]. induction Hf as [|b hs Hb _ IH]; [done|]. rewrite fmap_cons. cbn [omap list_omap]. rewrite Hb. by f_equal.
Qed.
Lemma lists_perm g users hs hs' : lists g users hs → hs' ≡ₚ hs → lists g users hs'.
Proof. intros [Hp Hf] Hq. split; [by rewrite Hq|by rewrite Hq]. Qed.
Lemma lists_same g users hs hs' : lists g users hs → lists g users hs' → hs ≡ₚ hs'.
Proof.
  intros Hl Hl'. rewrite (lists_omap _ _ _ Hl), (lists_omap _ _ _ Hl').
  destruct Hl as [Hp _], Hl' as [Hp' _]. by rewrite Hp, Hp'.
Qed.
Lemma lists_nodup g users hs : lists g users hs → NoDup (Bal.PkScript <$> hs).
Proof. intros [Hp _]. rewrite Hp. apply NoDup_elements. Qed.

Lemma listed_ok (order : MapOrder) g p users :
  objects_of g p users → ∃ hs, listed g users = Ret hs ∧ lists g users hs ∧ Forall (sound_object p) hs.
Proof.
  intros Ho. unfold listed.
  assert (∀ keys, Forall (λ k, k ∈ dom users) keys → ∃ hs,
    mapM (λ k, match users !! k with Some l => balance_object g l | None => Panic nil_deref end) keys = Ret hs ∧
    Bal.PkScript <$> hs = keys ∧ Forall (λ b, object g users (Bal.PkScript b) = Some b) hs ∧
    Forall (sound_object p) hs) as Hk.
  { induction 1 as [|k keys [l Hl]%elem_of_dom _ (hs & E & <- & Hf & Hs)]; [by exists []|].
    destruct (Ho k l Hl) as (b & Hb & <- & Hok). exists (b :: hs). simpl.
    assert (balance_object g l = Ret b) as Eb by by unfold balance_object; rewrite Hb.
    rewrite Hl, Eb. simpl. rewrite E. split_and!; try done; constructor; try done.
    unfold object. by rewrite Hl. }
  destruct (Hk (map_order (elements (dom users)))) as (hs & E & Ek & Hf & Hs).
  { rewrite map_order_perm. apply Forall_forall. intros k. by rewrite elem_of_elements. }
  exists hs. split_and!; try done. split; [|done]. by rewrite Ek, map_order_perm.
Qed.

(** The two sorts. *)
Lemma holders_sorted p hs0 :
  Forall (sound_object p) hs0 →
  ∃ hs1 hs, sort_Slice by_script hs0 = Ret hs1 ∧ sort_Slice by_overall hs1 = Ret hs ∧
    hs ≡ₚ hs0 ∧ StronglySorted in_order hs.
Proof.
  intros Hs. set (lt1 := λ a b, string_ltb (Bal.PkScript b) (Bal.PkScript a)).
  set (lt2 := λ a b : BRC20TokenBalance, object_total b <? object_total a).
  destruct (sort_Slice_perm by_script lt1 (λ _, True) (λ _ _ _ _, eq_refl) hs0) as (hs1 & E1 & Hp1).
  { by apply Forall_true. }
  assert (StronglySorted (λ a b, lt1 b a = false) hs1) as Hs1.
  { eapply StronglySorted_weaken, (sort_Slice_sorted by_script lt1 (λ _, True) (λ _ _ _ _, eq_refl) (λ _ _, True));
      [..|exact E1].
    - intros a b [Hab|[Hab _]]; [|exact Hab]. by apply bytes_ltb_asym.
    - intros a b c Hba Hcb. by eapply string_ltb_weak.
    - intros a b c Hab Hbc. by eapply string_ltb_trans.
    - by apply Forall_true.
    - clear. induction hs0; constructor; [done|by apply Forall_true]. }
  assert (Forall (sound_object p) hs1) as Hf1 by by rewrite Hp1.
  destruct (sort_Slice_perm by_overall lt2 (sound_object p) (by_overall_ok p) hs1 Hf1) as (hs & E2 & Hp2).
  exists hs1, hs. split_and!; try done; [by rewrite Hp2|].
  eapply StronglySorted_weaken, (sort_Slice_sorted by_overall lt2 (sound_object p) (by_overall_ok p) (λ a b, lt1 b a = false));
    [..|exact E2]; try done.
  - unfold then_older, lt2, lt1, in_order. intros a b [Hab%Z.ltb_lt|[Hab%Z.ltb_ge Hs']]; [by left|].
    destruct (Z.eq_dec (object_total b) (object_total a)); [by right|left; lia].
  - unfold lt2. intros a b c Hba%Z.ltb_ge Hcb%Z.ltb_ge. apply Z.ltb_ge. lia.
  - unfold lt2. intros a b c Hab%Z.ltb_lt Hbc%Z.ltb_lt. apply Z.ltb_lt. lia.
Qed.

(** The answer, whatever the order of the map. *)
Lemma holders_answer g p t users :
  0 ≤ p ≤ 18 → G.TokenUsersBalanceData g !! t = Some users → objects_of g p users →
  ∃ hs infos, lists g users hs ∧ StronglySorted in_order hs ∧ mapM holder_info hs = Ret infos ∧
    ∀ (order : MapOrder) start size_, 0 ≤ start →
      GetBRC20TickerHolders (Some g) t start size_ =
        Ret (Z.of_nat (length hs), take (Z.to_nat size_) (drop (Z.to_nat start) infos)).
Proof.
  intros Hp Hu Ho.
  assert (∀ order : MapOrder, ∃ hs0 hs1 hs, listed g users = Ret hs0 ∧ sort_Slice by_script hs0 = Ret hs1 ∧
    sort_Slice by_overall hs1 = Ret hs ∧ lists g users hs ∧ StronglySorted in_order hs ∧
    Forall (sound_object p) hs) as Hall.
  { intros order. destruct (listed_ok order g p users Ho) as (hs0 & E0 & Hl & Hs).
    destruct (holders_sorted p hs0 Hs) as (hs1 & hs & E1 & E2 & Hq & Hst).
    exists hs0, hs1, hs. split_and!; try done; [by eapply lists_perm|by rewrite Hq]. }
  destruct (Hall {| map_order := id; map_order_perm := λ l, Permutation_refl l |}) as (_ & _ & hs & _ & _ & _ & Hl & Hst & Hs).
  destruct (mapM_returns holder_info hs) as [infos Ei].
  { eapply Forall_impl; [exact Hs|]. intros b. by apply holder_info_returns. }
  exists hs, infos. split_and!; try done. intros order start size_ Hstart.
  assert (length hs = size users) as En.
  { pose proof (proj1 Hl) as Hk. apply Permutation_length in Hk. rewrite length_fmap in Hk.
    rewrite Hk. change (length (elements (dom users))) with (size (dom users)). apply size_dom. }
  assert (length infos = length hs) as Eni by (symmetry; by eapply Forall2_length, mapM_Forall2).
  unfold GetBRC20TickerHolders, ready. rewrite Hu. unfold from. rewrite <-En.
  destruct (Z.leb_spec (Z.of_nat (length hs)) start); [by rewrite drop_ge, take_nil by lia|].
  destruct (Hall order) as (hs0 & hs1 & hs' & E0 & E1 & E2 & Hl' & Hst' & _).
  assert (hs' = hs) as ->.
  { apply (StronglySorted_unique_strong in_order); [|done..|by eapply lists_same].
    intros a b Ha Hb. eapply (in_order_antisym hs); [by eapply lists_nodup| |done].
    by rewrite <-(lists_same _ _ _ _ Hl' Hl). }
  rewrite E0. simpl. rewrite E1. simpl. rewrite E2. simpl. rewrite (mapM_page _ _ _ _ _ Ei) by lia. done.
Qed.
End holders.

(** ** The holders of a ticker the main loop has reached *)
Section reached.
Context `{GoUnicode, MapOrder, Config, BtcAddr, Btcd, BtcScripts}.
Implicit Types (g : BRC20ModuleIndexer).

Lemma reached_objects g L t users y :
  R (core g) L → G.InscriptionsTickerInfoMap g !! t = Some y → G.TokenUsersBalanceData g !! t = Some users →
  objects_of g (TickInfo.Decimals (TokenInfo.Deploy y)) users.
Proof.
  intros HR Hy Hu a l Hl. assert (at_ (core g) t a = Some l) as Ha by (apply (r_index _ _ HR); by exists users).
  destruct (at_object _ _ _ _ _ HR Ha) as (b & y' & Hb & Hy' & _ & Hok & _). exists b.
  assert (y' = y) as -> by congruence. destruct Hok as (? & _ & ? & ? & ? & _). done.
Qed.
Lemma listed_total g L t users hs y :
  R (core g) L → ledger_inv L → G.InscriptionsTickerInfoMap g !! t = Some y →
  G.TokenUsersBalanceData g !! t = Some users → lists g users hs →
  ztotal object_total hs = dval (TickInfo.TotalMinted (TokenInfo.Deploy y)).
Proof.
  intros HR HL Hy Hu Hl. set (F := λ a, holding (abal L t a)).
  assert (ztotal object_total hs = ztotal F (Bal.PkScript <$> hs)) as ->.
  { destruct Hl as [_ Hf]. induction Hf as [|b hs Hb _ IH]; [done|]. simpl. rewrite IH. f_equal.
    unfold object in Hb. destruct (users !! Bal.PkScript b) as [l|] eqn:El; [|done]. simpl in Hb.
    eapply object_total_ok; [done| |done]. apply (r_index _ _ HR). by exists users. }
  rewrite (ztotal_perm _ _ _ (proj1 Hl)), ztotal_keys.
  destruct (R_ticker _ _ _ _ HR Hy) as [HT _]. transitivity (supply L t); [|exact (inv_supply _ HL _ _ HT)].
  symmetry. apply (msum_slice t _ users F); [done|]. intros a Ha. unfold F.
  destruct (decide (holding (abal L t a) = 0)) as [|Hn]; [done|]. exfalso.
  destruct (at_ (core g) t a) as [l|] eqn:El.
  - destruct (r_complete _ _ HR _ _ _ El Hn) as (us & Hus & Hl'). cbn in Hus. congruence.
  - rewrite (r_none _ _ HR) in Hn by done. done.
Qed.

(** C15: The holders of a ticker are answered completely and in one order: there is a
    list of the balance objects of the ticker, each holder once and everyone who has
    anything among them, sorted by what they have and by script, which together have
    what was minted; and whatever the order Go visits the map in, a request for [size]
    holders from [start] on answers its length and the entries of that part of it. *)
Theorem GetBRC20TickerHolders_complete external past g t y :
  loop_run external item_ok past g → G.InscriptionsTickerInfoMap g !! t = Some y →
  ∃ hs infos,
    mapM holder_info hs = Ret infos ∧
    (∀ (order : MapOrder) start size_, 0 ≤ start →
      GetBRC20TickerHolders (Some g) t start size_ =
        Ret (Z.of_nat (length hs), take (Z.to_nat size_) (drop (Z.to_nat start) infos))) ∧
    StronglySorted in_order hs ∧ NoDup (Bal.PkScript <$> hs) ∧
    (∀ a l b, G.UserTokensBalanceData g !! a ≫= lookup t = Some l → G.Balances g !! l = Some b →
      object_total b ≠ 0 → b ∈ hs) ∧
    ztotal object_total hs = dval (TickInfo.TotalMinted (TokenInfo.Deploy y)).
Proof.
  intros Hs%loop_run_sound Hy. pose proof (ls_R _ _ _ Hs) as HR. pose proof (ls_inv _ _ _ Hs) as HL.
  destruct (proj2 (r_users _ _ HR t)) as [users Hu]; [by rewrite (core_ticker_some _ _ _ Hy)|]. cbn in Hu.
  destruct (R_ticker _ _ _ _ HR Hy) as [_ (_ & Hp & _)].
  destruct (holders_answer g _ t users Hp Hu (reached_objects _ _ _ _ _ HR Hy Hu)) as (hs & infos & Hl & Hst & Ei & Hall).
  exists hs, infos. split_and!; try done; [by eapply lists_nodup| |by eapply listed_total].
  intros a l b Ha Hb Hn. rewrite (object_total_ok _ _ _ _ _ _ HR Ha Hb) in Hn.
  destruct (r_complete _ _ HR _ _ _ Ha Hn) as (us & Hus & Hin). cbn in Hus. simplify_eq.
  rewrite (lists_omap _ _ _ Hl). apply list_elem_of_omap. exists a. split.
  - rewrite (proj1 Hl). by apply elem_of_elements, elem_of_dom_2 with l.
  - unfold object. by rewrite Hin.
Qed.
End reached.
