(* ===== verification/LoopModules.v ===== *)
(** * The main loop and the accounts of the modules

    Every input keeps the totals of every module or, for a transfer to the address of
    a module, raises one by the amount the ledger pays to that address: what the users
    of a module can claim never exceeds what its address holds. *)
From S2P Require Import Prelude GoStd Decimal Script Utils Json Model History Swap Bip322 CommitJson Indexer CondApprove Ledger LedgerSpec LedgerFrame LedgerRep LedgerProof Samples LedgerRun Modules Commit PreVerify CherryPick CommitFlow MainLoop Driver PairNames SwapProof ModuleAcc ModuleSteps ModuleProof ModulePools ModuleOps ModuleBooks ModuleHandlers PreVerifyProof CommitBooks LoopSpec LoopFrames LoopLedger LoopRun.

Section modules.
Context `{Spelling, MapOrder, Config, BtcAddr, Btcd}.
Implicit Types (g : BRC20ModuleIndexer) (L : ALedger) (d : InscriptionBRC20Data).

(** ** Inputs *)

(** The functions of an inscribed commit that moves at [height] name tickers in their one
    spelling, and in the parameter format the commit was inscribed in. *)
Definition spelled_commit (height : Z) d : Prop :=
  ∀ body, Unmarshal_Commit (Data.ContentBody d) = Ret (Some body) → CommitBody.CommitData body ≠ [] →
    before_withdraw (Data.Height d) = before_withdraw height ∧
    Forall (λ o, ∀ f, o = Some f → spelled_function (at_height height) f) (CommitBody.CommitData body).
(** A moved inscription is not spent from the address of a module (no one can), and the
    functions of a commit are as above. *)
Definition move_ok (past : list (Z * InscriptionBRC20Data)) d : Prop :=
  Data.IsTransfer d = true → ∀ d0, inscribed past d0 → Data.CreateIdxKey d0 = Data.CreateIdxKey d →
    GetModuleFromScript (s2b (Data.PkScript d0)) = None ∧ spelled_commit (Data.Height d) d0.

Lemma accepted_commit_ok past d d0 g :
  move_ok past d → Data.IsTransfer d = true → accepted_commit past (Data.CreateIdxKey d) d0 →
  G.BestHeight g = Data.Height d → commit_ok g d0.
Proof.
  intros Hm Hd (Hin & Hk & g0 & body0 & i & Hh & Eb & Ei) Hg body Eb'.
  assert (body0 = body) as -> by congruence.
  destruct (decide (CommitBody.CommitData body = [])) as [E|Hne].
  { unfold functions_ok. rewrite E. constructor. }
  destruct (Hm Hd d0 Hin Hk) as (_ & Hs). destruct (Hs body Eb' Hne) as [Hw Hsp]. clear Hs.
  pose proof (ProcessInscribeCommitPreVerify_accepted _ _ _ Ei) as Ha.
  assert (paired g0 = paired g) as Ep by (unfold paired; by rewrite Hh, Hg).
  assert (paired (at_height (Data.Height d)) = paired g) as Ep' by (unfold paired, at_height; by rewrite Hg).
  apply (functions_ok_paired g0); [done|]. unfold functions_ok. rewrite Forall_forall in *.
  intros o Ho f ->. destruct (Ha _ Ho) as (f' & pk & [= <-] & _ & _ & Hf).
  apply (preverify_function_ok g0) in Hf; [exact Hf|].
  apply (spelled_function_paired (at_height (Data.Height d))); [congruence|].
  exact (Hsp _ Ho f eq_refl).
Qed.

(** ** A live transfer inscription *)
Lemma holds_bind_frames {B} (m : Idx unit) (k : unit → Idx B) g Q E :
  frames m g → (∀ g', core g' = core g → holds (k tt) g' Q E) → holds (m ≫= k) g Q E.
Proof.
  intros Hm Hk. apply holds_bind, holds_returns. eapply returns_mono; [exact Hm|]. intros [] g'. apply Hk.
Qed.

(** When the handler of a valid transfer inscription returns, the ledger pays its
    amount. *)
Lemma ProcessTransfer_live d info g L :
  R (core g) L → ledger_inv L → data_ok d →
  GetTransferInfoByKey (Data.CreateIdxKey d) g = (Some info, false) →
  holds (ProcessTransfer d info false) g
    (λ _ _, let t := ToLower (TickInfo.Tick info) in
       AL.Transfers L !! Data.CreateIdxKey d = Some (t, TickInfo.PkScript info) ∧
       ABal.Pending (abal L t (TickInfo.PkScript info)) !! Data.CreateIdxKey d =
         Some (dval (TickInfo.Amount info)))
    (λ _, True).
Proof.
  intros HR HL Hd Hinfo. unfold ProcessTransfer. cbv zeta.
  set (t := ToLower (TickInfo.Tick info)). set (sender := TickInfo.PkScript info).
  set (data' := if Data.Satoshi d =? 0 then d <| Data.PkScript := sender |> else d).
  assert (C.valid (core g) !! Data.CreateIdxKey d = Some info) as Hv.
  { unfold GetTransferInfoByKey in Hinfo. cbn. destruct (_ !! _); by simplify_eq. }
  assert (AL.Transfers L !! Data.CreateIdxKey d = Some (t, sender)) as Htr.
  { by rewrite (r_transfers _ _ HR), lookup_fmap, Hv. }
  assert (info_small info) as Hsmall by by eapply (r_valid _ _ HR).
  assert (data_ok data') as Hd'.
  { unfold data'. destruct (Data.Satoshi d =? 0); [|done].
    destruct Hd as (?&?&?&?&?&?&?&?&?&?), Hsmall as (?&?&?&?&?&?&?&?). unfold data_ok. by split_and!. }
  assert (Data.CreateIdxKey data' = Data.CreateIdxKey d) as Hkey by (unfold data'; by case_match).
  apply holds_bind, holds_get. destruct (G.InscriptionsTickerInfoMap g !! t) as [y|]; [|by apply holds_throw].
  apply holds_bind_frames; [apply frames_when; intros _; by apply transfer_history_frames|].
  intros g1 Hg1.
  assert (at_ (core g1) t sender = G.UserTokensBalanceData g !! sender ≫= lookup t) as Hat by by rewrite Hg1.
  rewrite <-Hg1 in HR, Hv.
  destruct (G.UserTokensBalanceData g !! sender) as [us|]; [|by apply holds_throw].
  simpl in Hat. destruct (us !! t) as [l|]; [|by apply holds_throw].
  destruct (at_object _ _ _ _ _ HR Hat) as (b & y1 & Hb & Hy1 & _).
  apply holds_bind_frames; [by eapply update_balance_frames|]. intros g2 Hg2.
  rewrite <-Hg2 in HR, Hv, Hat.
  destruct (at_object _ _ _ _ _ HR Hat) as (b2 & y2 & Hb2 & Hy2 & Hp & Hbok & Hab & Hheap).
  apply holds_bind, holds_returns. eapply load_balance_returns; [exact Hb2|].
  rewrite Hkey. destruct (Bal.ValidTransferMap b2 !! Data.CreateIdxKey d) as [i|] eqn:Ei.
  2:{ rewrite bool_decide_eq_true_2 by done. by apply holds_throw. }
  apply holds_pure. destruct Hbok as (_ & _ & _ & _ & _ & _ & Hvm). destruct (Hvm _ _ Ei) as (Hi & _).
  assert (i = info) as -> by congruence.
  split; [done|]. rewrite Hab. cbn. by rewrite lookup_fmap, Ei.
Qed.

(** ** What one input does to the modules *)

(** A deposit: the ledger pays [v] to the address of module [id]. *)
Record deposit_step d L g g' (id t : string) (v : Z) (sender : string) : Prop := {
  dp_move : Data.IsTransfer d = true;
  dp_booked : booked id t v g g';
  dp_R : R (core g') (a_transfer d L);
  dp_key : AL.Transfers L !! Data.CreateIdxKey d = Some (t, sender);
  dp_pending : ABal.Pending (abal L t sender) !! Data.CreateIdxKey d = Some v;
  dp_address : GetModuleFromScript (s2b (if Data.Satoshi d =? 0 then sender else Data.PkScript d)) = Some id;
}.
Definition accounted d L g g' : Prop :=
  extended g g' ∨ ∃ id t v sender, deposit_step d L g g' id t v sender.

Lemma accounted_same d L g g1 g' :
  G.ModulesInfoMap g1 = G.ModulesInfoMap g → accounted d L g1 g' → accounted d L g g'.
Proof.
  intros E [[Ho Ht Hl Hg]|(id & t & v & s & [Hd [Ho Ht Hl Hn Hg] HR Hp Hk Ha])].
  - left. split; [done|..]; unfold mod_total, lp_excess in *; rewrite <-?E; auto.
  - right. exists id, t, v, s. split; [done| |done..].
    split; [done|..]; unfold mod_total, lp_excess in *; rewrite <-?E; auto.
Qed.
Lemma books_accounted d L g g' : books g g' → accounted d L g g'.
Proof. intros Hb. left. by apply books_extended. Qed.

Definition accounts_after {A} d L g (f : Idx A) : Prop :=
  holds f g (λ _, accounted d L g) (accounted d L g).
Lemma bookkeeping_accounted {A} d L g (f : Idx A) :
  mods_ok g → bookkeeping f → accounts_after d L g f.
Proof. intros Hg Hf. eapply holds_mono; [by apply Hf|intros; by apply books_accounted..]. Qed.
Lemma logged_accounted d L g f ok :
  accounts_after d L g f → ok = set_durty ∨ ok = mret tt →
  holds (logged f ok) g (λ _, accounted d L g) (λ _, False).
Proof.
  intros Hf Hok. apply holds_bind, holds_catch.
  eapply holds_mono; [exact Hf|intros [] g' Hs|intros g' Hs e; by apply holds_ret].
  destruct Hok as [->| ->]; [|by apply holds_ret]. apply holds_modify.
  destruct Hs as [[]|(id & t & v & s & [? [] ? ? ? ?])]; [left; by split|right].
  exists id, t, v, s. split; [done|by split|done..].
Qed.

Lemma ProcessTransfer_accounted d info inv g L :
  Data.IsTransfer d = true → mods_ok g → R (core g) L → ledger_inv L → data_ok d →
  GetTransferInfoByKey (Data.CreateIdxKey d) g = (Some info, inv) →
  accounts_after d L g (ProcessTransfer d info inv).
Proof.
  intros Hmv Hok HR HL Hd Hinfo.
  pose proof (ProcessTransfer_deposited d info inv g Hok) as Hdep.
  pose proof (holds_spec _ _ (λ g, R (core g) (a_transfer d L))
    (ProcessTransfer_leads d info inv g L HR HL Hd Hinfo)) as Hl.
  destruct (deposit_module d info inv g) as [id|] eqn:Eid.
  - unfold deposit_module in Eid. apply bind_Some in Eid as (tok & _ & Eid).
    apply bind_Some in Eid as (id' & Hid & Eid). destruct inv; [done|]. simpl in Eid.
    destruct (_ || _); [done|]. injection Eid as ->.
    pose proof (holds_and _ _ _ _ _ _ Hdep (holds_and _ _ _ _ _ _ Hl (ProcessTransfer_live d info g L HR HL Hd Hinfo)))
      as Hall.
    eapply holds_mono; [exact Hall| |].
    + intros [] g' (Hb & HR' & Hk & Hp). right. eexists id, _, _, _. by split.
    + intros g' (Hb & _). by apply books_accounted.
  - eapply holds_mono; [exact Hdep|intros ? g' Hb|intros g' Hb]; by apply books_accounted.
Qed.

Lemma process_inscription_accounted now d g L :
  mods_ok g → holds (process_inscription now d) g (λ _, accounted d L g) (λ _, False).
Proof.
  intros Hok. apply process_inscription_holds; [by apply books_accounted, books_refl|].
  intros h Hin. apply logged_accounted; [|by left].
  repeat (apply elem_of_cons in Hin as [->|Hin]); [..|by apply not_elem_of_nil in Hin].
  - apply bookkeeping_accounted; [done|apply ProcessDeploy_bookkeeping].
  - apply bookkeeping_accounted; [done|apply ProcessMint_bookkeeping].
  - apply bookkeeping_accounted; [done|apply ProcessInscribeTransfer_bookkeeping].
  - eapply holds_mono; [by apply ProcessCreateModule_extended|by left..].
  - apply bookkeeping_accounted; [done|apply ProcessInscribeWithdraw_bookkeeping].
  - apply bookkeeping_accounted; [done|apply ProcessInscribeApprove_bookkeeping].
  - apply bookkeeping_accounted; [done|apply ProcessInscribeConditionalApprove_bookkeeping].
  - apply bookkeeping_accounted; [done|apply ProcessInscribeCommit_bookkeeping].
Qed.

Variable external : list SwapFunctionResultCheckState.
Lemma first_move_accounted past d g L :
  mods_ok g → ledger_sound past g L → data_ok d → move_ok past d → Data.IsTransfer d = true →
  G.BestHeight g = Data.Height d →
  holds (first_move external d) g (λ _, accounted d L g) (λ _, False).
Proof.
  intros Hok Hs Hdok Hm Hd Hh. assert (accounted d L g g) as Hnone by by apply books_accounted, books_refl.
  unfold first_move. cbv zeta. apply holds_bind, holds_get. case_match; [by apply holds_ret|].
  destruct (GetTransferInfoByKey _ g) as [[info|] inv] eqn:Et.
  { apply holds_bind, holds_modify, holds_bind, holds_modify. set (g1 := field_update _ _ _).
    eapply holds_post; [apply (logged_accounted d L g1); [|by right]|].
    - apply ProcessTransfer_accounted; [done|exact Hok|apply Hs|apply Hs|done|exact Et].
    - intros [] g'. by apply accounted_same. }
  destruct (GetApproveInfoByKey _ g) as [[info|] inv'].
  { apply holds_bind, holds_modify, holds_bind, holds_modify. set (g1 := field_update _ _ _).
    eapply holds_post; [apply (logged_accounted d L g1); [|by right]|].
    - apply bookkeeping_accounted; [exact Hok|apply ProcessApprove_bookkeeping].
    - intros [] g'. by apply accounted_same. }
  destruct (GetWithdrawInfoByKey _ g) as [info|].
  { rewrite (ls_requests _ _ _ Hs). apply holds_gopanic. }
  destruct (GetCommitInfoByKey _ g) as [[from|] inv''] eqn:Ec; [|by apply holds_ret].
  apply holds_bind, holds_modify, holds_bind, holds_modify. set (g1 := field_update _ _ _).
  eapply holds_post; [apply (logged_accounted d L g1); [|by right]|by intros [] g'; apply accounted_same].
  assert (commit_ok g1 from) as Hc.
  { unfold GetCommitInfoByKey in Ec. eapply accepted_commit_ok; [done|done| |done].
    destruct (G.InscriptionsValidCommitMap g !! _) as [c|] eqn:Ev.
    - injection Ec as <- _. by apply (ls_commits _ _ _ Hs).
    - rewrite (ls_invalid _ _ _ Hs), lookup_empty in Ec. done. }
  eapply holds_mono; [by apply ProcessCommit_books|intros; by apply books_accounted..].
Qed.

Lemma process_data_accounted past now d g L :
  mods_ok g → ledger_sound past g L → data_ok d → move_ok past d →
  holds (process_data external now d) g (λ _, accounted d L g) (λ _, False).
Proof.
  intros Hok Hs Hdok Hm. unfold process_data. apply holds_bind, holds_modify.
  set (g1 := field_update _ _ g).
  assert (ledger_sound past g1 L) as Hs1 by (by eapply ledger_sound_same).
  assert (mods_ok g1) as Hok1 by exact Hok.
  apply holds_post with (λ _, accounted d L g1); [|by intros [] g'; apply accounted_same].
  destruct (Data.IsTransfer d) eqn:Hd; [|by apply process_inscription_accounted].
  unfold process_move. cbv zeta.
  assert (holds (if negb (Data.Sequence d =? 1) then mret tt else first_move external d) g1
    (λ _, accounted d L g1) (λ _, False)) as Hfirst.
  { destruct (negb _); [by apply holds_ret, books_accounted, books_refl|by eapply first_move_accounted]. }
  destruct (Data.Height d <? _); [|done]. apply holds_bind, holds_get.
  destruct (GetConditionalApproveInfoByKey _ g1) as [[info|] inv]; [|done].
  apply logged_accounted; [|by left].
  apply bookkeeping_accounted; [done|apply ProcessConditionalApprove_bookkeeping].
Qed.

(** ** Solvency *)

(** What module [id] holds of a ticker is covered by its address in the ledger, and
    the LP tokens of its users are the recorded supply. *)
Record modules_sound g L : Prop := {
  ms_ok : mods_ok g;
  ms_lp id pair : lp_excess g id pair = 0;
  ms_solvent id t a : GetModuleFromScript (s2b a) = Some id → mod_total g id t ≤ holding (abal L t a);
}.

Lemma R_abal c L L' t a : R c L → R c L' → abal L t a = abal L' t a.
Proof.
  intros H1' H2'. destruct (at_ c t a) as [l|] eqn:E.
  - destruct (r_some _ _ H1' _ _ _ E) as (b & x & Hb & _ & _ & ->).
    destruct (r_some _ _ H2' _ _ _ E) as (b' & x' & Hb' & _ & _ & ->). by simplify_eq.
  - by rewrite (r_none _ _ H1'), (r_none _ _ H2').
Qed.

Lemma abal_move t s r k v L t' a :
  ABal.Pending (abal L t s) !! k = Some v →
  holding (abal (move_step t s r k v L) t' a) = holding (abal L t' a) +
    (if bool_decide (t = t' ∧ r = a) then v else 0) - (if bool_decide (t = t' ∧ s = a) then v else 0).
Proof.
  intros Hp. unfold move_step.
  assert (∀ t' a, holding (abal (set_abal t s (abal L t s <| ABal.Pending ::= delete k |>) L) t' a) =
    holding (abal L t' a) - (if bool_decide (t = t' ∧ s = a) then v else 0)) as Hs.
  { intros t'' a'. rewrite abal_set. case_bool_decide as E; [destruct E as [<- <-]|lia].
    unfold holding. rewrite (locked_delete _ _ _ Hp). rsimpl. lia. }
  rewrite abal_set. case_bool_decide as E; [destruct E as [<- <-]|rewrite Hs; lia].
  change (v + ABal.Avail (abal (set_abal t s (abal L t s <| ABal.Pending ::= delete k |>) L) t r) +
    locked (abal (set_abal t s (abal L t s <| ABal.Pending ::= delete k |>) L) t r) =
    holding (abal L t r) + v - (if bool_decide (t = t ∧ s = r) then v else 0)).
  specialize (Hs t r). unfold holding in Hs at 1. lia.
Qed.

(** The address of a module never loses anything. *)
Lemma ledger_step_address past now d L id t a :
  item_ok past (now, d) → move_ok past d → ledger_inv L →
  (∀ k t a, AL.Transfers L !! k = Some (t, a) →
     ∃ d, inscribed past d ∧ Data.CreateIdxKey d = k ∧ Data.PkScript d = a) →
  GetModuleFromScript (s2b a) = Some id →
  holding (abal L t a) ≤ holding (abal (ledger_step d L) t a).
Proof.
  intros [_ Hfresh] Hmove HL Hk Ha. destruct (ledger_step_moves d L) as [|Hd|Hd|Hd|Hd]; [done|..].
  - unfold a_deploy. by repeat case_match.
  - unfold a_mint. destruct (amount_request d L) as [[[t' tok] amt]|] eqn:E; [|done].
    apply amount_request_ok in E as [Ht Hamt]. case_match eqn:Eb; [done|].
    apply orb_false_iff in Eb as [_ Hlt%Z.leb_gt]. unfold mint_step. rewrite abal_set.
    case_bool_decide as E; [destruct E as [<- <-]|done].
    change (holding (abal L t' (Data.PkScript d)) ≤
      Z.min amt (ATok.Max tok - ATok.Minted tok) + ABal.Avail (abal L t' (Data.PkScript d)) +
      locked (abal L t' (Data.PkScript d))). unfold holding. lia.
  - unfold a_inscribe_transfer. destruct (amount_request d L) as [[[t' tok] amt]|]; [|done].
    case_match; [done|]. unfold lock_step. rewrite abal_set. case_bool_decide as E; [destruct E as [<- <-]|done].
    set (b := abal L t' (Data.PkScript d)).
    assert (ABal.Pending b !! Data.CreateIdxKey d = None) as Hn.
    { apply eq_None_ne_Some. intros v Hv. apply (inv_transfers _ HL), Hk in Hv as (d' & Hd' & E & _).
      by apply (Hfresh Hd d'). }
    pose proof (locked_insert b (Data.CreateIdxKey d) amt Hn) as Hl. unfold holding, locked in *.
    rsimpl. lia.
  - unfold a_transfer. destruct (AL.Transfers L !! _) as [[t' s]|] eqn:Et; [|done].
    destruct (ABal.Pending _ !! _) as [v|] eqn:Ep; [|done]. rewrite abal_move by done.
    apply Hk in Et as (d0 & Hd0 & Ek & Es). destruct (Hmove Hd d0 Hd0 Ek) as (Hn & _).
    pose proof (inv_pending _ HL _ _ _ _ Ep).
    rewrite (bool_decide_eq_false_2 (t' = t ∧ s = a)); [case_bool_decide; lia|].
    intros [_ <-]. rewrite Es in Hn. congruence.
Qed.

Lemma modules_sound_step past now d g g' L :
  item_ok past (now, d) → move_ok past d → ledger_sound past g L → modules_sound g L →
  accounted d L g g' → R (core g') (ledger_step d L) → modules_sound g' (ledger_step d L).
Proof.
  intros Hok Hmove Hs [Hmok Hlp Hsol] Hacc HR'.
  assert (∀ id t a, GetModuleFromScript (s2b a) = Some id → holding (abal L t a) ≤ holding (abal (ledger_step d L) t a)) as Hmono.
  { intros id t a Ha. eapply (ledger_step_address past now d); [done|done|apply Hs|apply Hs|done]. }
  destruct Hacc as [[Ho Ht Hl Hg]|(id & t & v & s & [Hd [Ho Ht Hl Hn Hg] HR Hk Hp Ha])].
  - split; [done|intros; by rewrite Hl|]. intros id t a Ha. rewrite Ht. etrans; [by apply Hsol|by eapply Hmono].
  - split; [done|intros; by rewrite Hl|]. intros i u a Hi. rewrite Ht.
    specialize (Hsol i u a Hi). case_bool_decide as E; [|pose proof (Hmono i u a Hi); lia].
    destruct E as [-> ->]. pose proof (GetModuleFromScript_inj _ _ _ Hi Ha) as Ea. apply s2b_inj in Ea as ->.
    rewrite (R_abal _ _ _ _ _ HR' HR). unfold a_transfer. rewrite Hk, Hp. rewrite abal_move by done.
    rewrite (bool_decide_eq_true_2 (t = t ∧ _ = _)) by done.
    rewrite (bool_decide_eq_false_2 (t = t ∧ s = _)); [lia|]. intros [_ Es].
    apply (ls_keys _ _ _ Hs) in Hk as (d0 & Hd0 & Ek & E0). destruct (Hmove Hd d0 Hd0 Ek) as (Hno & _).
    rewrite E0, Es in Hno. congruence.
Qed.

Lemma started_modules_sound w : modules_sound (started w) empty_ledger.
Proof.
  assert (G.ModulesInfoMap (started w) = ∅) as E by done.
  split.
  - intros id m. by rewrite E, lookup_empty.
  - intros id pair. unfold lp_excess. by rewrite E, lookup_empty.
  - intros id t a _. unfold mod_total, abal. rewrite E. cbn. by rewrite !lookup_empty.
Qed.

(** ** Runs *)
Definition module_input_ok : input_ok := λ past i, item_ok past i ∧ move_ok past i.2.

Lemma loop_modules_sound past items g L :
  ledger_sound past g L → modules_sound g L → items_ok module_input_ok past items →
  holds (ProcessUpdateLatestBRC20Loop external items) g
    (λ _ g', ledger_sound (past ++ items) g' (ledger_after items L) ∧ modules_sound g' (ledger_after items L))
    (λ _, False).
Proof.
  intros Hs Hm Hok. unfold ProcessUpdateLatestBRC20Loop. apply holds_bind, holds_modify.
  set (g1 := field_update _ _ g). assert (ledger_sound past g1 L) as Hs1 by by eapply ledger_sound_same.
  assert (modules_sound g1 L) as Hm1 by (destruct Hm; by split).
  clearbody g1. clear g Hs Hm. apply holds_bind.
  eapply holds_post.
  - apply (holds_for_each_prefix _ (λ l g, ledger_sound (past ++ l) g (ledger_after l L) ∧
      modules_sound g (ledger_after l L)) _ [] items).
    + by rewrite app_nil_r.
    + simpl. intros ditems [now d] g2 [Hs2 Hm2] Hpre.
      destruct (Hok _ _ Hpre) as [Hi Hmove].
      eapply holds_mono; [exact (holds_and _ _ _ _ _ _
        (process_data_sound external _ now d g2 _ Hi Hs2)
        (process_data_accounted _ now d g2 _ (ms_ok _ _ Hm2) Hs2 (proj1 Hi) Hmove))| |by intros ? []].
      intros [] g3 ([Hs3 _] & Hacc). rewrite ledger_after_app, app_assoc. split; [exact Hs3|].
      eapply modules_sound_step; [exact Hi|exact Hmove|exact Hs2|exact Hm2|exact Hacc|apply Hs3].
  - intros [] g2 [Hs2 Hm2]. unfold holds. rewrite (clean_up_runs _ (ledger_after items L)); [|apply Hs2].
    split; [by apply ledger_sound_cleaned|]. destruct Hm2. by split.
Qed.

Lemma module_run_sound past g :
  loop_run external module_input_ok past g → ∃ L, ledger_sound past g L ∧ modules_sound g L.
Proof.
  induction 1 as [w|past g items g' Hr (L & Hs & Hm) Hok Hg'|past g _ (L & Hs & Hm)].
  - exists empty_ledger. split; [apply started_sound|apply started_modules_sound].
  - destruct (holds_run _ _ _ _ _ _ (loop_modules_sound past items g L Hs Hm Hok) Hg')
      as (Hs' & Hm'). by eexists.
  - exists L. split; [by apply ledger_sound_purged|]. destruct Hm. by split.
Qed.

(** The balance of [a] for a ticker, zero when there is none. *)
Definition address_total g (t a : string) : Z :=
  match G.UserTokensBalanceData g !! a ≫= lookup t with
  | Some l => from_option object_total 0 (G.Balances g !! l)
  | None => 0
  end.
Lemma address_total_ok g L t a : R (core g) L → address_total g t a = holding (abal L t a).
Proof.
  intros HR. unfold address_total.
  change (G.UserTokensBalanceData g !! a ≫= lookup t) with (at_ (core g) t a).
  destruct (at_ (core g) t a) as [l|] eqn:E; simpl; [|by rewrite (r_none _ _ HR)].
  destruct (at_object _ _ _ _ _ HR E) as (b & _ & Hb & _). rewrite Hb.
  by eapply object_total_ok.
Qed.

(** ** Theorems *)

(** C1: Modules are solvent when their commits name every ticker in one spelling.  Take
    inputs in which numbers are in range, every inscription has a key of its own, no moved
    inscription was on the address of a module, and the functions of a moved commit name
    pool tickers in their one spelling, in the parameter format of the height the commit
    was inscribed at.  After any batches of them through the main loop, all a module
    accounts for of a ticker (the swap, available, approveable and conditionally
    approveable balances of its users and the reserves of its pools) is covered by what
    the module's address holds in the plain ledger.  A second spelling breaks this: the
    handler of added liquidity then exchanges the amounts of the two tickers. *)
Theorem modules_solvent past g id m t a :
  loop_run external module_input_ok past g →
  G.ModulesInfoMap g !! id = Some m → GetModuleFromScript (s2b a) = Some id →
  module_total m t ≤ address_total g t a.
Proof.
  intros (L & Hs & Hm)%module_run_sound Hid Ha. rewrite (address_total_ok _ L) by apply Hs.
  pose proof (ms_solvent _ _ Hm id t a Ha) as Hsol. unfold mod_total in Hsol. by rewrite Hid in Hsol.
Qed.

(** C2: After any batches of such inputs through the main loop, with every ticker named
    in one spelling by the commits, every module is well formed: each balance object is
    the one of its holder and ticker in both indexes, each pool is under the key of its
    tickers, the two records of LP tokens agree, and the LP tokens of the users of a
    pool add up to exactly the supply the pool records. *)
Theorem modules_well_formed past g id m :
  loop_run external module_input_ok past g → G.ModulesInfoMap g !! id = Some m →
  mod_inv m ∧ ∀ pair, lp_held m pair = lp_supply m pair.
Proof.
  intros (L & Hs & Hm)%module_run_sound Hid. split; [by apply (ms_ok _ _ Hm id)|].
  intros pair. pose proof (ms_lp _ _ Hm id pair) as Hl. unfold lp_excess in Hl. rewrite Hid in Hl. lia.
Qed.
End modules.
