(* ===== verification/CommitLife.v ===== *)
(** * Commits are executed, and only once

    In a state the main loop can reach, a commit that its own verification accepts is
    executed when it is moved to the module; after that no commit with the same parent
    is ever executed. *)
From S2P Require Import Prelude GoStd Decimal Script Utils Json Model History Swap Bip322 CommitJson Indexer CondApprove Ledger LedgerSpec LedgerFrame LedgerRep LedgerProof Samples LedgerRun Modules Commit PreVerify CherryPick CommitFlow MainLoop PairNames SwapProof ModuleAcc ModuleSteps ModuleProof ModulePools ModuleOps ModuleBooks ModuleHandlers PreVerifyProof Relate CopySim CopyFunctions CopyCommit CommitBooks LoopFrames LoopLedger LoopRun LoopModules.

Section life.
Context `{Spelling, MapOrder, Config, BtcAddr, Btcd}.
Implicit Types (g : BRC20ModuleIndexer) (m : BRC20ModuleSwapInfo).

(** ** Copies are made *)
Lemma copy_objects_returns {A} (copy : A → A) users heap :
  (∀ a t l, users !! a ≫= lookup t = Some l → is_Some (heap !! l)) →
  ∃ res, copy_objects copy users heap = Ret res.
Proof.
  intros Hall. unfold copy_objects. rewrite bool_decide_eq_true_2; [by eexists|].
  intros [a t] l. unfold by_pair. rewrite lookup_map_uncurry. apply Hall.
Qed.
Lemma Mod_CherryPick_returns m : mod_inv m → ∃ n, Mod_CherryPick m = Ret n.
Proof.
  intros Hm. unfold Mod_CherryPick.
  destruct (copy_objects_returns MBal_CherryPick (Mod.UsersTokenBalanceDataMap m) (Mod.Balances m)) as [b ->];
    [|by eexists].
  intros a t l Hl. destruct (mi_object _ Hm t a l Hl) as (b & -> & _). by eexists.
Qed.
Definition balances_there g : Prop :=
  ∀ a t l, G.UserTokensBalanceData g !! a ≫= lookup t = Some l → is_Some (G.Balances g !! l).
Lemma picked_lookup {A} keys (m : gmap string A) k : picked keys m !! k = if bool_decide (k ∈ keys) then m !! k else None.
Proof.
  unfold picked. rewrite map_lookup_filter. destruct (m !! k) as [x|]; simpl; [|by case_bool_decide].
  case_bool_decide; [by rewrite option_guard_True|by rewrite option_guard_False].
Qed.
Lemma CherryPick_returns g modul pick m :
  balances_there g → G.ModulesInfoMap g !! modul = Some m → mod_inv m → ∃ h, CherryPick g modul pick = Ret h.
Proof.
  intros Hb Hm Hi. unfold CherryPick. rewrite Hm. unfold cherryPickBRC20Data.
  edestruct (copy_objects_returns BRC20TokenBalance_DeepCopy) as [b ->].
  { intros a t l. rewrite lookup_fmap, picked_lookup. case_bool_decide; [|done].
    destruct (G.UserTokensBalanceData g !! a) as [ts|] eqn:E; [|done]. simpl. rewrite picked_lookup.
    case_bool_decide; [|done]. intros Hl. apply (Hb a t). by rewrite E. }
  simpl. unfold cherryPickModuleData. rewrite Hm. destruct (Mod_CherryPick_returns m Hi) as [n ->]. by eexists.
Qed.
Lemma cherry_pick_filter_returns g0 g body m :
  paired g0 = paired g → Forall (accepted_function g0) (CommitBody.CommitData body) →
  G.ModulesInfoMap g !! CommitBody.Module_ body = Some m → ∃ pick, cherry_pick_filter g body = Ret pick.
Proof.
  intros Ep Ha Hm. unfold cherry_pick_filter, InitCherryPickFilter. rewrite Hm.
  assert (returns (InitCherryPickFilter g body) no_pick (λ _ _, True)) as (u & p & E & _).
  { unfold InitCherryPickFilter. rewrite Hm. unfold pick_user, pick_tick. do 5 apply returns_bind, returns_modify.
    eapply returns_mono; [by eapply pick_functions_known|done]. }
  unfold InitCherryPickFilter in E. rewrite Hm in E. rewrite E. by eexists.
Qed.

Lemma reached_balances past g L : ledger_sound past g L → balances_there g.
Proof.
  intros Hs a t l Hl. destruct (at_object _ _ _ _ _ (ls_R _ _ _ Hs) Hl) as (b & _ & Hb & _). by exists b.
Qed.

(** ** A good commit is executed *)

(** [m] and a copy with other records of commits. *)
Lemma twin_same_accounts m m' :
  mod_inv m → Mod.GasTick m = Mod.GasTick m' → Mod.GasToPkScript m = Mod.GasToPkScript m' →
  Mod.LpFeePkScript m = Mod.LpFeePkScript m' → Mod.FeeRateSwap m = Mod.FeeRateSwap m' →
  Mod.UsersTokenBalanceDataMap m' = Mod.UsersTokenBalanceDataMap m → Mod.Balances m' = Mod.Balances m →
  Mod.LPTokenUsersBalanceMap m' = Mod.LPTokenUsersBalanceMap m →
  Mod.UsersLPTokenBalanceMap m' = Mod.UsersLPTokenBalanceMap m →
  Mod.SwapPoolTotalBalanceDataMap m' = Mod.SwapPoolTotalBalanceDataMap m → twin m m'.
Proof.
  intros Hm Eg Et Ef Er Eu Eb El Eul Ep. pose proof (mi_object _ Hm) as Ho.
  split; try done; unfold objects_ok, holder, amounts, balance_of, lp_in_pool, lp_of_user;
    rewrite ?Eu, ?Eb, ?El, ?Eul, ?Ep; try done.
  - intros pair. destruct (_ !! pair); constructor. by split.
Qed.

Lemma returns_on_module {A} id m g (p : GoM BRC20ModuleSwapInfo A) Q :
  G.ModulesInfoMap g !! id = Some m → returns p m (λ a m', Q a (set_module id m' g)) → returns (on_module id p) g Q.
Proof.
  intros Hm (a & m' & E & HQ). unfold returns, on_module. rewrite Hm, E. by exists a, (set_module id m' g).
Qed.
Lemma ProcessCommitVerify_module external id body sizes results g k m :
  G.ModulesInfoMap g !! k = Some m →
  holds (ProcessCommitVerify external id body sizes results) g (λ _ g', is_Some (G.ModulesInfoMap g' !! k)) (λ _, True).
Proof.
  intros Hm. unfold ProcessCommitVerify. apply holds_bind, holds_get.
  destruct (G.ModulesInfoMap g !! CommitBody.Module_ body) as [m0|]; [|apply holds_ret; by rewrite Hm].
  repeat (case_match; [apply holds_ret; by rewrite Hm|]). apply holds_bind, holds_lift; [intros gas _|done].
  case_match; [apply holds_ret; by rewrite Hm|]. unfold holds, on_module.
  destruct (G.ModulesInfoMap g !! CommitBody.Module_ body) as [m1|]; [|done].
  destruct (commit_functions _ _ _ _ _ _ _ _ _ m1) as [[r|e|w] m2]; simpl; [|done..].
  rewrite lookup_insert_is_Some. destruct (decide (CommitBody.Module_ body = k)); [by left|right].
  split; [done|]. by rewrite Hm.
Qed.

(** [moduleInfo.CommitIdMap] and its companions after the commit has been executed. *)
Definition commit_settled (modul inscriptionId parent : string) g : Prop :=
  ∃ m, G.ModulesInfoMap g !! modul = Some m ∧
    inscriptionId ∈ Mod.CommitIdMap m ∧ parent ∈ Mod.CommitIdChainMap m ∧ inscriptionId ∉ Mod.CommitInvalidMap m.
Lemma settled_returns modul id parent h g m :
  G.ModulesInfoMap g !! modul = Some m →
  returns (settle_commit modul id parent ;; unset_commit_invalid modul id ;; on_module modul (mod_history h)) g
    (λ _, commit_settled modul id parent).
Proof.
  intros Hm. unfold settle_commit, unset_commit_invalid.
  apply returns_bind. eapply returns_on_module; [done|]. apply returns_modify.
  apply returns_bind. eapply returns_on_module; [apply lookup_insert_eq|]. apply returns_modify.
  eapply returns_on_module; [apply lookup_insert_eq|]. apply returns_modify.
  eexists. split; [apply lookup_insert_eq|]. rsimpl. set_solver.
Qed.

Definition marked_invalid (dataFrom : InscriptionBRC20Data) (modul : string) m g : BRC20ModuleIndexer :=
  set_module modul (m <| Mod.CommitInvalidMap ::= union {[GetInscriptionId dataFrom]} |>) (unlisted dataFrom g).

(** The handler runs through. *)
Lemma accepted_commit_executes past g g0 dataFrom dataTo isInvalid body m sizes i idx critical :
  loop_run [] module_input_ok past g →
  0 ≤ G.BestHeight g < Conf.ENABLE_SWAP_WITHDRAW_HEIGHT conf →
  Unmarshal_Commit (Data.ContentBody dataFrom) = Ret (Some body) →
  ProcessInscribeCommitPreVerify g0 body = Ret (i, None) → paired g0 = paired g →
  GetModuleFromScript (s2b (Data.PkScript dataTo)) = Some (CommitBody.Module_ body) →
  G.ModulesInfoMap g !! CommitBody.Module_ body = Some m →
  Mod.SequencerPkScript m = Data.PkScript dataFrom →
  function_sizes (Data.ContentBody dataFrom) body = Ret sizes →
  run_outcome (ProcessCommitVerify [] (GetInscriptionId dataFrom) body sizes []) g = Ret (idx, critical, None) →
  returns (ProcessCommit [] dataFrom dataTo isInvalid) g
    (λ _, commit_settled (CommitBody.Module_ body) (GetInscriptionId dataFrom) (CommitBody.Parent body)).
Proof.
  intros (L & Hs & Hok)%module_run_sound Hh Eb Ha Ep Eto Hm Eseq Esz Ev.
  set (g2 := marked_invalid dataFrom (CommitBody.Module_ body) m g).
  set (m2 := m <| Mod.CommitInvalidMap ::= union {[GetInscriptionId dataFrom]} |>).
  assert (mod_inv m2) as Hm2.
  { pose proof (ms_ok _ _ Hok _ _ Hm) as Hi. by split; apply Hi. }
  assert (G.ModulesInfoMap g2 !! CommitBody.Module_ body = Some m2) as Hg2 by apply lookup_insert_eq.
  destruct (cherry_pick_filter_returns g0 g2 body m2 Ep (ProcessInscribeCommitPreVerify_accepted _ _ _ Ha) Hg2) as [pick Hpick].
  destruct (CherryPick_returns g2 (CommitBody.Module_ body) pick m2) as [h Hc]; [|done..|].
  { exact (reached_balances _ _ _ Hs). }
  pose proof (tried_and_executed g0 g2 body m2 pick h (GetInscriptionId dataFrom) sizes i Ha Ep Hh Hg2 Hm2 Hpick Hc) as Hsame.
  assert (run_outcome (ProcessCommitVerify [] (GetInscriptionId dataFrom) body sizes []) g2 = Ret (idx, critical, None)) as Ev2.
  { pose proof (cherry_pick_filter_known g0 g2 body m2 pick Ep (ProcessInscribeCommitPreVerify_accepted _ _ _ Ha) Hg2 Hpick) as Hk.
    assert (twin m2 m) as Ht by (eapply twin_same_accounts; done).
    pose proof (ProcessCommitVerify_twin ({[ToLower (Mod.GasTick m2)]} ∪ Pick.pickTokensTick pick)
      (GetInscriptionId dataFrom) body sizes g2 g m2 m Hg2 Hm Ht eq_refl eq_refl) as Hrel.
    assert (same_end eq (run_outcome (ProcessCommitVerify [] (GetInscriptionId dataFrom) body sizes []) g2)
      (run_outcome (ProcessCommitVerify [] (GetInscriptionId dataFrom) body sizes []) g)) as He.
    { apply related_run, Hrel; [by split|set_solver|]. eapply Forall_impl; [exact Hk|].
      intros o Ho f Ef. eapply function_known_mono; [apply union_subseteq_r|by apply Ho]. }
    rewrite Ev in He. by destruct (run_outcome _ g2); simpl in He; subst. }
  rewrite Ev2 in Hsame. unfold same_end in Hsame.
  destruct (run_outcome (ProcessCommitVerify _ _ _ _ _) h) as [tried| |] eqn:Et; try done. subst tried.
  unfold ProcessCommit. rewrite Eb. apply returns_bind, returns_modify.
  change (field_update _ _ g) with (unlisted dataFrom g). apply returns_bind, (returns_lift _ (Some body)); [done|].
  rewrite Eto. simpl. apply returns_bind, returns_ret. rewrite bool_decide_eq_true_2 by done.
  apply returns_bind, returns_get. change (G.ModulesInfoMap (unlisted dataFrom g)) with (G.ModulesInfoMap g).
  rewrite Hm. apply returns_bind. unfold set_commit_invalid. eapply returns_on_module; [exact Hm|].
  apply returns_modify. change (set_module _ _ _) with g2. rewrite bool_decide_eq_true_2 by done.
  apply returns_bind, (returns_lift _ sizes); [done|]. apply returns_bind, returns_get.
  apply returns_bind, (returns_lift _ pick); [done|]. apply returns_bind, (returns_lift _ h); [done|].
  apply returns_bind, (returns_lift _ (idx, critical, None)); [done|].
  pose proof (ProcessCommitVerify_module [] (GetInscriptionId dataFrom) body sizes [] g2 _ _ Hg2) as Hk.
  apply returns_bind. unfold returns at 1. unfold holds in Hk. unfold run_outcome in Ev2.
  destruct (ProcessCommitVerify _ _ _ _ _ g2) as [o g3]. simpl in Ev2. subst o. destruct Hk as [m3 Hm3].
  eexists _, g3. split; [done|]. by eapply settled_returns.
Qed.

(** C3: A good commit is executed: in a state the main loop reached below the withdraw
    height, a commit of the sequencer whose functions passed the pre-verification and
    whose verification succeeds there is executed when it is moved to its module: the
    handler returns without an error, and the commit is recorded as executed, its parent
    as followed, and neither as invalid. *)
Theorem ProcessCommit_executes past g g0 dataFrom dataTo isInvalid body m sizes i idx critical :
  loop_run [] module_input_ok past g →
  0 ≤ G.BestHeight g < Conf.ENABLE_SWAP_WITHDRAW_HEIGHT conf →
  Unmarshal_Commit (Data.ContentBody dataFrom) = Ret (Some body) →
  ProcessInscribeCommitPreVerify g0 body = Ret (i, None) → paired g0 = paired g →
  GetModuleFromScript (s2b (Data.PkScript dataTo)) = Some (CommitBody.Module_ body) →
  G.ModulesInfoMap g !! CommitBody.Module_ body = Some m →
  Mod.SequencerPkScript m = Data.PkScript dataFrom →
  function_sizes (Data.ContentBody dataFrom) body = Ret sizes →
  run_outcome (ProcessCommitVerify [] (GetInscriptionId dataFrom) body sizes []) g = Ret (idx, critical, None) →
  returns (ProcessCommit [] dataFrom dataTo isInvalid) g
    (λ _, commit_settled (CommitBody.Module_ body) (GetInscriptionId dataFrom) (CommitBody.Parent body)).
Proof. apply accepted_commit_executes. Qed.
End life.
