(* ===== verification/ServiceProof.v ===== *)
(** * What the service promises

    A commit the service calls valid is executed when it is moved to its module in the
    state the service answered from. *)
From S2P Require Import Prelude GoStd Decimal Script Utils Json Model History Swap Bip322 CommitJson Indexer CondApprove Ledger LedgerSpec LedgerFrame LedgerRep LedgerProof Samples LedgerRun Modules Commit PreVerify CherryPick CommitFlow MainLoop Service PairNames SwapProof ModuleAcc ModuleSteps ModuleProof ModulePools ModuleOps ModuleBooks ModuleHandlers PreVerifyProof Relate CopySim CopyFunctions CopyCommit Checked CommitBooks LoopFrames LoopLedger LoopRun LoopModules CommitLife.

Section service.
Context `{Spelling, MapOrder, Config, BtcAddr, Btcd}.
Implicit Types (g h : BRC20ModuleIndexer) (m : BRC20ModuleSwapInfo).

(** ** The copy *)
Lemma copy_tickers g modul pick m h :
  picked_copy g modul pick m h → dom (G.InscriptionsTickerInfoMap h) ⊆ {[ToLower (Mod.GasTick m)]} ∪ Pick.pickTokensTick pick.
Proof.
  intros Hc tick [info Hi]%elem_of_dom. rewrite (pc_tickers _ _ _ _ _ Hc), lookup_fmap, picked_lookup in Hi.
  by case_bool_decide.
Qed.

(** A commit verified on the copy, with any expected results, is verified on the state. *)
Lemma verified_on_state g modul pick m h body id id' sizes results i j critical :
  0 ≤ G.BestHeight g < Conf.ENABLE_SWAP_WITHDRAW_HEIGHT conf →
  G.ModulesInfoMap g !! CommitBody.Module_ body = Some m → mod_inv m → modul = CommitBody.Module_ body →
  CherryPick g modul pick = Ret h → ProcessInscribeCommitPreVerify h body = Ret (i, None) →
  run_outcome (ProcessCommitVerify [] id body sizes results) h = Ret (j, critical, None) →
  paired h = paired g ∧
  ∃ j' critical', run_outcome (ProcessCommitVerify [] id' body sizes []) g = Ret (j', critical', None).
Proof.
  intros Hh Hm Hi -> Hc Ha Ev. pose proof (CherryPick_copy _ _ _ _ _ Hm Hc) as Hpc.
  pose proof (CherryPick_reads _ _ _ _ _ Hpc (below_withdraw_paired g Hh)) as Hr.
  pose proof (copy_tickers _ _ _ _ _ Hpc) as Ht. destruct Hpc as [(n & Hn & Hnm) _ _].
  split; [symmetry; apply (sr_paired _ _ _ Hr)|].
  assert (twin m n) as Hw by by apply Mod_CherryPick_twin.
  eapply ProcessCommitVerify_checked with (m := m) (n := n) (g := g); [done..|by apply twin_sym| | | | | |exact Ev].
  - unfold Mod_CherryPick in Hn. by apply outcome_bind_inv in Hn as (? & _ & [= <-]).
  - unfold Mod_CherryPick in Hn. by apply outcome_bind_inv in Hn as (? & _ & [= <-]).
  - split; [symmetry; apply (sr_paired _ _ _ Hr)|]. intros. symmetry. by apply (sr_tick _ _ _ Hr).
  - rewrite <-(tw_gas _ _ Hw). by apply elem_of_union_l, elem_of_singleton_2.
  - pose proof (accepted_data_known _ _ (ProcessInscribeCommitPreVerify_accepted _ _ _ Ha)) as Hk.
    eapply Forall_impl; [exact Hk|]. intros o Ho f Ef. eapply function_known_mono; [exact Ht|by apply Ho].
Qed.
Lemma ProcessCommitVerify_sizes external id body sizes results g j critical :
  run_outcome (ProcessCommitVerify external id body sizes results) g = Ret (j, critical, None) →
  length (CommitBody.CommitData body) = length sizes.
Proof.
  unfold run_outcome, ProcessCommitVerify, mbind, GoM_bind, get, lift.
  case_match; [|done]. repeat (case_match; [done|]). destruct (tick_amount _ _ g); [|done..].
  case_match eqn:E; [done|]. intros _. by apply negb_false_iff, Nat.eqb_eq in E.
Qed.

(** ** The answer to one commit *)
Record verified g body content results : Prop := {
  ve_pick : ∃ pick h sizes i j critical,
    CherryPick g (CommitBody.Module_ body) pick = Ret h ∧
    ProcessInscribeCommitPreVerify h body = Ret (i, None) ∧
    function_sizes content body = Ret sizes ∧
    run_outcome (ProcessCommitVerify [] "" body sizes results) h = Ret (j, critical, None);
}.
Lemma valid_response body result resp :
  verify_response body result = Ret resp → VerifyResp.Valid resp = true → ∃ j critical, result = (j, critical, None).
Proof.
  unfold verify_response. destruct result as [[j critical] [e|]]; [|by eauto].
  by intros (id & _ & [= <-])%outcome_bind_inv.
Qed.
Lemma settled_parents_walk fuel settled byId p found :
  p = "" ∨ p ∈ settled → unsettled_parents fuel settled byId p found = Some (Ret (inl found)).
Proof.
  intros Hp. assert (bool_decide (p = "") || bool_decide (p ∈ settled) = true) as E
    by (apply orb_true_iff; rewrite !bool_decide_eq_true; tauto).
  by destruct fuel; simpl; rewrite E.
Qed.
Lemma decode_one content body :
  Unmarshal_Commit content = Ret (Some body) →
  decode_commits [b2s content] "" = Ret (CommitBody.Module_ body, [Some body]).
Proof. intros Eb. cbn [decode_commits]. by rewrite s2b_b2s, Eb. Qed.
Lemma VerifyHandler_inv fuel g m results content body resp :
  BRC20ModuleVerifySwapCommitHandler fuel [] (Some g) (VerifyReq.mk [b2s content] results) = Ret resp →
  VerifyResp.Valid resp = true → Unmarshal_Commit content = Ret (Some body) →
  G.ModulesInfoMap g !! CommitBody.Module_ body = Some m →
  CommitBody.Parent body = "" ∨ CommitBody.Parent body ∈ Mod.CommitIdMap m →
  verified g body content (omap id results).
Proof.
  unfold BRC20ModuleVerifySwapCommitHandler. cbn [VerifyReq.CommitsStr VerifyReq.LastResults].
  intros Hr Hv Eb Hm Hp. rewrite (decode_one _ _ Eb) in Hr. cbn in Hr.
  unfold BRC20ModuleVerifySwapCommitService in Hr.
  assert (∀ (o : outcome BRC20ModuleVerifySwapCommitResp) e, or_error o e = Ret resp → o = Ret resp) as Ho by by intros [].
  apply Ho in Hr. clear Ho. apply outcome_bind_inv in Hr as (pick & _ & (h & Hc & Hr)%outcome_bind_inv).
  cbn in Hr. rewrite s2b_b2s in Hr. apply outcome_bind_inv in Hr as (result & Hrun & Hr).
  apply valid_response in Hr as (j & critical & ->); [|done].
  pose proof (CherryPick_copy _ _ _ _ _ Hm Hc) as [(n & Hn & Hnm) _ _].
  split. exists pick, h. revert Hrun. unfold when. simpl. unfold BRC20ModuleVerifySwapCommitContent.
  unfold run_outcome at 1. unfold mbind, GoM_bind, get, lift, mret, GoM_ret.
  case_match; [done|]. destruct (ProcessInscribeCommitPreVerify h body) as [[i [e|]]| |]; [done| |done..].
  rewrite Hnm. rewrite settled_parents_walk; last first.
  { unfold Mod_CherryPick in Hn. by apply outcome_bind_inv in Hn as (? & _ & [= <-]). }
  simpl. unfold catch. destruct (GetEachItemLengthOfCommitJsonData content) as [sizes| |] eqn:Es; [|done..].
  intros Hrun. change (run_outcome (ProcessCommitVerify [] "" body sizes (omap id results)) h = Ret (j, critical, None)) in Hrun.
  exists sizes, i, j, critical. split_and!; try done.
  unfold function_sizes. rewrite Es. simpl. rewrite (ProcessCommitVerify_sizes _ _ _ _ _ _ _ _ Hrun).
  by rewrite Nat.eqb_refl.
Qed.

(** C4: The service keeps its word: in a state the main loop reached below the withdraw
    height, a commit it calls valid, with whatever expected results, is executed when
    the sequencer moves it to its module there, if its parent is settled. *)
Theorem verified_commit_executes past g m fuel results resp dataFrom dataTo isInvalid body :
  loop_run [] module_input_ok past g →
  0 ≤ G.BestHeight g < Conf.ENABLE_SWAP_WITHDRAW_HEIGHT conf →
  BRC20ModuleVerifySwapCommitHandler fuel [] (Some g)
    (VerifyReq.mk [b2s (Data.ContentBody dataFrom)] results) = Ret resp →
  VerifyResp.Valid resp = true →
  Unmarshal_Commit (Data.ContentBody dataFrom) = Ret (Some body) →
  GetModuleFromScript (s2b (Data.PkScript dataTo)) = Some (CommitBody.Module_ body) →
  G.ModulesInfoMap g !! CommitBody.Module_ body = Some m →
  Mod.SequencerPkScript m = Data.PkScript dataFrom →
  CommitBody.Parent body = "" ∨ CommitBody.Parent body ∈ Mod.CommitIdMap m →
  returns (ProcessCommit [] dataFrom dataTo isInvalid) g
    (λ _, commit_settled (CommitBody.Module_ body) (GetInscriptionId dataFrom) (CommitBody.Parent body)).
Proof.
  intros Hrun Hh Hr Hv Eb Eto Hm Eseq Hp.
  pose proof (module_run_sound _ _ _ Hrun) as (L & _ & Hok).
  destruct (VerifyHandler_inv _ _ _ _ _ _ _ Hr Hv Eb Hm Hp) as [(pick & h & sizes & i & j & c & Hc & Ha & Es & Ev)].
  destruct (verified_on_state g _ pick m h body "" (GetInscriptionId dataFrom) sizes _ i j c Hh Hm
    (ms_ok _ _ Hok _ _ Hm) eq_refl Hc Ha Ev) as (Ep & j' & c' & Eg).
  by eapply accepted_commit_executes.
Qed.
End service.
