(* ===== verification/CommitLine.v ===== *)
(** * The commits of a module form one line

    Each executed commit names the one executed before it as its parent, and a parent
    is followed once: whatever goes through the main loop, the records of executed
    commits ([CommitIdMap]) and of followed parents ([CommitIdChainMap]) are those of
    one line of commits. *)
From S2P Require Import Prelude GoStd Decimal Script Utils Json Model History Swap Bip322 CommitJson Indexer CondApprove Ledger Modules Commit PreVerify CherryPick CommitFlow MainLoop Driver ModuleBooks LoopLedger LoopRun.

(** ** Lines *)

(** The two records of a module, and those of all modules. *)
Definition records (m : BRC20ModuleSwapInfo) : gset string * gset string :=
  (Mod.CommitIdMap m, Mod.CommitIdChainMap m).
Definition records_of (g : BRC20ModuleIndexer) (id : string) : option (gset string * gset string) :=
  records <$> G.ModulesInfoMap g !! id.

(** The parents of the commits [ids], oldest first: the first has none. *)
Definition parents (ids : list string) : list string :=
  match ids with [] => [] | _ => "" :: removelast ids end.
(** The records of the line [ids]. *)
Definition line (ids : list string) : gset string * gset string :=
  (list_to_set ids, list_to_set (parents ids)).
Definition linear (r : gset string * gset string) : Prop := ∃ ids, r = line ids.

Lemma parents_snoc ids id : parents (ids ++ [id]) = match ids with [] => [""] | _ => "" :: ids end.
Proof. unfold parents. destruct ids as [|x ids]; [done|]. simpl app. by rewrite app_comm_cons, removelast_last. Qed.
Lemma removelast_spec (ids : list string) p :
  p ∈ ids → p ∉ removelast ids → ids = removelast ids ++ [p].
Proof.
  destruct ids as [|x ids] using rev_ind; [by intros ?%elem_of_nil|].
  rewrite removelast_last, elem_of_app, elem_of_cons, elem_of_nil. intros [|[->|[]]]; [done|by intros].
Qed.
(** A commit that passes the checks on its parent extends the line. *)
Lemma line_extend ids id parent :
  (parent = "" → (list_to_set ids : gset string) = ∅) →
  (parent ≠ "" → parent ∈ (list_to_set ids : gset string) ∧ parent ∉ (list_to_set (parents ids) : gset string)) →
  ({[id]} ∪ (list_to_set ids : gset string), {[parent]} ∪ (list_to_set (parents ids) : gset string)) = line (ids ++ [id]).
Proof.
  intros H1 H2. unfold line. rewrite parents_snoc. f_equal; [rewrite list_to_set_app_L; set_solver|].
  destruct (decide (parent = "")) as [->|Hn].
  - destruct ids; [set_solver|]. specialize (H1 eq_refl). set_solver.
  - destruct (H2 Hn) as [Hi Hp]. destruct ids as [|x ids]; [set_solver|].
    rewrite elem_of_list_to_set in Hi, Hp. unfold parents in *. rewrite not_elem_of_cons in Hp.
    pose proof (removelast_spec (x :: ids) parent Hi (proj2 Hp)) as E. clear Hi Hp H1 H2.
    set (l := removelast (x :: ids)) in *. clearbody l. rewrite E. rewrite !list_to_set_cons, list_to_set_app_L.
    set_solver.
Qed.

(** ** What keeps the records *)
Definition anything {S} (s : S) : Prop := True.
Definition same_records (m m' : BRC20ModuleSwapInfo) : Prop := records m' = records m.
Definition all_records (g g' : BRC20ModuleIndexer) : Prop := ∀ id, records_of g' id = records_of g id.
#[global] Instance same_records_Keep : Keep anything same_records.
Proof. split; [done| |done]. unfold same_records. congruence. Qed.
#[global] Instance all_records_Keep : Keep anything all_records.
Proof. split; [done| |done]. intros g1 g2 g3 H1 H2 id. by rewrite H2, H1. Qed.
Abbreviation recording := (keeping anything same_records).
Abbreviation recorded := (keeping anything all_records).

Lemma on_module_recorded {A} id (f : GoM BRC20ModuleSwapInfo A) : recording f → recorded (on_module id f).
Proof.
  intros Hf g _. apply on_module_holds. intros m Hm.
  assert (∀ m', same_records m m' → all_records g (set_module id m' g)) as Hset.
  { intros m' E i. unfold records_of, set_module. rsimpl. destruct (decide (id = i)) as [<-|].
    - rewrite lookup_insert_eq, Hm. simpl. by rewrite E.
    - by rewrite lookup_insert_ne. }
  eapply holds_mono; [by apply Hf|intros a m' ?|intros m' ?]; by apply Hset.
Qed.
#[export] Hint Resolve on_module_recorded : keeping.
#[export] Hint Extern 5 (recording (modify _)) =>
  apply keeping_modify; intros; repeat case_match; reflexivity : keeping.
#[export] Hint Extern 5 (recorded (modify _)) =>
  apply keeping_modify; intros; intros ?; repeat case_match; reflexivity : keeping.

(** Unfold what is not built in. *)
Ltac head_of f := lazymatch f with ?h _ => head_of h | _ => f end.
Ltac keep_unfold :=
  match goal with |- keeping _ _ ?f => let h := head_of f in unfold h end.
Ltac keep_all := repeat first [progress keeping | progress (cbv zeta)
  | apply on_module_recorded | apply keeping_catch | apply keeping_for_each | apply keeping_when | keep_unfold].

Section modules.
Context `{GoUnicode, MapOrder, Config, BtcAddr, Btcd}.

Lemma mod_store_recording l f : recording (mod_store l f).
Proof. keep_all. Qed.
Lemma mod_update_recording l f : recording (mod_update l f).
Proof. keep_all. Qed.
Lemma get_balance_recording t a : recording (Module_GetUserTokenBalance t a).
Proof. keep_all. Qed.
#[local] Hint Resolve mod_store_recording mod_update_recording get_balance_recording : keeping.
Lemma gas_recording g a amt : recording (ProcessCommitFunctionGasFee g a amt).
Proof. keep_all. Qed.
Lemma commit_function_recording g f : recording (commit_function g f).
Proof. keep_all. Qed.
#[local] Hint Resolve gas_recording commit_function_recording : keeping.
Lemma commit_functions_recording g id gas results external instant idx data sizes :
  recording (commit_functions g id gas results external instant idx data sizes).
Proof.
  revert idx sizes. induction data as [|f data IH]; intros idx [|size sizes]; cbn [commit_functions]; keep_all.
Qed.
#[local] Hint Resolve commit_functions_recording : keeping.

(** ** The handlers *)
Lemma ProcessCommitVerify_recorded external id body sizes results :
  recorded (ProcessCommitVerify external id body sizes results).
Proof. keep_all. Qed.
Lemma match_approves_recorded t b l : recorded (match_approves t b l).
Proof. revert b. induction l as [|x l IH]; intros b; cbn [match_approves]; keep_all. Qed.
Lemma match_transfers_recorded o t d i b l : recorded (match_transfers o t d i b l).
Proof. revert b. induction l as [|x l IH]; intros b; cbn [match_transfers]; keep_all. Qed.
#[local] Hint Resolve match_approves_recorded match_transfers_recorded : keeping.
Lemma by_transfer_modules_recorded t l : recorded (by_transfer_modules t l).
Proof. induction l as [|x l IH]; cbn [by_transfer_modules]; keep_all. Qed.
#[local] Hint Resolve by_transfer_modules_recorded : keeping.
Lemma ProcessConditionalApproveEvents_recorded l : recorded (ProcessConditionalApproveEvents l).
Proof. keep_all. Qed.
Lemma GenerateApproveEventsByTransfer_recorded i t f to a : recorded (GenerateApproveEventsByTransfer i t f to a).
Proof. keep_all. Qed.
#[local] Hint Resolve ProcessConditionalApproveEvents_recorded GenerateApproveEventsByTransfer_recorded : keeping.
Lemma GetUserTokenBalance_recorded t a : recorded (GetUserTokenBalance t a).
Proof. keep_all. Qed.
#[local] Hint Resolve GetUserTokenBalance_recorded : keeping.
Lemma ProcessDeploy_recorded data : recorded (ProcessDeploy data).
Proof. keep_all. Qed.
Lemma ProcessMint_recorded now data : recorded (ProcessMint now data).
Proof. keep_all. Qed.
Lemma ProcessInscribeTransfer_recorded data : recorded (ProcessInscribeTransfer data).
Proof. keep_all. Qed.
Lemma ProcessTransfer_recorded data info inv : recorded (ProcessTransfer data info inv).
Proof. keep_all. Qed.
Lemma ProcessInscribeApprove_recorded data : recorded (ProcessInscribeApprove data).
Proof. keep_all. Qed.
Lemma ProcessApprove_recorded data info inv : recorded (ProcessApprove data info inv).
Proof. keep_all. Qed.
Lemma ProcessInscribeConditionalApprove_recorded data : recorded (ProcessInscribeConditionalApprove data).
Proof. keep_all. Qed.
Lemma ProcessConditionalApprove_recorded data info inv : recorded (ProcessConditionalApprove data info inv).
Proof. keep_all. Qed.
Lemma ProcessInscribeWithdraw_recorded data : recorded (ProcessInscribeWithdraw data).
Proof. keep_all. Qed.
Lemma ProcessWithdraw_recorded data info : recorded (ProcessWithdraw data info).
Proof. keep_all. Qed.
Lemma ProcessInscribeCommit_recorded data : recorded (ProcessInscribeCommit data).
Proof. keep_all. Qed.

(** ** Commits *)
Definition all_linear (g : BRC20ModuleIndexer) : Prop := ∀ id r, records_of g id = Some r → linear r.
Lemma all_records_linear g g' : all_records g g' → all_linear g → all_linear g'.
Proof. intros E Hg id r. rewrite E. apply Hg. Qed.
Lemma recorded_linear {A} (f : Idx A) g : recorded f → all_linear g → holds f g (λ _, all_linear) all_linear.
Proof.
  intros Hf Hg. eapply holds_mono; [by apply Hf|intros a g' E|intros g' E]; exact (all_records_linear _ _ E Hg).
Qed.

(** The checks on the parent of a commit. *)
Definition parent_free (parent : string) (r : gset string * gset string) : Prop :=
  (parent = "" → r.1 = ∅) ∧ (parent ≠ "" → parent ∈ r.1 ∧ parent ∉ r.2).
Lemma ProcessCommitVerify_parent external id body sizes results g :
  holds (ProcessCommitVerify external id body sizes results) g
    (λ r _, r.2 = None → ∃ m, G.ModulesInfoMap g !! CommitBody.Module_ body = Some m ∧
       parent_free (CommitBody.Parent body) (records m)) (λ _, True).
Proof.
  unfold ProcessCommitVerify. apply holds_bind, holds_get.
  destruct (_ !! _) as [m|]; [|by apply holds_ret]. case_match eqn:E1; [by apply holds_ret|].
  case_match eqn:E2; [by apply holds_ret|]. case_match eqn:E3; [by apply holds_ret|].
  assert (parent_free (CommitBody.Parent body) (records m)) as Hp.
  { split; simpl; intros Hn.
    - rewrite bool_decide_eq_true_2 in E1 by done. simpl in E1. by apply negb_false_iff, bool_decide_eq_true_1 in E1.
    - rewrite (bool_decide_eq_false_2 _ Hn) in E2, E3. simpl in E2, E3.
      apply bool_decide_eq_false_1 in E2. by apply negb_false_iff, bool_decide_eq_true_1 in E3. }
  eapply holds_mono; [apply (holds_pure _ g (∃ m', Some m = Some m' ∧
    parent_free (CommitBody.Parent body) (records m')))|done|done]. by exists m.
Qed.

Definition extends (modul inscriptionId parent : string) g g' : Prop :=
  (∃ ids, records_of g modul = Some (line ids)) ∧
  (∀ ids, records_of g modul = Some (line ids) →
     parent = default "" (last ids) ∧ records_of g' modul = Some (line (ids ++ [inscriptionId]))) ∧
  ∀ id, id ≠ modul → records_of g' id = records_of g id.
Lemma parent_last parent ids : parent_free parent (line ids) → parent = default "" (last ids).
Proof.
  intros [H1' H2']. destruct ids as [|x ids _] using rev_ind.
  - destruct (decide (parent = "")) as [|Hn]; [done|]. destruct (H2' Hn) as [Hi _]. set_solver.
  - rewrite last_snoc. simpl. destruct (decide (parent = "")) as [Hn|Hn].
    + specialize (H1' Hn). simpl in H1'. rewrite list_to_set_app_L in H1'. set_solver.
    + destruct (H2' Hn) as [Hi Hp]. simpl in Hi, Hp. rewrite parents_snoc in Hp.
      rewrite elem_of_list_to_set, elem_of_app, list_elem_of_singleton in Hi. destruct Hi as [Hi|]; [|done].
      destruct Hp. rewrite elem_of_list_to_set. destruct ids; [by apply elem_of_nil in Hi|by right].
Qed.
Lemma settle_extends modul id parent g g' m :
  all_linear g → G.ModulesInfoMap g !! modul = Some m → parent_free parent (records m) → all_records g g' →
  holds (settle_commit modul id parent) g' (λ _, extends modul id parent g) (λ _, False).
Proof.
  intros Hg Hm Hp E. unfold settle_commit. apply on_module_holds. intros m' Hm'. apply holds_modify.
  assert (records_of g modul = Some (records m)) as Er by (unfold records_of; by rewrite Hm).
  pose proof (E modul) as Ee. rewrite Er in Ee. unfold records_of in Ee. rewrite Hm' in Ee. injection Ee as E1 E2.
  split_and!; [by destruct (Hg _ _ Er) as [ids El]; exists ids; rewrite Er, El|intros ids El|].
  - rewrite Er in El. injection El as El1 El2. assert (records m = line ids) as El by (unfold records; by rewrite El1, El2).
    rewrite El in Hp. split; [by apply parent_last|].
    unfold records_of, set_module. rsimpl. rewrite lookup_insert_eq. simpl. f_equal.
    unfold records. rsimpl. rewrite E1, E2, El1, El2.
    apply line_extend; [intros Hn; by apply Hp|intros Hn; by apply Hp].
  - intros i Hi. rewrite <-E. unfold records_of, set_module. rsimpl. by rewrite lookup_insert_ne.
Qed.

Lemma linear_extends modul id parent g g' : all_linear g → extends modul id parent g g' → all_linear g'.
Proof.
  intros Hg ((ids & El) & E & Eo) i r. destruct (decide (i = modul)) as [->|Hn].
  - destruct (E ids El) as [_ ->]. intros [= <-]. by eexists.
  - rewrite Eo by done. apply Hg.
Qed.
Lemma extends_records modul id parent g1 g2 g3 g4 :
  all_records g1 g2 → extends modul id parent g2 g3 → all_records g3 g4 → extends modul id parent g1 g4.
Proof.
  intros E1 ((ids & Er) & El & Eo) E2. split_and!; [exists ids; by rewrite <-E1|intros ids' Er'|].
  - rewrite E2. apply El. by rewrite E1.
  - intros i Hi. by rewrite E2, Eo, E1.
Qed.

(** A commit changes the records only when it is executed. *)
Lemma ProcessCommit_records external dataFrom dataTo inv g body :
  all_linear g → Unmarshal_Commit (Data.ContentBody dataFrom) = Ret (Some body) →
  holds (ProcessCommit external dataFrom dataTo inv) g
    (λ _, extends (CommitBody.Module_ body) (GetInscriptionId dataFrom) (CommitBody.Parent body) g)
    (all_records g).
Proof.
  intros Hg Eb. unfold ProcessCommit. rewrite Eb. apply holds_bind, holds_modify.
  set (g1 := field_update _ _ g). assert (all_records g g1) as R1 by done.
  apply holds_bind, holds_lift; [|done]. intros ? [= <-]. case_match; [|by apply holds_throw].
  apply holds_bind, holds_ret. case_match; [by apply holds_throw|]. apply holds_bind, holds_get.
  destruct (G.ModulesInfoMap g1 !! CommitBody.Module_ body) as [m|]; [|by apply holds_throw].
  assert (recorded (set_commit_invalid (CommitBody.Module_ body) (GetInscriptionId dataFrom))) as Hset by keep_all.
  apply holds_bind. eapply holds_mono; [by apply Hset|intros [] g2 R2|intros g2 R2]; [|intros i; by rewrite R2].
  assert (all_records g g2) as Rg by (intros i; by rewrite R2). clear R1 R2.
  case_match; [by apply holds_throw|]. apply holds_bind, holds_lift; [intros sizes _|done].
  apply holds_bind, holds_get. do 3 (apply holds_bind, holds_lift; [intros ? _|done]).
  case_match; [by apply holds_throw|]. apply holds_bind.
  eapply holds_mono; [exact (holds_and _ _ _ _ _ _ (ProcessCommitVerify_recorded _ _ _ _ _ g2 I)
    (ProcessCommitVerify_parent _ _ _ _ _ g2))|intros r g3 [R3 Hp]|intros g3 [R3 _]]; [|intros i; by rewrite R3].
  assert (all_records g g3) as Rg3 by (intros i; by rewrite R3).
  case_match; [by apply holds_throw|]. destruct (Hp eq_refl) as (m2 & Hm2 & Hf).
  apply holds_bind. eapply holds_mono;
    [eapply (settle_extends _ _ _ g2 g3 m2); [by eapply all_records_linear|done..]|intros [] g4 He|by intros].
  assert (recorded (unset_commit_invalid (CommitBody.Module_ body) (GetInscriptionId dataFrom) ;;
    on_module (CommitBody.Module_ body) (mod_history (NewBRC20ModuleHistory true BRC20_HISTORY_SWAP_TYPE_N_COMMIT
      dataFrom dataTo NoData true)))) as Hrest by keep_all.
  apply (holds_never_fails _ _ _ _ (λ _, True)).
  - apply never_fails_bind; [|intros []]; apply on_module_never_fails; apply never_fails_modify.
  - eapply holds_mono; [by apply Hrest|intros [] g5 R5|done]. exact (extends_records _ _ _ _ _ _ _ Rg He R5).
Qed.

Lemma ProcessCommit_linear external dataFrom dataTo inv g :
  all_linear g → holds (ProcessCommit external dataFrom dataTo inv) g (λ _, all_linear) all_linear.
Proof.
  intros Hg. destruct (Unmarshal_Commit (Data.ContentBody dataFrom)) as [[body|]|e|w] eqn:Eb.
  - eapply holds_mono; [by eapply ProcessCommit_records|intros [] g' He|intros g' E].
    + exact (linear_extends _ _ _ _ _ Hg He).
    + exact (all_records_linear _ _ E Hg).
  - unfold ProcessCommit. rewrite Eb. apply holds_bind, holds_modify. apply holds_bind, holds_ret.
    case_match; [apply holds_bind, holds_gopanic|by apply holds_throw].
  - unfold ProcessCommit. rewrite Eb. by apply holds_bind, holds_modify.
  - unfold ProcessCommit. rewrite Eb. by apply holds_bind, holds_modify.
Qed.
Lemma ProcessCreateModule_linear data g :
  all_linear g → holds (ProcessCreateModule data) g (λ _, all_linear) all_linear.
Proof.
  intros Hg. unfold ProcessCreateModule. apply holds_bind, holds_lift; [|done]. intros body _.
  case_match; [by apply holds_throw|]. cbv zeta. apply holds_bind, holds_get.
  case_match; [by apply holds_throw|].
  apply holds_bind, holds_lift; [|done]. intros ? _. case_match; [by apply holds_throw|].
  case_match; [|by apply holds_throw].
  apply holds_bind, holds_lift; [|done]. intros ? _. case_match; [by apply holds_throw|].
  do 3 (apply holds_bind, holds_lift; [|done]; intros ? _). apply holds_modify.
  intros i r. unfold records_of. rsimpl. destruct (decide (i = GetInscriptionId data)) as [->|Hn].
  - rewrite lookup_insert_eq. intros [= <-]. by exists [].
  - rewrite lookup_insert_ne by done. apply Hg.
Qed.

(** ** The main loop *)
Lemma logged_linear (f ok : Idx unit) g :
  holds f g (λ _, all_linear) all_linear → recorded ok → holds (logged f ok) g (λ _, all_linear) all_linear.
Proof.
  intros Hf Hok. unfold logged. apply holds_bind, holds_catch.
  eapply holds_mono; [exact Hf|intros [] g' Hg'|intros g' Hg' e]; [by apply recorded_linear|by apply holds_ret].
Qed.
Lemma process_inscription_linear now data g :
  all_linear g → holds (process_inscription now data) g (λ _, all_linear) all_linear.
Proof.
  intros Hg. unfold process_inscription. case_match; [by apply holds_ret|]. case_match; [by apply holds_ret|].
  destruct (Unmarshal_Protocal _) as [body| |]; [|by apply holds_ret|apply holds_gopanic].
  destruct (inscription_handler now body) as [process|] eqn:E; [|by apply holds_ret].
  apply logged_linear; [|keep_all]. revert E. unfold inscription_handler. repeat (case_match; [intros [= <-]|]); [..|done].
  - by eapply recorded_linear; [apply ProcessDeploy_recorded|].
  - by eapply recorded_linear; [apply ProcessMint_recorded|].
  - by eapply recorded_linear; [apply ProcessInscribeTransfer_recorded|].
  - by apply ProcessCreateModule_linear.
  - by eapply recorded_linear; [apply ProcessInscribeWithdraw_recorded|].
  - by eapply recorded_linear; [apply ProcessInscribeApprove_recorded|].
  - by eapply recorded_linear; [apply ProcessInscribeConditionalApprove_recorded|].
  - by eapply recorded_linear; [apply ProcessInscribeCommit_recorded|].
Qed.
Lemma first_move_linear external data g :
  all_linear g → holds (first_move external data) g (λ _, all_linear) all_linear.
Proof.
  intros Hg. unfold first_move. apply holds_bind, holds_get. case_match; [by apply holds_ret|].
  assert (recorded (mret tt : Idx unit)) by keep_all.
  destruct (GetTransferInfoByKey _ g) as [[info|] inv].
  { do 2 apply holds_bind, holds_modify. apply logged_linear; [|done].
    by eapply recorded_linear; [apply ProcessTransfer_recorded|]. }
  destruct (GetApproveInfoByKey _ g) as [[info|] inv'].
  { do 2 apply holds_bind, holds_modify. apply logged_linear; [|done].
    by eapply recorded_linear; [apply ProcessApprove_recorded|]. }
  destruct (GetWithdrawInfoByKey _ g) as [info|].
  { case_match; [|apply holds_gopanic]. do 2 apply holds_bind, holds_modify. apply logged_linear; [|keep_all].
    by eapply recorded_linear; [apply ProcessWithdraw_recorded|]. }
  destruct (GetCommitInfoByKey _ g) as [[info|] inv'']; [|by apply holds_ret].
  do 2 apply holds_bind, holds_modify. apply logged_linear; [|done]. by apply ProcessCommit_linear.
Qed.
Lemma process_data_linear external now data g :
  all_linear g → holds (process_data external now data) g (λ _, all_linear) all_linear.
Proof.
  intros Hg. unfold process_data. apply holds_bind, holds_modify. set (g1 := field_update _ _ g).
  assert (all_linear g1) as Hg1 by done. clearbody g1. clear g Hg.
  case_match; [|by apply process_inscription_linear]. unfold process_move.
  assert (holds (if negb (Data.Sequence data =? 1) then mret tt else first_move external data) g1 (λ _, all_linear) all_linear)
    as Hothers by (case_match; [by apply holds_ret|by apply first_move_linear]).
  cbv zeta. set (others := if negb _ then _ else _) in *.
  destruct (Data.Height data <? _); [|exact Hothers]. apply holds_bind, holds_get.
  destruct (GetConditionalApproveInfoByKey _ g1) as [[info|] inv]; [|exact Hothers].
  apply logged_linear; [|keep_all]. by eapply recorded_linear; [apply ProcessConditionalApprove_recorded|].
Qed.
Lemma loop_linear external items g :
  all_linear g → holds (ProcessUpdateLatestBRC20Loop external items) g (λ _, all_linear) all_linear.
Proof.
  intros Hg. unfold ProcessUpdateLatestBRC20Loop. apply holds_bind, holds_modify, holds_bind.
  eapply holds_post; [apply (holds_for_each _ _ _ all_linear); [done|intros [now d] g'; by apply process_data_linear]|].
  intros [] g' Hg'. by eapply recorded_linear; [keep_all|].
Qed.

Lemma loop_run_linear external ok past g : loop_run external ok past g → all_linear g.
Proof.
  induction 1 as [w|past g items g' _ Hg _ Hb|past g _ Hg]; [| |done].
  - intros i r. unfold records_of. assert (G.ModulesInfoMap (started w) = ∅) as -> by done. by rewrite lookup_empty.
  - exact (holds_run _ _ _ _ (λ _, all_linear) _ (loop_linear external items g Hg) Hb).
Qed.

(** C6: The executed commits of a module form one line: whatever has gone through the
    main loop, the commits recorded as executed are a sequence in which each follows the
    one before it, the parents recorded as followed are all of them but the last, and the
    next commit that is executed names the last as its parent and becomes the last. *)
Theorem commits_linear external ok past g id m :
  loop_run external ok past g → G.ModulesInfoMap g !! id = Some m →
  ∃ ids, (Mod.CommitIdMap m, Mod.CommitIdChainMap m) = line ids ∧
    ∀ dataFrom dataTo isInvalid body g', Unmarshal_Commit (Data.ContentBody dataFrom) = Ret (Some body) →
      CommitBody.Module_ body = id →
      ProcessCommit external dataFrom dataTo isInvalid g = (Ret tt, g') →
      CommitBody.Parent body = default "" (last ids) ∧
      records_of g' id = Some (line (ids ++ [GetInscriptionId dataFrom])).
Proof.
  intros Hg%loop_run_linear Hm.
  assert (records_of g id = Some (records m)) as Er by (unfold records_of; by rewrite Hm).
  destruct (Hg _ _ Er) as [ids El]. exists ids. split; [done|].
  intros dataFrom dataTo isInvalid body g' Eb <- Hrun.
  destruct (holds_run _ _ _ _ _ _ (ProcessCommit_records external dataFrom dataTo isInvalid g body Hg Eb) Hrun)
    as (_ & El' & _).
  apply El'. by rewrite Er, El.
Qed.
End modules.
