(* ===== verification/LoopSamples.v ===== *)
(** * A run of the main loop

    Two tickers are deployed, minted and deposited into a module, approved, and a
    commit makes a pool, adds liquidity and swaps: checks of inputs that evaluate, the
    sample inputs, a second node that handles them otherwise, and the theorems about runs
    applied to them. *)
From S2P Require Import Prelude GoStd GoCrypto Decimal Script Utils Json Model History Swap Bip322 CommitJson Indexer CondApprove Ledger LedgerSpec LedgerFrame LedgerRep LedgerProof Samples LedgerRun Modules Commit PreVerify CherryPick CommitFlow MainLoop PairNames SwapProof ModuleAcc ModuleSteps ModuleProof ModulePools ModuleOps ModuleBooks ModuleHandlers PreVerifyProof CommitBooks LoopSpec LoopFrames LoopLedger LoopRun Consensus LoopModules.

(** ** Checks of inputs that evaluate *)
Section checks.
Context `{Spelling, Config} (sp : string → bool) (sp_spelled : ∀ t, sp t = true → spelled t).
Implicit Types (d : InscriptionBRC20Data).

Definition spelled_functionb (g : BRC20ModuleIndexer) (f : SwapFunctionData) : bool :=
  let ok o := match o with Ret t => sp t | _ => true end in
  let named name := bool_decide (SwapFunction.Function_ f = name) in
  implb (named BRC20_SWAP_FUNCTION_DEPLOY_POOL) (ok (param f 0) && ok (param f 1)) &&
  implb (named BRC20_SWAP_FUNCTION_ADD_LIQ || named BRC20_SWAP_FUNCTION_REMOVE_LIQ ||
         named BRC20_SWAP_FUNCTION_SWAP)
    match function_tokens "" g f with Ret (a, b) => sp a && sp b | _ => true end.

Lemma spelled_functionb_ok g f : spelled_functionb g f = true → spelled_function g f.
Proof.
  unfold spelled_functionb. intros [Hd Ht]%andb_true_iff. split.
  - intros E i t Hp Hi. rewrite (bool_decide_eq_true_2 _ E) in Hd. simpl in Hd.
    apply andb_true_iff in Hd as [H0' H1']. apply sp_spelled.
    destruct i as [|[|i]]; [by rewrite Hp in H0'|by rewrite Hp in H1'|lia].
  - intros Hin msg a b E%(function_tokens_msg _ _ _ ""). rewrite E in Ht.
    assert (bool_decide (SwapFunction.Function_ f = BRC20_SWAP_FUNCTION_ADD_LIQ) ||
      bool_decide (SwapFunction.Function_ f = BRC20_SWAP_FUNCTION_REMOVE_LIQ) ||
      bool_decide (SwapFunction.Function_ f = BRC20_SWAP_FUNCTION_SWAP) = true) as Hn.
    { rewrite !orb_true_iff, !bool_decide_eq_true. rewrite !elem_of_cons, elem_of_nil in Hin. tauto. }
    rewrite Hn in Ht. simpl in Ht. apply andb_true_iff in Ht as [? ?]. split; by apply sp_spelled.
Qed.

Definition spelled_commitb (height : Z) d : bool :=
  match Unmarshal_Commit (Data.ContentBody d) with
  | Ret (Some body) =>
    bool_decide (CommitBody.CommitData body = []) ||
    Bool.eqb (before_withdraw (Data.Height d)) (before_withdraw height) &&
    forallb (λ o, match o with Some f => spelled_functionb (at_height height) f | None => true end)
      (CommitBody.CommitData body)
  | _ => true
  end.
Lemma spelled_commitb_ok h d : spelled_commitb h d = true → spelled_commit h d.
Proof.
  unfold spelled_commitb. intros Hb body E Hne. rewrite E, (bool_decide_eq_false_2 _ Hne) in Hb.
  simpl in Hb. apply andb_true_iff in Hb as [Hw%Bool.eqb_prop Hb]. split; [done|].
  rewrite forallb_forall in Hb. apply Forall_forall. intros o Ho f ->.
  apply list_elem_of_In, Hb in Ho. by apply spelled_functionb_ok.
Qed.

Definition input_okb (past : list (Z * InscriptionBRC20Data)) (i : Z * InscriptionBRC20Data) : bool :=
  let same_key d := negb (Data.IsTransfer d) && bool_decide (Data.CreateIdxKey d = Data.CreateIdxKey i.2) in
  bool_decide (data_ok i.2) &&
  if Data.IsTransfer i.2 then
    forallb (λ p : Z * InscriptionBRC20Data, implb (same_key p.2)
      (bool_decide (GetModuleFromScript (s2b (Data.PkScript p.2)) = None) &&
       spelled_commitb (Data.Height i.2) p.2)) past
  else forallb (λ p : Z * InscriptionBRC20Data, negb (same_key p.2)) past.

Lemma input_okb_ok past i : input_okb past i = true → module_input_ok past i.
Proof.
  unfold input_okb. intros [Hd%bool_decide_eq_true Hp]%andb_true_iff.
  assert (∀ d0, inscribed past d0 → Data.CreateIdxKey d0 = Data.CreateIdxKey i.2 →
    ∃ now, In (now, d0) past ∧ negb (Data.IsTransfer d0) &&
      bool_decide (Data.CreateIdxKey d0 = Data.CreateIdxKey i.2) = true) as Hin.
  { intros d0 (Ht & now & Hin) Ek. exists now. split; [by apply list_elem_of_In|].
    by rewrite Ht, bool_decide_eq_true_2. }
  split; [split; [done|]|].
  - intros Ht d0 Hd0 Ek. rewrite Ht in Hp. rewrite forallb_forall in Hp.
    destruct (Hin d0 Hd0 Ek) as (now & Hi & Es). specialize (Hp _ Hi). simpl in Hp. by rewrite Es in Hp.
  - intros Ht d0 Hd0 Ek. rewrite Ht in Hp. rewrite forallb_forall in Hp.
    destruct (Hin d0 Hd0 Ek) as (now & Hi & Es). specialize (Hp _ Hi). simpl in Hp. rewrite Es in Hp.
    simpl in Hp. apply andb_true_iff in Hp as [H0'%bool_decide_eq_true Hs].
    split; [done|by apply spelled_commitb_ok].
Qed.

Fixpoint inputs_okb (past items : list (Z * InscriptionBRC20Data)) : bool :=
  match items with
  | [] => true
  | i :: items => input_okb past i && inputs_okb (past ++ [i]) items
  end.
Lemma inputs_okb_ok past items : inputs_okb past items = true → items_ok module_input_ok past items.
Proof.
  revert past. induction items as [|i items IH]; intros past Hok done j Hpre; simpl in Hok.
  - apply prefix_nil_inv in Hpre. by destruct done.
  - apply andb_true_iff in Hok as [Hi Hr]. destruct done as [|k done]; simpl in Hpre.
    + apply prefix_cons_inv_1 in Hpre as ->. rewrite app_nil_r. by apply input_okb_ok.
    + pose proof (prefix_cons_inv_1 _ _ _ _ Hpre) as ->. apply prefix_cons_inv_2 in Hpre.
      rewrite cons_middle, app_assoc. by apply IH.
Qed.
End checks.

(** ** The sample *)
#[local] Existing Instance sample_unicode.
#[local] Existing Instance sample_order.
#[local] Existing Instance sample_config.
(** Addresses are scripts, and every signature is accepted. *)
#[local] Instance sample_addresses : BtcAddr :=
  {| Address := string; DecodeAddress := @Ret string; PayToAddrScript := λ s, Ret (s2b s) |}.
#[local] Instance sample_engine : Btcd :=
  {| TxHash := λ _, []; build_script := λ _, Ret []; engine_accepts := λ _ _, true |}.

Definition sample_tickers (t : string) : bool := bool_decide (t = "ordi") || bool_decide (t = "sats").
Lemma sample_tickers_cases t : sample_tickers t = true → t = "ordi" ∨ t = "sats".
Proof. unfold sample_tickers. rewrite orb_true_iff, !bool_decide_eq_true. done. Qed.
Lemma sample_tickers_inj a b :
  sample_tickers a = true → sample_tickers b = true → ToLower a = ToLower b → a = b.
Proof. by intros [-> | ->]%sample_tickers_cases [-> | ->]%sample_tickers_cases. Qed.
Lemma sample_tickers_short a : sample_tickers a = true → short a.
Proof. by intros [-> | ->]%sample_tickers_cases. Qed.
#[local] Instance sample_spelling : Spelling :=
  {| spelled t := sample_tickers t = true;
     spelled_inj := sample_tickers_inj; spelled_short := sample_tickers_short |}.

(** Inscription [n] with the text [s], and the move of [key]. *)
Definition inscribe (n : Z) (a key s : string) : Z * InscriptionBRC20Data :=
  (1700000000, sample_data false n a key [] <| Data.ContentBody := quoted s |>).
Definition move (n : Z) (a key : string) : Z * InscriptionBRC20Data :=
  (1700000000, sample_data true n a key []).

(** The module deployed by transaction 5, and its address. *)
Definition swap_id : string := inscription_id (HashString (s2b (sample_txid 5))) 0.
Definition swap_address : string := b2s (map byte_of_Z [106; 32]) +:+ sample_txid 5.
Definition sample_function (f params : string) : string :=
  "{'addr':'alice','func':'" +:+ f +:+ "','params':" +:+ params +:+ ",'ts':1,'sig':'" +:+
  b2s (replicate 88 "A"%char) +:+ "'}".
Definition sample_commit : string :=
  "{'p':'brc20-swap','op':'commit','module':'" +:+ swap_id +:+ "','data':[" +:+
  sample_function "deployPool" "['ordi','sats']" +:+ "," +:+
  sample_function "addLiq" "['ordi/sats','100','50','70','0.005']" +:+ "," +:+
  sample_function "swap" "['ordi/sats','ordi','10','exactIn','4','0.2']" +:+ "]}".

Definition sample_deposits : list (Z * InscriptionBRC20Data) :=
  [ (1700000000, deploy_ordi); (1700000000, mint_ordi);
    inscribe 4 "alice" "k4" "{'p':'brc-20','op':'deploy','tick':'sats','max':'2100','lim':'1000'}";
    inscribe 6 "alice" "k6" "{'p':'brc-20','op':'mint','tick':'sats','amt':'1000'}";
    inscribe 5 "seq" "k5" ("{'p':'brc20-module','op':'deploy','name':'swap','source':'" +:+
      Conf.MODULE_SWAP_SOURCE_INSCRIPTION_ID conf +:+
      "','init':{'gas_tick':'ordi','sequencer':'seq','gas_to':'seq','fee_to':'fee','swap_fee_rate':'0.003'}}");
    inscribe 7 "alice" "k7" "{'p':'brc-20','op':'transfer','tick':'ordi','amt':'300'}";
    move 8 swap_address "k7";
    inscribe 9 "alice" "k9" "{'p':'brc-20','op':'transfer','tick':'sats','amt':'200'}";
    move 10 swap_address "k9" ].
Definition sample_swaps : list (Z * InscriptionBRC20Data) :=
  [ inscribe 11 "alice" "k11"
      ("{'p':'brc20-swap','op':'approve','module':'" +:+ swap_id +:+ "','tick':'ordi','amt':'150'}");
    move 12 "alice" "k11";
    inscribe 13 "alice" "k13"
      ("{'p':'brc20-swap','op':'approve','module':'" +:+ swap_id +:+ "','tick':'sats','amt':'100'}");
    move 14 "alice" "k13";
    inscribe 15 "seq" "k15" sample_commit;
    move 16 swap_address "k15" ].

Definition sample_deposited : BRC20ModuleIndexer :=
  run_state (ProcessUpdateLatestBRC20Loop [] sample_deposits) Init.
Definition sample_swapped : BRC20ModuleIndexer :=
  run_state (ProcessUpdateLatestBRC20Loop [] sample_swaps) sample_deposited.

Lemma sample_deposits_ok : items_ok module_input_ok [] sample_deposits.
Proof. apply (inputs_okb_ok sample_tickers); [done|by vm_compute]. Qed.
Lemma sample_swaps_ok : items_ok module_input_ok sample_deposits sample_swaps.
Proof. apply (inputs_okb_ok sample_tickers); [done|by vm_compute]. Qed.
Lemma sample_runs :
  run_outcome (ProcessUpdateLatestBRC20Loop [] sample_deposits) Init = Ret tt ∧
  run_outcome (ProcessUpdateLatestBRC20Loop [] sample_swaps) sample_deposited = Ret tt.
Proof. by vm_compute. Qed.

Lemma run_pair {S A} (m : GoM S A) g a : run_outcome m g = Ret a → m g = (Ret a, run_state m g).
Proof. unfold run_outcome, run_state. destruct (m g). simpl. by intros ->. Qed.
Lemma sample_run (ok : input_ok) :
  (∀ past i, module_input_ok past i → ok past i) →
  loop_run [] ok (sample_deposits ++ sample_swaps) sample_swapped.
Proof.
  intros Hok. destruct sample_runs as [E1 E2].
  assert (items_ok ok [] sample_deposits) as H1.
  { intros done i Hpre. exact (Hok _ _ (sample_deposits_ok done i Hpre)). }
  assert (items_ok ok sample_deposits sample_swaps) as H2.
  { intros done i Hpre. exact (Hok _ _ (sample_swaps_ok done i Hpre)). }
  exact (run_batch [] ok sample_deposits sample_deposited sample_swaps sample_swapped
    (run_batch [] ok [] Init sample_deposits sample_deposited (run_init [] ok None) H1 (run_pair _ _ _ E1))
    H2 (run_pair _ _ _ E2)).
Qed.

(** The commit was executed: the pool holds 110 ordi and what is left of 50 sats. *)
Definition sample_module : BRC20ModuleSwapInfo :=
  default (new_module "" (DeploySwapBody.mk "" "" "" "" ∅) mint_ordi "" "" "" "" "")
    (G.ModulesInfoMap sample_swapped !! swap_id).
Definition sample_pool : option (option Decimal * option Decimal) :=
  Pool.TickBalance <$> Mod.SwapPoolTotalBalanceDataMap sample_module !!
    GetLowerInnerPairNameByToken "ordi" "sats".
Example sample_pool_state :
  sample_pool = Some (Some (mkDecimal 18 (110 * 10 ^ 18)), Some (mkDecimal 18 45466945530599254343)).
Proof. by vm_compute. Qed.

Lemma loop_supply_conserved_witness :
  ∃ y, G.InscriptionsTickerInfoMap sample_swapped !! "ordi" = Some y ∧
    held sample_swapped "ordi" = dval (TickInfo.TotalMinted (TokenInfo.Deploy y)).
Proof.
  destruct (G.InscriptionsTickerInfoMap sample_swapped !! "ordi") as [y|] eqn:E; [|by vm_compute in E].
  exists y. split; [done|].
  exact (proj1 (loop_supply_conserved [] _ sample_swapped "ordi" y (sample_run item_ok (λ _ _ Hi, proj1 Hi)) E)).
Defined.

Lemma sample_swaps_items_ok : items_ok item_ok sample_deposits sample_swaps.
Proof. intros done i Hpre. exact (proj1 (sample_swaps_ok done i Hpre)). Qed.
Lemma sample_deposited_run (ok : input_ok) :
  (∀ past i, module_input_ok past i → ok past i) → loop_run [] ok sample_deposits sample_deposited.
Proof.
  intros Hok. assert (items_ok ok [] sample_deposits) as H1.
  { intros done i Hpre. exact (Hok _ _ (sample_deposits_ok done i Hpre)). }
  exact (run_batch [] ok [] Init sample_deposits sample_deposited (run_init [] ok None) H1
    (run_pair _ _ _ (proj1 sample_runs))).
Qed.

(** Alice's entry under [ordi] after the second batch. *)
Lemma loop_index_exact_witness :
  ∃ l, G.UserTokensBalanceData sample_swapped !! "alice" ≫= lookup "ordi" = Some l ∧
    ∃ users, G.TokenUsersBalanceData sample_swapped !! "ordi" = Some users ∧ users !! "alice" = Some l.
Proof.
  assert (match G.UserTokensBalanceData sample_swapped !! "alice" ≫= lookup "ordi" with
    | Some l => from_option (λ b, negb (object_total b =? 0)) false (G.Balances sample_swapped !! l)
    | None => false end = true) as Hsome by by vm_compute.
  destruct (G.UserTokensBalanceData sample_swapped !! "alice" ≫= lookup "ordi") as [l|] eqn:E; [|done].
  destruct (G.Balances sample_swapped !! l) as [b|] eqn:Eb; [|done].
  exists l. split; [done|].
  apply (proj2 (loop_index_exact [] sample_deposits sample_swaps sample_deposited sample_swapped "ordi" "alice" l
    (sample_deposited_run item_ok (λ _ _ Hi, proj1 Hi)) sample_swaps_items_ok
    (run_pair _ _ _ (proj2 sample_runs)))).
  split; [exact E|]. exists b. split; [exact Eb|]. by apply Z.eqb_neq, negb_true_iff.
Defined.

(** What the deposits make of the ledger: alice has minted 1000 of each ticker and has
    paid 300 and 200 of them to the address of the module. *)
Lemma ProcessUpdateLatestBRC20Loop_refines_witness :
  ledger_sound sample_deposits sample_deposited (ledger_after sample_deposits empty_ledger).
Proof.
  assert (items_ok item_ok [] sample_deposits) as Hok.
  { intros done i Hpre. exact (proj1 (sample_deposits_ok done i Hpre)). }
  exact (proj2 (ProcessUpdateLatestBRC20Loop_refines [] [] sample_deposits Init empty_ledger (Ret tt)
    sample_deposited (started_sound None) Hok (run_pair _ _ _ (proj1 sample_runs)) (λ w, ltac:(discriminate)))).
Defined.
Example sample_ledger :
  let L := ledger_after sample_deposits empty_ledger in
  (λ p, ABal.Avail (abal L p.1 p.2)) <$>
    [("ordi", "alice"); ("ordi", swap_address); ("sats", "alice"); ("sats", swap_address)] =
  [700 * 10 ^ 18; 300 * 10 ^ 18; 800 * 10 ^ 18; 200 * 10 ^ 18].
Proof. by vm_compute. Qed.

(** A second node iterates its maps backwards, accepts no signature and decodes no
    address, and handles all inputs in one batch at another time: it rejects the commit,
    and has the same balances. *)
Definition sample_node : Node := Node.mk sample_order sample_addresses sample_engine [].
Definition backwards : MapOrder :=
  {| map_order := @reverse string; map_order_perm := @reverse_Permutation string |}.
Definition no_addresses : BtcAddr :=
  {| Address := unit; DecodeAddress := λ _, Error ""; PayToAddrScript := λ _, Error "" |}.
Definition no_signatures : Btcd := 
  {| TxHash := λ _, []; build_script := λ _, Ret []; engine_accepts := λ _ _, false |}.
Definition other_node : Node := Node.mk backwards no_addresses no_signatures [].
Definition later_inputs : list (Z * InscriptionBRC20Data) :=
  (λ i, (i.1 + 3600, i.2)) <$> sample_deposits ++ sample_swaps.
Definition other_loop (items : list (Z * InscriptionBRC20Data)) : Idx unit :=
  let _ := Node.Order other_node in let _ := Node.Addresses other_node in let _ := Node.Engine other_node in
  ProcessUpdateLatestBRC20Loop [] items.
Definition other_state : BRC20ModuleIndexer := run_state (other_loop later_inputs) Init.

Lemma later_inputs_ok : items_ok item_ok [] later_inputs.
Proof.
  intros done i Hpre. refine (proj1 (inputs_okb_ok sample_tickers _ [] later_inputs _ done i Hpre)); [done|by vm_compute].
Qed.
Lemma other_node_run : node_run other_node later_inputs other_state.
Proof.
  assert (run_outcome (other_loop later_inputs) Init = Ret tt) as E by by vm_compute.
  unfold node_run. simpl.
  exact (@run_batch _ backwards _ no_addresses no_signatures [] item_ok [] Init later_inputs other_state
    (@run_init _ backwards _ no_addresses no_signatures [] item_ok None) later_inputs_ok (run_pair _ _ _ E)).
Qed.
Lemma sample_node_run : node_run sample_node (sample_deposits ++ sample_swaps) sample_swapped.
Proof. exact (sample_run item_ok (λ _ _ Hi, proj1 Hi)). Qed.
Definition commits_executed (g : BRC20ModuleIndexer) : nat :=
  from_option (λ m, size (Mod.CommitIdMap m)) 0%nat (G.ModulesInfoMap g !! swap_id).
Lemma nodes_agree_witness :
  commits_executed sample_swapped = 1%nat ∧ commits_executed other_state = 0%nat ∧
  balance_of sample_swapped "ordi" "alice" = (700 * 10 ^ 18, 0, ∅) ∧
  balance_of sample_swapped "ordi" "alice" = balance_of other_state "ordi" "alice".
Proof.
  split; [by vm_compute|]. split; [by vm_compute|]. split; [by vm_compute|].
  exact (proj2 (nodes_agree sample_node other_node _ later_inputs sample_swapped other_state
    sample_node_run other_node_run ltac:(by vm_compute)) "ordi" "alice").
Defined.

(** The module holds 300 of the ordi at its address. *)
Lemma sample_module_found : G.ModulesInfoMap sample_swapped !! swap_id = Some sample_module.
Proof.
  unfold sample_module. destruct (G.ModulesInfoMap sample_swapped !! swap_id) as [m|] eqn:E; [done|].
  by vm_compute in E.
Qed.
Lemma sample_address : GetModuleFromScript (s2b swap_address) = Some swap_id.
Proof. by vm_compute. Qed.
Lemma modules_solvent_witness :
  module_total sample_module "ordi" = 300 * 10 ^ 18 ∧
  module_total sample_module "ordi" ≤ address_total sample_swapped "ordi" swap_address.
Proof.
  split; [by vm_compute|].
  exact (modules_solvent [] _ sample_swapped swap_id sample_module "ordi" swap_address
    (sample_run module_input_ok (λ _ _ Hi, Hi)) sample_module_found sample_address).
Defined.

Lemma modules_well_formed_witness :
  let pair := GetLowerInnerPairNameByToken "ordi" "sats" in
  0 < lp_supply sample_module pair ∧ lp_held sample_module pair = lp_supply sample_module pair.
Proof.
  split; [by vm_compute|].
  exact (proj2 (modules_well_formed [] _ sample_swapped swap_id sample_module
    (sample_run module_input_ok (λ _ _ Hi, Hi)) sample_module_found) _).
Defined.
