(* ===== verification/Overdraw.v ===== *)
(** * A swap balance below zero

    An exact output swap compares the user's balance with the amount in its parameters
    and then takes the price, which the slippage check allows to be a thousand times
    higher: a state of the main loop in which a user owes the module, and the theorems
    about swaps applied to it. *)
From S2P Require Import Prelude GoStd GoCrypto Decimal Script Utils Json Model History Swap Bip322 CommitJson Indexer CondApprove Ledger LedgerSpec LedgerFrame LedgerRep LedgerProof Samples LedgerRun Modules Commit PreVerify CherryPick CommitFlow MainLoop PairNames SwapProof ModuleAcc ModuleSteps ModuleProof ModulePools SwapEffect ModuleOps ModuleBooks ModuleHandlers PreVerifyProof CommitBooks LoopSpec LoopFrames LoopLedger LoopRun LoopModules LoopSamples.

#[local] Existing Instance sample_unicode.
#[local] Existing Instance sample_order.
#[local] Existing Instance sample_config.
#[local] Existing Instance sample_addresses.
#[local] Existing Instance sample_engine.
#[local] Existing Instance sample_spelling.

(** Alice has 190 ordi in the swap and buys 35 sats for at most 190; the price is 369. *)
Definition overdraw_commit : string :=
  "{'p':'brc20-swap','op':'commit','module':'" +:+ swap_id +:+ "','parent':'" +:+
  inscription_id (HashString (s2b (sample_txid 15))) 0 +:+ "','data':[" +:+
  sample_function "swap" "['ordi/sats','sats','35','exactOut','190','0.005']" +:+ "]}".
Definition sample_overdraw : list (Z * InscriptionBRC20Data) :=
  [ inscribe 17 "seq" "k17" overdraw_commit; move 18 swap_address "k17" ].
Definition sample_overdrawn : BRC20ModuleIndexer :=
  run_state (ProcessUpdateLatestBRC20Loop [] sample_overdraw) sample_swapped.
Definition swap_balance (g : BRC20ModuleIndexer) (id t a : string) : option Z :=
  m ← G.ModulesInfoMap g !! id;
  l ← Mod.UsersTokenBalanceDataMap m !! a ≫= lookup t;
  b ← Mod.Balances m !! l;
  Some (dval (MBal.SwapAccountBalance b)).

Lemma sample_overdraw_returns :
  run_outcome (ProcessUpdateLatestBRC20Loop [] sample_overdraw) sample_swapped = Ret tt.
Proof. by vm_compute. Qed.
Lemma sample_overdraw_ok : items_ok module_input_ok (sample_deposits ++ sample_swaps) sample_overdraw.
Proof. apply (inputs_okb_ok sample_tickers); [done|by vm_compute]. Qed.
Lemma sample_overdrawn_run :
  loop_run [] module_input_ok ((sample_deposits ++ sample_swaps) ++ sample_overdraw) sample_overdrawn.
Proof.
  exact (run_batch [] module_input_ok _ sample_swapped sample_overdraw sample_overdrawn
    (sample_run module_input_ok (λ _ _ Hi, Hi)) sample_overdraw_ok (run_pair _ _ _ sample_overdraw_returns)).
Qed.

(** Swap balances can go below zero: the main loop reaches a state in which alice,
    with 190 ordi in the swap, has bought for 369 the 35 sats she would pay 190 for. *)
Example swap_balance_below_zero :
  loop_run [] module_input_ok ((sample_deposits ++ sample_swaps) ++ sample_overdraw) sample_overdrawn ∧
  swap_balance sample_swapped swap_id "ordi" "alice" = Some (190 * 10 ^ 18) ∧
  swap_balance sample_overdrawn swap_id "ordi" "alice" = Some (-178931389102366392836).
Proof. split; [exact sample_overdrawn_run|]. by vm_compute. Qed.

(** ** The swap alone *)
Lemma sample_module_inv : mod_inv sample_module.
Proof.
  destruct (module_run_sound [] _ _ (sample_run module_input_ok (λ _ _ Hi, Hi))) as (L & _ & Hm).
  exact (ms_ok _ _ Hm _ _ sample_module_found).
Qed.
Definition overdraw_swap : SwapFunctionData :=
  SwapFunction.mk "alice" "swap" ["ordi/sats"; "sats"; "35"; "exactOut"; "190"; "0.005"] 1 "" "" "alice".
Definition overdrawn_module : BRC20ModuleSwapInfo :=
  run_state (ProcessCommitFunctionSwap sample_swapped overdraw_swap) sample_module.
Lemma overdraw_swap_returns :
  ProcessCommitFunctionSwap sample_swapped overdraw_swap sample_module = (Ret tt, overdrawn_module).
Proof.
  assert (run_outcome (ProcessCommitFunctionSwap sample_swapped overdraw_swap) sample_module = Ret tt) as E
    by by vm_compute.
  exact (run_pair _ _ _ E).
Qed.

Definition pool_amounts (m : BRC20ModuleSwapInfo) : option (Z * Z) :=
  (λ p, (reserve false p, reserve true p)) <$>
    Mod.SwapPoolTotalBalanceDataMap m !! GetLowerInnerPairNameByToken "ordi" "sats".
Lemma sample_reserves pair pool i :
  Mod.SwapPoolTotalBalanceDataMap sample_module !! pair = Some pool → 0 ≤ reserve i pool.
Proof.
  assert (map_Forall (λ _ p, 0 ≤ reserve false p ∧ 0 ≤ reserve true p)
    (Mod.SwapPoolTotalBalanceDataMap sample_module)) as Hall.
  { apply (bool_decide_unpack _). by vm_compute. }
  intros Hp. destruct i; apply (Hall _ _ Hp).
Qed.
Lemma swap_keeps_product_witness :
  ∃ token0 token1 pool pool', let pair := GetLowerInnerPairNameByToken token0 token1 in
    function_tokens "func: swap poolPair invalid" sample_swapped overdraw_swap = Ret (token0, token1) ∧
    Mod.SwapPoolTotalBalanceDataMap sample_module !! pair = Some pool ∧
    Mod.SwapPoolTotalBalanceDataMap overdrawn_module =
      <[pair := pool']> (Mod.SwapPoolTotalBalanceDataMap sample_module) ∧
    (∀ i, 0 ≤ reserve i pool') ∧
    reserve false pool * reserve true pool ≤ reserve false pool' * reserve true pool'.
Proof.
  refine (swap_keeps_product sample_swapped overdraw_swap sample_module overdrawn_module
    sample_module_inv sample_reserves _ overdraw_swap_returns).
  intros fee E. vm_compute in E. by injection E as <-.
Defined.
