(* ===== verification/Unnamed.v ===== *)
(** * A commit the service calls valid and the chain rejects

    The copy a commit is checked on holds the tickers its expected results name; a
    function of an earlier commit on another ticker runs there with no amount. *)
From S2P Require Import Prelude GoStd GoCrypto Decimal Script Utils Json Model History Swap Bip322 CommitJson Indexer CondApprove Ledger LedgerSpec LedgerFrame LedgerRep LedgerProof Samples LedgerRun Modules Commit PreVerify CherryPick CommitFlow MainLoop Service PairNames SwapProof ModuleAcc ModuleSteps ModuleProof ModulePools ModuleOps ModuleBooks ModuleHandlers PreVerifyProof CommitBooks LoopSpec LoopFrames LoopLedger LoopRun LoopModules LoopSamples.

#[local] Existing Instance sample_unicode.
#[local] Existing Instance sample_order.
#[local] Existing Instance sample_config.
#[local] Existing Instance sample_addresses.
#[local] Existing Instance sample_engine.
#[local] Existing Instance sample_spelling.

(** After the sample run alice has 190 ordi in the swap.  She buys 10 sats, and then
    sends 189 ordi to bob. *)
Definition next_commit (parent functions : string) : string :=
  "{'p':'brc20-swap','op':'commit','module':'" +:+ swap_id +:+ "','parent':'" +:+ parent +:+
  "','data':[" +:+ functions +:+ "]}".
Definition commit_id (n : Z) : string := inscription_id (HashString (s2b (sample_txid n))) 0.
Definition buy_commit : string :=
  next_commit (commit_id 15) (sample_function "swap" "['ordi/sats','sats','10','exactOut','190','0.005']").
Definition send_commit : string :=
  next_commit (commit_id 17) (sample_function "send" "['bob','ordi','189']").
Definition buy_inputs : list (Z * InscriptionBRC20Data) :=
  [ inscribe 17 "seq" "k17" buy_commit; inscribe 19 "seq" "k19" send_commit; move 18 swap_address "k17" ].
Definition unnamed_request : BRC20ModuleVerifySwapCommitReq :=
  VerifyReq.mk [b2s (quoted buy_commit); b2s (quoted send_commit)]
    [Some (CheckState.mk [UserResult.mk "bob" "ordi" "189"] [] "" 0)].
Definition named_request : BRC20ModuleVerifySwapCommitReq :=
  VerifyReq.mk [b2s (quoted buy_commit); b2s (quoted send_commit)]
    [Some (CheckState.mk [UserResult.mk "bob" "ordi" "189"; UserResult.mk "bob" "sats" "0"] [] "" 0)].
Definition sample_bought : BRC20ModuleIndexer :=
  run_state (ProcessUpdateLatestBRC20Loop [] buy_inputs) sample_swapped.
Definition send_from : InscriptionBRC20Data := (inscribe 19 "seq" "k19" send_commit).2.
Definition send_to : InscriptionBRC20Data := (move 20 swap_address "k19").2.
Definition executed (g : BRC20ModuleIndexer) (id : string) : Prop :=
  ∃ m, G.ModulesInfoMap g !! swap_id = Some m ∧ id ∈ Mod.CommitIdMap m.

Lemma buy_inputs_ok : items_ok module_input_ok (sample_deposits ++ sample_swaps) buy_inputs.
Proof. apply (inputs_okb_ok sample_tickers); [done|by vm_compute]. Qed.
Lemma sample_bought_run :
  loop_run [] module_input_ok ((sample_deposits ++ sample_swaps) ++ buy_inputs) sample_bought.
Proof.
  assert (run_outcome (ProcessUpdateLatestBRC20Loop [] buy_inputs) sample_swapped = Ret tt) as Er by by vm_compute.
  exact (run_batch [] module_input_ok _ sample_swapped buy_inputs sample_bought
    (sample_run module_input_ok (λ _ _ Hi, Hi)) buy_inputs_ok (run_pair _ _ _ Er)).
Qed.
Lemma buy_executed : executed sample_bought (commit_id 17).
Proof.
  assert (from_option (λ m, bool_decide (commit_id 17 ∈ Mod.CommitIdMap m)) false
    (G.ModulesInfoMap sample_bought !! swap_id) = true) as E by by vm_compute.
  unfold executed. destruct (G.ModulesInfoMap sample_bought !! swap_id) as [m|]; [|done].
  exists m. by apply bool_decide_eq_true in E.
Qed.

(** With the second ticker named the answer is right. *)
Example named_refused :
  BRC20ModuleVerifySwapCommitHandler 10 [] (Some sample_swapped) named_request =
    Ret (VerifyResp.mk false true 0 "" "send: token balance insufficient").
Proof. by vm_compute. Qed.

(** The service can be wrong about a commit with unsettled parents: in a state of the
    main loop it calls the second of two commits valid whose expected results leave out a
    ticker of the first; the first is executed by the main loop, and the second is then
    rejected, for the first has spent what it needs. *)
Example verify_runs_parents_unnamed :
  loop_run [] module_input_ok (sample_deposits ++ sample_swaps) sample_swapped ∧
  BRC20ModuleVerifySwapCommitHandler 10 [] (Some sample_swapped) unnamed_request =
    Ret (VerifyResp.mk true false 0 "" "ok") ∧
  loop_run [] module_input_ok ((sample_deposits ++ sample_swaps) ++ buy_inputs) sample_bought ∧
  executed sample_bought (commit_id 17) ∧
  run_outcome (ProcessCommit [] send_from send_to false) sample_bought =
    Error "send: token balance insufficient".
Proof.
  split_and!; [exact (sample_run module_input_ok (λ _ _ Hi, Hi))|by vm_compute|exact sample_bought_run|
    exact buy_executed|by vm_compute].
Qed.
