(* ===== verification/DriverSamples.v ===== *)
(** * A chain of sixteen heights

    The sample inscriptions and moves, handled height by height. *)
From S2P Require Import Prelude GoStd GoCrypto Decimal Script Utils Json Model History Swap Bip322 CommitJson Indexer CondApprove Ledger LedgerSpec LedgerFrame LedgerRep LedgerProof Samples LedgerRun Modules Commit PreVerify CherryPick CommitFlow MainLoop Tables Save Load Driver PairNames SwapProof ModuleAcc ModuleSteps ModuleProof ModulePools ModuleOps ModuleBooks ModuleHandlers PreVerifyProof CommitBooks LoopFrames LoopLedger LoopRun DriverRun LoopModules LoopSamples.

#[local] Existing Instance sample_unicode.
#[local] Existing Instance sample_order.
#[local] Existing Instance sample_config.
#[local] Existing Instance sample_addresses.
#[local] Existing Instance sample_engine.
#[local] Existing Instance sample_spelling.

(** ** A database *)
Definition in_range (bits n : Z) : option Z := if (0 <=? n) && (n <? 2 ^ (bits - 1)) then Some n else None.
Lemma in_range_id bits n m : in_range bits n = Some m → m = n.
Proof. unfold in_range. by case_match; intros; simplify_eq. Qed.
Definition sample_numeric (s : string) : option string :=
  match NewDecimalFromString s 18 with
  | Ret d => if Val d <? 10 ^ 40 then Some (numeric_text (Val d)) else None
  | _ => None
  end.
#[program] Definition sample_database : Postgres := {|
  text_column := Some;
  numeric_column := sample_numeric;
  int4_column := in_range 32;
  int8_column := in_range 64;
  int4_of_text s := ParseUint 31 s;
  row_order _ l := rev l;
|}.
Next Obligation. naive_solver. Qed.
Next Obligation.
  intros i f s Hwf. unfold sample_numeric. rewrite NewDecimalFromString_complete by done. cbn [Val].
  case_match; [|done]. by intros [= <-].
Qed.
Next Obligation. apply in_range_id. Qed.
Next Obligation. apply in_range_id. Qed.
Next Obligation.
  intros s n Hd. unfold ParseUint, parse_digits. destruct (s2b s) as [|c l]; [done|].
  rewrite parse_digits_value by done. case_match; [|done]. by intros [= <-].
Qed.
Next Obligation. intros A l. symmetry. apply Permutation_rev. Qed.
#[local] Existing Instance sample_database.

(** ** The run *)

(** One height for each input. *)
Definition numbered (input : list (Z * InscriptionBRC20Data)) : list (Z * InscriptionBRC20Data) :=
  imap (λ n i, (i.1, i.2 <| Data.Height := 800000 + Z.of_nat n |>)) input.
Definition sample_chain_input : list (Z * InscriptionBRC20Data) := numbered (sample_deposits ++ sample_swaps).
Definition fresh_service : Service := Svc.mk empty_db Init.
Definition sample_load (height : Z) : list (Z * InscriptionBRC20Data) := sample_chain_input.
Abbreviation sample_service :=
  (ProcessUpdateLatestBRC20SwapInit [] 1 1700000000 sample_load).
Definition driven : Service := run_state sample_service fresh_service.

Lemma sample_chain_input_ok : items_ok module_input_ok [] sample_chain_input.
Proof. apply (inputs_okb_ok sample_tickers); [done|by vm_compute]. Qed.
Lemma driven_returns : run_outcome sample_service fresh_service = Ret tt.
Proof. by vm_compute. Qed.
Lemma sample_chain_heights : Forall (λ i, Data.Height i.2 ≠ 0) sample_chain_input.
Proof. apply (bool_decide_unpack _). by vm_compute. Qed.

Lemma driven_runs : sample_service fresh_service = (Ret tt, driven).
Proof. exact (run_pair _ _ _ driven_returns). Qed.
Lemma ProcessUpdateLatestBRC20SwapInit_refines_witness :
  loop_run [] module_input_ok sample_chain_input (Svc.Index driven).
Proof.
  exact (ProcessUpdateLatestBRC20SwapInit_refines [] module_input_ok 1 1700000000 sample_load
    fresh_service driven eq_refl (Z.le_0_1) sample_chain_input_ok sample_chain_heights driven_runs).
Defined.

(** The events of the first two heights. *)
Example sample_events :
  let g := run_state (ProcessUpdateLatestBRC20Loop [] (take 2 sample_deposits)) Init in
  UpdateBRC20BlockEventsHash g = Ret
    ["deploy-inscribe;0101010101010101010101010101010101010101010101010101010101010101i0;616c696365;ordi;ordi;21000000;18;1000;%!b(bool=false)";
     "mint-inscribe;0202020202020202020202020202020202020202020202020202020202020202i0;616c696365;ordi;ordi;1000"].
Proof. by vm_compute. Qed.
