(* ===== verification/Restarts.v ===== *)
(** * Restarts

    The ledger of the sample chain after a restart; and two chains of a few heights on
    which a service that is stopped and started again goes wrong. *)
From stdpp Require Import sorting.
From S2P Require Import Prelude GoStd GoCrypto Decimal Script Utils Json Model History Swap Bip322 CommitJson Indexer CondApprove Ledger LedgerSpec LedgerFrame LedgerRep LedgerProof Samples LedgerRun Modules Commit PreVerify CherryPick CommitFlow MainLoop Tables Save Load Driver PairNames SwapProof ModuleAcc ModuleSteps ModuleProof ModulePools ModuleOps ModuleBooks ModuleHandlers PreVerifyProof CommitBooks LoopSpec LoopFrames EarlyErrors Tracking LoopLedger Marking LoopRun DriverRun Recorded Reload Loaded Restart LoopModules LoopSamples DriverSamples.

#[local] Existing Instance sample_unicode.
#[local] Existing Instance sample_order.
#[local] Existing Instance sample_config.
#[local] Existing Instance sample_addresses.
#[local] Existing Instance sample_engine.
#[local] Existing Instance sample_spelling.
#[local] Existing Instance sample_database.

(** ** The sample chain *)
Lemma sample_chain_items : items_ok item_ok [] sample_chain_input.
Proof. intros past i Hpre. by apply sample_chain_input_ok in Hpre as []. Qed.
Lemma sample_chain_plain : Forall plain_item sample_chain_input.
Proof. unfold plain_item. apply (bool_decide_unpack _). by vm_compute. Qed.
Lemma sample_chain_order : in_order sample_chain_input.
Proof. unfold in_order. apply (bool_decide_unpack _). by vm_compute. Qed.
Lemma restart_keeps_ledger_witness :
  let L := ledger_after sample_chain_input empty_ledger in
  R (core (Svc.Index driven)) L ∧
  ∃ g' L', load_ledger (Svc.Tables driven) Init = (Ret tt, g') ∧ reloads L L' ∧ R (core g') L'.
Proof.
  exact (restart_keeps_ledger [] 1 1700000000 sample_load fresh_service driven eq_refl (Z.le_0_1)
    sample_chain_items sample_chain_plain sample_chain_order sample_chain_heights driven_runs).
Defined.

(** ** Stopped and started again *)

(** The input file gives what the chain has from a height on. *)
Definition input_from (chain : list (Z * InscriptionBRC20Data)) (height : Z) : list (Z * InscriptionBRC20Data) :=
  List.filter (λ i : Z * InscriptionBRC20Data, height <=? Data.Height i.2) chain.
(** A start of the service on a chain. *)
Definition serve (chain : list (Z * InscriptionBRC20Data)) (startHeight : Z) : GoM Service unit :=
  ProcessUpdateLatestBRC20SwapInit [] startHeight 1700000000 (input_from chain).

(** Alice's available balance of ordi. *)
Definition alice_has (s : Service) : option Z :=
  l ← at_ (core (Svc.Index s)) "ordi" "alice";
  b ← G.Balances (Svc.Index s) !! l;
  Some (dval (Bal.AvailableBalance b)).

(** ** A transfer that was inscribed before the stop *)
Definition transfer_chain : list (Z * InscriptionBRC20Data) :=
  numbered (map (pair 1700000000) [deploy_ordi; mint_ordi; inscribe_ordi; move_ordi]).
Definition stopped_before_move : Service := run_state (serve (take 3 transfer_chain) 1) fresh_service.

(** A restart can stop the service for good: a chain that is handled to its end when
    the service runs through panics in a service that was stopped after a transfer was
    inscribed and is started again, at the height the transfer is moved.  The record of
    the move is made from the loaded transfer, which has no data, and the event lines of
    the height read it. *)
Example restart_panics_on_move :
  run_outcome (serve transfer_chain 1) fresh_service = Ret tt ∧
  serve (take 3 transfer_chain) 1 fresh_service = (Ret tt, stopped_before_move) ∧
  run_outcome (serve transfer_chain 1) stopped_before_move = Panic nil_deref.
Proof. by vm_compute. Qed.

(** ** A height that is handled twice *)
Definition at_one_height (input : list (Z * InscriptionBRC20Data)) : list (Z * InscriptionBRC20Data) :=
  map (λ i, (i.1, i.2 <| Data.Height := 800000 |>)) input.
Definition mint_chain : list (Z * InscriptionBRC20Data) :=
  at_one_height (map (pair 1700000000) [deploy_ordi; mint_ordi]).
Definition stopped_at_start : Service := run_state (serve mint_chain 800000) fresh_service.
Definition started_again : Service := run_state (serve mint_chain 800000) stopped_at_start.

(** A height can be handled twice: when the service is stopped after the height it
    was started at and started there again, the height is read again, and a mint of 1000
    inscribed once has paid 2000. *)
Example restart_mints_twice :
  serve mint_chain 800000 fresh_service = (Ret tt, stopped_at_start) ∧
  serve mint_chain 800000 stopped_at_start = (Ret tt, started_again) ∧
  alice_has stopped_at_start = Some (1000 * 10 ^ 18) ∧
  alice_has started_again = Some (2000 * 10 ^ 18).
Proof. by vm_compute. Qed.
