(* ===== verification/CopySamples.v ===== *)
(** * A rejected commit

    On the sample state with approved balances, a commit that makes a pool and sends
    more than the user has fails on its copy, and the theorems about copies apply. *)
From S2P Require Import Prelude GoStd GoCrypto Decimal Script Utils Json Model History Swap Bip322 CommitJson Indexer CondApprove Ledger LedgerSpec LedgerFrame LedgerRep LedgerProof Samples LedgerRun Modules Commit PreVerify CherryPick CommitFlow MainLoop PairNames SwapProof ModuleAcc ModuleSteps ModuleProof ModulePools ModuleOps ModuleBooks ModuleHandlers PreVerifyProof Relate CopySim CopyFunctions CopyCommit CommitBooks LoopFrames LoopLedger LoopRun LoopModules CommitLife CommitLine LoopSamples.

#[local] Existing Instance sample_unicode.
#[local] Existing Instance sample_order.
#[local] Existing Instance sample_config.
#[local] Existing Instance sample_addresses.
#[local] Existing Instance sample_engine.
#[local] Existing Instance sample_spelling.

Definition sample_approvals : list (Z * InscriptionBRC20Data) := take 4 sample_swaps.
Definition sample_approved : BRC20ModuleIndexer :=
  run_state (ProcessUpdateLatestBRC20Loop [] sample_approvals) sample_deposited.
Lemma sample_approved_run : loop_run [] module_input_ok (sample_deposits ++ sample_approvals) sample_approved.
Proof.
  assert (items_ok module_input_ok sample_deposits sample_approvals) as Hok.
  { intros done i Hpre. apply (sample_swaps_ok done i). etrans; [exact Hpre|]. by exists (drop 4 sample_swaps). }
  assert (run_outcome (ProcessUpdateLatestBRC20Loop [] sample_approvals) sample_deposited = Ret tt) as Er
    by by vm_compute.
  exact (run_batch [] module_input_ok sample_deposits sample_deposited sample_approvals sample_approved
    (sample_deposited_run module_input_ok (λ _ _ Hi, Hi)) Hok (run_pair _ _ _ Er)).
Qed.
Lemma sample_approved_ok : mods_ok sample_approved.
Proof. destruct (module_run_sound [] _ _ sample_approved_run) as (L & _ & Hm). apply (ms_ok _ _ Hm). Qed.

Definition rejected_commit : string :=
  "{'p':'brc20-swap','op':'commit','module':'" +:+ swap_id +:+ "','data':[" +:+
  sample_function "deployPool" "['ordi','sats']" +:+ "," +:+
  sample_function "send" "['bob','ordi','1000']" +:+ "]}".
Definition rejected_from : InscriptionBRC20Data := (inscribe 15 "seq" "k15" rejected_commit).2.
Definition rejected_to : InscriptionBRC20Data := (move 16 swap_address "k15").2.
Definition rejected_body : InscriptionBRC20ModuleSwapCommitContent :=
  match Unmarshal_Commit (Data.ContentBody rejected_from) with
  | Ret (Some body) => body
  | _ => CommitBody.mk "" "" "" "" "" []
  end.
Lemma rejected_body_ok : Unmarshal_Commit (Data.ContentBody rejected_from) = Ret (Some rejected_body).
Proof.
  unfold rejected_body. destruct (Unmarshal_Commit (Data.ContentBody rejected_from)) as [[b|]| |] eqn:E; [done|..];
    by vm_compute in E.
Qed.
Lemma rejected_accepted : ProcessInscribeCommitPreVerify sample_approved rejected_body = Ret (0, None).
Proof. by vm_compute. Qed.
Lemma sample_height : 0 ≤ G.BestHeight sample_approved < Conf.ENABLE_SWAP_WITHDRAW_HEIGHT conf.
Proof. by vm_compute. Qed.
Lemma rejected_run :
  run_outcome (ProcessCommit [] rejected_from rejected_to false) sample_approved =
    Error "send: token balance insufficient".
Proof. by vm_compute. Qed.

(** The pool is not made and nothing is sent. *)
Lemma ProcessCommit_atomic_witness :
  ∃ g', ProcessCommit [] rejected_from rejected_to false sample_approved =
      (Error "send: token balance insufficient", g') ∧
    (g' = unlisted rejected_from sample_approved ∨
     g' = run_state (set_commit_invalid (CommitBody.Module_ rejected_body) (GetInscriptionId rejected_from))
       (unlisted rejected_from sample_approved)).
Proof.
  pose proof rejected_run as Er. unfold run_outcome in Er.
  destruct (ProcessCommit [] rejected_from rejected_to false sample_approved) as [o g'] eqn:E. simpl in Er.
  rewrite Er in E. exists g'. split; [by rewrite Er|].
  exact (ProcessCommit_atomic sample_approved sample_approved rejected_from rejected_to false rejected_body 0
    _ g' rejected_body_ok rejected_accepted eq_refl sample_height sample_approved_ok E).
Defined.

Lemma is_ret_bind {A B} (o : outcome A) (k : A → outcome B) :
  is_ret (o ≫= k) = true → ∃ a b, o = Ret a ∧ k a = Ret b.
Proof. destruct o as [a| |]; simpl; try done. destruct (k a) as [b| |] eqn:E; try done. by exists a, b. Qed.
Lemma rejected_copy :
  ∃ pick h, cherry_pick_filter sample_approved rejected_body = Ret pick ∧
    CherryPick sample_approved (CommitBody.Module_ rejected_body) pick = Ret h.
Proof. apply is_ret_bind. by vm_compute. Qed.
Lemma commit_copy_faithful_witness :
  ∃ pick h, cherry_pick_filter sample_approved rejected_body = Ret pick ∧
    CherryPick sample_approved (CommitBody.Module_ rejected_body) pick = Ret h ∧
    same_end eq (run_outcome (ProcessCommitVerify [] "id" rejected_body [100; 100] []) h)
      (run_outcome (ProcessCommitVerify [] "id" rejected_body [100; 100] []) sample_approved).
Proof.
  destruct rejected_copy as (pick & h & Ep & Eh). exists pick, h. split; [exact Ep|]. split; [exact Eh|].
  destruct (G.ModulesInfoMap sample_approved !! CommitBody.Module_ rejected_body) as [m|] eqn:Em;
    [|by vm_compute in Em].
  exact (commit_copy_faithful sample_approved sample_approved rejected_body m pick h "id" [100; 100] 0
    rejected_accepted eq_refl sample_height Em (sample_approved_ok _ _ Em) Ep Eh).
Defined.

(** A swap in the new format, on the sample state above the withdraw height: the
    pre-verification accepts it and it runs on the state, but it cannot be moved. *)
Definition late_state : BRC20ModuleIndexer :=
  sample_swapped <| G.BestHeight := Conf.ENABLE_SWAP_WITHDRAW_HEIGHT conf |>.
Definition late_commit : string :=
  "{'p':'brc20-swap','op':'commit','module':'" +:+ swap_id +:+ "','parent':'" +:+
  inscription_id (HashString (s2b (sample_txid 15))) 0 +:+ "','data':[" +:+
  sample_function "swap" "['ordi','sats','ordi','10','exactIn','3','0.2']" +:+ "]}".
Definition late_from : InscriptionBRC20Data := (inscribe 17 "seq" "k17" late_commit).2.
Definition late_body : InscriptionBRC20ModuleSwapCommitContent :=
  match Unmarshal_Commit (Data.ContentBody late_from) with
  | Ret (Some body) => body
  | _ => CommitBody.mk "" "" "" "" "" []
  end.
Example late_body_fine :
  ProcessInscribeCommitPreVerify late_state late_body = Ret (0, None) ∧
  run_outcome (ProcessCommitVerify [] "id" late_body [100] []) late_state = Ret (0, false, None).
Proof. by vm_compute. Qed.
Lemma late_body_ok : Unmarshal_Commit (Data.ContentBody late_from) = Ret (Some late_body).
Proof.
  unfold late_body. destruct (Unmarshal_Commit (Data.ContentBody late_from)) as [[b|]| |] eqn:E; [done|..];
    by vm_compute in E.
Qed.
Definition late_function : SwapFunctionData :=
  match CommitBody.CommitData late_body with
  | Some f :: _ => f
  | _ => SwapFunction.mk "" "" [] 0 "" "" ""
  end.
Lemma commit_lost_after_withdraw_witness :
  ProcessCommit [] late_from rejected_to false late_state ≠ (Ret tt, late_state).
Proof.
  apply (commit_lost_after_withdraw [] late_from rejected_to false late_state late_state late_body late_function
    (tail (CommitBody.CommitData late_body)) "ordi" late_body_ok); try by vm_compute.
  apply (bool_decide_unpack _). by vm_compute.
Defined.

(** The commit of the sample run, executed on the approved balances. *)
Definition executed_from : InscriptionBRC20Data := (inscribe 15 "seq" "k15" sample_commit).2.
Definition executed_to : InscriptionBRC20Data := (move 16 swap_address "k15").2.
Definition executed_body : InscriptionBRC20ModuleSwapCommitContent :=
  match Unmarshal_Commit (Data.ContentBody executed_from) with
  | Ret (Some body) => body
  | _ => CommitBody.mk "" "" "" "" "" []
  end.
Lemma executed_body_ok : Unmarshal_Commit (Data.ContentBody executed_from) = Ret (Some executed_body).
Proof.
  unfold executed_body. destruct (Unmarshal_Commit (Data.ContentBody executed_from)) as [[b|]| |] eqn:E; [done|..];
    by vm_compute in E.
Qed.
Lemma executed_accepted : ProcessInscribeCommitPreVerify sample_approved executed_body = Ret (0, None).
Proof. by vm_compute. Qed.
Lemma executed_commit_ok : commit_ok sample_approved executed_from.
Proof.
  assert (spelled_commitb sample_tickers (G.BestHeight sample_approved) executed_from = true) as Hb by by vm_compute.
  apply (spelled_commitb_ok sample_tickers) in Hb; [|done]. intros body Eb.
  rewrite executed_body_ok in Eb. injection Eb as <-.
  assert (CommitBody.CommitData executed_body ≠ []) as Hne.
  { assert (length (CommitBody.CommitData executed_body) ≠ 0%nat) as Hl by by vm_compute.
    by intros E; rewrite E in Hl. }
  destruct (Hb _ executed_body_ok Hne) as [_ Hs]. clear Hb. rename Hs into Hb.
  pose proof (ProcessInscribeCommitPreVerify_accepted _ _ _ executed_accepted) as Ha.
  unfold functions_ok. rewrite Forall_forall in *. intros o Ho f ->.
  destruct (Ha _ Ho) as (f' & pk & [= <-] & _ & _ & Hf).
  apply (preverify_function_ok sample_approved) in Hf; [exact Hf|].
  apply (spelled_function_paired (at_height (G.BestHeight sample_approved))); [reflexivity|].
  exact (Hb _ Ho f eq_refl).
Qed.
Definition executed_state : BRC20ModuleIndexer :=
  run_state (ProcessCommit [] executed_from executed_to false) sample_approved.
Lemma executed_returns :
  run_outcome (ProcessCommit [] executed_from executed_to false) sample_approved = Ret tt.
Proof. by vm_compute. Qed.
Lemma commit_conserves_witness :
  mod_total executed_state swap_id "ordi" = mod_total sample_approved swap_id "ordi".
Proof.
  destruct (commit_conserves [] executed_from executed_to false sample_approved (Ret tt) executed_state
    sample_approved_ok executed_commit_ok (run_pair _ _ _ executed_returns) (λ w, ltac:(discriminate))) as [_ Hc].
  exact (proj1 (Hc swap_id "ordi" EmptyString)).
Defined.


Definition approved_module : BRC20ModuleSwapInfo :=
  default (new_module "" (DeploySwapBody.mk "" "" "" "" ∅) mint_ordi "" "" "" "" "")
    (G.ModulesInfoMap sample_approved !! swap_id).
Lemma approved_module_found : G.ModulesInfoMap sample_approved !! CommitBody.Module_ executed_body = Some approved_module.
Proof.
  assert (CommitBody.Module_ executed_body = swap_id) as -> by by vm_compute.
  unfold approved_module. destruct (G.ModulesInfoMap sample_approved !! swap_id) as [m|] eqn:E; [done|].
  by vm_compute in E.
Qed.
Definition executed_sizes : list Z :=
  match function_sizes (Data.ContentBody executed_from) executed_body with Ret sizes => sizes | _ => [] end.
Lemma executed_checks :
  function_sizes (Data.ContentBody executed_from) executed_body = Ret executed_sizes ∧
  run_outcome (ProcessCommitVerify [] (GetInscriptionId executed_from) executed_body executed_sizes []) sample_approved =
    Ret (0, false, None).
Proof. split; by vm_compute. Qed.
Lemma ProcessCommit_executes_witness :
  returns (ProcessCommit [] executed_from executed_to false) sample_approved
    (λ _, commit_settled (CommitBody.Module_ executed_body) (GetInscriptionId executed_from)
       (CommitBody.Parent executed_body)).
Proof.
  destruct executed_checks as [Es Ev].
  apply (ProcessCommit_executes _ sample_approved sample_approved executed_from executed_to false executed_body
    approved_module executed_sizes 0 0 false sample_approved_run sample_height executed_body_ok executed_accepted eq_refl);
    [by vm_compute|exact approved_module_found|by vm_compute|exact Es|exact Ev].
Defined.

(** After the sample run one commit is executed, and the next must name it. *)
Lemma commits_linear_witness :
  Mod.CommitIdMap sample_module = {[GetInscriptionId executed_from]} ∧
  ∃ ids, records sample_module = line ids.
Proof.
  split; [by apply (bool_decide_unpack _); vm_compute|].
  destruct (commits_linear [] module_input_ok _ sample_swapped swap_id sample_module
    (sample_run module_input_ok (λ _ _ Hi, Hi)) sample_module_found) as (ids & E & _). by exists ids.
Defined.

Lemma preverify_sendlp_rejected_witness :
  preverify_sendlp (SwapFunction.mk "" "sendLp" ["bob"; "ordi"; "sats"; "1"] 7 "alice" "" "") ≠ Ret tt.
Proof. apply (preverify_sendlp_rejected _ "ordi" "sats"); [done|done|apply (bool_decide_unpack _); by vm_compute..].
Defined.
