(* ===== verification/ServiceSamples.v ===== *)
(** * The service on the sample state

    The commit that is executed on the sample state, checked first with the pool it
    makes as the expected result. *)
From S2P Require Import Prelude GoStd GoCrypto Decimal Script Utils Json Model History Swap Bip322 CommitJson Indexer CondApprove Ledger LedgerSpec LedgerFrame LedgerRep LedgerProof Samples LedgerRun Modules Commit PreVerify CherryPick CommitFlow MainLoop Service PairNames SwapProof ModuleAcc ModuleSteps ModuleProof ModulePools ModuleOps ModuleBooks ModuleHandlers PreVerifyProof Relate CopySim CopyFunctions CopyCommit Checked CommitBooks LoopFrames LoopLedger LoopRun LoopModules CommitLife ServiceProof CommitLine LoopSamples CopySamples.

#[local] Existing Instance sample_unicode.
#[local] Existing Instance sample_order.
#[local] Existing Instance sample_config.
#[local] Existing Instance sample_addresses.
#[local] Existing Instance sample_engine.
#[local] Existing Instance sample_spelling.

Definition expected (ordi sats : string) : option SwapFunctionResultCheckState :=
  Some (CheckState.mk [UserResult.mk "alice" "ordi" ordi; UserResult.mk "alice" "sats" sats] [] "" 0).
Definition sample_request (results : list (option SwapFunctionResultCheckState)) : BRC20ModuleVerifySwapCommitReq :=
  VerifyReq.mk [b2s (Data.ContentBody executed_from)] results.
Definition ask (results : list (option SwapFunctionResultCheckState)) : outcome BRC20ModuleVerifySwapCommitResp :=
  BRC20ModuleVerifySwapCommitHandler 10 [] (Some sample_approved) (sample_request results).
Definition right_results : list (option SwapFunctionResultCheckState) :=
  [expected "300" "200"; expected "200" "150"; expected "190" "154.533054469400745657"].
Definition answered_ok : BRC20ModuleVerifySwapCommitResp := VerifyResp.mk true false 0 "" "ok".

(** The tickers of the commit must be named by the results: without them it is refused. *)
Definition without_sats : list (option SwapFunctionResultCheckState) :=
  replicate 3 (Some (CheckState.mk [UserResult.mk "alice" "ordi" "300"] [] "" 0)).
Example unnamed_ticker_refused :
  ask without_sats = Ret (VerifyResp.mk false true 0 "" "func: deploy tick1 invalid").
Proof. by vm_compute. Qed.
Example wrong_result_refused :
  ask (replicate 3 (expected "300" "200")) =
    Ret (VerifyResp.mk false false 1 "" "result users[0] amount not match").
Proof. by vm_compute. Qed.

Lemma right_results_answer : ask right_results = Ret answered_ok.
Proof. by vm_compute. Qed.
Lemma verified_commit_executes_witness :
  ask right_results = Ret answered_ok ∧
  returns (ProcessCommit [] executed_from executed_to false) sample_approved
    (λ _, commit_settled (CommitBody.Module_ executed_body) (GetInscriptionId executed_from)
       (CommitBody.Parent executed_body)).
Proof.
  split; [exact right_results_answer|].
  apply (verified_commit_executes _ sample_approved approved_module 10 right_results answered_ok executed_from
    executed_to false executed_body sample_approved_run sample_height right_results_answer eq_refl executed_body_ok);
    [by vm_compute|exact approved_module_found|by vm_compute|by left; vm_compute].
Defined.
