(* ===== verification/QuerySamples.v ===== *)
(** * Queries on the sample state *)
From S2P Require Import Prelude GoStd GoCrypto Decimal Script Utils Json Model History Swap Bip322 CommitJson Indexer CondApprove Ledger LedgerSpec LedgerFrame LedgerRep LedgerProof Samples LedgerRun Modules Commit PreVerify CherryPick CommitFlow MainLoop PairNames SwapProof ModuleAcc ModuleSteps ModuleProof ModulePools ModuleOps ModuleBooks ModuleHandlers PreVerifyProof CommitBooks LoopFrames LoopLedger LoopRun LoopModules LoopSamples Query Holders.
From stdpp Require Import sorting.
#[local] Open Scope Z_scope.

#[local] Existing Instance sample_unicode.
#[local] Existing Instance sample_order.
#[local] Existing Instance sample_config.
#[local] Existing Instance sample_addresses.
#[local] Existing Instance sample_engine.
#[local] Existing Instance sample_spelling.

(** Every script shorter than a module's is an address. *)
#[local] Instance sample_scripts : BtcScripts :=
  {| ExtractPkScriptAddrs l := if (length l <? 10)%nat then Some (false, [b2s l]) else None |}.

Abbreviation sample_index := (Some sample_swapped).

(** The address of the module has no address: it is listed by its script. *)
Example sample_holders :
  match GetBRC20TickerHolders sample_index "ordi" 0 10 with
  | Ret (total, infos) => (total, (λ i, (HoldersInfo.Address i, HoldersInfo.OverallBalance i)) <$> infos)
  | _ => (0, [])
  end = (2, [("alice", "700"); (b2s (hex_encode (s2b swap_address)), "300")]).
Proof. by vm_compute. Qed.
Example sample_pages :
  (match GetBRC20TickerHolders sample_index "ordi" 1 10 with
   | Ret (total, infos) => (total, HoldersInfo.OverallBalance <$> infos) | _ => (0, []) end,
   GetBRC20TickerHolders sample_index "ordi" 2 10, GetBRC20TickerHolders None "ordi" 0 10) =
  ((2, ["300"]), Ret (2, []), Error "brc20 not ready").
Proof. by vm_compute. Qed.
Example sample_list :
  GetBRC20List sample_index 0 0 = Ret (2, ["ordi"; "sats"]) ∧ GetBRC20List sample_index 1 1 = Ret (2, ["sats"]).
Proof. by vm_compute. Qed.
Example sample_history :
  match GetBRC20TickerHistoryByAddress sample_index [] "alice" "" "ordi" 0 3 with
  | Ret (total, infos) =>
    (total, (λ i, (HistoryInfo.Type_ i, HistoryInfo.Amount i, HistoryInfo.AvailableBalance i)) <$> infos)
  | _ => (0, [])
  end = (4, [("send", "300", "700"); ("inscribe-transfer", "300", "1000"); ("inscribe-mint", "1000", "1000")]).
Proof. by vm_compute. Qed.
Example sample_module_balance :
  match GetBRC20ModuleTickerInfoByAddress sample_index "alice" swap_id "ordi" with
  | Ret r => (ModuleAddressStatus.ModuleAccountBalance r, ModuleAddressStatus.SwapAccountBalance r)
  | _ => ("", "")
  end = ("0", "190").
Proof. by vm_compute. Qed.

(** The record of a transfer inscription is made before the amount is locked: until the
    next record the summary of the height tells the old balances. *)
Definition sample_locked : BRC20ModuleIndexer :=
  run_state (ProcessUpdateLatestBRC20Loop [] (take 6 sample_deposits)) Init.
Definition shown_balances (r : outcome (Z * list SummaryInfo.BRC20TokenSummaryInfo)) : list (string * string * string) :=
  match r with
  | Ret (_, infos) =>
    (λ i, (SummaryInfo.Ticker i, SummaryInfo.TransferableBalance i, SummaryInfo.AvailableBalance i)) <$> infos
  | _ => []
  end.
Example summary_by_height_stale :
  shown_balances (GetBRC20SummaryByAddress (Some sample_locked) "alice" 0 10) =
    [("sats", "0", "1000"); ("ordi", "300", "700")] ∧
  shown_balances (GetBRC20SummaryByAddressAndHeight (Some sample_locked) "alice" 800000 0 10) =
    [("sats", "0", "1000"); ("ordi", "0", "1000")].
Proof. by vm_compute. Qed.

Lemma GetBRC20TickerHolders_complete_witness :
  ∃ y hs infos, G.InscriptionsTickerInfoMap sample_swapped !! "ordi" = Some y ∧
    GetBRC20TickerHolders sample_index "ordi" 0 1 = Ret (2, take 1 infos) ∧
    mapM holder_info hs = Ret infos ∧ StronglySorted in_order hs ∧
    ztotal object_total hs = dval (TickInfo.TotalMinted (TokenInfo.Deploy y)).
Proof.
  destruct (G.InscriptionsTickerInfoMap sample_swapped !! "ordi") as [y|] eqn:E; [|by vm_compute in E].
  destruct (GetBRC20TickerHolders_complete [] _ sample_swapped "ordi" y (sample_run item_ok (λ _ _ Hi, proj1 Hi)) E)
    as (hs & infos & Ei & Hall & Hs & _ & _ & Ht).
  exists y, hs, infos. split_and!; [done| |done..].
  assert (is_ret (GetBRC20TickerHolders sample_index "ordi" 0 1) = true ∧
    ∀ n l, GetBRC20TickerHolders sample_index "ordi" 0 1 = Ret (n, l) → n = 2) as [_ Hn]
    by by vm_compute; split; [done|intros n l [= <- _]].
  pose proof (Hall _ 0 1 ltac:(lia)) as Ha. rewrite Ha. specialize (Hn _ _ Ha). by rewrite Hn.
Defined.
